(* ===== verification/_CoqProject ===== *)
-Q . S2P
Prelude.v
GoStrings.v
GoText.v
GoCrypto.v
Sig.v
GoFloat.v
Json.v
GoMux.v
Webhook.v
Utf8.v
JsonText.v
Rpc.v
Backoff.v
GoTime.v
Threads.v
Adapter.v
Events.v
Deadline.v
Reconcile.v
ReconcileSpec.v
ReconcileIds.v
Amqp.v
AmqpSpec.v
Recover.v
Deliver.v
AmqpThreads.v
AmqpRace.v
AmqpCalm.v
Base64.v
JsonDoc.v
JsonCopy.v
FloatText.v
EventWire.v
ReconcileWire.v
Http.v
HttpSpec.v
HandlerContext.v
Listen.v
Contract.v
Lifecycle.v
HttpThreads.v
Surface.v
SurfaceJson.v
SurfaceNumbers.v
SurfaceValues.v
SurfaceHttp.v
Mtls.v
