(* ===== verification/Prelude.v ===== *)
(** * yggdrasil-sdk-go: a verification development

    The SDK is a Go library for adapters: processes that manage resources of a
    provider for a core service. An adapter author builds an [adapter.Adapter],
    registers handlers by operation name (directly, or through reconcilers),
    and runs it on one or more transports. The parts and how they interact:

    - package [adapter]: [Run] subscribes every handler to a transport queue;
      [wrap] turns the author's handler into one that replies, acks and nacks;
    - package [rpc]: the contract between the adapter and its transports;
    - packages [rpc/amqp] and [rpc/http]: the two transports;
    - package [sdk/reconcile]: reconcilers ([Observe], [Ensure], [Destroy]) bound
      to operation names on an adapter; successful mutations are announced on
    - package [sdk/events]: the emitter that posts events with retries;
    - packages [sig/hmac] and [webhookhttp]: inbound webhooks, verified by a
      signature and routed to handlers;
    - package [surface]: declarative user interfaces, validated and served;
    - package [mtls]: client certificates.

    ** Files

    The Go language and its standard library, as far as the SDK uses them (all
    executable): GoStrings (strings), GoText (UTF-8, [%q], [%d], [ParseInt],
    64-bit integers), GoFloat (finite [float64]: decoding of decimal literals
    and [%g]), GoCrypto (hex, SHA-256, HMAC), Json (the reader and writer of
    [encoding/json]), Utf8 (what the JSON writer makes of the bytes of a string),
    JsonText (texts that are written and read back), Base64
    ([base64.StdEncoding] and object texts), JsonDoc (whole documents: what is
    printed is read back), JsonCopy (the encoder's copy of a raw value), FloatText
    (floats are number literals of JSON), GoTime (the calendar and the JSON text
    of a [time.Time]), GoMux (paths, and the plain patterns of [http.ServeMux]).

    The program:
    - Rpc models src/rpc/transport.go. A handler is a tree of actions ([prog]):
      effects on the author's state, and [Ack], [Nack], [Reply] on the delivery;
      each transport is an interpreter of such trees, and the [Transport] record
      of Adapter is what [Run] calls of one.
    - Backoff is the doubling, capped delay of the three retry loops.
    - Adapter models src/adapter/adapter.go and the dial of
      src/adapter/transport.go ([New], [Register], [Run], [wrap],
      [errorEnvelope], [dialAMQPWithRetry]).
    - Amqp models src/rpc/amqp/amqp.go. The state [st] holds the transport's
      fields, its mutexes, and the broker behind the client library; the monad
      [Go] has four outcomes: a value, a wait on a mutex that the goroutine
      itself holds, a nil dereference, and a [Request] that waits for a reply.
      AmqpSpec has its theorems, Recover those
      on the two goroutines that run for ever ([watchdogLoop] and
      [runWithReconnect]).
    - Threads is a small theory of goroutines: trees of atomic actions ([code])
      that take and release mutexes and wait in a [select], pools of them ([cfg])
      and their steps, what is inevitable whatever the environment does, freedom of deadlock by a
      lock order, and rely/guarantee reasoning. AmqpThreads writes every
      operation of amqp.go once more as such a tree (it is the definition of
      Amqp when run alone), AmqpRace has the theorems on interleavings, AmqpCalm
      those on a connection that stays up. Deliver
      is [deliverLoop] with its semaphore and one goroutine per delivery, and what
      rebinds of the subscription leave behind.
    - Http models src/rpc/http/http.go: envelopes, the mux, the server handler,
      the client. HttpSpec has its theorems. HttpThreads is [serveHTTP] as the
      goroutines of concurrent requests, over the semaphore, the [closed] flag, the
      bodies that clients send sooner or later, and the handler's state, with its
      theorems.
    - Listen composes the adapter with the two transports: [ListenAMQP] and
      [ListenHTTP] of src/adapter/transport.go as instances of the adapter's
      [Transport] and hooks. Contract is the interface [rpc.Transport] as a class
      with an abstract state and its laws; both transports are instances, and
      [Run] is proved against the class.
    - Lifecycle models the goroutines of [Server.ListenAndServe]
      (src/webhookhttp/server.go) and of [WithSignalHandler]
      (src/adapter/adapter.go) as machines: executable partial functions of an
      action and a state, run in any order ([runs]). The goroutines that handle
      requests move step by step in between.
    - Events models src/sdk/events, Reconcile models src/sdk/reconcile (the
      package-level maps are the record [registry], calls that leave the package
      are recorded in the trace of [world]); ReconcileSpec has the theorems,
      ReconcileIds those on identifiers. EventWire and ReconcileWire say what is on
      the wire: the bodies of events, the responses of reconcilers.
    - Deadline has contexts (when they end, and with which error) and runs the
      emitter of Events by a clock. HandlerContext gives a handler the context that
      each transport makes for it, and follows one request through the transport,
      the adapter, the dispatch, the reconciler and the emitter.
    - Sig models src/sig/hmac and src/webhookhttp/helpers.go, Webhook models
      src/webhookhttp/server.go. The handlers and verifiers of its routes are trees
      of atomic steps ([task]), which [run_task] runs alone.
    - Surface models the types, the validation and the loaders of src/surface,
      SurfaceJson the JSON of a manifest under its struct tags (in SurfaceNumbers,
      that its numbers are JSON; in SurfaceValues, when it does not encode),
      SurfaceHttp the endpoints (handler.go, handler_helpers.go) and their routes
      through [http.ServeMux]. Mtls models src/mtls/mtls.go.

    The models keep the names of the Go code; a method [Request] is [TRequest]
    where the type [Request] has the name. Prelude holds the errors of the SDK
    ([errors.Is], [errors.As] and the texts included), the state monad of
    sequential code and the shared tactics.

    ** What the theorems show

    - Reconcilers (ReconcileSpec): the golden rule, that a successful [Ensure] or
      [Destroy] posts exactly one event with the right type, identifiers and
      observed state and a failed one posts none; no dispatch emits more, and
      [Observe] emits nothing; the response never depends on the event bus; the
      registry refines the list of registrations (later ones win, legacy names
      go through the warning shim); registering again does not repeat effects;
      which identifiers reach the event, and exactly when the ensure and the
      destroy path find the same one (ReconcileIds); every response of a dispatch,
      by canonical and by legacy names, is the JSON document of what the reconciler
      returned (ReconcileWire); the event of a mutation that outlives the context of its
      handler is lost on both transports, although the request succeeds
      (HandlerContext).
    - AMQP (AmqpSpec): every delivery is settled exactly once, whatever the
      handler does; what an adapter's handler does to a delivery on every branch;
      a connection handed out is open, and stale ones are closed; [Close] is
      final; [Request] returns the first reply with its correlation id and closes
      its channel on every path on which it returns; [Consume]
      either registers or releases its channel; a publish on a dropped
      connection waits for a mutex that it holds.
    - AMQP under concurrency (AmqpThreads, AmqpRace, AmqpCalm, Deliver, Recover):
      the trees
      of actions agree with the sequential definitions; for any number of
      goroutines and any interleaving, a live connection is never replaced, a
      dead one is dialed once for all; calls other than [Publish] return, except
      that a [Request] waits for its reply, without a mutex, as long as nothing ends
      the wait; so do calls with [Publish] as long as the connection is up;
      three interleavings that go wrong (the watchdog and [Publish] deadlock,
      [Close] leaks a connection that is being dialed, the [Close] of a
      subscription leaks a consumer that is being bound); deliveries in flight
      are bounded for each stream and each is settled once, the loop drains its
      stream, and with a concurrency of one it is the sequential loop; across
      rebinds the handlers in flight add up; the watchdog and the
      subscriptions recover from outages of any length with doubling delays.
    - HTTP (HttpSpec): a request through client, JSON, base64, mux and adapter
      comes back with the handler's answer and its correlation id; the responses
      of an adapter's handler on every branch; which requests are mistaken for
      bare bodies; registration and [Close]. Texts are any valid UTF-8. With
      concurrent requests (HttpThreads): at most [Concurrency] at once between the
      semaphore and the end of their handler, one final answer for each request,
      all are answered if their bodies come in, and those that wait for bodies can
      keep others waiting; what [Close] stops and what it does not, and agreement
      with the sequential handler.
    - Adapter: [Run] closes what it opened on every path; the dial returns the
      first success and gives up after its budget; when the error envelope is
      JSON and when it is not. Listen: the whole life of an adapter on AMQP (the
      dial, the prefixed queues, the shutdown) and on HTTP (the bind error, the
      paths, the shutdown, the failure of a second run). Contract: [Run] over any
      transport that keeps the contract waits exactly when all subscriptions were
      made, and closes them and no others. The class has what [Run] uses of the
      interface; [Request], [Publish] and [ErrClosed] are not in it, because the
      HTTP transport can be used after [Close], which is a theorem.
    - Webhooks (Sig, Webhook): the verifiers accept exactly the right signatures,
      signing and verifying round trip, the replay window and its overflow; the
      server routes as a table of registrations says, subtrees, redirects and the
      [Allow] header included, runs a handler exactly for bodies within the limit
      that are signed, and maps handler errors to statuses. Lifecycle: while it
      serves, in any interleaving of its handlers, it answers by the routes of the
      moment of the call, and requests that do not overlap one after the other; what
      it returns and why; it returns within 11
      seconds of a cancellation; signals cancel the context and are not lost.
    - Events: which attempts the emitter makes, when it stops, what it returns;
      how long it takes at most, and that it stops with its context (Deadline); the
      body of every post is a JSON object with the nine members of an event, in
      order and of their types (EventWire).
    - Surface: [Validate] accepts exactly the manifests that a declarative
      predicate describes; the action endpoint and its body limit; a manifest that
      was loaded is served as JSON that reads back as it, unless it holds a value that
      JSON lacks, and then what the answer is; which requests reach
      which endpoint, so that the checks for empty identifiers never fire; what is
      answered when a value does not encode.
    - Mtls: which source of a certificate the environment selects.

    ** Parameters

    Code outside the repository is an argument of the definitions: the client
    library amqp091-go is the record [amqp091] (the laws that the theorems on
    connections use are the classes [AmqpLaws] and [ConnLaws]; a concrete broker
    satisfies them in AmqpSpec and AmqpRace); the [http.Client], requests and
    clocks are fields of records or functions over an arbitrary state; the Unicode tables beyond ASCII are
    the class [UnicodeTables]; the YAML decoder, the file system, environment
    variables and the PKCS#12 decoder are arguments of the loaders. Handlers,
    verifiers and reconcilers are the author's code: arbitrary computations.

    ** Bounds and fuel

    Parsing and printing loops take the length of the text as fuel and consume at
    least a byte per step; JSON nesting is bounded by 10000 as in Go. Decimal
    printing has fuel for 64-bit integers, [%g] the binary logarithm of its
    number. In the sequential model the receive loop of the AMQP [Request] examines
    at most [fuel] events; beyond that, as when no event comes, the call has not
    returned ([Parked]), and its theorem gives the fuel that is enough for a given
    stream. As a goroutine it waits and loops without a bound and needs no fuel. The watchdog and the subscription loop of the AMQP
    transport run for ever in Go: their fuel is a number of rounds, and the
    theorems of Recover say how many rounds an outage takes. The theorems on
    goroutines need no fuel: they are about step relations, or about every
    sequence of actions of a machine.

    ** Not modelled

    What sockets and TLS do below [net/http], its read, write and idle timeouts
    and the texts of its transport errors; data races on fields that the code
    reads without a mutex (an access to a field is one action); panics of
    handlers; of a context, anything but when it ends and with which error; time
    zones other than fixed offsets; [http.ServeMux] patterns other than those of a
    surface and plain paths (a method, a host, a wildcard or an escape in a path
    given to the webhook server), and how [net/http] escapes the location of a
    redirect; the endpoints of the HTTP transport are literal paths; types of
    dynamic values of a manifest that neither YAML nor [json.Number] gives; the
    difference between nil and empty byte slices; reconcilers that dispatch
    recursively; the interfaces [Discoverer] and [DriftReporter], which nothing
    calls. The files doc.go hold package comments only. *)
From Stdlib Require Import Ascii ZArith.
From stdpp Require Import prelude gmap strings.

#[global] Arguments String.append !s1 s2 / : simpl nomatch.

(** ** Automation *)

Create HintDb sdk.

(** [simpl_goal] simplifies, splits conjunctions and closes by congruence. *)
Ltac simpl_goal := simplify_eq/=; repeat split; try done; try congruence.

(** Case analysis on the first [match]/[if] scrutinee of the goal. *)
Ltac case_goal :=
  match goal with
  | |- context [match ?x with _ => _ end] =>
      lazymatch x with
      | context [match _ with _ => _ end] => fail
      | _ => destruct x eqn:?
      end
  end.

(** The same on a hypothesis. *)
Ltac case_hyp H :=
  match type of H with
  | context [match ?x with _ => _ end] =>
      lazymatch x with
      | context [match _ with _ => _ end] => fail
      | _ => destruct x eqn:?
      end
  end.

(** All the cases of a hypothesis. *)
Ltac cases_in H := simplify_eq/=; repeat (case_hyp H; simplify_eq/=).

Ltac crush_cases := repeat (case_goal; simplify_eq/=; try done).

(** ** Go errors

    The concrete error values that the repository creates and inspects.
    [Sentinel] is a package-level [errors.New] value (compared by identity, so
    it carries the qualified name of the variable); [Errorf] is any other leaf;
    [Wrapf] is [fmt.Errorf] with one [%w] verb, between the texts [pre] and
    [post]. The last three are the values of [*webhookhttp.TerminalError]: the
    typed nil pointer, a nil [Cause], and a [Cause]. *)
Inductive error : Type :=
| Sentinel (name msg : string)
| Errorf (msg : string)
| Wrapf (pre : string) (w : error) (post : string)
| TerminalNilPtr
| TerminalNoCause
| TerminalErr (cause : error).

(** The error that a server of [net/http] returns once it was shut down. *)
Definition ErrServerClosed : error := Sentinel "http.ErrServerClosed" "http: Server closed".

(** Go's [(T, error)] results whose value is unused on error. *)
Abbreviation result A := (error + A)%type.

(** ** The state monad in which effectful code is written *)

Definition M (W A : Type) : Type := W → A * W.

#[global] Instance M_ret {W} : MRet (M W) := λ A a w, (a, w).
#[global] Instance M_bind {W} : MBind (M W) := λ A B k m w,
  let '(a, w') := m w in k a w'.

(** ** Error values: [Error()], [errors.Is] and [errors.As] *)

(** The text of an error; the last three cases are
    [( *webhookhttp.TerminalError).Error]. *)
Fixpoint error_text (e : error) : string :=
  match e with
  | Sentinel _ msg => msg
  | Errorf msg => msg
  | Wrapf pre w post => pre +:+ error_text w +:+ post
  | TerminalNilPtr => "webhookhttp: terminal error"
  | TerminalNoCause => "webhookhttp: terminal error"
  | TerminalErr cause => error_text cause
  end.

(** [errors.Is(e, target)] for a sentinel [target], given by its name: walks the
    chain of [Unwrap] methods. *)
Fixpoint errors_is (target : string) (e : error) : bool :=
  match e with
  | Sentinel name _ => bool_decide (name = target)
  | Wrapf _ w _ => errors_is target w
  | TerminalErr cause => errors_is target cause
  | _ => false
  end.

(** [errors.As(e, &te)] for [te *webhookhttp.TerminalError]: the first terminal
    error of the chain. *)
Fixpoint errors_as_terminal (e : error) : option error :=
  match e with
  | TerminalNilPtr | TerminalNoCause | TerminalErr _ => Some e
  | Wrapf _ w _ => errors_as_terminal w
  | _ => None
  end.
