(* ===== verification/GoStrings.v ===== *)
(** * Go strings

    A Go [string] and a Go [[]byte] are both sequences of bytes; both are
    modelled by [string], whose characters are the bytes. This file models the
    functions of Go's [strings] package that the SDK calls, with the lemmas the
    components share. *)
From Stdlib Require Import Ascii ZArith.
From stdpp Require Import prelude gmap strings.
From S2P Require Import Prelude.

Local Open Scope Z_scope.

(** ** Bytes *)

Definition code (c : ascii) : Z := Z.of_N (N_of_ascii c).
Definition chr (z : Z) : ascii := ascii_of_N (Z.to_N z).

Definition is_byte (z : Z) : Prop := 0 ≤ z < 256.

Abbreviation to_l := String.list_ascii_of_string.
Abbreviation of_l := String.string_of_list_ascii.

Definition bytes_of (s : string) : list Z := code <$> to_l s.
Definition str_of (l : list Z) : string := of_l (chr <$> l).

(** Go's [len]. *)
Definition len (s : string) : Z := Z.of_nat (String.length s).

(** The double quote, the backslash and the newline, which a literal cannot
    show. *)
Definition dquote : ascii := chr 34.
Definition backslash : ascii := chr 92.
Definition newline : ascii := chr 10.
Definition str1 (c : ascii) : string := String c EmptyString.

(** ** Prefixes and slices *)

(** [strip_prefix p s] is [Some s[len(p):]] when [strings.HasPrefix(s, p)]. *)
Fixpoint strip_prefix (p s : string) : option string :=
  match p, s with
  | EmptyString, _ => Some s
  | String a p', String b s' => if decide (a = b) then strip_prefix p' s' else None
  | String _ _, EmptyString => None
  end.

Definition HasPrefix (s p : string) : bool := bool_decide (is_Some (strip_prefix p s)).

(** [s[:n]]. *)
Fixpoint str_take (n : nat) (s : string) : string :=
  match n, s with
  | S n', String c s' => String c (str_take n' s')
  | _, _ => EmptyString
  end.

(** ** [strings.TrimSpace]

    [unicode.IsSpace] on the UTF-8 encodings of its code points: the ASCII
    blanks, U+0085 and U+00A0 (two bytes), U+1680, U+2000 to U+200A, U+2028,
    U+2029, U+202F, U+205F and U+3000 (three bytes). *)
Definition ws1 (a : ascii) : bool :=
  let c := code a in ((9 <=? c) && (c <=? 13)) || (c =? 32).
Definition ws2 (a b : ascii) : bool :=
  (code a =? 194) && ((code b =? 133) || (code b =? 160)).
Definition ws3 (a b c : ascii) : bool :=
  let '(x, y, z) := (code a, code b, code c) in
  ((x =? 225) && (y =? 154) && (z =? 128))
  || ((x =? 226) && (y =? 128) && (((128 <=? z) && (z <=? 138)) || (z =? 168) || (z =? 169) || (z =? 175)))
  || ((x =? 226) && (y =? 129) && (z =? 159))
  || ((x =? 227) && (y =? 128) && (z =? 128)).

(** Drops the blanks at the front; the three tests read 1, 2 and 3 bytes. *)
Fixpoint trim_front (t1 : ascii → bool) (t2 : ascii → ascii → bool)
    (t3 : ascii → ascii → ascii → bool) (l : list ascii) : list ascii :=
  match l with
  | [] => []
  | a :: l1 =>
      if t1 a then trim_front t1 t2 t3 l1 else
      match l1 with
      | [] => l
      | b :: l2 =>
          if t2 a b then trim_front t1 t2 t3 l2 else
          match l2 with
          | [] => l
          | c :: l3 => if t3 a b c then trim_front t1 t2 t3 l3 else l
          end
      end
  end.

Definition trim_left (l : list ascii) : list ascii := trim_front ws1 ws2 ws3 l.
(** At the back the bytes of a blank are met in the reverse order. *)
Definition trim_right (l : list ascii) : list ascii :=
  reverse (trim_front ws1 (λ b a, ws2 a b) (λ c b a, ws3 a b c) (reverse l)).

Definition TrimSpace (s : string) : string := of_l (trim_right (trim_left (to_l s))).

(** [strings.TrimRight(s, cutset)] for a cutset of one ASCII byte. *)
Definition TrimRight1 (c : ascii) (s : string) : string :=
  of_l (reverse (trim_front (λ a, bool_decide (a = c)) (λ _ _, false) (λ _ _ _, false)
                   (reverse (to_l s)))).

(** ** [strings.ToLower]

    ASCII strings are mapped byte by byte. A string with a byte of 128 or more
    goes through Go's Unicode case tables, which are a parameter. *)
Class UnicodeTables := {
  (** [strings.ToLower] on a string that is not all ASCII. *)
  unicode_lower : string → string;
  (** [strconv.IsPrint] on a rune of 128 or more. *)
  unicode_is_print : Z → bool;
}.

(** Tables that only know ASCII, for evaluating definitions on examples. *)
Definition ascii_tables : UnicodeTables :=
  {| unicode_lower := λ s, s; unicode_is_print := λ _, false |}.

Definition lower_byte (a : ascii) : ascii :=
  if (65 <=? code a) && (code a <=? 90) then chr (code a + 32) else a.
Definition is_ascii_byte (a : ascii) : bool := code a <? 128.
Definition ToLower `{UnicodeTables} (s : string) : string :=
  if forallb is_ascii_byte (to_l s) then of_l (lower_byte <$> to_l s)
  else unicode_lower s.

(** ** [strings.Split], [strings.SplitN] and [strings.ReplaceAll] *)

(** [strings.Split(s, sep)] for a separator of one byte: never empty. *)
Fixpoint Split1 (sep : ascii) (s : string) : list string :=
  match s with
  | EmptyString => [EmptyString]
  | String a s' =>
      if decide (a = sep) then EmptyString :: Split1 sep s'
      else match Split1 sep s' with
           | [] => [str1 a]
           | p :: ps => String a p :: ps
           end
  end.

(** [strings.SplitN(s, sep, 2)]: [None] when the separator does not occur (the
    result then has length 1), [Some (k, v)] when it does. *)
Fixpoint SplitN2 (sep : ascii) (s : string) : option (string * string) :=
  match s with
  | EmptyString => None
  | String a s' =>
      if decide (a = sep) then Some (EmptyString, s')
      else '(k, v) ← SplitN2 sep s'; Some (String a k, v)
  end.

(** [strings.ReplaceAll(s, old, new)] for an [old] of one byte. *)
Fixpoint ReplaceAll1 (old : ascii) (new s : string) : string :=
  match s with
  | EmptyString => EmptyString
  | String a s' => (if decide (a = old) then new else str1 a) +:+ ReplaceAll1 old new s'
  end.

(** [strings.Join] and the like: the texts between separators. *)
Fixpoint Join (sep : string) (l : list string) : string :=
  match l with
  | [] => EmptyString
  | [x] => x
  | x :: l' => x +:+ sep +:+ Join sep l'
  end.

(** ** Lemmas on bytes *)

Lemma code_range c : 0 ≤ code c < 256.
Proof. unfold code. pose proof (N_ascii_bounded c). lia. Qed.

Lemma chr_code c : chr (code c) = c.
Proof. unfold chr, code. rewrite N2Z.id. apply ascii_N_embedding. Qed.

Lemma code_chr z : is_byte z → code (chr z) = z.
Proof. unfold is_byte, chr, code. intros Hz. rewrite N_ascii_embedding; lia. Qed.

Lemma code_inj a b : code a = code b → a = b.
Proof. intros H. rewrite <- (chr_code a), <- (chr_code b). by rewrite H. Qed.

Lemma of_to_l s : of_l (to_l s) = s.
Proof. apply String.string_of_list_ascii_of_string. Qed.

Lemma to_of_l l : to_l (of_l l) = l.
Proof. apply String.list_ascii_of_string_of_list_ascii. Qed.

Lemma to_l_inj s t : to_l s = to_l t → s = t.
Proof. intros H. rewrite <- (of_to_l s), <- (of_to_l t). by rewrite H. Qed.

Lemma to_l_app s t : to_l (s +:+ t) = to_l s ++ to_l t.
Proof. induction s as [|a s IH]; simpl; [done|]. by rewrite IH. Qed.

Lemma app_empty_r s : s +:+ EmptyString = s.
Proof. induction s as [|a s IH]; simpl; [done|]. by rewrite IH. Qed.

Lemma str_app_assoc s t u : (s +:+ t) +:+ u = s +:+ (t +:+ u).
Proof. induction s as [|a s IH]; simpl; [done|]. by rewrite IH. Qed.

Lemma length_to_l s : length (to_l s) = String.length s.
Proof. induction s as [|a s IH]; simpl; [done|]. by rewrite IH. Qed.

Lemma str_length_app s t :
  String.length (s +:+ t) = (String.length s + String.length t)%nat.
Proof. by rewrite <- !length_to_l, to_l_app, length_app. Qed.

Lemma len_app s t : len (s +:+ t) = len s + len t.
Proof. unfold len. rewrite str_length_app. lia. Qed.

Lemma str_length_of_l l : String.length (of_l l) = length l.
Proof. by rewrite <- length_to_l, to_of_l. Qed.

Lemma str_of_bytes_of s : str_of (bytes_of s) = s.
Proof.
  unfold str_of, bytes_of. rewrite <- list_fmap_compose.
  rewrite (list_fmap_ext _ id), list_fmap_id; [apply of_to_l|].
  intros i c _. apply chr_code.
Qed.

Lemma bytes_of_str_of l : Forall is_byte l → bytes_of (str_of l) = l.
Proof.
  unfold str_of, bytes_of. rewrite to_of_l.
  induction 1 as [|z l Hz _ IH]; csimpl; [done|]. by rewrite code_chr, IH.
Qed.

Lemma bytes_of_range s : Forall is_byte (bytes_of s).
Proof. unfold bytes_of. apply Forall_fmap, Forall_true. intros c. apply code_range. Qed.

Lemma length_bytes_of s : length (bytes_of s) = String.length s.
Proof. unfold bytes_of. by rewrite length_fmap, length_to_l. Qed.

(** ** Lemmas on prefixes and splits *)

Lemma strip_prefix_Some p s r : strip_prefix p s = Some r ↔ s = p +:+ r.
Proof.
  revert s. induction p as [|a p IH]; intros s; simpl; [naive_solver|].
  destruct s as [|b s]; [naive_solver|].
  case_decide; subst; [rewrite IH|]; naive_solver.
Qed.

Lemma strip_prefix_app p r : strip_prefix p (p +:+ r) = Some r.
Proof. by apply strip_prefix_Some. Qed.

Lemma HasPrefix_true s p : HasPrefix s p = true ↔ ∃ r, s = p +:+ r.
Proof.
  unfold HasPrefix. rewrite bool_decide_eq_true. unfold is_Some.
  by setoid_rewrite strip_prefix_Some.
Qed.

Lemma Split1_ne sep s : Split1 sep s ≠ [].
Proof. destruct s as [|a s]; simpl; [done|]. case_decide; [done|]. by case_goal. Qed.

(** Joining the parts with the separator gives the string back. *)
Lemma Split1_join sep s : Join (str1 sep) (Split1 sep s) = s.
Proof.
  induction s as [|a s IH]; simpl; [done|].
  pose proof (Split1_ne sep s) as Hne. case_decide as Heq; subst.
  - destruct (Split1 sep s) eqn:E; [done|]. simpl in *. by rewrite IH.
  - destruct (Split1 sep s) as [|p [|q ps]] eqn:E; [done|..]; simpl in *; by rewrite IH.
Qed.

Lemma Split1_app sep s t :
  sep ∉ to_l s → Split1 sep (s +:+ String sep t) = s :: Split1 sep t.
Proof.
  induction s as [|a s IH]; simpl; intros Hs.
  - by rewrite decide_True.
  - rewrite decide_False by set_solver. rewrite IH by set_solver. done.
Qed.

Lemma Split1_none sep s : sep ∉ to_l s → Split1 sep s = [s].
Proof.
  induction s as [|a s IH]; simpl; intros Hs; [done|].
  rewrite decide_False by set_solver. by rewrite IH by set_solver.
Qed.

Lemma SplitN2_Some sep s k v :
  SplitN2 sep s = Some (k, v) ↔ s = k +:+ String sep v ∧ sep ∉ to_l k.
Proof.
  revert k. induction s as [|a s IH]; intros k; simpl.
  - split; [done|]. intros [H _]. by destruct k.
  - case_decide as Heq; subst.
    + split; [intros [= <- <-]; simpl; set_solver|].
      intros [H Hk]. destruct k as [|b k]; simpl in *; simplify_eq; set_solver.
    + split.
      * intros (p & Hp & H)%bind_Some. destruct p as [k' v']. simplify_eq/=.
        apply IH in Hp as [-> Hk]. set_solver.
      * intros [H Hk]. destruct k as [|b k]; simplify_eq/=.
        rewrite (proj2 (IH k)) by set_solver. done.
Qed.

(** ** Lemmas on trimming and case *)

(** Printable, non-blank ASCII. *)
Definition graphic (a : ascii) : Prop := 33 ≤ code a ≤ 126.

Lemma graphic_ws a : graphic a → ws1 a = false.
Proof. unfold graphic, ws1. cbv zeta. lia. Qed.
Lemma graphic_ws2 a b : graphic a → ws2 a b = false.
Proof. unfold graphic, ws2. lia. Qed.
Lemma graphic_ws2' a b : graphic b → ws2 a b = false.
Proof. unfold graphic, ws2. lia. Qed.
Lemma graphic_ws3 a b c : graphic a → ws3 a b c = false.
Proof. unfold graphic, ws3. lia. Qed.
Lemma graphic_ws3' a b c : graphic c → ws3 a b c = false.
Proof. unfold graphic, ws3. lia. Qed.

Lemma trim_left_graphic l a : head l = Some a → graphic a → trim_left l = l.
Proof.
  unfold trim_left. destruct l as [|a' l1]; [done|]. intros [= ->] Ha. simpl.
  rewrite graphic_ws by done. destruct l1 as [|b l2]; [done|].
  rewrite graphic_ws2 by done. destruct l2 as [|c l3]; [done|].
  by rewrite graphic_ws3.
Qed.

Lemma trim_right_graphic l a : last l = Some a → graphic a → trim_right l = l.
Proof.
  unfold trim_right. rewrite <- (reverse_involutive l) at 1.
  rewrite last_reverse. intros Hl Ha. rewrite <- (reverse_involutive l) at 2. f_equal.
  destruct (reverse l) as [|a' l1]; [done|]. injection Hl as ->. simpl.
  rewrite graphic_ws by done. destruct l1 as [|b l2]; [done|].
  rewrite graphic_ws2' by done. destruct l2 as [|c l3]; [done|].
  by rewrite graphic_ws3'.
Qed.

Lemma TrimSpace_graphic s : Forall graphic (to_l s) → TrimSpace s = s.
Proof.
  intros Hs. unfold TrimSpace. destruct (to_l s) as [|a l] eqn:E.
  - rewrite <- (of_to_l s), E. done.
  - rewrite <- (of_to_l s), E. f_equal.
    rewrite (trim_left_graphic _ a) by (by inversion Hs).
    destruct (last (a :: l)) as [b|] eqn:El; [|by apply last_None in El].
    apply (trim_right_graphic _ b); [done|].
    eapply Forall_forall; [exact Hs|]. by apply last_Some_elem_of.
Qed.
