(* ===== verification/GoText.v ===== *)
(** * UTF-8, quoting and numbers in text

    The parts of Go's [unicode/utf8], [strconv] and [fmt] that the SDK uses:
    rune decoding and encoding, [strconv.Quote] (the verb [%q]), 64-bit
    integers, decimal formatting (the verb [%d]) and [strconv.ParseInt]. *)
From Stdlib Require Import Ascii ZArith.
From stdpp Require Import prelude gmap strings.
From S2P Require Import Prelude GoStrings.

Local Open Scope Z_scope.

(** ** UTF-8 *)

Definition RuneError : Z := 65533.

Definition in_range (lo hi : Z) (a : ascii) : bool := (lo <=? code a) && (code a <=? hi).
Definition cont (a : ascii) : bool := in_range 128 191 a.
(** The six low bits of a continuation byte. *)
Definition low6 (a : ascii) : Z := code a mod 64.

(** The accepted range of the second byte, by the first one. *)
Definition second3 (a b : ascii) : bool :=
  if code a =? 224 then in_range 160 191 b
  else if code a =? 237 then in_range 128 159 b else cont b.
Definition second4 (a b : ascii) : bool :=
  if code a =? 240 then in_range 144 191 b
  else if code a =? 244 then in_range 128 143 b else cont b.

(** [utf8.DecodeRune]: the rune, and how many bytes it takes; an invalid
    sequence is [RuneError] of width 1. *)
Definition decode_rune (l : list ascii) : Z * nat :=
  match l with
  | [] => (RuneError, 0%nat)
  | a :: l1 =>
      if code a <? 128 then (code a, 1%nat)
      else if in_range 194 223 a then
        match l1 with
        | b :: _ => if cont b then ((code a - 192) * 64 + low6 b, 2%nat) else (RuneError, 1%nat)
        | _ => (RuneError, 1%nat)
        end
      else if in_range 224 239 a then
        match l1 with
        | b :: c :: _ =>
            if second3 a b && cont c
            then (((code a - 224) * 64 + low6 b) * 64 + low6 c, 3%nat) else (RuneError, 1%nat)
        | _ => (RuneError, 1%nat)
        end
      else if in_range 240 244 a then
        match l1 with
        | b :: c :: d :: _ =>
            if second4 a b && cont c && cont d
            then ((((code a - 240) * 64 + low6 b) * 64 + low6 c) * 64 + low6 d, 4%nat)
            else (RuneError, 1%nat)
        | _ => (RuneError, 1%nat)
        end
      else (RuneError, 1%nat)
  end.

(** [utf8.AppendRune]; surrogates and out-of-range runes become [RuneError]. *)
Definition encode_rune (r : Z) : list ascii :=
  let r := if (r <? 0) || (1114111 <? r) || ((55296 <=? r) && (r <=? 57343)) then RuneError else r in
  if r <? 128 then [chr r]
  else if r <? 2048 then [chr (192 + r / 64); chr (128 + r mod 64)]
  else if r <? 65536 then [chr (224 + r / 4096); chr (128 + r / 64 mod 64); chr (128 + r mod 64)]
  else [chr (240 + r / 262144); chr (128 + r / 4096 mod 64);
        chr (128 + r / 64 mod 64); chr (128 + r mod 64)].

(** ** [strconv.Quote] *)

Definition hex_digit (n : Z) : ascii := chr (if n <? 10 then 48 + n else 87 + n).

(** [n] lower-case hexadecimal digits of [z]. *)
Fixpoint hex_fixed (n : nat) (z : Z) : list ascii :=
  match n with
  | O => []
  | S n' => hex_fixed n' (z / 16) ++ [hex_digit (z mod 16)]
  end.

Definition IsPrint `{UnicodeTables} (r : Z) : bool :=
  if r <? 128 then (32 <=? r) && (r <? 127) else unicode_is_print r.

Definition escape_rune `{UnicodeTables} (r : Z) : list ascii :=
  if (r =? 34) || (r =? 92) then [backslash; chr r]
  else if IsPrint r then encode_rune r
  else if r =? 7 then [backslash; "a"%char]
  else if r =? 8 then [backslash; "b"%char]
  else if r =? 12 then [backslash; "f"%char]
  else if r =? 10 then [backslash; "n"%char]
  else if r =? 13 then [backslash; "r"%char]
  else if r =? 9 then [backslash; "t"%char]
  else if r =? 11 then [backslash; "v"%char]
  else if (r <? 32) || (r =? 127) then [backslash; "x"%char] ++ hex_fixed 2 r
  else if r <? 65536 then [backslash; "u"%char] ++ hex_fixed 4 r
  else [backslash; "U"%char] ++ hex_fixed 8 r.

(** The loop over the runes; [fuel] is the number of bytes left. *)
Fixpoint quote_loop `{UnicodeTables} (fuel : nat) (l : list ascii) : list ascii :=
  match fuel, l with
  | S fuel', a :: l1 =>
      let '(r, w) := decode_rune l in
      if (128 <=? code a) && (w =? 1)%nat && (r =? RuneError)
      then [backslash; "x"%char] ++ hex_fixed 2 (code a) ++ quote_loop fuel' l1
      else escape_rune r ++ quote_loop fuel' (drop w l)
  | _, _ => []
  end.

Definition Quote `{UnicodeTables} (s : string) : string :=
  of_l (dquote :: quote_loop (String.length s) (to_l s) ++ [dquote]).

(** ** 64-bit integers *)

Definition minInt64 : Z := - 2 ^ 63.
Definition maxInt64 : Z := 2 ^ 63 - 1.
Definition wrap64 (z : Z) : Z := (z + 2 ^ 63) mod 2 ^ 64 - 2 ^ 63.
Definition is_int64 (z : Z) : Prop := minInt64 ≤ z ≤ maxInt64.

Lemma wrap64_id z : is_int64 z → wrap64 z = z.
Proof.
  unfold is_int64, minInt64, maxInt64, wrap64. intros H.
  rewrite Z.mod_small; lia.
Qed.

Lemma wrap64_range z : is_int64 (wrap64 z).
Proof.
  unfold is_int64, minInt64, maxInt64, wrap64.
  pose proof (Z.mod_pos_bound (z + 2 ^ 63) (2 ^ 64)). lia.
Qed.

(** ** Decimal formatting *)

Fixpoint dec_loop (fuel : nat) (n : Z) (acc : list ascii) : list ascii :=
  match fuel with
  | O => acc
  | S f =>
      let acc' := chr (48 + n mod 10) :: acc in
      if n / 10 =? 0 then acc' else dec_loop f (n / 10) acc'
  end.

(** The digits of [n >= 0]; a number has at most one more digit than bits. *)
Definition dec_nat (n : Z) : list ascii := dec_loop (S (Z.to_nat (Z.log2 n))) n [].

(** The verb [%d]. *)
Definition dec (z : Z) : string :=
  of_l (if z <? 0 then "-"%char :: dec_nat (- z) else dec_nat z).

(** ** [strconv.ParseInt] with base 10 and 64 bits *)

Inductive num_error := ErrSyntax | ErrRange.

Definition digit_val (a : ascii) : option Z :=
  if in_range 48 57 a then Some (code a - 48) else None.

(** The unbounded value of a digit string. *)
Fixpoint digits_val (l : list ascii) (acc : Z) : option Z :=
  match l with
  | [] => Some acc
  | a :: l' => d ← digit_val a; digits_val l' (acc * 10 + d)
  end.

(** [strconv.ParseUint]: a syntax error anywhere before the value overflows is
    reported as such, otherwise the overflow is. *)
Fixpoint parse_uint_loop (l : list ascii) (acc : Z) : num_error + Z :=
  match l with
  | [] => inr acc
  | a :: l' =>
      match digit_val a with
      | None => inl ErrSyntax
      | Some d => if 2 ^ 64 <=? acc * 10 + d then inl ErrRange else parse_uint_loop l' (acc * 10 + d)
      end
  end.

Definition parse_uint (l : list ascii) : num_error + Z :=
  match l with [] => inl ErrSyntax | _ => parse_uint_loop l 0 end.

Definition ParseInt (s : string) : num_error + Z :=
  let '(neg, l) :=
    match to_l s with
    | a :: l' => if decide (a = "+"%char) then (false, l')
                 else if decide (a = "-"%char) then (true, l') else (false, a :: l')
    | [] => (false, [])
    end in
  match parse_uint l with
  | inl e => inl e
  | inr un =>
      if negb neg && (2 ^ 63 <=? un) then inl ErrRange
      else if neg && (2 ^ 63 <? un) then inl ErrRange
      else inr (if (neg : bool) then - un else un)
  end.

(** [( *strconv.NumError).Error] for [ParseInt]. *)
Definition num_error_text `{UnicodeTables} (s : string) (e : num_error) : string :=
  "strconv.ParseInt: parsing " +:+ Quote s +:+ ": " +:+
  match e with ErrSyntax => "invalid syntax" | ErrRange => "value out of range" end.

(** ** Lemmas on decimal text *)

(** A digit or a minus sign. *)
Definition dec_char (a : ascii) : Prop := 48 ≤ code a ≤ 57 ∨ a = "-"%char.

Lemma digit_val_chr d : 0 ≤ d < 10 → digit_val (chr (48 + d)) = Some d.
Proof.
  intros Hd. unfold digit_val, in_range. rewrite !code_chr by (unfold is_byte; lia).
  rewrite (proj2 (andb_true_iff _ _)) by lia. f_equal. lia.
Qed.

Lemma parse_dec_loop fuel n acc :
  0 ≤ n < 2 ^ Z.of_nat fuel → n < 2 ^ 64 →
  parse_uint_loop (dec_loop fuel n acc) 0 = parse_uint_loop acc n.
Proof.
  revert n acc. induction fuel as [|f IH]; intros n acc Hn Hb; simpl.
  - replace n with 0 by lia. done.
  - pose proof (Z.div_mod n 10 ltac:(lia)) as Hdm.
    pose proof (Z.mod_pos_bound n 10 ltac:(lia)) as Hm.
    case_match eqn:E; cycle 1.
    + rewrite IH; [simpl| |].
      * rewrite digit_val_chr by done. case_match; [lia|]. f_equal. lia.
      * split; [apply Z.div_pos; lia|]. apply Z.div_lt_upper_bound; [lia|].
        rewrite Nat2Z.inj_succ, Z.pow_succ_r in Hn; lia.
      * apply Z.div_lt_upper_bound; lia.
    + simpl. rewrite digit_val_chr by done. case_match; [lia|]. f_equal. lia.
Qed.

Lemma dec_loop_chars fuel n acc :
  Forall dec_char acc → Forall dec_char (dec_loop fuel n acc).
Proof.
  revert n acc. induction fuel as [|f IH]; intros n acc Hacc; simpl; [done|].
  pose proof (Z.mod_pos_bound n 10 ltac:(lia)) as Hm.
  assert (dec_char (chr (48 + n mod 10))) as Hc.
  { left. rewrite code_chr; unfold is_byte; lia. }
  case_match; [|apply IH]; by constructor.
Qed.

Lemma dec_loop_ne fuel n acc : dec_loop (S fuel) n acc ≠ [].
Proof.
  revert n acc. induction fuel as [|f IH]; intros n acc; simpl; case_match; try done.
  apply IH.
Qed.

Lemma dec_nat_first n a l :
  0 ≤ n → dec_nat n = a :: l → a ≠ "+"%char ∧ a ≠ "-"%char.
Proof.
  unfold dec_nat. generalize (Z.to_nat (Z.log2 n)) as f. intros f Hn.
  assert (∀ g m acc, Forall (λ c, 48 ≤ code c ≤ 57) acc →
            Forall (λ c, 48 ≤ code c ≤ 57) (dec_loop g m acc)) as Hd.
  { induction g as [|g IH]; intros m acc Hacc; simpl; [done|].
    pose proof (Z.mod_pos_bound m 10 ltac:(lia)).
    case_match; [|apply IH]; (constructor; [|done]); rewrite code_chr; unfold is_byte; lia. }
  intros E. specialize (Hd (S f) n [] ltac:(constructor)). rewrite E in Hd.
  inversion Hd as [|? ? Hc]; subst. split; intros ->; revert Hc; vm_compute; intuition congruence.
Qed.

Lemma dec_chars z : Forall dec_char (to_l (dec z)).
Proof.
  unfold dec, dec_nat. rewrite to_of_l. case_match.
  - constructor; [by right|]. apply dec_loop_chars. constructor.
  - apply dec_loop_chars. constructor.
Qed.

Lemma dec_graphic z : Forall graphic (to_l (dec z)).
Proof.
  eapply Forall_impl; [apply dec_chars|]. intros c [Hc | ->]; unfold graphic; [lia|].
  vm_compute. intuition congruence.
Qed.

Lemma dec_nonempty z : dec z ≠ EmptyString.
Proof.
  unfold dec, dec_nat. intros H. apply (f_equal to_l) in H. rewrite to_of_l in H.
  case_match; [done|]. by apply dec_loop_ne in H.
Qed.

Lemma parse_uint_dec n : 0 ≤ n < 2 ^ 64 → parse_uint (dec_nat n) = inr n.
Proof.
  intros Hn. unfold parse_uint.
  destruct (dec_nat n) eqn:E; [by apply dec_loop_ne in E|]. rewrite <- E.
  unfold dec_nat. rewrite parse_dec_loop; [done| |lia].
  split; [lia|]. rewrite Nat2Z.inj_succ, Z2Nat.id by apply Z.log2_nonneg.
  destruct (decide (n = 0)) as [->|]; [done|]. apply Z.log2_spec. lia.
Qed.

(** Formatting and then parsing a 64-bit integer gives it back. *)
Lemma ParseInt_dec z : is_int64 z → ParseInt (dec z) = inr z.
Proof.
  unfold is_int64, minInt64, maxInt64. intros Hz. unfold ParseInt, dec. rewrite to_of_l.
  destruct (z <? 0) eqn:Hneg.
  - rewrite decide_False, decide_True by done.
    rewrite parse_uint_dec by lia.
    repeat (case_match; try lia). f_equal. lia.
  - destruct (dec_nat z) as [|a l] eqn:E; [by apply dec_loop_ne in E|].
    destruct (dec_nat_first z a l ltac:(lia) E) as [Hp Hm].
    rewrite !decide_False by done. rewrite <- E, parse_uint_dec by lia.
    repeat (case_match; try lia). done.
Qed.

Lemma digit_val_nonneg a d : digit_val a = Some d → 0 ≤ d < 10.
Proof. unfold digit_val, in_range. case_match eqn:E; [|done]. intros [= <-]. lia. Qed.

Lemma parse_uint_loop_nonneg l acc n :
  0 ≤ acc → parse_uint_loop l acc = inr n → 0 ≤ n.
Proof.
  revert acc. induction l as [|a l IH]; simpl; intros acc Ha H; simplify_eq; [done|].
  destruct (digit_val a) as [d|] eqn:Ed; [|done]. case_hyp H; [done|].
  apply digit_val_nonneg in Ed. eapply IH; [|exact H]. lia.
Qed.

(** [ParseInt] returns 64-bit integers only. *)
Lemma ParseInt_range s z : ParseInt s = inr z → is_int64 z.
Proof.
  unfold ParseInt, is_int64, minInt64, maxInt64, parse_uint. intros H.
  repeat case_hyp H; simplify_eq;
    repeat match goal with
    | E : parse_uint_loop _ _ = inr _ |- _ => apply parse_uint_loop_nonneg in E; [|lia]
    | E : context [true && _] |- _ => rewrite andb_true_l in E
    end; simpl in *; lia.
Qed.
