(* ===== verification/GoCrypto.v ===== *)
(** * Hexadecimal text, SHA-256 and HMAC

    Executable models of the parts of Go's [encoding/hex], [crypto/sha256],
    [crypto/hmac] and [crypto/subtle] that the webhook verifiers call. Digests
    and keys are lists of bytes (integers in [0, 256)). SHA-256 follows FIPS
    180-4 and HMAC follows RFC 2104; both are run on published vectors at the
    end of the file. *)
From Stdlib Require Import Ascii ZArith.
From stdpp Require Import prelude gmap strings.
From S2P Require Import Prelude GoStrings GoText.

Local Open Scope Z_scope.

(** ** [encoding/hex] *)

Definition hex_val (a : ascii) : option Z :=
  if in_range 48 57 a then Some (code a - 48)
  else if in_range 97 102 a then Some (code a - 87)
  else if in_range 65 70 a then Some (code a - 55)
  else None.

Fixpoint hex_decode (l : list ascii) : option (list Z) :=
  match l with
  | [] => Some []
  | [_] => None
  | a :: b :: l' =>
      x ← hex_val a; y ← hex_val b; r ← hex_decode l'; Some (x * 16 + y :: r)
  end.

(** [hex.DecodeString]; [None] is any error. *)
Definition hex_DecodeString (s : string) : option (list Z) := hex_decode (to_l s).

Definition hex_encode (l : list Z) : list ascii :=
  l ≫= λ b, [hex_digit (b / 16); hex_digit (b mod 16)].

(** [hex.EncodeToString]. *)
Definition hex_EncodeToString (l : list Z) : string := of_l (hex_encode l).

(** ** [crypto/subtle.ConstantTimeCompare] *)

(** The accumulated difference over two slices of the same length. *)
Fixpoint ct_diff (x y : list Z) (v : Z) : Z :=
  match x, y with
  | a :: x', b :: y' => ct_diff x' y' (Z.lor v (Z.lxor a b))
  | _, _ => v
  end.

Definition ConstantTimeCompare (x y : list Z) : Z :=
  if (length x =? length y)%nat then (if ct_diff x y 0 =? 0 then 1 else 0) else 0.

(** ** SHA-256 *)

Definition w32 (z : Z) : Z := z mod 2 ^ 32.
Definition rotr (n x : Z) : Z := Z.lor (Z.shiftr x n) (w32 (Z.shiftl x (32 - n))).

Definition Ch (x y z : Z) : Z := Z.lxor (Z.land x y) (Z.land (Z.lxor x (2 ^ 32 - 1)) z).
Definition Maj (x y z : Z) : Z := Z.lxor (Z.land x y) (Z.lxor (Z.land x z) (Z.land y z)).
Definition Sigma0 (x : Z) : Z := Z.lxor (rotr 2 x) (Z.lxor (rotr 13 x) (rotr 22 x)).
Definition Sigma1 (x : Z) : Z := Z.lxor (rotr 6 x) (Z.lxor (rotr 11 x) (rotr 25 x)).
Definition sigma0 (x : Z) : Z := Z.lxor (rotr 7 x) (Z.lxor (rotr 18 x) (Z.shiftr x 3)).
Definition sigma1 (x : Z) : Z := Z.lxor (rotr 17 x) (Z.lxor (rotr 19 x) (Z.shiftr x 10)).

(** The constants of the standard: the first 32 bits of the fractional parts of
    the cube roots of the first 64 primes, and of the square roots of the first
    eight. *)
Definition primes_below (n : Z) : list Z :=
  filter (λ p, Forall (λ d, p mod d ≠ 0) (seqZ 2 (p - 2))) (seqZ 2 (n - 2)).

(** The cube root of [z], rounded down: the bits below [2^k] are settled from
    the top. *)
Fixpoint cube_root (k : nat) (acc z : Z) : Z :=
  match k with
  | O => acc
  | S k' =>
      let c := acc + 2 ^ Z.of_nat k' in
      cube_root k' (if c * c * c <=? z then c else acc) z
  end.

Definition sha_K : list Z := Eval vm_compute in
  (λ p, cube_root 40 0 (p * 2 ^ 96) mod 2 ^ 32) <$> primes_below 312.

Record sha_state := Sha { h0 : Z; h1 : Z; h2 : Z; h3 : Z; h4 : Z; h5 : Z; h6 : Z; h7 : Z }.

Definition sha_init : sha_state := Eval vm_compute in
  match (λ p, Z.sqrt (p * 2 ^ 64) mod 2 ^ 32) <$> primes_below 20 with
  | [a; b; c; d; e; f; g; h] => Sha a b c d e f g h
  | _ => Sha 0 0 0 0 0 0 0 0
  end.

Definition sha_round (s : sha_state) (kw : Z * Z) : sha_state :=
  let t1 := w32 (h7 s + Sigma1 (h4 s) + Ch (h4 s) (h5 s) (h6 s) + kw.1 + kw.2) in
  let t2 := w32 (Sigma0 (h0 s) + Maj (h0 s) (h1 s) (h2 s)) in
  Sha (w32 (t1 + t2)) (h0 s) (h1 s) (h2 s) (w32 (h3 s + t1)) (h4 s) (h5 s) (h6 s).

Definition sha_add (a b : sha_state) : sha_state :=
  Sha (w32 (h0 a + h0 b)) (w32 (h1 a + h1 b)) (w32 (h2 a + h2 b)) (w32 (h3 a + h3 b))
      (w32 (h4 a + h4 b)) (w32 (h5 a + h5 b)) (w32 (h6 a + h6 b)) (w32 (h7 a + h7 b)).

(** The message schedule, most recent word first. *)
Fixpoint sha_extend (n : nat) (ws : list Z) : list Z :=
  match n with
  | O => ws
  | S n' =>
      sha_extend n' (w32 (sigma1 (nth 1 ws 0) + nth 6 ws 0 + sigma0 (nth 14 ws 0) + nth 15 ws 0) :: ws)
  end.

Fixpoint be_words (l : list Z) : list Z :=
  match l with
  | a :: b :: c :: d :: l' => ((a * 256 + b) * 256 + c) * 256 + d :: be_words l'
  | _ => []
  end.

Definition sha_block (s : sha_state) (block : list Z) : sha_state :=
  let ws := reverse (sha_extend 48 (reverse (be_words block))) in
  sha_add s (foldl sha_round s (zip sha_K ws)).

(** Padding: a one bit, zeros up to 56 modulo 64, the length in bits. *)
Definition be64 (z : Z) : list Z :=
  (λ i : Z, z / 2 ^ (8 * i) mod 256) <$> [7; 6; 5; 4; 3; 2; 1; 0].
Definition sha_pad (l : list Z) : list Z :=
  let n := Z.of_nat (length l) in
  l ++ [128] ++ replicate (Z.to_nat ((55 - n) mod 64)) 0 ++ be64 (8 * n).

Fixpoint sha_blocks (fuel : nat) (s : sha_state) (l : list Z) : sha_state :=
  match fuel, l with
  | S f, _ :: _ => sha_blocks f (sha_block s (take 64 l)) (drop 64 l)
  | _, _ => s
  end.

Definition be32 (z : Z) : list Z :=
  (λ i : Z, z / 2 ^ (8 * i) mod 256) <$> [3; 2; 1; 0].

(** [sha256.Sum256]. *)
Definition sha256 (l : list Z) : list Z :=
  let p := sha_pad l in
  let s := sha_blocks (length p) sha_init p in
  [h0 s; h1 s; h2 s; h3 s; h4 s; h5 s; h6 s; h7 s] ≫= be32.

(** ** HMAC *)

(** [hmac.New(sha256.New, key)], [Write(msg)], [Sum(nil)]. *)
Definition hmac_sha256 (key msg : list Z) : list Z :=
  let k := if (64 <? length key)%nat then sha256 key else key in
  let kp := k ++ replicate (64 - length k) 0 in
  sha256 ((Z.lxor 92 <$> kp) ++ sha256 ((Z.lxor 54 <$> kp) ++ msg)).

(** ** Lemmas *)

Lemma hex_val_digit n : 0 ≤ n < 16 → hex_val (hex_digit n) = Some n.
Proof.
  intros Hn. assert (n ∈ [0;1;2;3;4;5;6;7;8;9;10;11;12;13;14;15]) as Hin by (set_unfold; lia).
  set_unfold. naive_solver.
Qed.

Lemma byte_nibbles b : is_byte b → 0 ≤ b / 16 < 16 ∧ 0 ≤ b mod 16 < 16.
Proof.
  unfold is_byte. intros Hb. split; [|apply Z.mod_pos_bound; lia].
  split; [apply Z.div_pos; lia|]. apply Z.div_lt_upper_bound; lia.
Qed.

Lemma hex_decode_encode l : Forall is_byte l → hex_decode (hex_encode l) = Some l.
Proof.
  induction 1 as [|b l Hb _ IH]; [done|].
  cbn [hex_encode mbind list_bind app hex_decode].
  destruct (byte_nibbles b Hb) as [Hd Hm].
  rewrite !hex_val_digit by done. simpl. unfold hex_encode in IH. rewrite IH. simpl.
  do 2 f_equal. pose proof (Z.div_mod b 16). lia.
Qed.

Lemma hex_encode_length l : length (hex_encode l) = (2 * length l)%nat.
Proof. induction l as [|b l IH]; [done|]. cbn. unfold hex_encode in IH. rewrite IH. lia. Qed.

Definition hex_char (a : ascii) : Prop := 48 ≤ code a ≤ 57 ∨ 97 ≤ code a ≤ 102.

Lemma hex_digit_char n : 0 ≤ n < 16 → hex_char (hex_digit n).
Proof.
  intros Hn. unfold hex_char, hex_digit. case_match; rewrite code_chr; unfold is_byte; lia.
Qed.

Lemma hex_encode_chars l : Forall is_byte l → Forall hex_char (hex_encode l).
Proof.
  induction 1 as [|b l Hb _ IH]; [constructor|].
  destruct (byte_nibbles b Hb) as [Hd Hm]. cbn.
  do 2 (constructor; [by apply hex_digit_char|]). exact IH.
Qed.

(** A successful decode halves the length. *)
Lemma hex_decode_length l r : hex_decode l = Some r → length l = (2 * length r)%nat.
Proof.
  revert r. induction l as [l IH] using (induction_ltof1 _ (@length _)).
  unfold ltof in IH. intros r H. destruct l as [|a [|b l]]; simplify_eq/=; [done|].
  destruct (hex_val a); simpl in H; [|done]. destruct (hex_val b); simpl in H; [|done].
  destruct (hex_decode l) as [r'|] eqn:E; simplify_eq/=.
  rewrite (IH l ltac:(simpl; lia) r' E). lia.
Qed.

Lemma hex_val_range a n : hex_val a = Some n → 0 ≤ n < 16.
Proof. unfold hex_val, in_range. intros H. repeat case_hyp H; simplify_eq; lia. Qed.

Lemma hex_decode_bytes l r : hex_decode l = Some r → Forall is_byte r.
Proof.
  revert r. induction l as [l IH] using (induction_ltof1 _ (@length _)).
  unfold ltof in IH. intros r H. destruct l as [|a [|b l]]; simplify_eq/=; [constructor|].
  destruct (hex_val a) eqn:Ea; simpl in H; [|done].
  destruct (hex_val b) eqn:Eb; simpl in H; [|done].
  destruct (hex_decode l) as [r'|] eqn:E; simplify_eq/=.
  apply hex_val_range in Ea, Eb. constructor; [unfold is_byte; lia|].
  by apply (IH l ltac:(simpl; lia)).
Qed.

Lemma ct_diff_zero x y v :
  length x = length y → ct_diff x y v = 0 ↔ v = 0 ∧ x = y.
Proof.
  revert y v. induction x as [|a x IH]; intros [|b y] v Hl; simplify_eq/=; [naive_solver|].
  rewrite IH by done. rewrite Z.lor_eq_0_iff, Z.lxor_eq_0_iff. naive_solver.
Qed.

(** The constant-time comparison decides equality. *)
Lemma ConstantTimeCompare_eq x y : ConstantTimeCompare x y = 1 ↔ x = y.
Proof.
  unfold ConstantTimeCompare. destruct (Nat.eqb_spec (length x) (length y)) as [Hl|Hl].
  - destruct (Z.eqb_spec (ct_diff x y 0) 0) as [Hd|Hd].
    + apply ct_diff_zero in Hd; naive_solver.
    + split; [done|]. intros ->. contradict Hd. by apply ct_diff_zero.
  - split; [done|]. by intros ->.
Qed.

Lemma be32_bytes z : Forall is_byte (be32 z).
Proof. unfold be32. repeat constructor; apply Z.mod_pos_bound; lia. Qed.

(** A digest is 32 bytes. *)
Lemma sha256_length l : length (sha256 l) = 32%nat.
Proof. reflexivity. Qed.

Lemma sha256_bytes l : Forall is_byte (sha256 l).
Proof.
  unfold sha256. apply Forall_bind, Forall_true. intros z. apply be32_bytes.
Qed.

Lemma hmac_sha256_length k m : length (hmac_sha256 k m) = 32%nat.
Proof. reflexivity. Qed.

Lemma hmac_sha256_bytes k m : Forall is_byte (hmac_sha256 k m).
Proof. apply sha256_bytes. Qed.

#[global] Opaque sha256 hmac_sha256.

(** ** Published vectors *)

Example sha256_abc :
  hex_EncodeToString (sha256 (bytes_of "abc"))
  = "ba7816bf8f01cfea414140de5dae2223b00361a396177a9cb410ff61f20015ad".
Proof. vm_compute. reflexivity. Qed.

Example sha256_two_blocks :
  hex_EncodeToString (sha256 (bytes_of "abcdbcdecdefdefgefghfghighijhijkijkljklmklmnlmnomnopnopq"))
  = "248d6a61d20638b8e5c026930c3e6039a33ce45964ff2167f6ecedd419db06c1".
Proof. vm_compute. reflexivity. Qed.

(** RFC 4231, test cases 2 and 6 (a key longer than a block). *)
Example hmac_rfc4231_2 :
  hex_EncodeToString (hmac_sha256 (bytes_of "Jefe") (bytes_of "what do ya want for nothing?"))
  = "5bdcc146bf60754e6a042426089575c75a003f089d2739839dec58b964ec3843".
Proof. vm_compute. reflexivity. Qed.

Example hmac_rfc4231_6 :
  hex_EncodeToString (hmac_sha256 (replicate 131 170)
    (bytes_of "Test Using Larger Than Block-Size Key - Hash Key First"))
  = "60e431591ee0b67f0d8a26aacbf5b77f8e0bc6213728c5140546040f0ee37f54".
Proof. vm_compute. reflexivity. Qed.
