(* ===== verification/Sig.v ===== *)
(** * Webhook signatures (package [sig/hmac])

    [VerifyHubSignature256] (src/sig/hmac/github.go) and [VerifyStripe]
    (src/sig/hmac/stripe.go), with the helpers of src/webhookhttp/helpers.go.
    Payloads, headers and secrets are byte strings. [nowFn().Unix()], the only
    effect, is the argument [now]. Integers are 64-bit with wrap-around. *)
From Stdlib Require Import Ascii ZArith.
From stdpp Require Import prelude gmap strings.
From S2P Require Import Prelude GoStrings GoText GoCrypto.

Local Open Scope Z_scope.

(** ** The X-Hub-Signature-256 scheme *)

Definition ErrMalformedHubSig : error :=
  Sentinel "hmac.ErrMalformedHubSig" "hub sig: malformed header, want sha256=<hex>".
Definition ErrTimestampExpired : error :=
  Sentinel "hmac.ErrTimestampExpired" "stripe sig: timestamp beyond tolerance window".
Definition ErrSignatureMismatch : error :=
  Sentinel "hmac.ErrSignatureMismatch" "stripe sig: v1 HMAC mismatch".
Definition ErrMissingTimestamp : error :=
  Sentinel "hmac.ErrMissingTimestamp" "stripe sig: missing t= component".
Definition ErrMissingV1 : error :=
  Sentinel "hmac.ErrMissingV1" "stripe sig: missing v1= component".
Definition ErrMalformedHeader : error :=
  Sentinel "hmac.ErrMalformedHeader" "stripe sig: malformed header value".

(** [sha256.Size]. *)
Definition sha256_Size : Z := 32.

Definition VerifyHubSignature256 (payload header secret : string) : option error :=
  let header := TrimSpace header in
  match strip_prefix "sha256=" header with
  | None => Some ErrMalformedHubSig
  | Some sigHex =>
      if negb (len sigHex =? sha256_Size * 2) then Some ErrMalformedHubSig
      else
        match hex_DecodeString sigHex with
        | None => Some ErrMalformedHubSig
        | Some got =>
            let expected := hmac_sha256 (bytes_of secret) (bytes_of payload) in
            if negb (ConstantTimeCompare got expected =? 1) then Some ErrSignatureMismatch
            else None
        end
  end.

(** src/webhookhttp/helpers.go. *)
Definition ParseHMACSHA256Signature (header : string) : string * bool :=
  let header := TrimSpace header in
  match strip_prefix "sha256=" header with
  | None => (EmptyString, false)
  | Some hexPart =>
      if negb (len hexPart =? sha256_Size * 2) then (EmptyString, false) else (hexPart, true)
  end.

Definition VerifyHMACSHA256Header (body header secret : string) : option error :=
  VerifyHubSignature256 body header secret.

(** ** The Stripe scheme *)

(** One iteration of the loop over the comma-separated parts: the pending
    [tsStr] and [sigs]. *)
Definition stripe_part (acc : string * list string) (part : string) : string * list string :=
  match SplitN2 "=" (TrimSpace part) with
  | None => acc
  | Some (k, v) =>
      if decide (k = "t") then (v, acc.2)
      else if decide (k = "v1") then (acc.1, acc.2 ++ [v])
      else acc
  end.

Definition stripe_parse (header : string) : string * list string :=
  foldl stripe_part (EmptyString, []) (Split1 "," header).

(** [skew := now - ts; if skew < 0 { skew = -skew }] on [int64]. *)
Definition stripe_skew (now ts : Z) : Z :=
  let skew := wrap64 (now - ts) in
  if skew <? 0 then wrap64 (- skew) else skew.

Definition stripe_signed (ts : Z) (payload : string) : string :=
  dec ts +:+ "." +:+ payload.

Definition stripe_mac (secret payload : string) (ts : Z) : list Z :=
  hmac_sha256 (bytes_of secret) (bytes_of (stripe_signed ts payload)).

(** The loop over [sigs]. *)
Fixpoint stripe_match (expected : list Z) (sigs : list string) : bool :=
  match sigs with
  | [] => false
  | sig :: sigs' =>
      match hex_DecodeString sig with
      | None => stripe_match expected sigs'
      | Some got =>
          if ConstantTimeCompare got expected =? 1 then true else stripe_match expected sigs'
      end
  end.

Definition VerifyStripe `{UnicodeTables}
    (payload header secret : string) (toleranceSecs now : Z) : Z * option error :=
  if decide (header = EmptyString) then (0, Some ErrMalformedHeader)
  else
    let '(tsStr, sigs) := stripe_parse header in
    if decide (tsStr = EmptyString) then (0, Some ErrMissingTimestamp)
    else if decide (sigs = []) then (0, Some ErrMissingV1)
    else
      match ParseInt tsStr with
      | inl e => (0, Some (Wrapf EmptyString ErrMalformedHeader
                             (": parse t=: " +:+ num_error_text tsStr e)))
      | inr ts =>
          if (0 <? toleranceSecs) && (toleranceSecs <? stripe_skew now ts)
          then (ts, Some ErrTimestampExpired)
          else if stripe_match (stripe_mac secret payload ts) sigs
          then (ts, None)
          else (ts, Some ErrSignatureMismatch)
      end.

(** ** Specification of the header grammar *)

(** The values that a header gives to a key, in order. *)
Definition header_values (key header : string) : list string :=
  omap (λ part, '(k, v) ← SplitN2 "=" (TrimSpace part);
                if decide (k = key) then Some v else None) (Split1 "," header).

(** ** Lemmas *)

Lemma hex_char_graphic c : hex_char c → graphic c.
Proof. unfold hex_char, graphic. lia. Qed.

Lemma hex_graphic l : Forall is_byte l → Forall graphic (to_l (hex_EncodeToString l)).
Proof.
  intros Hl. unfold hex_EncodeToString. rewrite to_of_l.
  eapply Forall_impl; [by apply hex_encode_chars|]. apply hex_char_graphic.
Qed.

Lemma hex_roundtrip l : Forall is_byte l → hex_DecodeString (hex_EncodeToString l) = Some l.
Proof.
  intros Hl. unfold hex_DecodeString, hex_EncodeToString. rewrite to_of_l.
  by apply hex_decode_encode.
Qed.

Lemma hex_len s l : hex_DecodeString s = Some l → len s = 2 * Z.of_nat (length l).
Proof.
  unfold hex_DecodeString, len. intros H%hex_decode_length. rewrite length_to_l in H. lia.
Qed.

Lemma ct_compare_bool x y : (ConstantTimeCompare x y =? 1) = bool_decide (x = y).
Proof.
  apply eq_true_iff_eq. rewrite Z.eqb_eq, bool_decide_eq_true. apply ConstantTimeCompare_eq.
Qed.

Lemma stripe_match_true expected sigs :
  stripe_match expected sigs = true ↔ ∃ s, s ∈ sigs ∧ hex_DecodeString s = Some expected.
Proof.
  induction sigs as [|s sigs IH]; simpl; [set_solver|].
  destruct (hex_DecodeString s) as [got|] eqn:E.
  - rewrite ct_compare_bool. case_bool_decide; subst; [set_solver|].
    rewrite IH. set_solver.
  - rewrite IH. set_solver.
Qed.

Lemma foldl_stripe_part parts acc :
  foldl stripe_part acc parts =
  (default acc.1 (last (omap (λ part, '(k, v) ← SplitN2 "=" (TrimSpace part);
                        if decide (k = "t") then Some v else None) parts)),
   acc.2 ++ omap (λ part, '(k, v) ← SplitN2 "=" (TrimSpace part);
                        if decide (k = "v1") then Some v else None) parts).
Proof.
  revert acc. induction parts as [|p parts IH]; intros [t sg]; csimpl; [by rewrite app_nil_r|].
  rewrite IH. unfold stripe_part.
  destruct (SplitN2 "=" (TrimSpace p)) as [[k v]|] eqn:E; csimpl; [|done].
  case_decide; subst; csimpl.
  - f_equal. rewrite last_cons. by destruct (last _).
  - case_decide; csimpl; [by rewrite <- app_assoc|done].
Qed.

(** The loop keeps the last [t] value and all the [v1] values. *)
Lemma stripe_parse_values header :
  stripe_parse header =
  (default EmptyString (last (header_values "t" header)), header_values "v1" header).
Proof. unfold stripe_parse. by rewrite foldl_stripe_part. Qed.

Lemma stripe_skew_small now ts :
  is_int64 now → is_int64 ts → Z.abs (now - ts) < 2 ^ 63 →
  stripe_skew now ts = Z.abs (now - ts).
Proof.
  unfold stripe_skew, is_int64, minInt64, maxInt64. intros Hn Ht Hs.
  rewrite wrap64_id by (unfold is_int64, minInt64, maxInt64; lia).
  case_match; [rewrite wrap64_id by (unfold is_int64, minInt64, maxInt64; lia)|]; lia.
Qed.

(** Which distances from the clock pass the check of the tolerance, in integers
    of any size: up to the tolerance, and what [int64] takes for it. *)
Definition within_tolerance (distance tol : Z) : Prop :=
  distance ≤ tol ∨ distance = 2 ^ 63 ∨ 2 ^ 64 - tol ≤ distance.

Lemma stripe_skew_within now ts tol :
  is_int64 now → is_int64 ts → 0 < tol ≤ maxInt64 →
  stripe_skew now ts ≤ tol ↔ within_tolerance (Z.abs (now - ts)) tol.
Proof.
  unfold within_tolerance, is_int64, minInt64, maxInt64. intros Hn Ht Htol.
  destruct (decide (Z.abs (now - ts) < 2 ^ 63)) as [Hs|Hs].
  { rewrite stripe_skew_small by (unfold is_int64, minInt64, maxInt64; lia). lia. }
  unfold stripe_skew. destruct (decide (Z.abs (now - ts) = 2 ^ 63)) as [He|He].
  { assert (wrap64 (now - ts) = - 2 ^ 63) as ->.
    { assert (now - ts = 2 ^ 63 ∨ now - ts = - 2 ^ 63) as [-> | ->] by lia; reflexivity. }
    change (wrap64 (- - 2 ^ 63)) with (- 2 ^ 63). change (- 2 ^ 63 <? 0) with true. cbv iota. lia. }
  assert (wrap64 (now - ts) = now - ts + (if now <? ts then 2 ^ 64 else - 2 ^ 64)) as ->.
  { unfold wrap64. case_match.
    - rewrite <- (Z.mod_unique _ (2 ^ 64) (-1) (now - ts + 2 ^ 63 + 2 ^ 64)); lia.
    - rewrite <- (Z.mod_unique _ (2 ^ 64) 1 (now - ts + 2 ^ 63 - 2 ^ 64)); lia. }
  destruct (now <? ts) eqn:Hlt; [rewrite (proj2 (Z.ltb_ge _ _)) by lia; lia|].
  rewrite (proj2 (Z.ltb_lt _ _)), wrap64_id by (unfold is_int64, minInt64, maxInt64; lia). lia.
Qed.

(** The header that a signer with the given signatures sends. *)
Fixpoint v1_parts (sigs : list string) : string :=
  match sigs with
  | [] => EmptyString
  | s :: sigs' => ",v1=" +:+ s +:+ v1_parts sigs'
  end.
Definition stripe_header (ts : Z) (sigs : list string) : string :=
  "t=" +:+ dec ts +:+ v1_parts sigs.

(** What a signature may look like for the header to be unambiguous. *)
Definition sig_text (s : string) : Prop := Forall (λ c, graphic c ∧ c ≠ ","%char) (to_l s).

Lemma sig_text_hex l : Forall is_byte l → sig_text (hex_EncodeToString l).
Proof.
  intros Hl. unfold sig_text, hex_EncodeToString. rewrite to_of_l.
  eapply Forall_impl; [by apply hex_encode_chars|]. intros c Hc.
  split; [by apply hex_char_graphic|]. intros ->. unfold hex_char in Hc. revert Hc. vm_compute.
  intuition congruence.
Qed.

Lemma sig_text_dec z : sig_text (dec z).
Proof.
  eapply Forall_impl; [apply Forall_and; split; [apply dec_graphic|apply dec_chars]|].
  intros c [Hg Hd]. split; [done|]. intros ->. destruct Hd as [Hd|Hd]; [|done].
  revert Hd. vm_compute. intuition congruence.
Qed.

Lemma sig_text_nocomma s : sig_text s → ","%char ∉ to_l s.
Proof. intros Hs Hin. eapply Forall_forall in Hs; [|exact Hin]. by destruct Hs. Qed.

Lemma sig_text_app k s : sig_text k → sig_text s → sig_text (k +:+ s).
Proof. unfold sig_text. rewrite to_l_app. apply Forall_app_2. Qed.

Lemma sig_text_literals : sig_text "t=" ∧ sig_text "v1=".
Proof. split; repeat constructor; vm_compute; intuition congruence. Qed.

Lemma split_sig_part k s :
  sig_text (k +:+ "=") → "="%char ∉ to_l k → sig_text s →
  SplitN2 "=" (TrimSpace ((k +:+ "=") +:+ s)) = Some (k, s).
Proof.
  intros Hk Hne Hs. rewrite TrimSpace_graphic.
  - apply SplitN2_Some. split; [by rewrite str_app_assoc|done].
  - eapply Forall_impl; [apply (sig_text_app _ _ Hk Hs)|]. by intros c [? _].
Qed.

Lemma Split1_v1_parts p sigs :
  sig_text p → Forall sig_text sigs →
  Split1 "," (p +:+ v1_parts sigs) = p :: (String.append "v1=" <$> sigs).
Proof.
  intros Hp Hs. revert p Hp. induction Hs as [|s sigs Hs _ IH]; intros p Hp; csimpl.
  - rewrite app_empty_r. apply Split1_none. by apply sig_text_nocomma.
  - change (",v1=" +:+ s +:+ v1_parts sigs) with (String "," (("v1=" +:+ s) +:+ v1_parts sigs)).
    rewrite Split1_app by by apply sig_text_nocomma. f_equal.
    apply (IH ("v1=" +:+ s)). by apply (sig_text_app "v1="), Hs; apply sig_text_literals.
Qed.

Lemma stripe_parse_header ts sigs :
  Forall sig_text sigs → stripe_parse (stripe_header ts sigs) = (dec ts, sigs).
Proof.
  intros Hs. destruct sig_text_literals as [Ht Hv].
  rewrite stripe_parse_values. unfold header_values, stripe_header.
  rewrite <- str_app_assoc, Split1_v1_parts; [|by apply sig_text_app, sig_text_dec|done].
  assert (SplitN2 "=" (TrimSpace ("t=" +:+ dec ts)) = Some ("t", dec ts)) as E.
  { apply (split_sig_part "t"); [done|set_solver|apply sig_text_dec]. }
  simpl in E. csimpl. rewrite !E. csimpl.
  assert (∀ s, sig_text s → SplitN2 "=" (TrimSpace ("v1=" +:+ s)) = Some ("v1", s)) as Ev.
  { intros s Hsig. apply (split_sig_part "v1"); [done|set_solver|done]. }
  clear E Ht Hv. simpl in Ev. f_equal.
  - assert (omap (λ part, '(k, v) ← SplitN2 "=" (TrimSpace part);
             if decide (k = "t") then Some v else None) (String.append "v1=" <$> sigs) = []) as ->;
      [|done].
    induction Hs as [|s sigs Hsig _ IH]; csimpl; [done|]. by rewrite Ev, IH.
  - induction Hs as [|s sigs Hsig _ IH]; csimpl; [done|]. rewrite Ev by done. csimpl. by rewrite IH.
Qed.

Lemma hub_match payload header secret sigHex :
  TrimSpace header = "sha256=" +:+ sigHex →
  hex_DecodeString sigHex = Some (hmac_sha256 (bytes_of secret) (bytes_of payload)) →
  VerifyHubSignature256 payload header secret = None.
Proof.
  intros Ht Hs. unfold VerifyHubSignature256, sha256_Size.
  rewrite Ht, strip_prefix_app, Hs, (hex_len _ _ Hs), hmac_sha256_length. simpl.
  by rewrite ct_compare_bool, bool_decide_true.
Qed.

Lemma hub_sound payload header secret :
  VerifyHubSignature256 payload header secret = None →
  ∃ sigHex, TrimSpace header = "sha256=" +:+ sigHex ∧
    hex_DecodeString sigHex = Some (hmac_sha256 (bytes_of secret) (bytes_of payload)).
Proof.
  unfold VerifyHubSignature256. intros H.
  destruct (strip_prefix "sha256=" (TrimSpace header)) as [sigHex|] eqn:Ep; [|done].
  apply strip_prefix_Some in Ep. exists sigHex. split; [done|].
  destruct (negb _); [done|]. destruct (hex_DecodeString sigHex) as [got|]; [|done].
  rewrite ct_compare_bool in H. by case_bool_decide; simplify_eq/=.
Qed.

(** ** Properties *)

(** [VerifyHubSignature256] accepts exactly the headers that, once
    trimmed, are [sha256=] followed by a hexadecimal text of
    HMAC-SHA256(secret, payload). *)
Theorem hub_accepts_iff payload header secret :
  VerifyHubSignature256 payload header secret = None ↔
  ∃ sigHex, TrimSpace header = "sha256=" +:+ sigHex ∧
    hex_DecodeString sigHex = Some (hmac_sha256 (bytes_of secret) (bytes_of payload)).
Proof.
  split; [apply hub_sound|]. intros (s & Ht & Hs). by apply (hub_match _ _ _ s).
Qed.

(** A sender that signs the payload with the shared secret is accepted by
    [VerifyHubSignature256], also through the [webhookhttp] wrapper. *)
Theorem hub_sign_verifies payload secret :
  VerifyHMACSHA256Header payload
    ("sha256=" +:+ hex_EncodeToString (hmac_sha256 (bytes_of secret) (bytes_of payload))) secret
  = None.
Proof.
  unfold VerifyHMACSHA256Header. eapply hub_match.
  - apply TrimSpace_graphic. rewrite to_l_app. apply Forall_app_2.
    + repeat constructor; vm_compute; intuition congruence.
    + apply hex_graphic, hmac_sha256_bytes.
  - apply hex_roundtrip, hmac_sha256_bytes.
Qed.

(** C14: [VerifyStripe] succeeds with [ts] exactly when the header's last [t]
    value parses to [ts], the distance |now - ts| is at most a positive tolerance
    (or one of the distances of 2^63 seconds and more that 64-bit arithmetic takes
    for it), and one of the header's [v1] values is the hexadecimal text of the
    HMAC-SHA256 under the secret of the timestamp in decimal, a dot and the
    payload. *)
Theorem stripe_accepts_iff `{UnicodeTables} payload header secret tol now ts :
  is_int64 now → tol ≤ maxInt64 →
  VerifyStripe payload header secret tol now = (ts, None) ↔
  ∃ tsStr sig, last (header_values "t" header) = Some tsStr ∧
    ParseInt tsStr = inr ts ∧
    (0 < tol → within_tolerance (Z.abs (now - ts)) tol) ∧
    sig ∈ header_values "v1" header ∧
    hex_DecodeString sig = Some (hmac_sha256 (bytes_of secret) (bytes_of (dec ts +:+ "." +:+ payload))).
Proof.
  intros Hnow Htol.
  assert (∀ tsStr, ParseInt tsStr = inr ts →
    (0 < tol → within_tolerance (Z.abs (now - ts)) tol) ↔ (0 < tol → stripe_skew now ts ≤ tol)) as Hwin.
  { intros tsStr Hp%ParseInt_range. split; intros Hw H0; apply (stripe_skew_within now ts tol); auto with lia. }
  unfold VerifyStripe. rewrite stripe_parse_values.
  destruct (decide (header = EmptyString)) as [->|Hne].
  { split; [done|]. by intros (? & ? & ? & _). }
  destruct (last (header_values "t" header)) as [tsStr|] eqn:Et; cbn [from_option id];
    [|rewrite decide_True by done; naive_solver].
  destruct (decide (tsStr = EmptyString)) as [->|Hts].
  { split; [done|]. intros (? & ? & [= <-] & Hp & _). done. }
  destruct (decide (header_values "v1" header = [])) as [Ev|Ev].
  { rewrite Ev. split; [done|]. intros (? & ? & _ & _ & _ & Hin & _). by apply not_elem_of_nil in Hin. }
  destruct (ParseInt tsStr) as [e|ts'] eqn:Ep.
  { split; [done|]. intros (? & ? & [= <-] & Hp & _). congruence. }
  split.
  - intros E. destruct ((0 <? tol) && (tol <? stripe_skew now ts')) eqn:Ew; [done|].
    destruct (stripe_match _ _) eqn:Em; [|done]. simplify_eq.
    apply stripe_match_true in Em as (sig & Hin & Hsig). exists tsStr, sig.
    split; [done|]. split; [done|]. split; [refine (proj2 (Hwin _ Ep) _); lia|]. by split.
  - intros (t & sig & [= <-] & Hp & Hw & Hin & Hsig). rewrite Ep in Hp. injection Hp as ->.
    pose proof (proj1 (Hwin _ Ep) Hw) as Hw'. clear Hw Hwin.
    rewrite (proj2 (stripe_match_true _ _)) by eauto.
    by rewrite (proj2 (andb_false_iff _ _)) by lia.
Qed.

(** No replay outside the window. With a positive tolerance and a clock and
    a signed timestamp that are not negative, a delivery that [VerifyStripe]
    accepts was signed at most [tol] seconds away from the clock. *)
Theorem stripe_replay_window `{UnicodeTables} payload header secret tol now ts :
  0 < tol → 0 ≤ now ≤ maxInt64 → 0 ≤ ts →
  VerifyStripe payload header secret tol now = (ts, None) →
  Z.abs (now - ts) ≤ tol.
Proof.
  intros Htol Hnow Hts E. unfold VerifyStripe in E.
  destruct (decide (header = EmptyString)); [done|].
  destruct (stripe_parse header) as [tsStr sigs].
  destruct (decide (tsStr = EmptyString)); [done|]. destruct (decide (sigs = [])); [done|].
  destruct (ParseInt tsStr) as [?|ts'] eqn:Ep; [done|].
  destruct ((0 <? tol) && (tol <? stripe_skew now ts')) eqn:Ew; [done|].
  destruct (stripe_match _ _); [|done]. simplify_eq.
  apply ParseInt_range in Ep. unfold is_int64, minInt64, maxInt64 in *.
  rewrite stripe_skew_small in Ew; unfold is_int64, minInt64, maxInt64; lia.
Qed.

(** The corner that the previous property excludes. A timestamp exactly
    2^63 seconds before the clock makes [-skew] overflow to a negative number,
    so the tolerance check passes for every tolerance and the delivery is
    accepted whenever its signature is right. *)
Theorem stripe_window_overflow `{UnicodeTables} payload secret tol now :
  0 ≤ now ≤ maxInt64 → 0 < tol →
  VerifyStripe payload
    (stripe_header (now - 2 ^ 63)
       [hex_EncodeToString (stripe_mac secret payload (now - 2 ^ 63))]) secret tol now
  = (now - 2 ^ 63, None).
Proof.
  intros Hnow Htol. unfold VerifyStripe.
  rewrite decide_False by done.
  rewrite stripe_parse_header by (apply Forall_singleton, sig_text_hex, hmac_sha256_bytes).
  rewrite decide_False by apply dec_nonempty. rewrite decide_False by done.
  rewrite ParseInt_dec by (unfold is_int64, minInt64, maxInt64 in *; lia).
  assert (stripe_skew now (now - 2 ^ 63) = minInt64) as ->.
  { unfold stripe_skew. replace (now - (now - 2 ^ 63)) with (2 ^ 63) by lia. reflexivity. }
  rewrite (proj2 (andb_false_iff _ _)) by (right; unfold minInt64; lia).
  rewrite (proj2 (stripe_match_true _ _)); [done|].
  eexists. split; [apply list_elem_of_here|]. apply hex_roundtrip, hmac_sha256_bytes.
Qed.

(** Signing and verifying agree. A header with a 64-bit timestamp within
    the tolerance of the clock and any list of [v1] texts is accepted as soon as one of
    them is the signature under the shared secret (so a provider may send
    signatures under several keys while it rotates them). *)
Theorem stripe_sign_verifies `{UnicodeTables} payload secret tol now ts sigs :
  is_int64 ts → stripe_skew now ts ≤ tol ∨ tol ≤ 0 →
  Forall sig_text sigs →
  hex_EncodeToString (stripe_mac secret payload ts) ∈ sigs →
  VerifyStripe payload (stripe_header ts sigs) secret tol now = (ts, None).
Proof.
  intros Hts Hw Hs Hin. unfold VerifyStripe.
  rewrite decide_False by done. rewrite stripe_parse_header by done.
  rewrite decide_False by apply dec_nonempty. rewrite decide_False by (intros ->; set_solver).
  rewrite ParseInt_dec by done.
  rewrite (proj2 (andb_false_iff _ _)) by lia.
  rewrite (proj2 (stripe_match_true _ _)); [done|].
  eexists. split; [exact Hin|]. apply hex_roundtrip, hmac_sha256_bytes.
Qed.

(** ** Witnesses *)

Definition demo_header : string :=
  stripe_header 1700000000
    [ "00ff"; hex_EncodeToString (stripe_mac "whsec_demo" "{}" 1700000000) ].

Lemma stripe_accepts_iff_witness :
  VerifyStripe (H:=ascii_tables) "{}" demo_header "whsec_demo" 300 1700000100 = (1700000000, None).
Proof.
  apply (stripe_accepts_iff (H:=ascii_tables)); [split; vm_compute; discriminate|vm_compute; discriminate|].
  exists "1700000000", (hex_EncodeToString (stripe_mac "whsec_demo" "{}" 1700000000)).
  split; [vm_compute; reflexivity|]. split; [vm_compute; reflexivity|]. split; [intros _; left; vm_compute; discriminate|].
  split; [vm_compute; apply list_elem_of_further, list_elem_of_here|]. vm_compute. reflexivity.
Defined.

Lemma stripe_replay_window_witness : Z.abs (1700000100 - 1700000000) ≤ 300.
Proof.
  apply (stripe_replay_window (H:=ascii_tables) "{}" demo_header "whsec_demo" 300);
    [lia|unfold maxInt64; lia|lia|vm_compute; reflexivity].
Defined.

Lemma stripe_window_overflow_witness :
  VerifyStripe (H:=ascii_tables) "{}"
    (stripe_header (1700000000 - 2 ^ 63)
       [hex_EncodeToString (stripe_mac "whsec_demo" "{}" (1700000000 - 2 ^ 63))])
    "whsec_demo" 300 1700000000
  = (1700000000 - 2 ^ 63, None).
Proof.
  apply (stripe_window_overflow (H:=ascii_tables) "{}" "whsec_demo" 300 1700000000);
    [unfold maxInt64; lia|lia].
Defined.

Lemma stripe_sign_verifies_witness :
  VerifyStripe (H:=ascii_tables) "{}" demo_header "whsec_demo" 300 1700000100 = (1700000000, None).
Proof.
  apply (stripe_sign_verifies (H:=ascii_tables)).
  - unfold is_int64, minInt64, maxInt64. lia.
  - left. vm_compute. discriminate.
  - apply Forall_cons. split; [repeat constructor; vm_compute; discriminate|].
    apply Forall_singleton, sig_text_hex, hmac_sha256_bytes.
  - apply list_elem_of_further, list_elem_of_here.
Defined.
