(* ===== verification/GoFloat.v ===== *)
(** * Finite [float64] values

    The floating-point behaviour that [encoding/json] and [fmt] give to JSON
    numbers: correctly rounded conversion of a decimal literal (round to
    nearest, ties to even, subnormals included), conversion to and from
    [int64], and the verb [%g]. A literal beyond the range of [float64] has no
    value, and JSON has no infinities or NaN, so all values here are finite. *)
From Stdlib Require Import Ascii ZArith.
From stdpp Require Import prelude gmap strings.
From S2P Require Import Prelude GoStrings GoText.

Local Open Scope Z_scope.

(** The number [(-1)^fneg * fm * 2^fe]. *)
Record float64 := F64 { fneg : bool; fm : N; fe : Z }.

(** ** Rounding *)

(** [num / den] rounded to the nearest integer, ties to even. *)
Definition round_half_even (num den : Z) : Z :=
  let r := num / den in
  let rem := num mod den in
  if (den <? 2 * rem) || ((2 * rem =? den) && Z.odd r) then r + 1 else r.

(** [p/q * 2^-e] as a fraction. *)
Definition scale2 (p q e : Z) : Z * Z :=
  if 0 <=? e then (p, q * 2 ^ e) else (p * 2 ^ (- e), q).

(** The floor of the binary logarithm of [p/q], for positive [p] and [q]. *)
Definition flog2 (p q : Z) : Z :=
  let k := Z.log2 p - Z.log2 q in
  let '(n, d) := scale2 p q k in
  if d <=? n then k else k - 1.

(** The nearest [float64] magnitude to [p/q]: 53 bits of precision, exponents
    from -1074 up; [None] when it is 2^1024 or more. *)
Definition round_mag (p q : Z) : option (Z * Z) :=
  if p =? 0 then Some (0, 0)
  else
    let e := Z.max (flog2 p q - 52) (-1074) in
    let '(n, d) := scale2 p q e in
    let m := round_half_even n d in
    if (0 <? m) && (1024 <=? e + Z.log2 m) then None else Some (m, e).

Definition float_of_frac (neg : bool) (p q : Z) : option float64 :=
  '(m, e) ← round_mag p q; Some (F64 neg (Z.to_N m) e).

(** [float64(z)] for an integer. *)
Definition float_of_int (z : Z) : option float64 := float_of_frac (z <? 0) (Z.abs z) 1.

(** The magnitude as a fraction. *)
Definition mag (x : float64) : Z * Z := scale2 (Z.of_N (fm x)) 1 (- fe x).

(** [x == y]. *)
Definition float_eqb (x y : float64) : bool :=
  let '(p, q) := mag x in
  let '(p', q') := mag y in
  let sp := if fneg x then - p else p in
  let sp' := if fneg y then - p' else p' in
  sp * q' =? sp' * q.

Definition float_is_zero (x : float64) : bool := (fm x =? 0)%N.

(** [int64(x)]: truncation; out of range the amd64 conversion gives the
    minimum. *)
Definition int64_of_float (x : float64) : Z :=
  let '(p, q) := mag x in
  let z := if fneg x then - (p / q) else p / q in
  if (minInt64 <=? z) && (z <=? maxInt64) then z else minInt64.

(** ** Decimal literals *)

(** The value of a run of digits. *)
Definition digits_Z (l : list ascii) : Z := default 0 (digits_val l 0).

Fixpoint take_digits (l : list ascii) : list ascii * list ascii :=
  match l with
  | a :: l' => if in_range 48 57 a then let '(d, r) := take_digits l' in (a :: d, r) else ([], l)
  | [] => ([], [])
  end.

(** The sign, the digits and the decimal exponent of a JSON number literal. *)
Definition lit_parts (l : list ascii) : bool * list ascii * Z :=
  let '(neg, l) := match l with
    | a :: l' => if decide (a = "-"%char) then (true, l') else (false, l)
    | [] => (false, []) end in
  let '(ip, l) := take_digits l in
  let '(fp, l) := match l with
    | a :: l' => if decide (a = "."%char) then take_digits l' else ([], l)
    | [] => ([], []) end in
  let ex := match l with
    | _ :: a :: l' =>
        if decide (a = "-"%char) then - digits_Z l'
        else if decide (a = "+"%char) then digits_Z l' else digits_Z (a :: l')
    | _ => 0 end in
  (neg, ip ++ fp, ex - Z.of_nat (length fp)).

(** [strconv.ParseFloat(lit, 64)]; [None] is the range error. *)
Definition ParseFloat (lit : string) : option float64 :=
  let '(neg, ds, ex) := lit_parts (to_l lit) in
  let m := digits_Z ds in
  if 0 <=? ex then float_of_frac neg (m * 10 ^ ex) 1 else float_of_frac neg m (10 ^ (- ex)).

(** ** The verb [%g] *)

(** The decimal point position [dp] with [10^(dp-1) <= p/q < 10^dp]; the fuel
    is a bound on the number of digits. *)
Fixpoint dp_up (fuel : nat) (p q dp : Z) : Z :=
  match fuel with
  | O => dp
  | S f => if p <? q then dp else dp_up f p (q * 10) (dp + 1)
  end.
Fixpoint dp_down (fuel : nat) (p q dp : Z) : Z :=
  match fuel with
  | O => dp
  | S f => if q <=? p * 10 then dp else dp_down f (p * 10) q (dp - 1)
  end.
Definition dec_point (p q : Z) : Z :=
  if p <? q then dp_down (S (Z.to_nat (Z.log2 q))) p q 0 else dp_up (S (Z.to_nat (Z.log2 p))) p q 0.

(** [p/q * 10^k] as a fraction. *)
Definition scale10 (p q k : Z) : Z * Z :=
  if 0 <=? k then (p * 10 ^ k, q) else (p, q * 10 ^ (- k)).

(** The first number of digits, from [n] up, whose rounding reads back as [x]:
    the digits, and the decimal exponent of the last one. *)
Fixpoint shortest (fuel : nat) (n : Z) (x : float64) : Z * Z :=
  let '(p, q) := mag x in
  let k := n - dec_point p q in
  let '(a, b) := scale10 p q k in
  let d := round_half_even a b in
  match fuel with
  | O => (d, - k)
  | S f =>
      let '(p', q') := scale10 d 1 (- k) in
      match float_of_frac (fneg x) p' q' with
      | Some y => if float_eqb x y then (d, - k) else shortest f (n + 1) x
      | None => shortest f (n + 1) x
      end
  end.

(** Drops the trailing zeros of a digit list. *)
Definition strip_zeros (l : list ascii) : list ascii :=
  reverse (trim_front (λ a, bool_decide (a = "0"%char)) (λ _ _, false) (λ _ _ _, false) (reverse l)).

Definition two_digits (z : Z) : list ascii :=
  if z <? 10 then "0"%char :: dec_nat z else dec_nat z.

(** The significant digits of a nonzero value, and the position of the point
    relative to the first of them. *)
Definition digits_point (x : float64) : list ascii * Z :=
  let '(d, ex) := shortest 16 1 x in
  let all := dec_nat d in
  (strip_zeros all, Z.of_nat (length all) + ex).

(** The formats [f] and [e] of the digits; [expo] writes the exponent. *)
Definition fixed_text (ds : list ascii) (dp : Z) : list ascii :=
  if dp <=? 0 then ["0"; "."]%char ++ replicate (Z.to_nat (- dp)) "0"%char ++ ds
  else
    let n := Z.to_nat dp in
    take n ds ++ replicate (n - length ds) "0"%char ++
    (if (n <? length ds)%nat then "."%char :: drop n ds else []).
Definition exp_text (expo : Z → list ascii) (ds : list ascii) (e : Z) : list ascii :=
  take 1 ds ++ (if (1 <? length ds)%nat then "."%char :: drop 1 ds else []) ++
  ["e"]%char ++ (if e <? 0 then ["-"]%char else ["+"]%char) ++ expo (Z.abs e).

Definition sign_text (x : float64) : list ascii := if fneg x then ["-"]%char else [].

Definition format_g (x : float64) : string :=
  of_l (sign_text x ++
    if float_is_zero x then ["0"]%char
    else
      let '(ds, dp) := digits_point x in
      let e := dp - 1 in
      if (e <? -4) || (6 <=? e) then exp_text two_digits ds e else fixed_text ds dp).

(** ** Lemmas *)

Lemma round_half_even_exact num den :
  0 < den → (den | num) → round_half_even num den = num / den.
Proof.
  intros Hd Hdiv. unfold round_half_even.
  apply Z.mod_divide in Hdiv; [|lia]. rewrite Hdiv.
  rewrite (proj2 (orb_false_iff _ _)); [done|]. split; [lia|].
  rewrite (proj2 (andb_false_iff _ _)); [done|]. left. lia.
Qed.

Lemma flog2_int p : 0 < p → flog2 p 1 = Z.log2 p.
Proof.
  intros Hp. unfold flog2. change (Z.log2 1) with 0. rewrite Z.sub_0_r.
  unfold scale2. pose proof (Z.log2_nonneg p) as Hn. pose proof (Z.log2_spec p Hp) as [Hl _].
  rewrite (proj2 (Z.leb_le 0 (Z.log2 p)) Hn). rewrite Z.mul_1_l.
  by rewrite (proj2 (Z.leb_le _ _) Hl).
Qed.

(** Integers up to 2^53 are represented exactly. *)
Lemma round_mag_int p :
  0 < p ≤ 2 ^ 53 → ∃ m e, round_mag p 1 = Some (m, e) ∧
    ((0 ≤ e ∧ m * 2 ^ e = p) ∨ (e < 0 ∧ m = p * 2 ^ (- e))).
Proof.
  intros Hp. unfold round_mag. rewrite (proj2 (Z.eqb_neq p 0)) by lia.
  rewrite flog2_int by lia. pose proof (Z.log2_nonneg p) as Hn.
  assert (Z.log2 p ≤ 53) as Hl. { rewrite <- (Z.log2_pow2 53) by lia. apply Z.log2_le_mono. lia. }
  rewrite Z.max_l by lia. unfold scale2.
  destruct (Z.leb_spec 0 (Z.log2 p - 52)) as [He|He].
  - assert (p ≠ 2 ^ 53 → Z.log2 p = 52 ∨ p = 2 ^ 53) as Hcase.
    { intros Hne. left. assert (Z.log2 p < 53) by (apply Z.log2_lt_pow2; lia). lia. }
    assert (∃ k, p = k * 2 ^ (Z.log2 p - 52) ∧ 0 < k < 2 ^ 53) as (k & Hk & Hkr).
    { destruct (decide (p = 2 ^ 53)) as [->|Hne].
      - exists (2 ^ 52). rewrite Z.log2_pow2 by lia. split; [reflexivity|lia].
      - destruct (Hcase Hne) as [-> | ?]; [|done]. exists p. split; [|lia].
        change (2 ^ (52 - 52)) with 1. lia. }
    remember (Z.log2 p - 52) as e eqn:Ee.
    rewrite Z.mul_1_l. rewrite round_half_even_exact; [|lia|by exists k].
    assert (p / 2 ^ e = k) as -> by (rewrite Hk; apply Z.div_mul; lia).
    assert (Z.log2 k < 53) by (apply Z.log2_lt_pow2; lia).
    rewrite (proj2 (andb_false_iff _ _)) by (right; lia).
    eexists _, _. split; [reflexivity|]. left. by split.
  - rewrite round_half_even_exact; [|lia|apply Z.divide_1_l].
    rewrite Z.div_1_r.
    assert (Z.log2 (p * 2 ^ (- (Z.log2 p - 52))) = - (Z.log2 p - 52) + Z.log2 p) as ->
      by (apply Z.log2_mul_pow2; lia).
    rewrite (proj2 (andb_false_iff _ _)) by (right; lia).
    eexists _, _. split; [reflexivity|]. right. split; [lia|done].
Qed.

(** [float64] conversion and back is the identity on integers up to 2^53. *)
Lemma int_float_int z :
  0 < z ≤ 2 ^ 53 →
  ∃ x, float_of_int z = Some x ∧ float_is_zero x = false ∧ int64_of_float x = z ∧
       float_eqb x x = true.
Proof.
  intros Hz. unfold float_of_int, float_of_frac.
  rewrite (proj2 (Z.ltb_ge z 0)), Z.abs_eq by lia.
  destruct (round_mag_int z Hz) as (m & e & Hr & Hme). rewrite Hr. simpl.
  assert (0 < m) as Hm0.
  { destruct Hme as [[He Hm]|[He ->]]; [|assert (0 < 2 ^ (- e)) by (apply Z.pow_pos_nonneg; lia); nia].
    assert (0 < 2 ^ e) by (apply Z.pow_pos_nonneg; lia). nia. }
  eexists. split; [reflexivity|]. unfold float_is_zero, int64_of_float, float_eqb, mag, scale2. simpl.
  rewrite Z2N.id by lia. split; [apply N.eqb_neq; lia|].
  destruct Hme as [[He Hm]|[He Hm]].
  - destruct (decide (e = 0)) as [->|Hne].
    + simpl. rewrite Z.pow_0_r in Hm |- *. rewrite !Z.mul_1_r in *. subst m.
      rewrite Z.div_1_r. unfold minInt64, maxInt64. split; [|lia]. case_match; lia.
    + rewrite (proj2 (Z.leb_gt 0 (- e))) by lia. rewrite Z.opp_involutive, Hm, Z.div_1_r.
      unfold minInt64, maxInt64. split; [|lia]. case_match; lia.
  - rewrite (proj2 (Z.leb_le 0 (- e))) by lia. rewrite Z.mul_1_l. subst m.
    rewrite Z.div_mul by (apply Z.pow_nonzero; lia).
    unfold minInt64, maxInt64. split; [|lia]. case_match; lia.
Qed.

(** ** Examples *)

Definition show_g (lit : string) : string := default "range" (format_g <$> ParseFloat lit).

Example format_g_examples :
  show_g "0.1" = "0.1" ∧ show_g "1.5" = "1.5" ∧ show_g "-123456.75" = "-123456.75" ∧
  show_g "1e21" = "1e+21" ∧ show_g "1234567.5" = "1.2345675e+06" ∧
  show_g "0.00001234" = "1.234e-05" ∧ show_g "1e400" = "range" ∧
  show_g "5e-324" = "5e-324" ∧ show_g "9007199254740993" = "9.007199254740992e+15".
Proof. vm_compute. repeat split. Qed.
