(* ===== verification/Json.v ===== *)
(** * JSON as [encoding/json] reads and writes it

    A parser with the grammar of Go's scanner (nesting bound included), the
    unquoting of strings (escapes, surrogate pairs, replacement of invalid
    UTF-8), the decoding of a value into [any] and into struct fields (names
    matched without regard to case, later members winning, [null] leaving a
    field alone), and the quoting of strings by the encoder. *)
From Stdlib Require Import Ascii ZArith.
From stdpp Require Import prelude gmap strings.
From S2P Require Import Prelude GoStrings GoText GoFloat.

Local Open Scope Z_scope.

(** ** Values *)

(** A member of an object keeps the bytes of its value, which is what a field
    of type [json.RawMessage] receives. *)
Inductive json : Type :=
| JNull
| JBool (b : bool)
| JNum (lit : string)
| JStr (s : string)
| JArr (l : list json)
| JObj (l : list (string * (string * json))).

(** ** Scanner *)

Definition json_ws (a : ascii) : bool :=
  let c := code a in (c =? 32) || (c =? 9) || (c =? 13) || (c =? 10).

Fixpoint skip_ws (l : list ascii) : list ascii :=
  match l with
  | a :: l' => if json_ws a then skip_ws l' else l
  | [] => []
  end.

(** [scanner.go]: maxNestingDepth. *)
Definition maxNestingDepth : nat := N.to_nat 10000.

(** ** Strings *)

Definition hex_val_any (a : ascii) : option Z :=
  if in_range 48 57 a then Some (code a - 48)
  else if in_range 97 102 a then Some (code a - 87)
  else if in_range 65 70 a then Some (code a - 55)
  else None.

Definition hex4 (l : list ascii) : option (Z * list ascii) :=
  match l with
  | a :: b :: c :: d :: l' =>
      x ← hex_val_any a; y ← hex_val_any b; z ← hex_val_any c; t ← hex_val_any d;
      Some (((x * 16 + y) * 16 + z) * 16 + t, l')
  | _ => None
  end.

Definition is_high (r : Z) : bool := (55296 <=? r) && (r <=? 56319).
Definition is_low (r : Z) : bool := (56320 <=? r) && (r <=? 57343).

(** The low half of a surrogate pair, if the text goes on with one. *)
Definition low_surrogate (l : list ascii) : option (Z * list ascii) :=
  match l with
  | a :: b :: l' =>
      if (code a =? 92) && (code b =? 117) then
        '(r, l'') ← hex4 l'; if is_low r then Some (r, l'') else None
      else None
  | _ => None
  end.

Definition simple_escape (e : ascii) : option ascii :=
  let c := code e in
  if (c =? 34) || (c =? 92) || (c =? 47) then Some e
  else if c =? 98 then Some (chr 8)
  else if c =? 102 then Some (chr 12)
  else if c =? 110 then Some (chr 10)
  else if c =? 114 then Some (chr 13)
  else if c =? 116 then Some (chr 9)
  else None.

(** One unit of a string's text after the opening quote: [Some (inl rest)] at
    the closing quote, [Some (inr (bytes, rest))] for the bytes that the unit
    stands for, [None] for a syntax error. *)
Definition str_unit (l : list ascii) : option (list ascii + (list ascii * list ascii)) :=
  match l with
  | [] => None
  | a :: l1 =>
      if code a =? 34 then Some (inl l1)
      else if code a =? 92 then
        match l1 with
        | [] => None
        | e :: l2 =>
            match simple_escape e with
            | Some c => Some (inr ([c], l2))
            | None =>
                if code e =? 117 then
                  '(r, l3) ← hex4 l2;
                  if is_high r then
                    match low_surrogate l3 with
                    | Some (r2, l4) =>
                        Some (inr (encode_rune ((r - 55296) * 1024 + (r2 - 56320) + 65536), l4))
                    | None => Some (inr (encode_rune RuneError, l3))
                    end
                  else Some (inr (encode_rune r, l3))
                else None
            end
        end
      else if code a <? 32 then None
      else
        let '(r, w) := decode_rune l in Some (inr (encode_rune r, drop w l))
  end.

Fixpoint str_body (fuel : nat) (l : list ascii) : option (list ascii * list ascii) :=
  match fuel with
  | O => None
  | S f =>
      match str_unit l with
      | None => None
      | Some (inl rest) => Some ([], rest)
      | Some (inr (bs, l')) => '(s, rest) ← str_body f l'; Some (bs ++ s, rest)
      end
  end.

(** The rest of a string literal; every unit takes at least one byte. *)
Definition parse_str (l : list ascii) : option (string * list ascii) :=
  '(s, rest) ← str_body (S (length l)) l; Some (of_l s, rest).

(** ** Numbers *)

Definition opt_minus (l : list ascii) : list ascii * list ascii :=
  match l with
  | a :: l' => if decide (a = "-"%char) then ([a], l') else ([], l)
  | [] => ([], [])
  end.

Definition num_int (l : list ascii) : option (list ascii * list ascii) :=
  match l with
  | a :: l' =>
      if decide (a = "0"%char) then Some ([a], l')
      else if in_range 49 57 a then Some (take_digits l) else None
  | [] => None
  end.

Definition num_frac (l : list ascii) : option (list ascii * list ascii) :=
  match l with
  | a :: l' =>
      if decide (a = "."%char) then
        let '(d, r) := take_digits l' in
        match d with [] => None | _ => Some (a :: d, r) end
      else Some ([], l)
  | [] => Some ([], [])
  end.

Definition num_exp (l : list ascii) : option (list ascii * list ascii) :=
  match l with
  | a :: l' =>
      if (code a =? 101) || (code a =? 69) then
        let '(sg, l2) := match l' with
          | b :: l2 => if (code b =? 43) || (code b =? 45) then ([b], l2) else ([], l')
          | [] => ([], [])
          end in
        let '(d, r) := take_digits l2 in
        match d with [] => None | _ => Some (a :: sg ++ d, r) end
      else Some ([], l)
  | [] => Some ([], [])
  end.

Definition parse_num (l : list ascii) : option (string * list ascii) :=
  let '(s, l1) := opt_minus l in
  '(i, l2) ← num_int l1; '(f, l3) ← num_frac l2; '(e, l4) ← num_exp l3;
  Some (of_l (s ++ i ++ f ++ e), l4).

(** ** Values *)

Definition parse_word (w : string) (v : json) (l : list ascii) : option (json * list ascii) :=
  if decide (take (String.length w) l = to_l w) then Some (v, drop (String.length w) l) else None.

Section compound.
Variable p : list ascii → option (json * list ascii).

(** The elements of a non-empty array, after the bracket or a comma. *)
Fixpoint parse_elems (fuel : nat) (l : list ascii) : option (list json * list ascii) :=
  match fuel with
  | O => None
  | S f =>
      '(v, l1) ← p (skip_ws l);
      match skip_ws l1 with
      | a :: l2 =>
          if code a =? 44 then '(vs, r) ← parse_elems f l2; Some (v :: vs, r)
          else if code a =? 93 then Some ([v], l2) else None
      | [] => None
      end
  end.

(** The members of a non-empty object, after the brace or a comma. *)
Fixpoint parse_members (fuel : nat) (l : list ascii)
    : option (list (string * (string * json)) * list ascii) :=
  match fuel with
  | O => None
  | S f =>
      match skip_ws l with
      | q :: l1 =>
          if code q =? 34 then
            '(k, l2) ← parse_str l1;
            match skip_ws l2 with
            | c :: l3 =>
                if code c =? 58 then
                  let start := skip_ws l3 in
                  '(v, l4) ← p start;
                  let raw := of_l (take (length start - length l4) start) in
                  match skip_ws l4 with
                  | a :: l5 =>
                      if code a =? 44 then
                        '(ms, r) ← parse_members f l5; Some ((k, (raw, v)) :: ms, r)
                      else if code a =? 125 then Some ([(k, (raw, v))], l5) else None
                  | [] => None
                  end
                else None
            | [] => None
            end
          else None
      | [] => None
      end
  end.
End compound.

(** A value at the head of the text; [depth] more containers may be opened. *)
Fixpoint parse_value (depth : nat) (l : list ascii) : option (json * list ascii) :=
  match l with
  | [] => None
  | a :: l1 =>
      let c := code a in
      if c =? 34 then '(s, r) ← parse_str l1; Some (JStr s, r)
      else if c =? 123 then
        match depth with
        | O => None
        | S d =>
            match skip_ws l1 with
            | b :: l2 =>
                if code b =? 125 then Some (JObj [], l2)
                else '(ms, r) ← parse_members (parse_value d) (length l1) l1; Some (JObj ms, r)
            | [] => None
            end
        end
      else if c =? 91 then
        match depth with
        | O => None
        | S d =>
            match skip_ws l1 with
            | b :: l2 =>
                if code b =? 93 then Some (JArr [], l2)
                else '(vs, r) ← parse_elems (parse_value d) (length l1) l1; Some (JArr vs, r)
            | [] => None
            end
        end
      else if c =? 116 then parse_word "true" (JBool true) l
      else if c =? 102 then parse_word "false" (JBool false) l
      else if c =? 110 then parse_word "null" JNull l
      else '(n, r) ← parse_num l; Some (JNum n, r)
  end.

(** The document: [None] is a syntax error. *)
Definition json_parse (s : string) : option json :=
  '(v, r) ← parse_value maxNestingDepth (skip_ws (to_l s));
  match skip_ws r with [] => Some v | _ => None end.

(** ** Decoding *)

(** Dynamic values: what [json.Unmarshal] stores in an [any], and the other
    dynamic types that the SDK's type switches name. *)
Inductive any : Type :=
| AnyNil
| AnyBool (b : bool)
| AnyFloat64 (x : float64)
| AnyInt (z : Z)
| AnyInt64 (z : Z)
| AnyNumber (lit : string) (** [json.Number] *)
| AnyString (s : string)
| AnySlice (l : list any)
| AnyMap (m : list (string * any)). (** members in order; the last one wins *)

(** [None] is the range error of a number. *)
Fixpoint any_of_json (v : json) : option any :=
  match v with
  | JNull => Some AnyNil
  | JBool b => Some (AnyBool b)
  | JNum lit => AnyFloat64 <$> ParseFloat lit
  | JStr s => Some (AnyString s)
  | JArr l =>
      AnySlice <$> (fix go (l : list json) : option (list any) :=
        match l with
        | [] => Some []
        | x :: l' => a ← any_of_json x; r ← go l'; Some (a :: r)
        end) l
  | JObj ms =>
      AnyMap <$> (fix go (ms : list (string * (string * json))) : option (list (string * any)) :=
        match ms with
        | [] => Some []
        | (k, (_, x)) :: ms' => a ← any_of_json x; r ← go ms'; Some ((k, a) :: r)
        end) ms
  end.

(** A Go map built from members in order. *)
Definition map_get {A} (k : string) (m : list (string * A)) : option A :=
  snd <$> last (filter (λ e, e.1 = k) m).

(** [json.Unmarshal(data, &m)] for [m map[string]any] that is initially nil or
    empty; [null] gives the nil map. [None] is any error. *)
Definition unmarshal_map (data : string) : option (list (string * any)) :=
  v ← json_parse data;
  match v with
  | JNull => Some []
  | JObj _ => a ← any_of_json v; match a with AnyMap m => Some m | _ => None end
  | _ => None
  end.

(** *** Struct fields *)

(** [foldName]: ASCII letters to upper case, and the two other runes that fold
    to an ASCII letter (U+017F to S, U+212A to K). *)
Fixpoint fold_name (l : list ascii) : list ascii :=
  match l with
  | [] => []
  | a :: l1 =>
      if in_range 97 122 a then chr (code a - 32) :: fold_name l1
      else match l1 with
           | b :: l2 =>
               if (code a =? 197) && (code b =? 191) then chr 83 :: fold_name l2
               else match l2 with
                    | c :: l3 =>
                        if (code a =? 226) && (code b =? 132) && (code c =? 170)
                        then chr 75 :: fold_name l3 else a :: fold_name l1
                    | [] => a :: fold_name l1
                    end
           | [] => [a]
           end
  end.

Definition names_field (field key : string) : bool :=
  bool_decide (fold_name (to_l key) = fold_name (to_l field)).

(** The members that address a field, in order. *)
Definition field_members (field : string) (ms : list (string * (string * json)))
    : list (string * json) :=
  snd <$> filter (λ m, names_field field m.1) ms.

(** A field of type [string]: each member assigns it; [null] does nothing;
    another kind of value is a type error. *)
Definition assign_string (cur : option string) (v : json) : option string :=
  s ← cur;
  match v with
  | JNull => Some s
  | JStr s' => Some s'
  | _ => None
  end.
Definition string_field (field : string) (ms : list (string * (string * json))) : option string :=
  foldl assign_string (Some EmptyString) (field_members field ms).*2.

(** A field of type [json.RawMessage]: the bytes of the last member, [null]
    included. *)
Definition raw_field (field : string) (ms : list (string * (string * json))) : string :=
  default EmptyString (last (field_members field ms).*1).

(** ** Encoding of strings *)

Definition enc_ascii (a : ascii) : list ascii :=
  let c := code a in
  if (c =? 34) || (c =? 92) then [backslash; a]
  else if c =? 8 then [backslash; "b"%char]
  else if c =? 12 then [backslash; "f"%char]
  else if c =? 10 then [backslash; "n"%char]
  else if c =? 13 then [backslash; "r"%char]
  else if c =? 9 then [backslash; "t"%char]
  else if (c <? 32) || (c =? 38) || (c =? 60) || (c =? 62)
  then [backslash; "u"%char] ++ hex_fixed 4 c
  else [a].

(** The literal of a string, given the escapes of ASCII bytes: invalid UTF-8 is
    written as U+FFFD, and the two line separators of JavaScript are escaped. *)
Fixpoint enc_with (esc : ascii → list ascii) (fuel : nat) (l : list ascii) : list ascii :=
  match fuel, l with
  | S f, a :: l1 =>
      if code a <? 128 then esc a ++ enc_with esc f l1
      else
        let '(r, w) := decode_rune l in
        if (r =? RuneError) && (w =? 1)%nat
        then [backslash; "u"; "f"; "f"; "f"; "d"]%char ++ enc_with esc f l1
        else if (r =? 8232) || (r =? 8233)
        then [backslash; "u"]%char ++ hex_fixed 4 r ++ enc_with esc f (drop w l)
        else take w l ++ enc_with esc f (drop w l)
  | _, _ => []
  end.
Definition enc_loop : nat → list ascii → list ascii := enc_with enc_ascii.

(** The same without the escaping of HTML ([SetEscapeHTML(false)]). *)
Definition enc_ascii_plain (a : ascii) : list ascii :=
  let c := code a in if (c =? 38) || (c =? 60) || (c =? 62) then [a] else enc_ascii a.
Definition enc_loop_plain : nat → list ascii → list ascii := enc_with enc_ascii_plain.

(** [json.Marshal] of a string. *)
Definition marshal_string (s : string) : string :=
  of_l (dquote :: enc_loop (String.length s) (to_l s) ++ [dquote]).

(** ** Lemmas: texts of strings *)

(** A piece of a string literal's text that stands for the bytes [b]. *)
Definition is_unit (t b : list ascii) : Prop :=
  t ≠ [] ∧ ∀ rest, str_unit (t ++ rest) = Some (inr (b, rest)).

(** A text made of units, and the bytes it stands for. *)
Inductive units : list ascii → list ascii → Prop :=
| units_nil : units [] []
| units_cons t b ts bs : is_unit t b → units ts bs → units (t ++ ts) (b ++ bs).
#[export] Hint Constructors units : sdk.

(** Bytes that stand for themselves in a string literal. *)
Definition plain (a : ascii) : Prop := 32 ≤ code a < 128 ∧ code a ≠ 34 ∧ code a ≠ 92.
#[global] Instance plain_dec a : Decision (plain a).
Proof. unfold plain. apply _. Defined.

Lemma encode_rune_ascii a : code a < 128 → encode_rune (code a) = [a].
Proof.
  intros Ha. pose proof (code_range a). unfold encode_rune. cbv zeta.
  repeat (case_match; try lia). by rewrite chr_code.
Qed.

Lemma plain_unit a : plain a → is_unit [a] [a].
Proof.
  intros (Hr & Hq & Hb). split; [done|]. intros rest. simpl. unfold str_unit, decode_rune.
  rewrite (proj2 (Z.eqb_neq _ _) Hq), (proj2 (Z.eqb_neq _ _) Hb).
  rewrite (proj2 (Z.ltb_ge _ _)) by lia. rewrite (proj2 (Z.ltb_lt _ _)) by lia.
  by rewrite encode_rune_ascii by lia.
Qed.

Lemma escape_unit e c : simple_escape e = Some c → is_unit [backslash; e] [c].
Proof. intros He. split; [done|]. intros rest. simpl. by rewrite He. Qed.

Lemma units_plain l : Forall plain l → units l l.
Proof.
  induction 1 as [|a l Ha _ IH]; [constructor|].
  apply (units_cons [a] [a]); [by apply plain_unit|done].
Qed.

Lemma units_app t1 b1 t2 b2 : units t1 b1 → units t2 b2 → units (t1 ++ t2) (b1 ++ b2).
Proof.
  induction 1 as [|t b ts bs Hu _ IH]; intros H2; [done|].
  rewrite <- !app_assoc. constructor; auto.
Qed.

Lemma units_length t b : units t b → ∀ rest fuel, (length t < fuel)%nat →
  str_body fuel (t ++ dquote :: rest) = Some (b, rest).
Proof.
  induction 1 as [|t b ts bs [Hne Hu] _ IH]; intros rest fuel Hf.
  - destruct fuel as [|f]; [lia|]. done.
  - destruct fuel as [|f]; [lia|]. cbn [str_body]. rewrite <- app_assoc, Hu.
    rewrite length_app in Hf. destruct t as [|a t]; [done|]. simpl in Hf.
    rewrite IH by lia. done.
Qed.

(** Reading a literal made of units. *)
Lemma parse_str_units t b rest :
  units t b → parse_str (t ++ dquote :: rest) = Some (of_l b, rest).
Proof.
  intros Hu. unfold parse_str. rewrite (units_length _ _ Hu); [done|].
  rewrite length_app. simpl. lia.
Qed.

(** [t] is the text between the quotes of a literal of the bytes [b], whatever
    follows. *)
Definition is_lit (t b : list ascii) : Prop := ∀ rest, parse_str (t ++ dquote :: rest) = Some (of_l b, rest).
Lemma units_lit t b : units t b → is_lit t b.
Proof. intros Hu rest. by apply parse_str_units. Qed.
#[export] Hint Resolve units_lit : sdk.

Lemma parse_value_str d t b rest :
  is_lit t b → parse_value d (dquote :: t ++ dquote :: rest) = Some (JStr (of_l b), rest).
Proof.
  intros Hu. destruct d; cbn [parse_value]; change (code dquote =? 34) with true; cbv zeta iota;
    by rewrite Hu.
Qed.

(** A member of an object whose name and value are string literals. *)
Definition str_member (tk tv : list ascii) : list ascii :=
  dquote :: tk ++ dquote :: ":"%char :: dquote :: tv ++ [dquote].

Lemma take_app_raw {A} (l r : list A) : take (length (l ++ r) - length r) (l ++ r) = l.
Proof.
  rewrite length_app. replace (length l + length r - length r)%nat with (length l) by lia.
  apply take_app_length.
Qed.

(** The text of a member. *)
Definition member_text (tk tv : list ascii) : list ascii := dquote :: tk ++ dquote :: ":"%char :: tv.

(** One member of an object whose value's text is [tv], followed by a comma or
    a brace. *)
Lemma parse_members_step d fuel tk bk tv v a rest :
  is_lit tk bk → (∀ r, skip_ws (tv ++ r) = tv ++ r) →
  parse_value d (tv ++ a :: rest) = Some (v, a :: rest) → code a = 44 ∨ code a = 125 →
  parse_members (parse_value d) (S fuel) (member_text tk tv ++ a :: rest) =
  let m := (of_l bk, (of_l tv, v)) in
  if code a =? 44 then
    '(ms, r) ← parse_members (parse_value d) fuel rest; Some (m :: ms, r)
  else Some ([m], rest).
Proof.
  intros Hk Hs Hv Ha. unfold member_text. cbn [parse_members app].
  rewrite <- !app_assoc. cbn [app skip_ws json_ws].
  change (json_ws dquote) with false. cbv iota.
  change (code dquote =? 34) with true. cbv iota.
  rewrite Hk. cbn [mbind option_bind].
  cbn [app skip_ws]. change (json_ws ":") with false. cbv iota.
  change (code ":" =? 58) with true. cbv iota zeta.
  rewrite Hs, Hv. cbn [mbind option_bind].
  assert (json_ws a = false) as Hws by (unfold json_ws; lia).
  cbn [skip_ws]. rewrite Hws, take_app_raw.
  destruct (code a =? 44) eqn:E44; [done|].
  by rewrite (proj2 (Z.eqb_eq (code a) 125)) by lia.
Qed.

(** One string member of an object, followed by a comma or a brace. *)
Lemma parse_members_str d fuel tk bk tv bv a rest :
  units tk bk → units tv bv → code a = 44 ∨ code a = 125 →
  parse_members (parse_value d) (S fuel) (str_member tk tv ++ a :: rest) =
  let m := (of_l bk, (of_l (dquote :: tv ++ [dquote]), JStr (of_l bv))) in
  if code a =? 44 then
    '(ms, r) ← parse_members (parse_value d) fuel rest; Some (m :: ms, r)
  else Some ([m], rest).
Proof.
  intros Hk Hv Ha. apply (parse_members_step d fuel tk bk (dquote :: tv ++ [dquote])); [by apply units_lit|done| |done].
  cbn [app]. rewrite <- app_assoc. by apply parse_value_str, units_lit.
Qed.

(** A control character inside a literal is a syntax error. *)
Lemma str_body_control t b a rest fuel :
  units t b → code a < 32 → str_body fuel (t ++ a :: rest) = None.
Proof.
  intros Hu Ha. revert fuel. induction Hu as [|t b ts bs [Hne Hu] _ IH]; intros fuel.
  - destruct fuel; [done|]. cbn [str_body app str_unit].
    rewrite (proj2 (Z.eqb_neq _ _)), (proj2 (Z.eqb_neq _ _)) by lia.
    by rewrite (proj2 (Z.ltb_lt _ _)) by lia.
  - destruct fuel; [done|]. cbn [str_body]. rewrite <- app_assoc, Hu. by rewrite IH.
Qed.

Lemma maxNestingDepth_S : maxNestingDepth = S (N.to_nat 9999).
Proof. unfold maxNestingDepth. lia. Qed.

Lemma parse_value_obj d l b l2 :
  skip_ws l = b :: l2 → code b ≠ 125 →
  parse_value (S d) ("{"%char :: l) =
  '(ms, r) ← parse_members (parse_value d) (length l) l; Some (JObj ms, r).
Proof.
  intros Hl Hb. cbn [parse_value]. rewrite Hl.
  change (code "{" =? 34) with false. change (code "{" =? 123) with true. cbv zeta iota.
  by rewrite (proj2 (Z.eqb_neq _ _) Hb).
Qed.

(** A document that is an object. *)
Lemma json_parse_obj l b l2 ms :
  skip_ws l = b :: l2 → code b ≠ 125 →
  parse_members (parse_value (N.to_nat 9999)) (length l) l = Some (ms, []) →
  json_parse (of_l ("{"%char :: l)) = Some (JObj ms).
Proof.
  intros Hl Hb Hm. unfold json_parse. rewrite to_of_l, maxNestingDepth_S.
  cbn [skip_ws]. change (json_ws "{") with false. cbv iota.
  by rewrite (parse_value_obj _ _ _ _ Hl Hb), Hm.
Qed.

Lemma json_parse_obj_None l b l2 :
  skip_ws l = b :: l2 → code b ≠ 125 →
  parse_members (parse_value (N.to_nat 9999)) (length l) l = None →
  json_parse (of_l ("{"%char :: l)) = None.
Proof.
  intros Hl Hb Hm. unfold json_parse. rewrite to_of_l, maxNestingDepth_S.
  cbn [skip_ws]. change (json_ws "{") with false. cbv iota.
  by rewrite (parse_value_obj _ _ _ _ Hl Hb), Hm.
Qed.

(** A member whose value is a broken string literal. *)
Lemma parse_members_bad_str d fuel tk bk l :
  units tk bk → (∀ n, str_body n l = None) →
  parse_members (parse_value d) fuel (dquote :: tk ++ dquote :: ":"%char :: dquote :: l) = None.
Proof.
  intros Hk Hl. destruct fuel as [|fuel]; [done|]. cbn [parse_members skip_ws].
  change (json_ws dquote) with false. cbv iota. change (code dquote =? 34) with true. cbv iota.
  rewrite (parse_str_units _ _ _ Hk). cbn [mbind option_bind skip_ws].
  change (json_ws ":") with false. cbv iota. change (code ":" =? 58) with true. cbv iota.
  cbn [skip_ws]. change (json_ws dquote) with false. cbv iota zeta.
  assert (parse_value d (dquote :: l) = None) as ->; [|done].
  destruct d; cbn [parse_value]; change (code dquote =? 34) with true; cbv zeta iota;
    unfold parse_str; by rewrite Hl.
Qed.

(** A string member whose value's text has a control character. *)
Lemma parse_members_control d fuel tk bk tv bv a rest :
  units tk bk → units tv bv → code a < 32 →
  parse_members (parse_value d) fuel
    (dquote :: tk ++ dquote :: ":"%char :: dquote :: tv ++ a :: rest) = None.
Proof.
  intros Hk Hv Ha. apply (parse_members_bad_str _ _ _ _ _ Hk).
  intros n. apply (str_body_control _ _ _ _ _ Hv Ha).
Qed.

Lemma units_literal s : forallb (λ a, (32 <=? code a) && (code a <? 128) &&
    negb (code a =? 34) && negb (code a =? 92)) (to_l s) = true → units (to_l s) (to_l s).
Proof.
  intros H. apply units_plain, Forall_forall. intros a Ha.
  apply (proj1 (forallb_forall _ _)) with (x := a) in H; [|by apply list_elem_of_In].
  unfold plain. lia.
Qed.

(** An object with one string member. *)
Lemma json_parse_str_obj tk bk tv bv :
  units tk bk → units tv bv →
  json_parse (of_l ("{"%char :: str_member tk tv ++ ["}"%char])) =
  Some (JObj [(of_l bk, (of_l (dquote :: tv ++ [dquote]), JStr (of_l bv)))]).
Proof.
  intros Hk Hv. eapply json_parse_obj; [reflexivity|done|].
  replace (length (str_member tk tv ++ ["}"%char]))
    with (S (pred (length (str_member tk tv ++ ["}"%char])))) by (unfold str_member; simpl; lia).
  rewrite (parse_members_str _ _ _ _ _ _ "}" [] Hk Hv) by (by right). done.
Qed.
