(* ===== verification/GoMux.v ===== *)
(** * Paths and patterns of [http.ServeMux]

    The part of [net/http] that both HTTP servers of the repository rely on: how
    a path is unescaped, cut into segments and cleaned, and how a mux whose
    patterns are plain paths (no method, no host, no wildcard, no escape) finds
    the pattern of a request. A plain pattern that ends in a slash stands for the
    whole subtree below it. *)
From Stdlib Require Import Ascii ZArith.
From stdpp Require Import prelude gmap strings list sorting.
From S2P Require Import Prelude GoStrings GoText Json.

Local Open Scope Z_scope.

(** ** Paths *)

(** [url.PathUnescape], or the segment itself when it is malformed. *)
Fixpoint percent_decode (l : list ascii) : option (list ascii) :=
  match l with
  | [] => Some []
  | a :: l1 =>
      if decide (a = "%"%char) then
        match l1 with
        | h :: g :: l2 => x ← hex_val_any h; y ← hex_val_any g; cons (chr (16 * x + y)) <$> percent_decode l2
        | _ => None
        end
      else cons a <$> percent_decode l1
  end.
Definition pathUnescape (s : string) : string := default s (of_l <$> percent_decode (to_l s)).

(** The text before the first slash, and the rest from that slash on. *)
Fixpoint cut_slash (s : string) : string * string :=
  match s with
  | EmptyString => (EmptyString, EmptyString)
  | String a s' =>
      if decide (a = "/"%char) then (EmptyString, s)
      else let '(seg, rest) := cut_slash s' in (String a seg, rest)
  end.
(** [firstSegment] of a path that is not empty. *)
Definition firstSegment (path : string) : string * string :=
  if decide (path = "/") then ("/", EmptyString)
  else match path with
       | EmptyString => (EmptyString, EmptyString)
       | String _ p => let '(seg, rest) := cut_slash p in (pathUnescape seg, rest)
       end.

(** [path.Clean] of a rooted path, by its segments; [acc] is reversed. *)
Fixpoint clean_segments (acc segs : list string) : list string :=
  match segs with
  | [] => reverse acc
  | s :: segs' =>
      if decide (s = EmptyString ∨ s = ".") then clean_segments acc segs'
      else if decide (s = "..") then clean_segments (tail acc) segs'
      else clean_segments (s :: acc) segs'
  end.
Definition path_Clean (p : string) : string := "/" +:+ Join "/" (clean_segments [] (Split1 "/" p)).
(** [strings.HasSuffix(p, "/")]. *)
Definition ends_slash (p : string) : bool := bool_decide (last (to_l p) = Some "/"%char).
Definition cleanPath (p : string) : string :=
  let p := if HasPrefix p "/" then p else "/" +:+ p in
  let np := path_Clean p in
  if ends_slash p && negb (bool_decide (np = "/")) then np +:+ "/" else np.

(** ** Plain patterns *)

(** A pattern without the characters that make it more than a path. *)
Definition plain_pattern (p : string) : Prop :=
  HasPrefix p "/" = true ∧ cleanPath p = p ∧
  Forall (λ a, a ∉ ["{"; "}"; "%"; " "; chr 9]%char) (to_l p).

(** A decoded segment that can be equal to one of a plain pattern. *)
Definition proper_segment (u : string) : bool := bool_decide (u ≠ EmptyString ∧ "/"%char ∉ to_l u).

(** The patterns that match a path of the segments [segs] below the node [acc],
    in the order in which [matchPath] tries them: at each node the literal child
    first and then the subtree pattern of the node itself. *)
Fixpoint mux_keys (acc : string) (segs : list string) : list string :=
  match segs with
  | [] => []
  | s :: segs' =>
      let u := pathUnescape s in
      (if proper_segment u
       then match segs' with [] => [acc +:+ u] | _ => mux_keys (acc +:+ u +:+ "/") segs' end
       else []) ++ [acc]
  end.
Definition matching_patterns (path : string) : list string :=
  match strip_prefix "/" path with
  | Some rest => mux_keys "/" (Split1 "/" rest)
  | None => []
  end.

Section mux.
Context {A : Type}.
Implicit Types tbl : gmap string A.

(** The pattern that matches a path, with what was registered for it. *)
Definition mux_match tbl (path : string) : option (string * A) :=
  head (omap (λ k, pair k <$> tbl !! k) (matching_patterns path)).

Definition slashes (p : string) : nat := length (filter (λ a, a = "/"%char) (to_l p)).

(** [exactMatch]: the pattern matches without the help of its trailing slash. *)
Definition exactMatch (n : option (string * A)) (path : string) : bool :=
  match n with
  | None => false
  | Some (k, _) => negb (ends_slash k) || (ends_slash path && bool_decide (slashes k = slashes path))
  end.

Inductive found :=
| Found (h : A)
| MovedTo (path : string)           (** a redirect, 301 *)
| Unknown.                          (** 404 *)

(** [findHandler] for a request of method [meth], on its escaped path. *)
Definition findHandler tbl (meth escapedPath : string) : found :=
  let path := if decide (meth = "CONNECT") then escapedPath else cleanPath escapedPath in
  let n := mux_match tbl path in
  if negb (exactMatch n path) && negb (ends_slash path) && negb (bool_decide (path = EmptyString))
     && exactMatch (mux_match tbl (path +:+ "/")) (path +:+ "/")
  then MovedTo (cleanPath (pathUnescape escapedPath) +:+ "/")
  else if decide (path ≠ escapedPath) then MovedTo path
  else match n with Some (_, h) => Found h | None => Unknown end.
End mux.
Arguments found : clear implicits.

(** ** Lemmas on clean paths *)

Lemma percent_decode_id l : "%"%char ∉ l → percent_decode l = Some l.
Proof.
  induction l as [|a l IH]; intros Hl; [done|]. cbn [percent_decode].
  rewrite decide_False by set_solver. by rewrite IH by set_solver.
Qed.
Lemma pathUnescape_id s : "%"%char ∉ to_l s → pathUnescape s = s.
Proof. intros Hs. unfold pathUnescape. rewrite percent_decode_id by done. apply of_to_l. Qed.

(** A segment as it stands in a path. *)
Definition plain_segment (s : string) : Prop := ("/"%char ∉ to_l s) ∧ ("%"%char ∉ to_l s).

(** The segments of a clean path: only the last may be empty. *)
Fixpoint segs_ok (segs : list string) : Prop :=
  match segs with
  | [] => False
  | [s] => plain_segment s
  | s :: segs' => s ≠ EmptyString ∧ plain_segment s ∧ segs_ok segs'
  end.
Definition path_ok (p : string) : Prop := ∃ segs, p = "/" +:+ Join "/" segs ∧ segs_ok segs.

Lemma segs_ok_cons s t segs : segs_ok (s :: t :: segs) ↔ s ≠ EmptyString ∧ plain_segment s ∧ segs_ok (t :: segs).
Proof. done. Qed.
Lemma Join_slash s t segs : Join "/" (s :: t :: segs) = s +:+ "/" +:+ Join "/" (t :: segs).
Proof. done. Qed.

Lemma Split1_Join segs : segs_ok segs → Split1 "/" (Join "/" segs) = segs.
Proof.
  induction segs as [|s [|t segs] IH]; [done|intros [H _]; by apply Split1_none|].
  rewrite segs_ok_cons, Join_slash. intros (_ & [H _] & Hs). cbn [String.append].
  rewrite (Split1_app "/" s (Join "/" (t :: segs))) by done. by rewrite IH.
Qed.

Lemma segs_ok_snoc cs :
  Forall (λ s, s ≠ EmptyString ∧ plain_segment s) cs → segs_ok (cs ++ [EmptyString]).
Proof.
  induction 1 as [|s cs [Hs Hp] _ IH]; [split; apply not_elem_of_nil|]. cbn [app].
  destruct (cs ++ [EmptyString]) eqn:E; [by destruct cs|]. by rewrite segs_ok_cons.
Qed.
Lemma segs_ok_all cs :
  Forall (λ s, s ≠ EmptyString ∧ plain_segment s) cs → cs ≠ [] → segs_ok cs.
Proof.
  induction 1 as [|s cs [Hs Hp] H IH]; [done|]. intros _. destruct cs as [|t cs]; [done|].
  rewrite segs_ok_cons. split_and!; [done..|by apply IH].
Qed.
Lemma Join_snoc cs : cs ≠ [] → Join "/" (cs ++ [EmptyString]) = Join "/" cs +:+ "/".
Proof.
  induction cs as [|s [|t cs] IH]; [done|done|]. intros _. cbn [app]. rewrite !Join_slash.
  change (t :: cs ++ [EmptyString]) with ((t :: cs) ++ [EmptyString]). rewrite IH by done.
  by rewrite !str_app_assoc.
Qed.

Lemma Split1_noslash sep s : Forall (λ u, sep ∉ to_l u) (Split1 sep s).
Proof.
  induction s as [|a s IH]; cbn [Split1]; [constructor; [apply not_elem_of_nil|done]|].
  case_decide; [constructor; [apply not_elem_of_nil|done]|].
  destruct (Split1 sep s) as [|p ps]; inversion IH; subst;
    constructor; cbn; rewrite ?not_elem_of_cons; try done; split; done || apply not_elem_of_nil.
Qed.

Lemma clean_segments_proper acc segs :
  Forall (λ s, s ≠ EmptyString ∧ "/"%char ∉ to_l s) acc → Forall (λ s, "/"%char ∉ to_l s) segs →
  Forall (λ s, s ≠ EmptyString ∧ "/"%char ∉ to_l s) (clean_segments acc segs).
Proof.
  revert acc. induction segs as [|s segs IH]; intros acc Ha Hs; cbn [clean_segments]; [by apply Forall_reverse|].
  apply Forall_cons in Hs as [Hs1 Hs]. case_decide as Hd; [by apply IH|]. case_decide; apply IH; try done.
  - by destruct Ha.
  - constructor; [|done]. split; [naive_solver|done].
Qed.

Lemma clean_segments_Forall (P : string → Prop) acc segs :
  Forall P acc → Forall P segs → Forall P (clean_segments acc segs).
Proof.
  revert acc. induction segs as [|s segs IH]; intros acc Ha Hs; cbn [clean_segments]; [by apply Forall_reverse|].
  apply Forall_cons in Hs as [Hs1 Hs]. case_decide; [by apply IH|]. case_decide; apply IH; try done.
  - by destruct Ha.
  - by constructor.
Qed.
Lemma Split1_chars (P : ascii → Prop) sep s :
  Forall P (to_l s) → Forall (λ u, Forall P (to_l u)) (Split1 sep s).
Proof.
  induction s as [|a s IH]; cbn [Split1]; [by repeat constructor|].
  intros [Ha Hs]%Forall_cons. case_decide; [by constructor; auto|].
  specialize (IH Hs). destruct (Split1 sep s) as [|p ps]; [by repeat constructor|].
  apply Forall_cons in IH as [Hp Hps]. constructor; [|done]. by constructor.
Qed.

(** The segments that [cleanPath] keeps are proper. *)
Lemma cleanPath_ok p : "%"%char ∉ to_l p → path_ok (cleanPath p).
Proof.
  intros Hpc. unfold cleanPath. set (q := if HasPrefix p "/" then p else _). unfold path_Clean.
  assert (Forall (λ a, a ≠ "%"%char) (to_l q)) as Hq.
  { assert (Forall (λ a, a ≠ "%"%char) (to_l p)) by (apply Forall_forall; by intros a Ha ->).
    unfold q. case_match; [done|]. by constructor. }
  pose proof (clean_segments_proper [] (Split1 "/" q) (List.Forall_nil _) (Split1_noslash _ _)) as Hcs.
  pose proof (clean_segments_Forall _ [] (Split1 "/" q) (List.Forall_nil _) (Split1_chars _ _ _ Hq)) as Hch.
  set (cs := clean_segments [] (Split1 "/" q)) in *.
  assert (Forall (λ s, s ≠ EmptyString ∧ plain_segment s) cs) as Hok.
  { rewrite Forall_forall in *. intros s Hs. destruct (Hcs s Hs). split; [done|]. split; [done|]. intros Hc.
    by apply (proj1 (Forall_forall _ _) (Hch s Hs) _ Hc). }
  destruct (decide (cs = [])) as [->|Hne].
  { exists [EmptyString]. cbn. rewrite andb_false_r. split; [done|]. split; apply not_elem_of_nil. }
  case_match.
  - exists (cs ++ [EmptyString]). rewrite Join_snoc by done. split; [by rewrite str_app_assoc|by apply segs_ok_snoc].
  - exists cs. split; [done|by apply segs_ok_all].
Qed.

Lemma ends_slash_snoc s : ends_slash (s +:+ "/") = true.
Proof. unfold ends_slash. rewrite to_l_app, last_app. done. Qed.

Lemma path_ok_snoc p : path_ok p → ends_slash p = false → path_ok (p +:+ "/").
Proof.
  intros (segs & -> & Hs) He. exists (segs ++ [EmptyString]).
  assert (segs ≠ []) as Hne by (by intros ->). rewrite Join_snoc by done. split; [by rewrite str_app_assoc|].
  apply segs_ok_snoc. clear Hne. induction segs as [|s [|t segs] IH]; [done| |].
  - constructor; [|done]. split; [|done]. intros ->. done.
  - destruct Hs as (? & ? & Hs). constructor; [done|]. apply IH; [done|]. revert He. rewrite Join_slash.
    unfold ends_slash. rewrite !to_l_app, !last_app.
    destruct (last (to_l (Join "/" (t :: segs)))) ; done.
Qed.

Lemma cleanPath_ends p : ends_slash p = true → ends_slash (cleanPath p) = true.
Proof.
  intros He. unfold cleanPath. set (q := if HasPrefix p "/" then p else _).
  assert (ends_slash q = true) as ->.
  { unfold q. case_match; [done|]. revert He. unfold ends_slash. rewrite to_l_app, last_app. by destruct (last (to_l p)). }
  cbn [andb]. case_bool_decide as Hn; cbn [negb]; [by rewrite Hn|apply ends_slash_snoc].
Qed.

(** ** The pattern that is found *)

(** A plain pattern covers its own path and, if it ends in a slash, all below. *)
Definition covers (k p : string) : Prop := k = p ∨ ends_slash k = true ∧ HasPrefix p k = true.

Lemma covers_length k p : covers k p → (String.length k ≤ String.length p)%nat.
Proof. intros [->|[_ (r & ->)%HasPrefix_true]]; [done|]. rewrite str_length_app. lia. Qed.
Lemma covers_full k p : covers k p → (String.length p ≤ String.length k)%nat → k = p.
Proof.
  intros [->|[_ (r & ->)%HasPrefix_true]]; [done|]. rewrite str_length_app. intros Hl.
  destruct r; [by rewrite app_empty_r|cbn in Hl; lia].
Qed.

Lemma proper_plain u : u ≠ EmptyString → plain_segment u → proper_segment u = true.
Proof. intros Hu [Hs _]. unfold proper_segment. by apply bool_decide_eq_true. Qed.

(** A prefix that ends in a slash lies within [acc] and one segment, or goes
    beyond it. *)
Lemma prefix_segment u rest x r :
  "/"%char ∉ to_l u → ends_slash x = true → x +:+ r = u +:+ "/" +:+ rest →
  ∃ x', x = u +:+ "/" +:+ x' ∧ rest = x' +:+ r.
Proof.
  revert x. induction u as [|a u IH]; intros x Hu Hx He.
  - destruct x as [|b x]; [done|]. cbn in He. simplify_eq. by exists x.
  - destruct x as [|b x]; [done|]. cbn in He, Hu. simplify_eq.
    destruct (IH x) as (x' & -> & ->); [set_solver| |done|by exists x'].
    revert Hx. unfold ends_slash. cbn [to_l]. destruct x as [|c x]; [|done]. cbn. intros Hx.
    apply bool_decide_eq_true in Hx. simplify_eq. set_solver.
Qed.
Lemma prefix_last u x r :
  "/"%char ∉ to_l u → ends_slash x = true → x +:+ r = u → False.
Proof.
  intros Hu Hx <-. apply Hu. rewrite to_l_app, elem_of_app. left.
  unfold ends_slash in Hx. apply bool_decide_eq_true in Hx. by apply last_Some_elem_of.
Qed.

Lemma ends_slash_app x y : y ≠ EmptyString → ends_slash (x +:+ y) = ends_slash y.
Proof.
  intros Hy. unfold ends_slash. rewrite to_l_app, last_app.
  destruct (last (to_l y)) eqn:E; [done|]. apply last_None in E. by destruct y.
Qed.

Lemma mux_keys_cons acc s t segs :
  mux_keys acc (s :: t :: segs) =
  (if proper_segment (pathUnescape s) then mux_keys (acc +:+ pathUnescape s +:+ "/") (t :: segs) else []) ++ [acc].
Proof. done. Qed.

(** The patterns that are tried are those that cover the path. *)
Lemma mux_keys_covers acc segs k :
  segs_ok segs → ends_slash acc = true →
  (k ∈ mux_keys acc segs ↔
   k = acc +:+ Join "/" segs ∨ ∃ x r, k = acc +:+ x ∧ Join "/" segs = x +:+ r ∧ ends_slash k = true).
Proof.
  revert acc. induction segs as [|s [|t segs] IH]; intros acc Hok Ha; [done| |].
  - cbn [mux_keys Join]. destruct Hok as [Hs Hp]. rewrite pathUnescape_id by done.
    rewrite elem_of_app, list_elem_of_singleton. destruct (decide (s = EmptyString)) as [->|Hne].
    + change (proper_segment EmptyString) with false. cbn. rewrite app_empty_r. split; [intros [[]%not_elem_of_nil|]; auto|].
      intros [->|(x & r & -> & He & _)]; [auto|]. destruct x as [|a x]; [|done].
      rewrite app_empty_r. auto.
    + rewrite proper_plain by done. rewrite list_elem_of_singleton. split.
      * intros [->| ->]; [auto|]. right. exists EmptyString, s. by rewrite app_empty_r.
      * intros [->|(x & r & -> & He & Hk)]; [auto|]. destruct (decide (x = EmptyString)) as [->|Hx].
        { rewrite app_empty_r. auto. }
        exfalso. rewrite ends_slash_app in Hk by done. eauto using prefix_last.
  - rewrite segs_ok_cons in Hok. destruct Hok as (Hne & [Hs Hp] & Hok). rewrite mux_keys_cons.
    rewrite pathUnescape_id by done. rewrite proper_plain by done.
    rewrite elem_of_app, list_elem_of_singleton, Join_slash, IH by (done || by rewrite <- str_app_assoc; apply ends_slash_snoc).
    rewrite !str_app_assoc. split.
    + intros [[->|(x & r & -> & He & Hk)]| ->]; [auto| |].
      * right. exists (s +:+ "/" +:+ x), r. rewrite He, !str_app_assoc in *. done.
      * right. eexists EmptyString, _. by rewrite app_empty_r.
    + intros [->|(x & r & -> & He & Hk)]; [auto|]. destruct (decide (x = EmptyString)) as [->|Hx].
      { rewrite app_empty_r. auto. }
      rewrite ends_slash_app in Hk by done. symmetry in He. apply prefix_segment in He as (x' & -> & He); [|done..].
      left. right. exists x', r. rewrite ends_slash_app by done. by rewrite !str_app_assoc.
Qed.

(** They are tried from the longest to the shortest. *)
Lemma mux_keys_longer acc segs : Forall (λ k, String.length acc ≤ String.length k)%nat (mux_keys acc segs).
Proof.
  revert acc. induction segs as [|s segs IH]; intros acc; [done|]. cbn [mux_keys].
  apply Forall_app. split; [|by constructor]. case_match; [|done]. destruct segs as [|t segs].
  - constructor; [|done]. rewrite str_length_app. lia.
  - eapply Forall_impl; [apply IH|]. cbn. intros k. rewrite !str_length_app. lia.
Qed.
Lemma mux_keys_sorted acc segs :
  StronglySorted (λ k k', String.length k' ≤ String.length k)%nat (mux_keys acc segs).
Proof.
  revert acc. induction segs as [|s segs IH]; intros acc; [constructor|]. cbn [mux_keys].
  assert (∀ l, StronglySorted (λ k k', String.length k' ≤ String.length k)%nat l →
    Forall (λ k, String.length acc ≤ String.length k)%nat l →
    StronglySorted (λ k k', String.length k' ≤ String.length k)%nat (l ++ [acc])) as Happ.
  { induction 1 as [|k l Hl IHl Hk]; intros Hf; [by repeat constructor|]. cbn [app]. inversion Hf; subst.
    constructor; [by apply IHl|]. apply Forall_app. split; [done|by constructor]. }
  apply Happ; case_match; try constructor.
  - destruct segs; [by repeat constructor|apply IH].
  - destruct segs as [|t segs]; [constructor; [|done]; rewrite str_length_app; lia|].
    eapply Forall_impl; [apply mux_keys_longer|]. cbn. intros k. rewrite !str_length_app. lia.
Qed.

Lemma matching_patterns_covers p k : path_ok p → (k ∈ matching_patterns p ↔ covers k p ∧ k ≠ EmptyString).
Proof.
  intros (segs & -> & Hok). unfold matching_patterns. rewrite strip_prefix_app, Split1_Join by done.
  rewrite mux_keys_covers by done. unfold covers. rewrite HasPrefix_true. split.
  - intros [->|(x & r & -> & He & Hk)]; [auto|]. split; [|done]. right. split; [done|].
    exists r. by rewrite He, str_app_assoc.
  - intros [[->|[Hk (r & He)]] Hne]; [auto|]. destruct k as [|a k]; [done|]. cbn in He. simplify_eq. right. eauto.
Qed.

(** The pattern that serves a path: the longest that covers it. *)
Definition best (ps : gset string) (p k : string) : Prop :=
  k ∈ ps ∧ covers k p ∧ ∀ k', k' ∈ ps → covers k' p → (String.length k' ≤ String.length k)%nat.

(** Where a path is redirected to: its cleaning, with a slash when only the
    subtree is a pattern. *)
Definition canonical (ps : gset string) (p : string) : string :=
  let q := cleanPath p in
  if bool_decide ((q ∉ ps) ∧ q +:+ "/" ∈ ps ∧ ends_slash q = false) then q +:+ "/" else q.

(** At most one pattern is the best. *)
Lemma best_unique ps p k k' : best ps p k → best ps p k' → k = k'.
Proof.
  intros (Hk & Hc & Hm) (Hk' & Hc' & Hm').
  assert (String.length k = String.length k') as Hl by (apply Nat.le_antisymm; auto).
  destruct Hc as [->|[He (r & ->)%HasPrefix_true]].
  { symmetry. apply covers_full; [done|lia]. }
  destruct Hc' as [->|[He' (r' & Hr)%HasPrefix_true]].
  { apply covers_full; [|lia]. right. split; [done|]. apply HasPrefix_true. eauto. }
  apply to_l_inj. apply (f_equal to_l) in Hr. rewrite !to_l_app in Hr.
  apply app_inj_1 in Hr as [? _]; [done|]. by rewrite !length_to_l.
Qed.

Section found.
Context {A : Type}.
Implicit Types tbl : gmap string A.

Lemma head_omap_sorted tbl l :
  StronglySorted (λ k k', String.length k' ≤ String.length k)%nat l →
  match head (omap (λ k, pair k <$> tbl !! k) l) with
  | Some (k, a) => k ∈ l ∧ tbl !! k = Some a ∧
      ∀ k', k' ∈ l → is_Some (tbl !! k') → (String.length k' ≤ String.length k)%nat
  | None => ∀ k, k ∈ l → tbl !! k = None
  end.
Proof.
  induction 1 as [|k l _ IH Hk]; [by intros k ?%not_elem_of_nil|]. cbn [omap list_omap].
  destruct (tbl !! k) as [a|] eqn:E; cbn.
  - split; [by left|]. split; [done|]. intros k' [->|Hin]%elem_of_cons _; [done|].
    by apply (proj1 (Forall_forall _ _) Hk).
  - destruct (head (omap _ l)) as [[k1 a]|]; setoid_rewrite elem_of_cons.
    + destruct IH as (Hin & Ha & Hmax). split; [by right|]. split; [done|].
      intros k' [->|Hk'] Hs; [rewrite E in Hs; by destruct Hs|auto].
    + intros k' [->|Hk']; auto.
Qed.

Lemma path_ok_ne p : path_ok p → p ≠ EmptyString.
Proof. by intros (segs & -> & _). Qed.
Lemma covers_ne k p : path_ok p → covers k p → k ≠ EmptyString.
Proof. intros Hp [->|[He _]]; [by apply path_ok_ne|]. by intros ->. Qed.

Lemma mux_match_best tbl p :
  path_ok p →
  match mux_match tbl p with
  | Some (k, a) => tbl !! k = Some a ∧ best (dom tbl) p k
  | None => ∀ k, covers k p → tbl !! k = None
  end.
Proof.
  intros Hp. assert (∀ k, k ∈ matching_patterns p ↔ covers k p) as Hc.
  { intros k. rewrite matching_patterns_covers by done. split; [by intros []|]. eauto using covers_ne. }
  assert (StronglySorted (λ k k', String.length k' ≤ String.length k)%nat (matching_patterns p)) as Hs.
  { unfold matching_patterns. case_match; [apply mux_keys_sorted|constructor]. }
  pose proof (head_omap_sorted tbl _ Hs) as Hh. unfold mux_match.
  destruct (head _) as [[k a]|]; setoid_rewrite Hc in Hh; [|done]. destruct Hh as (H1 & H2 & H3). unfold best. setoid_rewrite elem_of_dom. eauto 10.
Qed.

(** A path is matched exactly when it is a pattern itself. *)
Lemma exactMatch_iff tbl p : path_ok p → exactMatch (mux_match tbl p) p = bool_decide (is_Some (tbl !! p)).
Proof.
  intros Hp. pose proof (mux_match_best tbl p Hp) as Hm. destruct (mux_match tbl p) as [[k a]|]; cbn [exactMatch].
  - destruct Hm as (Ha & _ & Hc & Hmax). setoid_rewrite elem_of_dom in Hmax. destruct (decide (k = p)) as [->|Hne].
    + rewrite Ha, !bool_decide_true by done. by destruct (ends_slash p).
    + rewrite (bool_decide_false (is_Some _)).
      2:{ intros Hs. apply Hne, covers_full; [done|]. apply Hmax; [done|by left]. }
      destruct Hc as [->|[He (r & ->)%HasPrefix_true]]; [done|]. rewrite He. cbn [negb orb].
      destruct (ends_slash (k +:+ r)) eqn:Hr; [|done]. cbn [andb]. apply bool_decide_false. unfold slashes.
      rewrite to_l_app, filter_app, length_app. intros Hl. destruct (decide (r = EmptyString)) as [->|Hrn].
      { by rewrite app_empty_r in Hne. }
      rewrite ends_slash_app in Hr by done. unfold ends_slash in Hr. apply bool_decide_eq_true, last_Some_elem_of in Hr.
      assert (length (filter (λ a, a = "/"%char) (to_l r)) = 0)%nat as H0%nil_length_inv by lia.
      by apply (filter_nil_not_elem_of (λ a, a = "/"%char) (to_l r) "/"%char H0).
  - rewrite bool_decide_false; [done|]. rewrite (Hm p) by (by left). by intros [].
Qed.

Lemma findHandler_plain tbl meth p :
  meth ≠ "CONNECT" → "%"%char ∉ to_l p →
  findHandler tbl meth p =
    if decide (canonical (dom tbl) p ≠ p) then MovedTo (canonical (dom tbl) p)
    else match mux_match tbl p with Some (_, h) => Found h | None => Unknown end.
Proof.
  intros Hm Hpc. unfold findHandler, canonical. cbv zeta.
  rewrite (bool_decide_ext (_ ∧ _) (¬ is_Some (tbl !! cleanPath p) ∧ is_Some (tbl !! (cleanPath p +:+ "/")) ∧
    ends_slash (cleanPath p) = false)) by (by rewrite !elem_of_dom).
  rewrite decide_False by done. rewrite pathUnescape_id by done.
  pose proof (cleanPath_ok p Hpc) as Hok. set (q := cleanPath p) in *.
  rewrite exactMatch_iff by done. rewrite (bool_decide_false (q = EmptyString)) by (by apply path_ok_ne).
  destruct (ends_slash q) eqn:Eq.
  - rewrite andb_false_r. cbn [andb]. rewrite bool_decide_false by (by intros (_ & _ & ?)).
    case_decide as Hq; [done|]. by rewrite Hq.
  - rewrite exactMatch_iff by (by apply path_ok_snoc). rewrite !andb_true_r.
    destruct (decide (is_Some (tbl !! q))) as [Hs|Hs].
    + rewrite bool_decide_true by done. cbn [negb andb].
      rewrite bool_decide_false by (by intros (Hn & _)).
      case_decide as Hq; [done|]. by rewrite Hq.
    + rewrite (bool_decide_false (is_Some (tbl !! q))) by done. cbn [negb andb].
      destruct (decide (is_Some (tbl !! (q +:+ "/")))) as [Ht|Ht].
      * rewrite !bool_decide_true by done. rewrite decide_True; [done|]. intros Hp.
        assert (ends_slash p = true) as He by (rewrite <- Hp; apply ends_slash_snoc).
        apply cleanPath_ends in He. fold q in He. congruence.
      * rewrite !bool_decide_false by naive_solver. case_decide as Hq; [done|]. by rewrite Hq.
Qed.
End found.
