(* ===== verification/Webhook.v ===== *)
(** * The webhook server (package [webhookhttp])

    Models src/webhookhttp/server.go: [New], [Handle], the routing table that
    [ListenAndServe] builds, the per-path dispatch closure and [serveRoute].
    Handlers, verifiers and key extractors are the adapter author's code: they
    are arbitrary programs over a state [W], in atomic steps, because [net/http]
    runs the requests concurrently. The goroutines and the shutdown of
    [ListenAndServe] are in Lifecycle. The paths are plain patterns of
    [http.ServeMux] (GoMux): a pattern with a method, a host, a wildcard or an
    escape, and one without a slash, on which the mux panics, are outside the
    model. *)
From Stdlib Require Import Ascii ZArith.
From stdpp Require Import prelude gmap strings.
From S2P Require Import Prelude GoStrings GoText GoCrypto Sig Json GoMux.

Local Open Scope Z_scope.

(** ** HTTP messages *)

(** The parts of [*http.Request] that the server reads. [EscapedPath] is
    [r.URL.EscapedPath()]; [body_fails] says that the transport reports an error
    before the end of the body. *)
Record request := Request {
  Method : string;
  EscapedPath : string;
  Header : gmap string (list string);
  ReqBody : string;
  body_fails : bool;
}.

(** [http.Header.Get] for a canonical key. *)
Definition header_get (h : gmap string (list string)) (k : string) : string :=
  default EmptyString (h !! k ≫= head).

Record response := Response {
  status : Z;
  rheader : gmap string string;
  rbody : string;
}.

(** What the server answers: a response, or the redirect (301) of [net/http] to a
    path, with the query of the request. *)
Inductive answer :=
| Responded (r : response)
| RedirectedTo (path : string).

(** [http.Error]. *)
Definition http_Error (hdr : gmap string string) (msg : string) (st : Z) : response :=
  Response st
    (<["X-Content-Type-Options" := "nosniff"]>
      (<["Content-Type" := "text/plain; charset=utf-8"]> (delete "Content-Length" hdr)))
    (msg +:+ str1 newline).

Definition StatusOK : Z := 200.
Definition StatusAccepted : Z := 202.
Definition StatusBadRequest : Z := 400.
Definition StatusUnauthorized : Z := 401.
Definition StatusNotFound : Z := 404.
Definition StatusMethodNotAllowed : Z := 405.
Definition StatusRequestEntityTooLarge : Z := 413.
Definition StatusInternalServerError : Z := 500.
Definition StatusServiceUnavailable : Z := 503.

(** [io.ReadAll(http.MaxBytesReader(w, req.Body, limit))]. *)
Definition read_limited (req : request) (limit : Z) : option string :=
  if body_fails req || (limit <? len (ReqBody req)) then None else Some (ReqBody req).

(** ** Server state *)

Definition DefaultMaxBodyBytes : Z := 65536.
Definition second : Z := 1000000000.

Record Config := {
  Addr : string;
  HasTLSConfig : bool;
  MaxBodyBytes : Z;
  ReadTimeout : Z;
  WriteTimeout : Z;
  IdleTimeout : Z;
}.

Record Delivery := {
  Body : string;
  Headers : gmap string (list string);
  IdempotencyKey : string;
}.

Definition ErrDuplicate : error :=
  Sentinel "webhookhttp.ErrDuplicate" "webhookhttp: duplicate delivery".

(** ** Programs over a shared state *)

(** A computation in atomic steps, between which others may run. *)
Inductive task (W A : Type) : Type :=
| TRet (a : A)
| TAct (X : Type) (f : W → X * W) (k : X → task W A).
Arguments TRet {W A} a.
Arguments TAct {W A} X f k.

Fixpoint task_bind {W A B} (k : A → task W B) (t : task W A) : task W B :=
  match t with
  | TRet a => k a
  | TAct X f t' => TAct X f (λ x, task_bind k (t' x))
  end.
#[global] Instance task_ret {W} : MRet (task W) := λ A a, TRet a.
#[global] Instance task_mbind {W} : MBind (task W) := λ A B k t, task_bind k t.

(** The computation alone, from start to end. *)
Fixpoint run_task {W A} (t : task W A) (w : W) : A * W :=
  match t with
  | TRet a => (a, w)
  | TAct X f k => let '(x, w') := f w in run_task (k x) w'
  end.

Lemma run_task_bind {W A B} (t : task W A) (k : A → task W B) w :
  run_task (t ≫= k) w = let '(a, w') := run_task t w in run_task (k a) w'.
Proof.
  revert w. induction t as [a|X f t IH]; intros w; [done|]. cbn. destruct (f w) as [x w']. apply IH.
Qed.

Section server.
Context {W : Type}.

Definition Handler : Type := Delivery → task W (option error).

Record handlerConfig := {
  verify : option (request → string → task W (option error));
  idempotencyFn : option (request → string → task W string);
  maxBodyBytes : Z;
}.

Definition HandlerOption : Type := handlerConfig → handlerConfig.

Definition WithVerifyFunc (fn : request → string → task W (option error)) : HandlerOption :=
  λ c, {| verify := Some fn; idempotencyFn := idempotencyFn c; maxBodyBytes := maxBodyBytes c |}.
Definition WithIdempotencyKey (fn : request → string → task W string) : HandlerOption :=
  λ c, {| verify := verify c; idempotencyFn := Some fn; maxBodyBytes := maxBodyBytes c |}.
Definition WithMaxBodyBytes (n : Z) : HandlerOption :=
  λ c, {| verify := verify c; idempotencyFn := idempotencyFn c; maxBodyBytes := n |}.

Record route := { handler : Handler; opts : handlerConfig }.

Record Server := {
  cfg : Config;
  routes : gmap string (gmap string route); (** method to path to route *)
}.

Definition New (c : Config) : Server :=
  {| cfg := {| Addr := Addr c; HasTLSConfig := HasTLSConfig c;
               MaxBodyBytes := if MaxBodyBytes c <=? 0 then DefaultMaxBodyBytes else MaxBodyBytes c;
               ReadTimeout := if ReadTimeout c =? 0 then 10 * second else ReadTimeout c;
               WriteTimeout := if WriteTimeout c =? 0 then 10 * second else WriteTimeout c;
               IdleTimeout := if IdleTimeout c =? 0 then 30 * second else IdleTimeout c |};
     routes := ∅ |}.

(** The route that [Handle] builds from its options, applied in order. *)
Definition mk_route (s : Server) (h : Handler) (os : list HandlerOption) : route :=
  let hc := foldl (λ c o, o c)
    {| verify := None; idempotencyFn := None; maxBodyBytes := MaxBodyBytes (cfg s) |} os in
  let hc := if maxBodyBytes hc <=? 0 then WithMaxBodyBytes (MaxBodyBytes (cfg s)) hc else hc in
  {| handler := h; opts := hc |}.

Definition Handle (method path : string) (h : Handler) (os : list HandlerOption) (s : Server) : Server :=
  let byPath := default ∅ (routes s !! method) in
  {| cfg := cfg s;
     routes := <[method := <[path := mk_route s h os]> byPath]> (routes s) |}.

(** ** Serving *)

(** The status line and body for the handler's result. *)
Definition handler_response (e : option error) : response :=
  match e with
  | None => Response StatusAccepted ∅ EmptyString
  | Some e =>
      if errors_is "webhookhttp.ErrDuplicate" e then Response StatusOK ∅ EmptyString
      else match errors_as_terminal e with
           | Some te => http_Error ∅ (error_text te) StatusBadRequest
           | None => http_Error ∅ "internal" StatusInternalServerError
           end
  end.

Definition serveRoute (req : request) (r : route) : task W response :=
  match read_limited req (maxBodyBytes (opts r)) with
  | None => mret (http_Error ∅ "body too large or unreadable" StatusRequestEntityTooLarge)
  | Some body =>
      verr ← match verify (opts r) with
             | Some v => v req body
             | None => mret None
             end;
      match verr with
      | Some _ => mret (http_Error ∅ "signature verification failed" StatusUnauthorized)
      | None =>
          key ← match idempotencyFn (opts r) with
                | Some f => f req body
                | None => mret EmptyString
                end;
          err ← handler r {| Body := body; Headers := Header req; IdempotencyKey := key |};
          mret (handler_response err)
      end
  end.

(** [ListenAndServe] regroups the routes by path. *)
Definition group_step (method path : string) (r : route)
    (paths : gmap string (gmap string route)) : gmap string (gmap string route) :=
  <[path := <[method := r]> (default ∅ (paths !! path))]> paths.
Definition group_routes (s : Server) : gmap string (gmap string route) :=
  map_fold (λ method byPath paths,
      map_fold (λ path r paths, group_step method path r paths) paths byPath)
    ∅ (routes s).

(** The [Allow] header lists the methods of the path, in the map's order. *)
Definition allow_header (byMethod : gmap string route) : string :=
  Join ", " (map_to_list byMethod).*1.

(** The closure registered on the mux for one path. *)
Definition serve_path (byMethod : gmap string route) (req : request) : task W response :=
  match byMethod !! Method req with
  | None => mret (http_Error {["Allow" := allow_header byMethod]} "method not allowed"
                    StatusMethodNotAllowed)
  | Some r => serveRoute req r
  end.

(** The server's handling of a request. [net/http] itself answers the target [*];
    otherwise the mux finds the closure of a path, redirects, or finds nothing. *)
Definition serve (s : Server) (req : request) : task W answer :=
  if decide (EscapedPath req = "*") then
    mret (Responded (if decide (Method req = "OPTIONS")
                     then Response StatusOK {["Content-Length" := "0"]} EmptyString
                     else Response StatusBadRequest {["Connection" := "close"]} EmptyString))
  else match findHandler (group_routes s) (Method req) (EscapedPath req) with
  | Found byMethod => resp ← serve_path byMethod req; mret (Responded resp)
  | MovedTo path => mret (RedirectedTo path)
  | Unknown => mret (Responded (http_Error ∅ "404 page not found" StatusNotFound))
  end.

(** A program that configures a server: a sequence of [Handle] calls. *)
Record registration := Reg {
  reg_method : string;
  reg_path : string;
  reg_handler : Handler;
  reg_opts : list HandlerOption;
}.
Definition build (c : Config) (regs : list registration) : Server :=
  foldl (λ s r, Handle (reg_method r) (reg_path r) (reg_handler r) (reg_opts r) s) (New c) regs.

End server.

Arguments Handler : clear implicits.
Arguments handlerConfig : clear implicits.
Arguments HandlerOption : clear implicits.
Arguments route : clear implicits.
Arguments Server : clear implicits.
Arguments registration : clear implicits.

(** ** Specification of the routing table *)

Definition matches {W} (m p : string) (r : registration W) : Prop :=
  reg_method r = m ∧ reg_path r = p.
#[global] Instance matches_dec {W} m p (r : registration W) : Decision (matches m p r).
Proof. unfold matches. apply _. Defined.

(** The last registration of a method and a path. *)
Definition last_reg {W} (m p : string) (regs : list (registration W)) : option (registration W) :=
  last (filter (matches m p) regs).

(** The paths that are registered, and the methods of one of them. *)
Definition paths {W} (regs : list (registration W)) : gset string := list_to_set (reg_path <$> regs).
Definition has_method {W} (regs : list (registration W)) (p m : string) : Prop :=
  ∃ r, r ∈ regs ∧ reg_path r = p ∧ reg_method r = m.

(** ** Lemmas on the routing table *)

Section routing.
Context {W : Type}.
Implicit Types (s : Server W) (regs : list (registration W)).

Definition lookup2 (g : gmap string (gmap string (route W))) (k1 k2 : string) : option (route W) :=
  g !! k1 ≫= λ g', g' !! k2.

Lemma lookup2_insert g k1 k2 r j1 j2 :
  lookup2 (<[k1 := <[k2 := r]> (default ∅ (g !! k1))]> g) j1 j2 =
  if decide (k1 = j1 ∧ k2 = j2) then Some r else lookup2 g j1 j2.
Proof.
  unfold lookup2. destruct (decide (k1 = j1)) as [->|Hne].
  - rewrite lookup_insert_eq. simpl. destruct (decide (k2 = j2)) as [->|Hne2].
    + rewrite lookup_insert_eq. by rewrite decide_True.
    + rewrite lookup_insert_ne by done. rewrite decide_False by naive_solver.
      by destruct (g !! j1).
  - rewrite lookup_insert_ne by done. by rewrite decide_False by naive_solver.
Qed.

Lemma group_inner method byPath paths p m :
  lookup2 (map_fold (λ path r paths, group_step method path r paths) paths byPath) p m =
  match (if decide (m = method) then byPath !! p else None) with
  | Some r => Some r
  | None => lookup2 paths p m
  end.
Proof.
  apply (map_fold_weak_ind (λ acc bp, lookup2 acc p m =
    match (if decide (m = method) then bp !! p else None) with
    | Some r => Some r | None => lookup2 paths p m end)).
  - rewrite lookup_empty. by case_decide.
  - intros path r bp acc Hfresh IH. unfold group_step. rewrite lookup2_insert, IH.
    destruct (decide (m = method)) as [->|Hne].
    + destruct (decide (path = p)) as [->|Hp].
      * by rewrite lookup_insert_eq, decide_True.
      * rewrite lookup_insert_ne by done. by rewrite decide_False by naive_solver.
    + by rewrite decide_False by naive_solver.
Qed.

(** Regrouping by path keeps every route. *)
Lemma group_routes_lookup s p m : lookup2 (group_routes s) p m = lookup2 (routes s) m p.
Proof.
  unfold group_routes. apply (map_fold_weak_ind (λ acc rs, lookup2 acc p m = lookup2 rs m p)).
  - unfold lookup2. by rewrite !lookup_empty.
  - intros method bp rs acc Hfresh IH. rewrite group_inner, IH. unfold lookup2.
    destruct (decide (m = method)) as [->|Hne].
    + rewrite lookup_insert_eq, Hfresh. simpl. by destruct (bp !! p).
    + by rewrite lookup_insert_ne by done.
Qed.

Definition no_empty (g : gmap string (gmap string (route W))) : Prop :=
  map_Forall (λ _ bm, bm ≠ ∅) g.

Lemma group_step_no_empty m p r g : no_empty g → no_empty (group_step m p r g).
Proof.
  intros Hg. apply map_Forall_insert_2; [|done]. apply insert_non_empty.
Qed.

Lemma group_routes_no_empty s : no_empty (group_routes s).
Proof.
  unfold group_routes. apply (map_fold_weak_ind (λ acc _, no_empty acc)).
  - apply map_Forall_empty.
  - intros method bp rs acc _ IH. apply (map_fold_weak_ind (λ acc _, no_empty acc)); [done|].
    intros path r bp' acc' _ IH'. by apply group_step_no_empty.
Qed.

Lemma group_path_None s p :
  group_routes s !! p = None ↔ ∀ m, lookup2 (routes s) m p = None.
Proof.
  setoid_rewrite <- group_routes_lookup. split.
  - intros H m. unfold lookup2. by rewrite H.
  - intros H. destruct (group_routes s !! p) as [bm|] eqn:E; [|done]. exfalso.
    apply (group_routes_no_empty s p bm E). apply map_eq. intros m.
    specialize (H m). unfold lookup2 in H. rewrite E in H. simpl in H. by rewrite H, lookup_empty.
Qed.

Lemma cfg_build c regs : cfg (build c regs) = cfg (New c : Server W).
Proof.
  unfold build. generalize (New c : Server W). induction regs as [|r regs IH]; intros s; [done|].
  simpl. by rewrite IH.
Qed.

Lemma last_snoc_filter m p regs (r : registration W) :
  last_reg m p (regs ++ [r]) = if decide (matches m p r) then Some r else last_reg m p regs.
Proof.
  unfold last_reg. rewrite filter_app, filter_cons, filter_nil. case_decide.
  - by rewrite last_snoc.
  - by rewrite app_nil_r.
Qed.

Lemma build_snoc c regs (r : registration W) :
  build c (regs ++ [r]) =
  Handle (reg_method r) (reg_path r) (reg_handler r) (reg_opts r) (build c regs).
Proof. unfold build. by rewrite foldl_snoc. Qed.

Lemma mk_route_cfg s s' h os : cfg s = cfg s' → mk_route s h os = mk_route s' h os.
Proof. unfold mk_route. by intros ->. Qed.

(** A [Handle] sequence is a last-write-wins map from (method, path). *)
Lemma build_lookup c regs m p :
  lookup2 (routes (build c regs)) m p =
  (λ r, mk_route (New c) (reg_handler r) (reg_opts r)) <$> last_reg m p regs.
Proof.
  induction regs as [|r regs IH] using rev_ind.
  - unfold lookup2. simpl. by rewrite lookup_empty.
  - rewrite build_snoc, last_snoc_filter. unfold Handle; simpl.
    rewrite lookup2_insert, IH. destruct (decide (matches m p r)) as [Hm|Hm].
    + rewrite decide_True by exact Hm. simpl. f_equal. apply mk_route_cfg, cfg_build.
    + by rewrite decide_False by exact Hm.
Qed.

Lemma last_reg_is_Some m p regs : is_Some (last_reg m p regs) ↔ has_method regs p m.
Proof.
  unfold last_reg, has_method. rewrite last_is_Some. split.
  - intros Hne. destruct (filter (matches m p) regs) as [|r l] eqn:E; [done|].
    assert (r ∈ filter (matches m p) regs) as [[<- <-] Hin]%list_elem_of_filter by (rewrite E; left). eauto.
  - intros (r & Hin & Hp & Hm) E. by apply (filter_nil_not_elem_of (matches m p) regs r E).
Qed.

(** The methods of a path in the table of [ListenAndServe]. *)
Lemma group_methods c regs p bm m :
  group_routes (build c regs) !! p = Some bm → is_Some (bm !! m) ↔ has_method regs p m.
Proof.
  intros E. pose proof (group_routes_lookup (build c regs) p m) as Hg. rewrite build_lookup in Hg.
  unfold lookup2 in Hg. rewrite E in Hg. cbn in Hg. by rewrite Hg, fmap_is_Some, last_reg_is_Some.
Qed.

Lemma dom_group c regs : dom (group_routes (build c regs)) = paths regs.
Proof.
  apply set_eq. intros p. unfold paths. rewrite elem_of_dom, elem_of_list_to_set, list_elem_of_fmap. split.
  - intros [bm E]. destruct (decide (bm = ∅)) as [->|Hne]; [by apply group_routes_no_empty in E|].
    apply map_choose in Hne as (m & r & Hr).
    destruct (proj1 (group_methods c regs p bm m E)) as (g & Hin & Hp & _); [by rewrite Hr|eauto].
  - intros (r & -> & Hin). apply not_eq_None_Some. rewrite group_path_None. intros Hn.
    specialize (Hn (reg_method r)). rewrite build_lookup in Hn. apply fmap_None in Hn.
    assert (is_Some (last_reg (reg_method r) (reg_path r) regs)) as [? ?]; [|congruence].
    apply last_reg_is_Some. by exists r.
Qed.

(** The closure of a path, in terms of the registrations. *)
Lemma serve_path_spec c regs p bm req :
  group_routes (build c regs) !! p = Some bm →
  match last_reg (Method req) p regs with
  | Some r => serve_path bm req = serveRoute req (mk_route (New c) (reg_handler r) (reg_opts r))
  | None => ∃ ms, NoDup ms ∧ (∀ m, m ∈ ms ↔ has_method regs p m) ∧
      serve_path bm req =
        mret (http_Error {["Allow" := Join ", " ms]} "method not allowed" StatusMethodNotAllowed)
  end.
Proof.
  intros E. pose proof (group_routes_lookup (build c regs) p (Method req)) as Hg. rewrite build_lookup in Hg.
  unfold lookup2 in Hg. rewrite E in Hg. cbn in Hg. unfold serve_path. rewrite Hg.
  destruct (last_reg (Method req) p regs) as [r|]; [done|]. exists (map_to_list bm).*1.
  split; [apply NoDup_fst_map_to_list|]. split; [|done]. intros m. rewrite <- (group_methods c) by done.
  rewrite <- elem_of_dom. rewrite list_elem_of_fmap. rewrite elem_of_dom. split.
  - intros ([m' r] & -> & Hr%elem_of_map_to_list). by exists r.
  - intros [r Hr]. exists (m, r). by rewrite elem_of_map_to_list.
Qed.

Lemma maxBodyBytes_pos s h os : 0 < MaxBodyBytes (cfg s) → 0 < maxBodyBytes (opts (mk_route s h os)).
Proof. intros H. unfold mk_route. simpl. case_match eqn:E; simpl; lia. Qed.

Lemma New_limit_pos c : 0 < MaxBodyBytes (cfg (New c : Server W)).
Proof. simpl. case_match; unfold DefaultMaxBodyBytes; lia. Qed.

End routing.

(** ** A route protected by the HMAC verifier *)

(** [WithVerifyFunc] of a closure over [VerifyHMACSHA256Header], as the package
    documentation wires it. *)
Definition hmac_verifier {W} (hdr secret : string) (req : request) (body : string) : task W (option error) :=
  mret (VerifyHMACSHA256Header body (header_get (Header req) hdr) secret).

(** ** Properties *)

(** C28: routing. After any sequence of [Handle] calls on plain paths, take a
    request with an unescaped path other than [*] and a method other than CONNECT.
    If its path is not clean, or only the subtree [path/] is registered, it is
    redirected. Otherwise the longest registered path that covers it decides (the
    path itself, else the longest one that ends in a slash and is a prefix): the
    last registration of the request's method there serves it, with its options
    alone; without one the answer is 405 and [Allow] lists exactly the methods
    registered for that path. If no path covers the request, the answer is 404. *)
Theorem serve_refines_registrations {W} (c : Config) (regs : list (registration W)) req :
  Forall (λ r, plain_pattern (reg_path r)) regs →
  Method req ≠ "CONNECT" → EscapedPath req ≠ "*" → "%"%char ∉ to_l (EscapedPath req) →
  let p := EscapedPath req in
  let to := canonical (paths regs) p in
  (to ≠ p → serve (build c regs) req = mret (RedirectedTo to)) ∧
  (to = p → ∀ q, best (paths regs) p q →
     match last_reg (Method req) q regs with
     | Some r =>
         serve (build c regs) req =
         (resp ← serveRoute req (mk_route (New c) (reg_handler r) (reg_opts r)); mret (Responded resp))
     | None =>
         ∃ ms, NoDup ms ∧ (∀ m, m ∈ ms ↔ has_method regs q m) ∧
           serve (build c regs) req =
             mret (Responded (http_Error {["Allow" := Join ", " ms]} "method not allowed" StatusMethodNotAllowed))
     end) ∧
  (to = p → (∀ q, q ∈ paths regs → ¬ covers q p) →
     serve (build c regs) req = mret (Responded (http_Error ∅ "404 page not found" StatusNotFound))).
Proof.
  intros _ Hm Hstar Hpc p to. unfold serve. rewrite decide_False by done. fold p.
  rewrite findHandler_plain, dom_group by done. fold to. case_decide as Hto; [done|].
  split; [done|].
  assert (path_ok p) as Hok.
  { rewrite <- Hto. unfold to, canonical. pose proof (cleanPath_ok p Hpc). case_bool_decide; [|done].
    apply path_ok_snoc; naive_solver. }
  pose proof (mux_match_best (group_routes (build c regs)) p Hok) as Hmux. rewrite dom_group in Hmux. split.
  - intros _ q Hq. destruct (mux_match _ p) as [[k bm]|].
    + destruct Hmux as [E Hk]. rewrite (best_unique _ _ _ _ Hk Hq) in E.
      pose proof (serve_path_spec c regs q bm req E) as Hs. destruct (last_reg (Method req) q regs).
      * by rewrite Hs.
      * destruct Hs as (ms & ? & ? & ->). by exists ms.
    + destruct Hq as (Hin & Hc & _). rewrite <- (dom_group c), elem_of_dom, (Hmux q Hc) in Hin. by destruct Hin.
  - intros _ Hn. destruct (mux_match _ p) as [[k bm]|]; [|done].
    destruct Hmux as [_ (Hin & Hc & _)]. by apply Hn in Hin.
Qed.

(** The body limit. A route of a built server has a positive limit: the
    route's own positive override, otherwise the configured one, otherwise 64
    KiB; a request whose body is longer is answered 413 and neither the verifier
    nor the handler runs. *)
Theorem body_limit_enforced {W} (c : Config) h (os : list (HandlerOption W)) req :
  let r := mk_route (New c) h os in
  0 < maxBodyBytes (opts r) ∧
  (maxBodyBytes (opts r) < len (ReqBody req) →
   serveRoute req r = mret (http_Error ∅ "body too large or unreadable" StatusRequestEntityTooLarge)).
Proof.
  split; [apply maxBodyBytes_pos, New_limit_pos|]. intros Hl.
  unfold serveRoute, read_limited. by rewrite (proj2 (Z.ltb_lt _ _) Hl), orb_true_r.
Qed.

(** What the handler's result means on the wire. A nil error is 202; an
    error whose chain contains [ErrDuplicate] is 200 with an empty body, even
    inside a [TerminalError]; otherwise a chain with a [TerminalError] is 400
    with that error's text, and any other error is 500 without detail. *)
Theorem handler_status_table e :
  status (handler_response None) = StatusAccepted ∧
  (errors_is "webhookhttp.ErrDuplicate" e = true →
     handler_response (Some e) = Response StatusOK ∅ EmptyString) ∧
  (errors_is "webhookhttp.ErrDuplicate" e = false →
     ∀ te, errors_as_terminal e = Some te →
       status (handler_response (Some e)) = StatusBadRequest ∧
       rbody (handler_response (Some e)) = error_text te +:+ str1 newline) ∧
  (errors_is "webhookhttp.ErrDuplicate" e = false → errors_as_terminal e = None →
     handler_response (Some e) = http_Error ∅ "internal" StatusInternalServerError) ∧
  handler_response (Some (TerminalErr ErrDuplicate)) = Response StatusOK ∅ EmptyString.
Proof.
  unfold handler_response. split; [done|]. split; [by intros ->|].
  split; [by intros -> te ->|]. split; [by intros -> ->|]. reflexivity.
Qed.

(** C29: end to end with the HMAC verifier. On a route whose only option is
    the verifier for [secret], the handler runs exactly when the body is read
    whole, is within the configured limit (64 KiB by default) and is signed: the
    signature header carries HMAC-SHA256(secret, body) in the accepted form. Then
    it gets that body and the headers, and its result is the answer. A body that
    is too long or unreadable is answered 413, one that is not signed 401, and
    nothing runs. *)
Theorem signed_route_runs_handler {W} (c : Config) (h : Handler W) hdr secret req :
  let r := mk_route (New c) h [WithVerifyFunc (hmac_verifier hdr secret)] in
  let d := {| Body := ReqBody req; Headers := Header req; IdempotencyKey := EmptyString |} in
  let limit := if MaxBodyBytes c <=? 0 then 65536 else MaxBodyBytes c in
  let readable := body_fails req = false ∧ len (ReqBody req) ≤ limit in
  let signed := ∃ sigHex,
    TrimSpace (header_get (Header req) hdr) = "sha256=" +:+ sigHex ∧
    hex_DecodeString sigHex = Some (hmac_sha256 (bytes_of secret) (bytes_of (ReqBody req))) in
  (readable → signed → serveRoute req r = (err ← h d; mret (handler_response err))) ∧
  (readable → ¬ signed →
     serveRoute req r = mret (http_Error ∅ "signature verification failed" StatusUnauthorized)) ∧
  (¬ readable →
     serveRoute req r = mret (http_Error ∅ "body too large or unreadable" StatusRequestEntityTooLarge)).
Proof.
  intros r d limit readable signed.
  assert (r = {| handler := h; opts := {| verify := Some (hmac_verifier hdr secret); idempotencyFn := None;
            maxBodyBytes := limit |} |}) as ->.
  { unfold r, mk_route. simpl. unfold limit, DefaultMaxBodyBytes.
    destruct (MaxBodyBytes c <=? 0) eqn:E; [done|]. by rewrite E. }
  unfold serveRoute, read_limited. cbn [opts maxBodyBytes verify idempotencyFn handler].
  assert (readable ↔ body_fails req || (limit <? len (ReqBody req)) = false) as ->.
  { unfold readable. rewrite orb_false_iff, Z.ltb_ge. done. }
  destruct (body_fails req || (limit <? len (ReqBody req))); [by split_and!|].
  unfold hmac_verifier, VerifyHMACSHA256Header, mbind, mret, task_mbind, task_ret. cbn [task_bind].
  destruct (VerifyHubSignature256 _ _ _) as [e|] eqn:E.
  - split_and!; try done. intros _ (sigHex & Ht & Hh). by rewrite (hub_match _ _ _ _ Ht Hh) in E.
  - split_and!; try done. intros _ Hs. exfalso. apply Hs. by apply hub_sound.
Qed.

(** ** Witnesses *)

Definition demo_config : Config :=
  {| Addr := ":8082"; HasTLSConfig := false; MaxBodyBytes := 0;
     ReadTimeout := 0; WriteTimeout := 0; IdleTimeout := 0 |}.

(** A handler that counts its invocations and rejects an empty body. *)
Definition demo_handler : Handler nat := λ d,
  TAct unit (λ n, (tt, S n)) (λ _,
    TRet (if decide (Body d = EmptyString) then Some (TerminalErr (Errorf "empty")) else None)).

Definition demo_request : request :=
  {| Method := "POST"; EscapedPath := "/hook";
     Header := {["X-Hub-Signature-256" := ["sha256=" +:+
       hex_EncodeToString (hmac_sha256 (bytes_of "s3cret") (bytes_of "{}"))]]};
     ReqBody := "{}"; body_fails := false |}.

(** A subtree, a path below it and a path with one method. *)
Definition demo_regs : list (registration nat) :=
  [Reg "POST" "/" demo_handler []; Reg "POST" "/hook" demo_handler [];
   Reg "PUT" "/hook" demo_handler [WithMaxBodyBytes 1]; Reg "PUT" "/jobs/" demo_handler []].
Definition demo_get (path : string) : request :=
  {| Method := "GET"; EscapedPath := path; Header := ∅; ReqBody := EmptyString; body_fails := false |}.

Lemma demo_plain : Forall (λ r, plain_pattern (reg_path r)) demo_regs.
Proof. apply (bool_decide_unpack _). vm_compute. exact I. Qed.

Lemma demo_canonical :
  canonical (paths demo_regs) "/jobs" = "/jobs/" ∧ canonical (paths demo_regs) "/a/../b" = "/b" ∧
  canonical (paths demo_regs) "/hook" = "/hook".
Proof. vm_compute. done. Qed.
Lemma demo_paths : paths demo_regs = {["/"; "/hook"; "/jobs/"]}.
Proof. vm_compute. done. Qed.

Lemma serve_refines_registrations_witness :
  serve (build demo_config demo_regs) (demo_get "/jobs") = mret (RedirectedTo "/jobs/") ∧
  serve (build demo_config demo_regs) (demo_get "/a/../b") = mret (RedirectedTo "/b") ∧
  ∃ ms, ms ≡ₚ ["POST"; "PUT"] ∧
    serve (build demo_config demo_regs) (demo_get "/hook") =
      mret (Responded (http_Error {["Allow" := Join ", " ms]} "method not allowed" 405)).
Proof.
  destruct demo_canonical as (Hjobs & Hdots & Hhook).
  split; [|split].
  - destruct (serve_refines_registrations demo_config demo_regs (demo_get "/jobs") demo_plain) as (Hs & _).
    + discriminate.
    + discriminate.
    + apply (bool_decide_unpack _). vm_compute. exact I.
    + cbn [EscapedPath demo_get] in Hs. rewrite Hjobs in Hs. by apply Hs.
  - destruct (serve_refines_registrations demo_config demo_regs (demo_get "/a/../b") demo_plain) as (Hs & _).
    + discriminate.
    + discriminate.
    + apply (bool_decide_unpack _). vm_compute. exact I.
    + cbn [EscapedPath demo_get] in Hs. rewrite Hdots in Hs. by apply Hs.
  - destruct (serve_refines_registrations demo_config demo_regs (demo_get "/hook") demo_plain) as (_ & Hs & _).
    + discriminate.
    + discriminate.
    + apply (bool_decide_unpack _). vm_compute. exact I.
    + destruct (Hs Hhook "/hook") as (ms & Hnd & Hms & He).
      { split; [|split; [by left|]].
        - rewrite demo_paths. set_solver.
        - intros k' _ Hk. by apply covers_length. }
      exists ms. split; [clear Hs He Hjobs Hdots Hhook|exact He].
      apply NoDup_Permutation; [exact Hnd|apply NoDup_cons; split; [set_solver|apply NoDup_singleton]|].
      intros m. rewrite Hms, !elem_of_cons. unfold has_method, demo_regs. split.
      * intros (r & Hr & Hp & <-). rewrite !elem_of_cons in Hr. destruct Hr as [->|[->|[->|[->|Hr]]]]; try done; auto.
        by apply not_elem_of_nil in Hr.
      * intros [->|[->|Hr]]; [eexists; split; [right; left|done]|eexists; split; [do 2 right; left|done]|].
        by apply not_elem_of_nil in Hr.
Defined.

Lemma signed_route_runs_handler_witness :
  let r := mk_route (New demo_config) demo_handler
             [WithVerifyFunc (hmac_verifier "X-Hub-Signature-256" "s3cret")] in
  (run_task (serveRoute demo_request r) 0%nat).2 = 1%nat.
Proof.
  intros r. unfold r.
  rewrite (proj1 (signed_route_runs_handler demo_config demo_handler "X-Hub-Signature-256" "s3cret" demo_request)).
  - reflexivity.
  - split; [done|]. vm_compute. discriminate.
  - exists (hex_EncodeToString (hmac_sha256 (bytes_of "s3cret") (bytes_of "{}"))).
    split; vm_compute; reflexivity.
Defined.
