(* ===== verification/Utf8.v ===== *)
(** * UTF-8 and the strings of the JSON encoder

    What [encoding/json] does to the bytes of a Go string: [to_valid] replaces
    every byte that is not part of a valid encoding by U+FFFD, and is what comes
    back when a literal that the encoder wrote is read; it is the identity on
    valid UTF-8. *)
From Stdlib Require Import Ascii ZArith.
From stdpp Require Import prelude gmap strings.
From S2P Require Import Prelude GoStrings GoText GoFloat Json.

Local Open Scope Z_scope.

(** ** Decoding *)

(** The runes of a text, encoded again ([string([]rune(s))]). *)
Fixpoint to_valid (fuel : nat) (l : list ascii) : list ascii :=
  match fuel, l with
  | S f, _ :: _ => let '(r, w) := decode_rune l in encode_rune r ++ to_valid f (drop w l)
  | _, _ => []
  end.

(** [utf8.Valid]. *)
Definition valid_utf8 (l : list ascii) : Prop := to_valid (length l) l = l.
#[global] Instance valid_utf8_dec l : Decision (valid_utf8 l).
Proof. unfold valid_utf8. apply _. Defined.

(** A rune takes between one byte and all of them. *)
Lemma decode_rune_width l r w :
  l ≠ [] → decode_rune l = (r, w) → (1 ≤ w ≤ length l)%nat.
Proof.
  intros Hl. destruct l as [|a l1]; [done|]. unfold decode_rune.
  repeat (case_match; try (intros; simplify_eq/=; lia)).
Qed.

(** Bytes after the rune do not matter, if it is not an error. *)
Lemma decode_rune_prefix l r w rest :
  l ≠ [] → decode_rune l = (r, w) → ¬ (r = RuneError ∧ w = 1%nat) →
  decode_rune (take w l ++ rest) = (r, w).
Proof.
  intros Hl Hd Hok. destruct l as [|a l1]; [done|]. unfold decode_rune in Hd.
  destruct (code a <? 128) eqn:Ea; [simplify_eq/=; by rewrite Ea|].
  destruct (in_range 194 223 a) eqn:E2.
  { destruct l1 as [|b l1]; [naive_solver|]. destruct (cont b) eqn:Eb; [|naive_solver].
    simplify_eq/=. by rewrite Ea, E2, Eb. }
  destruct (in_range 224 239 a) eqn:E3.
  { destruct l1 as [|b [|c l1]]; [naive_solver..|]. destruct (second3 a b && cont c) eqn:Eb; [|naive_solver].
    simplify_eq/=. by rewrite Ea, E2, E3, Eb. }
  destruct (in_range 240 244 a) eqn:E4; [|naive_solver].
  destruct l1 as [|b [|c [|d l1]]]; [naive_solver..|].
  destruct (second4 a b && cont c && cont d) eqn:Eb; [|naive_solver].
  simplify_eq/=. by rewrite Ea, E2, E3, E4, Eb.
Qed.

Lemma to_valid_fuel n m l : (length l ≤ n)%nat → (length l ≤ m)%nat → to_valid n l = to_valid m l.
Proof.
  revert m l. induction n as [|n IH]; intros [|m] [|a l] Hn Hm; try done; try (cbn in *; lia).
  cbn [to_valid]. destruct (decode_rune (a :: l)) as [r w] eqn:E.
  apply decode_rune_width in E as [Hw _]; [|done]. f_equal.
  apply IH; rewrite length_drop; cbn in *; lia.
Qed.

(** ASCII is valid. *)
Lemma ascii_valid l : Forall (λ a, code a < 128) l → valid_utf8 l.
Proof.
  unfold valid_utf8. induction 1 as [|a l Ha _ IH]; [done|]. cbn [to_valid length]. unfold decode_rune.
  rewrite (proj2 (Z.ltb_lt _ _) Ha). rewrite encode_rune_ascii by done. cbn [drop app]. by rewrite drop_0, IH.
Qed.

(** ** Literals *)

Lemma rune_unit l r w :
  l ≠ [] → decode_rune l = (r, w) → ¬ (r = RuneError ∧ w = 1%nat) →
  (∀ a l1, l = a :: l1 → 128 ≤ code a) → is_unit (take w l) (encode_rune r).
Proof.
  intros Hl Hd Hok Hhi. pose proof (decode_rune_width l r w Hl Hd) as Hw. split.
  { intros Hnil%(f_equal length). rewrite length_take in Hnil. cbn in Hnil. lia. }
  intros rest. pose proof (decode_rune_prefix l r w rest Hl Hd Hok) as Hp.
  destruct l as [|a l1]; [done|]. specialize (Hhi a l1 eq_refl). destruct w as [|w]; [lia|].
  unfold str_unit. cbn [take app] in Hp |- *.
  rewrite (proj2 (Z.eqb_neq (code a) 34)), (proj2 (Z.eqb_neq (code a) 92)) by lia.
  rewrite (proj2 (Z.ltb_ge (code a) 32)) by lia. rewrite Hp. do 3 f_equal.
  change (a :: take w l1 ++ rest) with (take (S w) (a :: l1) ++ rest).
  rewrite drop_app_length'; [done|]. rewrite length_take. lia.
Qed.

(** A [\u] escape of a rune that is not a surrogate. *)
Lemma hex_unit r : r = 8232 ∨ r = 8233 ∨ r = RuneError →
  is_unit ([backslash; "u"%char] ++ hex_fixed 4 r) (encode_rune r).
Proof. intros [-> |[-> | ->]]; (split; [done|]; intros rest; reflexivity). Qed.

(** The escapes of the two encoders stand for the byte. *)
Definition ascii_escape (esc : ascii → list ascii) : Prop := ∀ a, code a < 128 → is_unit (esc a) [a].
Lemma enc_ascii_escape : ascii_escape enc_ascii.
Proof.
  intros a Ha. destruct a as [[] [] [] [] [] [] [] []]; try (exfalso; vm_compute in Ha; discriminate Ha);
    (split; [discriminate|intros rest; reflexivity]).
Qed.
Lemma enc_ascii_plain_escape : ascii_escape enc_ascii_plain.
Proof.
  intros a Ha. destruct a as [[] [] [] [] [] [] [] []]; try (exfalso; vm_compute in Ha; discriminate Ha);
    (split; [discriminate|intros rest; reflexivity]).
Qed.

(** What the encoder writes reads back as the valid text. *)
Lemma enc_with_units esc : ascii_escape esc → ∀ n l, (length l ≤ n)%nat →
  units (enc_with esc n l) (to_valid n l).
Proof.
  intros Hesc. induction n as [|n IH]; intros [|a l1] Hn; try apply units_nil.
  cbn [enc_with to_valid]. destruct (decode_rune (a :: l1)) as [r w] eqn:Hd.
  pose proof (decode_rune_width (a :: l1) r w ltac:(done) Hd) as Hw.
  assert (units (enc_with esc n (drop w (a :: l1))) (to_valid n (drop w (a :: l1)))) as Hrest.
  { apply IH. rewrite length_drop. cbn in *. lia. }
  destruct (Z.ltb_spec (code a) 128) as [Ha|Ha].
  { unfold decode_rune in Hd. rewrite (proj2 (Z.ltb_lt _ _) Ha) in Hd. simplify_eq.
    rewrite encode_rune_ascii by done. cbn [drop] in *. rewrite drop_0 in *. by apply units_cons; [apply Hesc|]. }
  destruct ((r =? RuneError) && (w =? 1)%nat) eqn:He.
  { apply andb_true_iff in He as [->%Z.eqb_eq ->%Nat.eqb_eq]. cbn [drop] in *. rewrite drop_0 in *.
    apply (units_cons ([backslash; "u"%char] ++ hex_fixed 4 RuneError)); [apply hex_unit; auto|done]. }
  destruct ((r =? 8232) || (r =? 8233)) eqn:Hs.
  { rewrite app_assoc. apply units_cons; [|done]. apply hex_unit. lia. }
  apply units_cons; [|done]. apply rune_unit; [done|done| |by intros ? ? [= <- <-]].
  intros [-> ->]. done.
Qed.
