(* ===== verification/JsonText.v ===== *)
(** * Texts that the SDK writes and reads back

    Decimal numbers as JSON literals and as [float64] values, quoted strings
    ([%q]) as JSON literals, and the struct-field names of ASCII keys. *)
From Stdlib Require Import Ascii ZArith.
From stdpp Require Import prelude gmap strings.
From S2P Require Import Prelude GoStrings GoText GoFloat Json.

Local Open Scope Z_scope.

(** ** Numbers *)

Definition is_digit (a : ascii) : Prop := 48 ≤ code a ≤ 57.

Lemma in_range_digit a : is_digit a → in_range 48 57 a = true.
Proof. unfold is_digit, in_range. lia. Qed.

Lemma dec_loop_digits fuel n acc : Forall is_digit acc → Forall is_digit (dec_loop fuel n acc).
Proof.
  revert n acc. induction fuel as [|f IH]; intros n acc Hacc; simpl; [done|].
  pose proof (Z.mod_pos_bound n 10 ltac:(lia)).
  assert (is_digit (chr (48 + n mod 10))) by (unfold is_digit; rewrite code_chr; unfold is_byte; lia).
  case_match; [|apply IH]; by constructor.
Qed.

Lemma dec_nat_digits n : Forall is_digit (dec_nat n).
Proof. apply dec_loop_digits. constructor. Qed.

(** A positive number does not start with a zero. *)
Lemma dec_loop_first fuel n acc :
  0 < n < 2 ^ Z.of_nat fuel → ∃ a l, dec_loop fuel n acc = a :: l ∧ 49 ≤ code a ≤ 57.
Proof.
  revert n acc. induction fuel as [|f IH]; intros n acc Hn; [simpl in Hn; lia|]. simpl.
  pose proof (Z.mod_pos_bound n 10 ltac:(lia)). pose proof (Z.div_mod n 10 ltac:(lia)).
  case_match eqn:E.
  - eexists _, _. split; [reflexivity|]. rewrite code_chr; unfold is_byte; lia.
  - apply IH. split; [pose proof (Z.div_pos n 10); lia|].
    apply Z.div_lt_upper_bound; [lia|]. rewrite Nat2Z.inj_succ, Z.pow_succ_r in Hn; lia.
Qed.

Lemma dec_loop_val fuel n acc :
  0 ≤ n < 2 ^ Z.of_nat fuel → digits_val (dec_loop fuel n acc) 0 = digits_val acc n.
Proof.
  revert n acc. induction fuel as [|f IH]; intros n acc Hn; simpl.
  - replace n with 0 by (simpl in Hn; lia). done.
  - pose proof (Z.mod_pos_bound n 10 ltac:(lia)). pose proof (Z.div_mod n 10 ltac:(lia)).
    case_match eqn:E.
    + simpl. rewrite digit_val_chr by done. cbn. f_equal. lia.
    + rewrite IH.
      * simpl. rewrite digit_val_chr by done. cbn. f_equal. lia.
      * split; [apply Z.div_pos; lia|]. apply Z.div_lt_upper_bound; [lia|].
        rewrite Nat2Z.inj_succ, Z.pow_succ_r in Hn; lia.
Qed.

Lemma dec_fuel n : 0 ≤ n → 0 ≤ n < 2 ^ Z.of_nat (S (Z.to_nat (Z.log2 n))).
Proof.
  intros Hn. split; [done|]. rewrite Nat2Z.inj_succ, Z2Nat.id by apply Z.log2_nonneg.
  destruct (decide (n = 0)) as [->|]; [done|]. apply Z.log2_spec. lia.
Qed.

Lemma digits_Z_dec n : 0 ≤ n → digits_Z (dec_nat n) = n.
Proof. intros Hn. unfold digits_Z, dec_nat. by rewrite dec_loop_val by by apply dec_fuel. Qed.

Lemma take_digits_app l a r :
  Forall is_digit l → in_range 48 57 a = false → take_digits (l ++ a :: r) = (l, a :: r).
Proof.
  induction 1 as [|b l Hb _ IH]; intros Ha; simpl; [by rewrite Ha|].
  by rewrite in_range_digit, IH.
Qed.

Lemma take_digits_all l : Forall is_digit l → take_digits l = (l, []).
Proof. induction 1 as [|b l Hb _ IH]; simpl; [done|]. by rewrite in_range_digit, IH. Qed.

(** What [strip_zeros] drops. *)
Lemma strip_zeros_split l : ∃ k, l = strip_zeros l ++ replicate k "0"%char.
Proof.
  unfold strip_zeros. set (t := trim_front _ _ _).
  enough (∀ r, ∃ k, reverse r = reverse (t r) ++ replicate k "0"%char) as H.
  { destruct (H (reverse l)) as [k Hk]. exists k. by rewrite reverse_involutive in Hk. }
  induction r as [|a r [k IH]]; [by exists 0%nat|]. unfold t in *. cbn [trim_front].
  destruct (bool_decide_reflect (a = "0"%char)) as [->|Hne].
  - exists (S k). rewrite reverse_cons, IH. by rewrite <- app_assoc, <- replicate_cons_app.
  - exists 0%nat. cbn [replicate]. rewrite app_nil_r. by destruct r as [|b [|c r]].
Qed.

Lemma dec_nat_head n :
  0 < n → ∃ a l, dec_nat n = a :: l ∧ 49 ≤ code a ≤ 57.
Proof. intros Hn. apply dec_loop_first. pose proof (dec_fuel n). lia. Qed.

(** A positive number before a comma or a brace. *)
Lemma parse_value_dec d n a rest :
  0 < n → code a = 44 ∨ code a = 125 →
  parse_value d (dec_nat n ++ a :: rest) = Some (JNum (dec n), a :: rest).
Proof.
  intros Hn Ha. destruct (dec_nat_head n Hn) as (b & l & E & Hb).
  pose proof (dec_nat_digits n) as Hd.
  assert (in_range 48 57 a = false) as Hna by (unfold in_range; lia).
  assert (parse_num (dec_nat n ++ a :: rest) = Some (dec n, a :: rest)) as Hp.
  { unfold parse_num, dec. rewrite (proj2 (Z.ltb_ge n 0)) by lia.
    pose proof (take_digits_app _ _ rest Hd Hna) as Ht. rewrite E in Ht |- *. cbn [app] in Ht |- *.
    cbn [opt_minus num_int]. rewrite decide_False by (intros ->; change (code "-") with 45 in Hb; lia).
    cbn [num_int]. rewrite decide_False by (intros ->; change (code "0") with 48 in Hb; lia).
    replace (in_range 49 57 b) with true by (unfold in_range; lia). rewrite Ht. cbn [mbind option_bind].
    cbn [num_frac num_exp]. rewrite decide_False by (intros ->; change (code ".") with 46 in Ha; lia).
    cbn [mbind option_bind num_exp].
    replace ((code a =? 101) || (code a =? 69)) with false by lia.
    cbn [mbind option_bind app]. by rewrite app_nil_r. }
  rewrite E in Hp |- *. cbn [app] in Hp |- *. destruct d; cbn [parse_value]; cbv zeta;
    repeat (rewrite (proj2 (Z.eqb_neq _ _)) by lia); by rewrite Hp.
Qed.

(** The literal of a positive integer is read as that integer. *)
Lemma ParseFloat_dec n : 0 < n → ParseFloat (dec n) = float_of_int n.
Proof.
  intros Hn. unfold ParseFloat, dec, float_of_int. rewrite (proj2 (Z.ltb_ge n 0)) by lia.
  rewrite to_of_l. destruct (dec_nat_head n Hn) as (b & l & E & Hb).
  pose proof (take_digits_all _ (dec_nat_digits n)) as Ht. pose proof (digits_Z_dec n) as Hv.
  unfold lit_parts. rewrite E in *. rewrite decide_False by (intros ->; change (code "-") with 45 in Hb; lia).
  rewrite Ht. cbn [length]. change (0 - Z.of_nat 0) with 0. cbn [Z.leb].
  rewrite app_nil_r, Hv, Z.abs_eq by lia. change (0 <=? 0) with true. cbv iota.
  by rewrite Z.pow_0_r, Z.mul_1_r.
Qed.

(** ** Quoted strings *)

(** Printable ASCII. *)
Definition printable (a : ascii) : Prop := 32 ≤ code a < 127.

Section quote.
Context `{UnicodeTables}.

Lemma quote_loop_ascii fuel a l :
  code a < 128 → quote_loop (S fuel) (a :: l) = escape_rune (code a) ++ quote_loop fuel l.
Proof.
  intros Ha. cbn [quote_loop]. unfold decode_rune.
  rewrite (proj2 (Z.ltb_lt _ _) Ha), (proj2 (Z.leb_gt _ _) Ha). done.
Qed.

Lemma escape_rune_unit a : printable a → is_unit (escape_rune (code a)) [a].
Proof.
  intros Ha. unfold printable in Ha. unfold escape_rune.
  destruct ((code a =? 34) || (code a =? 92)) eqn:E.
  - rewrite chr_code. apply escape_unit. unfold simple_escape. cbv zeta.
    by replace ((code a =? 34) || (code a =? 92) || (code a =? 47)) with true by lia.
  - unfold IsPrint. rewrite (proj2 (Z.ltb_lt (code a) 128)) by lia.
    replace ((32 <=? code a) && (code a <? 127)) with true by lia.
    rewrite encode_rune_ascii by lia. apply plain_unit. unfold plain. lia.
Qed.

Lemma quote_units l rest :
  Forall printable l →
  ∃ t, units t l ∧ quote_loop (length (l ++ rest)) (l ++ rest) = t ++ quote_loop (length rest) rest.
Proof.
  induction 1 as [|a l Ha _ (t & Ht & E)]; [exists []; by split; [constructor|]|].
  exists (escape_rune (code a) ++ t). split; [by apply (units_cons _ [a]); [apply escape_rune_unit|]|].
  cbn [length app]. rewrite quote_loop_ascii by (unfold printable in Ha; lia).
  by rewrite E, app_assoc.
Qed.

(** The bytes that [%q] escapes in a way that JSON does not know. *)
Definition unjson (a : ascii) : Prop :=
  code a < 128 ∧ (code a < 32 ∨ code a = 127) ∧ code a ∉ [8; 9; 10; 12; 13].

Lemma escape_unjson a :
  unjson a → ∃ e l, escape_rune (code a) = backslash :: e :: l ∧ simple_escape e = None ∧ code e ≠ 117.
Proof.
  intros (_ & Ha & Hn). pose proof (code_range a). unfold escape_rune, IsPrint.
  rewrite !elem_of_cons in Hn.
  replace ((code a =? 34) || (code a =? 92)) with false by lia.
  rewrite (proj2 (Z.ltb_lt (code a) 128)) by lia.
  replace ((32 <=? code a) && (code a <? 127)) with false by lia.
  destruct (code a =? 7); [by eexists _, _; split_and!; [reflexivity|..]|].
  do 5 (rewrite (proj2 (Z.eqb_neq _ _)) by tauto).
  destruct (code a =? 11); [by eexists _, _; split_and!; [reflexivity|..]|].
  replace ((code a <? 32) || (code a =? 127)) with true by lia.
  by eexists _, _; split_and!; [reflexivity|..].
Qed.
End quote.

(** An escape that JSON does not know is a syntax error. *)
Lemma str_body_bad_escape t b e rest fuel :
  units t b → simple_escape e = None → code e ≠ 117 →
  str_body fuel (t ++ backslash :: e :: rest) = None.
Proof.
  intros Hu He Hne. revert fuel. induction Hu as [|t b ts bs [_ Hu] _ IH]; intros fuel.
  - destruct fuel; [done|]. cbn [str_body app str_unit].
    change (code backslash =? 34) with false. change (code backslash =? 92) with true. cbv iota.
    by rewrite He, (proj2 (Z.eqb_neq _ _) Hne).
  - destruct fuel; [done|]. cbn [str_body]. rewrite <- app_assoc, Hu. by rewrite IH.
Qed.

(** ** Field names *)

Lemma fold_name_length l : Forall (λ a, code a < 128) l → length (fold_name l) = length l.
Proof.
  induction 1 as [|a l Ha Hl IH]; [done|]. cbn [fold_name].
  case_match; [cbn; by rewrite IH|]. destruct l as [|b l2]; [done|].
  rewrite (proj2 (Z.eqb_neq (code a) 197)), (proj2 (Z.eqb_neq (code a) 226)) by lia. cbn [andb].
  destruct l2; cbn [length] in *; by rewrite IH.
Qed.
