(* ===== verification/Rpc.v ===== *)
(** * The transport contract (package [rpc])

    Models src/rpc/transport.go. A handler is a computation that may act on the
    delivery it was given ([Ack], [Nack], [Reply]) and on the adapter's own
    state [W]: a tree whose nodes are these actions, [prog W A]. What an action
    does is up to the transport that built the delivery, so a transport is an
    interpreter of such trees; the AMQP and HTTP transports give one each. *)
From Stdlib Require Import Ascii ZArith.
From stdpp Require Import prelude gmap strings.
From S2P Require Import Prelude GoStrings GoText.

Local Open Scope Z_scope.

Definition ErrClosed : error := Sentinel "rpc.ErrClosed" "rpc: transport closed".
Definition ErrTimeout : error := Sentinel "rpc.ErrTimeout" "rpc: request timed out".
Definition ErrEndpointUnknown : error := Sentinel "rpc.ErrEndpointUnknown" "rpc: endpoint unknown".

(** ** Handler computations *)

Inductive prog (W A : Type) : Type :=
| Ret (a : A)
| Eff (X : Type) (f : W → X * W) (k : X → prog W A)
| AckOp (k : option error → prog W A)
| NackOp (requeue : bool) (k : option error → prog W A)
| ReplyOp (body contentType : string) (k : option error → prog W A).
Arguments Ret {W A} a.
Arguments Eff {W A} X f k.
Arguments AckOp {W A} k.
Arguments NackOp {W A} requeue k.
Arguments ReplyOp {W A} body contentType k.

Fixpoint prog_bind {W A B} (k : A → prog W B) (p : prog W A) : prog W B :=
  match p with
  | Ret a => k a
  | Eff X f k' => Eff X f (λ x, prog_bind k (k' x))
  | AckOp k' => AckOp (λ e, prog_bind k (k' e))
  | NackOp r k' => NackOp r (λ e, prog_bind k (k' e))
  | ReplyOp b c k' => ReplyOp b c (λ e, prog_bind k (k' e))
  end.

#[global] Instance prog_ret {W} : MRet (prog W) := λ A a, Ret a.
#[global] Instance prog_mbind {W} : MBind (prog W) := λ A B k p, prog_bind k p.

(** A computation on the state alone. *)
Definition lift {W A} (m : M W A) : prog W A := Eff A m Ret.

(** ** Messages *)

(** [Request]: an outbound message. *)
Record Request := {
  req_Endpoint : string;
  req_Body : string;
  req_ContentType : string;
  req_Headers : gmap string string;
  req_CorrelationID : string;
  req_Timeout : Z;
}.

(** [Reply]: the response to a [Request]. *)
Record Reply := {
  rep_Body : string;
  rep_ContentType : string;
  rep_Headers : gmap string string;
  rep_CorrelationID : string;
}.

(** [Delivery]: an inbound message. Of the three function fields the record
    keeps whether the transport populated them; calling one is an action of the
    handler's computation. *)
Record Delivery := {
  Endpoint : string;
  Body : string;
  ContentType : string;
  Headers : gmap string string;
  CorrelationID : string;
  ReplyTo : string;
  AckFn : bool;
  NackFn : bool;
  ReplyFn : bool;
}.

(** [Delivery.Ack]. *)
Definition Delivery_Ack {W} (d : Delivery) : prog W (option error) :=
  if AckFn d then AckOp Ret else mret None.

(** [Delivery.Nack]. *)
Definition Delivery_Nack {W} (d : Delivery) (requeue : bool) : prog W (option error) :=
  if NackFn d then NackOp requeue Ret else mret None.

(** [Delivery.Reply]. *)
Definition Delivery_Reply {W} (d : Delivery) (body contentType : string) : prog W (option error) :=
  if ReplyFn d then
    let contentType := if decide (contentType = EmptyString) then "application/json" else contentType in
    ReplyOp body contentType Ret
  else mret (Some (Errorf "rpc: delivery has no reply function (transport did not populate it)")).

(** [rpc.Handler]. *)
Definition Handler (W : Type) : Type := Delivery → prog W (option error).

Record ConsumerConfig (W : Type) := {
  cc_Endpoint : string;
  cc_Handler : option (Handler W);
  cc_Timeout : Z;
  cc_Concurrency : Z;
}.
Arguments cc_Endpoint {W} _.
Arguments cc_Handler {W} _.
Arguments cc_Timeout {W} _.
Arguments cc_Concurrency {W} _.

(** [Envelope]: the JSON framing of transports without native fields. A nil
    body is [None]. *)
Record Envelope := {
  env_CorrelationID : string;
  env_ReplyTo : string;
  env_Headers : gmap string string;
  env_ContentType : string;
  env_Body : option string;
}.

(** ** Lemmas *)

(** A computation that only touches the state: no action on the delivery. *)
Inductive quiet {W A} : prog W A → Prop :=
| quiet_ret a : quiet (Ret a)
| quiet_eff X f k : (∀ x, quiet (k x)) → quiet (Eff X f k).

(** The result of a quiet computation. *)
Fixpoint run_quiet {W A} (p : prog W A) (w : W) : option (A * W) :=
  match p with
  | Ret a => Some (a, w)
  | Eff X f k => let '(x, w') := f w in run_quiet (k x) w'
  | _ => None
  end.

Lemma run_quiet_total {W A} (p : prog W A) w : quiet p → is_Some (run_quiet p w).
Proof.
  intros Hq. revert w. induction Hq as [a|X f k _ IH]; intros w; simpl; [eauto|].
  destruct (f w) as [x w']. apply IH.
Qed.

Lemma quiet_lift {W A} (m : M W A) : quiet (lift m).
Proof. unfold lift. constructor. intros x. constructor. Qed.
