(* ===== verification/Backoff.v ===== *)
(** * Capped exponential backoff

    The three retry loops of the SDK double their delay up to 30 seconds with
    the same code: [dialAMQPWithRetry] (src/adapter/transport.go), and the
    watchdog and the subscription loop of src/rpc/amqp/amqp.go. Durations are
    nanoseconds. *)
From Stdlib Require Import Ascii ZArith.
From stdpp Require Import prelude gmap strings.
From S2P Require Import Prelude GoStrings GoText.

Local Open Scope Z_scope.

Definition Second : Z := 1000000000.
Definition initialBackoff : Z := 1 * Second.
Definition maxBackoff : Z := 30 * Second.

(** [if backoff < maxBackoff { backoff *= 2; if backoff > maxBackoff {
    backoff = maxBackoff } }]. *)
Definition next_backoff (backoff : Z) : Z :=
  if backoff <? maxBackoff then
    let backoff := wrap64 (backoff * 2) in
    if maxBackoff <? backoff then maxBackoff else backoff
  else backoff.

(** The delay before the retry that follows the [n]-th failure in a row,
    counted from 0. *)
Definition nth_backoff (n : nat) : Z := Nat.iter n next_backoff initialBackoff.

Lemma nth_backoff_S n : nth_backoff (S n) = next_backoff (nth_backoff n).
Proof. reflexivity. Qed.

(** The closed form: powers of two seconds, cut at 30. *)
Lemma nth_backoff_closed n : nth_backoff n = Z.min (2 ^ Z.of_nat n) 30 * Second.
Proof.
  induction n as [|n IH]; [reflexivity|]. rewrite nth_backoff_S, IH.
  unfold next_backoff, maxBackoff, Second.
  assert (0 < 2 ^ Z.of_nat n) by (apply Z.pow_pos_nonneg; lia).
  rewrite Nat2Z.inj_succ, Z.pow_succ_r by lia.
  case_match eqn:E; [|lia].
  rewrite wrap64_id by (unfold is_int64, minInt64, maxInt64; lia). case_match; lia.
Qed.

Lemma nth_backoff_range n : Second ≤ nth_backoff n ≤ maxBackoff.
Proof.
  rewrite nth_backoff_closed. unfold maxBackoff, Second.
  assert (0 < 2 ^ Z.of_nat n) by (apply Z.pow_pos_nonneg; lia). lia.
Qed.
