(* ===== verification/GoTime.v ===== *)
(** * Instants as [time.Time] marshals them

    The calendar and the JSON text of a [time.Time] (RFC 3339 with nanoseconds),
    and that the text of an instant in UTC reads back as that instant. *)
From Stdlib Require Import Ascii ZArith.
From stdpp Require Import prelude gmap strings list.
From S2P Require Import Prelude GoStrings GoText GoFloat Json JsonText Backoff.

Local Open Scope Z_scope.

(** Nanoseconds since 1970, and the seconds by which the zone is east of UTC. *)
Record Time := { UnixNano : Z; zone : Z }.

Definition UTC (ns : Z) : Time := {| UnixNano := ns; zone := 0 |}.

(** ** The calendar *)

(** Day numbers count from 1970; years start in March here, and repeat after 400
    years, which are four centuries of 36524 days and a leap day; a century is
    groups of 1461 days, a group is four years and a leap day. *)
Definition civil (days : Z) : Z * Z * Z :=
  let z := days + 719468 in
  let doe := z mod 146097 in
  let c := Z.min (doe / 36524) 3 in
  let doc := doe - c * 36524 in
  let q := doc / 1461 in
  let doq := doc mod 1461 in
  let y := Z.min (doq / 365) 3 in
  let doy := doq - y * 365 in
  let mp := (5 * doy + 2) / 153 in
  let d := doy - (153 * mp + 2) / 5 + 1 in
  let m := if mp <? 10 then mp + 3 else mp - 9 in
  (400 * (z / 146097) + 100 * c + 4 * q + y + (if m <=? 2 then 1 else 0), m, d).

Definition day_number (y m d : Z) : Z :=
  let y := if m <=? 2 then y - 1 else y in
  let yoe := y mod 400 in
  let mp := if 3 <=? m then m - 3 else m + 9 in
  let doy := (153 * mp + 2) / 5 + d - 1 in
  (y / 400) * 146097 + (yoe * 365 + yoe / 4 - yoe / 100 + doy) - 719468.

(** ** The text *)

(** [k] decimal digits. *)
Fixpoint fixed_digits (k : nat) (n : Z) : list ascii :=
  match k with
  | O => []
  | S k' => fixed_digits k' (n / 10) ++ [chr (48 + n mod 10)]
  end.

Definition day_ns : Z := 86400 * Second.

Definition frac_text (nsec : Z) : list ascii :=
  match strip_zeros (fixed_digits 9 nsec) with [] => [] | ds => "."%char :: ds end.

Definition clock_text (ns : Z) : list ascii :=
  let secs := ns / Second in
  fixed_digits 2 (secs / 3600) ++ ":"%char :: fixed_digits 2 (secs / 60 mod 60) ++
  ":"%char :: fixed_digits 2 (secs mod 60) ++ frac_text (ns mod Second).

Definition zone_text (z : Z) : list ascii :=
  if z =? 0 then ["Z"%char]
  else
    let minutes := Z.abs z / 60 in
    (if z <? 0 then "-"%char else "+"%char) ::
    fixed_digits 2 (minutes / 60) ++ ":"%char :: fixed_digits 2 (minutes mod 60).

(** [Time.MarshalJSON] between its quotes; [None] is the error for a year beyond
    four digits or a zone of a day or more. *)
Definition MarshalTime (t : Time) : option (list ascii) :=
  let local := UnixNano t + zone t * Second in
  let '(y, m, d) := civil (local / day_ns) in
  if (0 <=? y) && (y <=? 9999) && (Z.abs (zone t) / 3600 <? 24) then
    Some (fixed_digits 4 y ++ "-"%char :: fixed_digits 2 m ++ "-"%char :: fixed_digits 2 d ++
          "T"%char :: clock_text (local mod day_ns) ++ zone_text (zone t))
  else None.

(** The instant that a text in UTC stands for. *)
Definition read_UTC (l : list ascii) : Z :=
  let num p k := digits_Z (take k (drop p l)) in
  let frac := drop 20 (take (length l - 1) l) in
  day_number (num 0%nat 4%nat) (num 5%nat 2%nat) (num 8%nat 2%nat) * day_ns +
  (num 11%nat 2%nat * 3600 + num 14%nat 2%nat * 60 + num 17%nat 2%nat) * Second +
  digits_Z (frac ++ replicate (9 - length frac) "0"%char).

Example time_texts :
  of_l <$> MarshalTime (UTC 0) = Some "1970-01-01T00:00:00Z" ∧
  of_l <$> MarshalTime (UTC 951827696000000000) = Some "2000-02-29T12:34:56Z" ∧
  of_l <$> MarshalTime (UTC 1785283200123450000) = Some "2026-07-29T00:00:00.12345Z" ∧
  of_l <$> MarshalTime {| UnixNano := -1; zone := -9000 |} = Some "1969-12-31T21:29:59.999999999-02:30" ∧
  MarshalTime (UTC (253402300800 * Second)) = None.
Proof. vm_compute. repeat split. Qed.

(** ** Lemmas *)

(** [lia] with division and remainder. *)
Ltac zlia := Z.to_euclidean_division_equations; lia.

Lemma civil_day days y m d : civil days = (y, m, d) → day_number y m d = days.
Proof.
  unfold civil. cbv zeta. set (z := days + 719468). set (doe := z mod 146097).
  set (c := Z.min (doe / 36524) 3). set (doc := doe - c * 36524). set (q := doc / 1461).
  set (y0 := Z.min (doc mod 1461 / 365) 3). set (doy := doc mod 1461 - y0 * 365).
  set (mp := (5 * doy + 2) / 153). intros [= <- <- <-].
  assert (0 ≤ doe < 146097) by (apply Z.mod_pos_bound; zlia).
  assert (0 ≤ c ≤ 3 ∧ 0 ≤ doc ≤ 36524) by (unfold doc, c; split; zlia).
  assert (0 ≤ q ≤ 24) by (unfold q; zlia).
  assert (0 ≤ y0 ≤ 3 ∧ 0 ≤ doy ≤ 365) as [Hy Hdoy] by (unfold doy, y0; split; zlia).
  assert (0 ≤ mp ≤ 11) by (unfold mp; zlia).
  unfold day_number. set (m := if mp <? 10 then mp + 3 else mp - 9).
  assert ((if 3 <=? m then m - 3 else m + 9) = mp) as ->.
  { unfold m. destruct (Z.ltb_spec mp 10); case_match; lia. }
  set (yr := 400 * (z / 146097) + (100 * c + 4 * q + y0)).
  replace (400 * (z / 146097) + 100 * c + 4 * q + y0) with yr by (unfold yr; zlia).
  assert ((if m <=? 2 then yr + (if m <=? 2 then 1 else 0) - 1 else yr + (if m <=? 2 then 1 else 0)) = yr) as ->
    by (destruct (m <=? 2); zlia).
  assert (yr / 400 = z / 146097 ∧ yr mod 400 = 100 * c + 4 * q + y0) as [-> ->] by (unfold yr; split; zlia).
  assert ((100 * c + 4 * q + y0) / 4 = 25 * c + q ∧ (100 * c + 4 * q + y0) / 100 = c) as [-> ->] by (split; zlia).
  assert (doe = c * 36524 + q * 1461 + y0 * 365 + doy) by (unfold doy, q, doc; zlia).
  assert (z = z / 146097 * 146097 + doe) by (unfold doe; zlia). unfold z in *. zlia.
Qed.

Lemma civil_ranges days y m d : civil days = (y, m, d) → 1 ≤ m ≤ 12 ∧ 1 ≤ d ≤ 31.
Proof.
  unfold civil. cbv zeta. set (doe := (days + 719468) mod 146097).
  set (c := Z.min (doe / 36524) 3). set (doc := doe - c * 36524).
  set (y0 := Z.min (doc mod 1461 / 365) 3). set (doy := doc mod 1461 - y0 * 365).
  set (mp := (5 * doy + 2) / 153). intros [= _ <- <-].
  assert (0 ≤ doe < 146097) by (apply Z.mod_pos_bound; zlia).
  assert (0 ≤ doy ≤ 365) by (unfold doy, y0; zlia).
  assert (0 ≤ mp ≤ 11) by (unfold mp; zlia). split; [destruct (Z.ltb_spec mp 10); zlia|]. unfold mp. zlia.
Qed.

Lemma fixed_digits_length k n : length (fixed_digits k n) = k.
Proof. revert n. induction k as [|k IH]; intros n; cbn; [done|]. rewrite length_app, IH. cbn. lia. Qed.

Lemma fixed_digits_are k n : Forall is_digit (fixed_digits k n).
Proof.
  revert n. induction k as [|k IH]; intros n; cbn; [constructor|]. apply Forall_app. split; [apply IH|].
  apply Forall_singleton. pose proof (Z.mod_pos_bound n 10 ltac:(lia)).
  unfold is_digit. rewrite code_chr; unfold is_byte; lia.
Qed.

Lemma digits_val_app l a acc : digits_val (l ++ [a]) acc = n ← digits_val l acc; d ← digit_val a; Some (n * 10 + d).
Proof.
  revert acc. induction l as [|b l IH]; intros acc; cbn.
  - by destruct (digit_val a).
  - destruct (digit_val b); cbn; [apply IH|done].
Qed.

Lemma fixed_digits_val k n : 0 ≤ n < 10 ^ Z.of_nat k → digits_Z (fixed_digits k n) = n.
Proof.
  unfold digits_Z. intros Hn. enough (digits_val (fixed_digits k n) 0 = Some n) as -> by done.
  revert n Hn. induction k as [|k IH]; intros n Hn; cbn [fixed_digits]; [cbn in *; f_equal; lia|].
  rewrite Nat2Z.inj_succ, Z.pow_succ_r in Hn by lia. pose proof (Z.mod_pos_bound n 10 ltac:(lia)).
  rewrite digits_val_app, IH, digit_val_chr by zlia. cbn. f_equal. zlia.
Qed.

(** ** Reading a text back *)

(** The text is made of graphic ASCII, without quotes and escapes. *)
Lemma time_text_plain t text : MarshalTime t = Some text → Forall plain text.
Proof.
  intros Ht.
  assert (∀ k n, Forall plain (fixed_digits k n)) as Hf.
  { intros k n. eapply Forall_impl; [apply fixed_digits_are|]. unfold is_digit, plain. lia. }
  assert (∀ n, Forall plain (frac_text n)) as Hfr.
  { intros n. unfold frac_text. destruct (strip_zeros_split (fixed_digits 9 n)) as [k Hk].
    pose proof (Hf 9%nat n) as Hall. rewrite Hk in Hall. apply Forall_app in Hall as [Hall _].
    destruct (strip_zeros _); [done|]. by constructor. }
  unfold MarshalTime in Ht. destruct (civil _) as [[y m] d]. case_match; [|done]. apply (inj Some) in Ht. rewrite <- Ht.
  unfold clock_text, zone_text. repeat first [apply Hf | apply Hfr | apply Forall_app; split | apply Forall_cons; split
    | by apply (bool_decide_unpack (plain _)) | case_match | done].
Qed.

Section marshal.
Context (ns : Z) (text : list ascii) (Ht : MarshalTime (UTC ns) = Some text).

Lemma two_fixed n : 0 ≤ n < 100 → ∃ a b, fixed_digits 2 n = [a; b] ∧ digits_Z [a; b] = n.
Proof. intros Hn. eexists _, _. split; [reflexivity|]. by apply (fixed_digits_val 2). Qed.
Lemma four_fixed n : 0 ≤ n < 10000 → ∃ a b c d, fixed_digits 4 n = [a; b; c; d] ∧ digits_Z [a; b; c; d] = n.
Proof. intros Hn. eexists _, _, _, _. split; [reflexivity|]. by apply (fixed_digits_val 4). Qed.

(** The fraction, between the seconds and the zone. *)
Lemma frac_read n : 0 ≤ n < Second →
  let f := drop 1 (frac_text n) in digits_Z (f ++ replicate (9 - length f) "0"%char) = n.
Proof.
  intros Hn. destruct (strip_zeros_split (fixed_digits 9 n)) as [k Hk].
  assert (drop 1 (frac_text n) = strip_zeros (fixed_digits 9 n)) as ->
    by (unfold frac_text; by destruct (strip_zeros _)).
  pose proof (f_equal length Hk) as Hl. rewrite fixed_digits_length, length_app, length_replicate in Hl.
  cbv zeta. replace (9 - length (strip_zeros (fixed_digits 9 n)))%nat with k by lia.
  rewrite <- Hk. by apply fixed_digits_val.
Qed.

Lemma time_text_read : read_UTC text = ns.
Proof.
  unfold MarshalTime in Ht. cbn [UnixNano zone UTC] in Ht. rewrite Z.mul_0_l, Z.add_0_r in Ht.
  destruct (civil (ns / day_ns)) as [[y m] d] eqn:Ec. pose proof (civil_ranges _ _ _ _ Ec) as [Hm Hd].
  pose proof (civil_day _ _ _ _ Ec) as Hday.
  destruct ((0 <=? y) && (y <=? 9999) && (Z.abs 0 / 3600 <? 24)) eqn:Eb; [|done]. apply (inj Some) in Ht. rewrite <- Ht. clear Ht.
  unfold clock_text. set (t := ns mod day_ns). assert (0 ≤ t < day_ns) by (apply Z.mod_pos_bound; done).
  set (s := t / Second). assert (0 ≤ s < 86400) by (unfold s, day_ns, Second in *; zlia).
  destruct (four_fixed y ltac:(lia)) as (y1 & y2 & y3 & y4 & -> & Ey).
  destruct (two_fixed m ltac:(lia)) as (m1 & m2 & -> & Em).
  destruct (two_fixed d ltac:(lia)) as (d1 & d2 & -> & Ed).
  destruct (two_fixed (s / 3600) ltac:(zlia)) as (h1 & h2 & -> & Eh).
  destruct (two_fixed (s / 60 mod 60) ltac:(zlia)) as (n1 & n2 & -> & En).
  destruct (two_fixed (s mod 60) ltac:(zlia)) as (s1 & s2 & -> & Es).
  assert (0 ≤ t mod Second < Second) as Hn by (apply Z.mod_pos_bound; done).
  pose proof (frac_read _ Hn) as Hf. cbv zeta in Hf. unfold read_UTC. revert Hf.
  generalize (frac_text (t mod Second)). intros f Hf. cbn [app zone_text UTC zone Z.eqb].
  match goal with |- context [take (length ?l - 1) ?l] => set (all := l) end.
  assert (drop 20 (take (length all - 1) all) = drop 1 f) as ->.
  { unfold all. cbn [length]. rewrite length_app. cbn [length]. rewrite !Nat.sub_succ, Nat.sub_0_r.
    replace (length f + 1)%nat with (S (length f)) by lia. cbn [take drop].
    by rewrite take_app_length. }
  rewrite Hf. unfold all. cbn [take drop]. rewrite take_0, Ey, Em, Ed, Eh, En, Es, Hday.
  unfold s, t, day_ns, Second in *. zlia.
Qed.
End marshal.
