(* ===== verification/Threads.v ===== *)
(** * Goroutines and mutexes

    The part of Go's concurrency that the AMQP transport uses, as a step
    relation. A goroutine is a tree of atomic actions ([code]): it locks and
    unlocks mutexes ([sync.Mutex], and [sync.RWMutex] in both modes), acts on
    the shared state, and waits in a [select] for what others send it; a pool of
    goroutines moves by the next action of any one of them, by the environment,
    and by new calls. Two proof methods for pools follow: a lock order, which
    gives progress and termination up to such waits, and rely and guarantee
    conditions, which give invariants of the shared state.

    A writer that waits for a [sync.RWMutex] keeps new readers out in Go; here a
    reader may still enter, so that the pool has every behaviour of the code and
    more. *)
From Stdlib Require Import ZArith.
From stdpp Require Import prelude list relations.

(** ** Goroutines *)

(** [Lock true] is exclusive ([Lock]), [Lock false] shared ([RLock]). [Select]
    is a loop around a [select]: it blocks while [f] has nothing ([None]), goes
    round again on a message of no interest ([Some (None, _)]), and leaves the
    loop on the others. *)
Inductive code (L S A : Type) : Type :=
| Return (a : A)
| Lock (w : bool) (l : L) (k : code L S A)
| Unlock (l : L) (k : code L S A)
| Act (X : Type) (f : S → X * S) (k : X → code L S A)
| Select (Y : Type) (f : S → option (option Y * S)) (k : Y → code L S A)
| Crash.
Arguments Return {L S A} a.
Arguments Lock {L S A} w l k.
Arguments Unlock {L S A} l k.
Arguments Act {L S A} X f k.
Arguments Select {L S A} Y f k.
Arguments Crash {L S A}.

Fixpoint code_bind {L S A B} (k : A → code L S B) (c : code L S A) : code L S B :=
  match c with
  | Return a => k a
  | Lock w l c' => Lock w l (code_bind k c')
  | Unlock l c' => Unlock l (code_bind k c')
  | Act X f c' => Act X f (λ x, code_bind k (c' x))
  | Select Y f c' => Select Y f (λ y, code_bind k (c' y))
  | Crash => Crash
  end.

#[global] Instance code_ret {L S} : MRet (code L S) := λ A a, Return a.
#[global] Instance code_mbind {L S} : MBind (code L S) := λ A B k c, code_bind k c.

Definition lock_ {L S} (w : bool) (l : L) : code L S unit := Lock w l (Return tt).
Definition unlock_ {L S} (l : L) : code L S unit := Unlock l (Return tt).
Definition act {L S X} (f : S → X * S) : code L S X := Act X f Return.
Definition select_ {L S Y} (f : S → option (option Y * S)) : code L S Y := Select Y f Return.

(** Whatever happens by [run], and by [env] in between, [P] is reached after
    finitely many steps of [run], and until then such a step is possible. *)
Inductive inevitable {X} (env run : X → X → Prop) (P : X → Prop) (x : X) : Prop :=
| inevitable_now : P x → inevitable env run P x
| inevitable_next :
    (∃ y, run x y) →
    (∀ x' y, rtc env x x' → run x' y → inevitable env run P y) →
    inevitable env run P x.

Lemma inevitable_mono {X} (env run : X → X → Prop) (P Q : X → Prop) x :
  (∀ y, P y → Q y) → inevitable env run P x → inevitable env run Q x.
Proof.
  intros HPQ. induction 1 as [x Hx|x Hmove _ IH]; [left; auto|]. right; [done|]. intros x' y Henv Hrun. by eapply IH.
Qed.

(** One element of a list steps down. *)
Definition list_step {A} (R : A → A → Prop) (p' p : list A) : Prop :=
  ∃ i c c', p !! i = Some c ∧ R c' c ∧ p' = <[i := c']> p.

Lemma list_step_wf {A} (R : A → A → Prop) (Hwf : ∀ c, Acc R c) p : Acc (list_step R) p.
Proof.
  induction p as [|c p IHp]; [constructor; by intros ? (i & ? & ? & ? & _)|].
  revert p IHp. induction (Hwf c) as [c _ IHc]. intros p IHp.
  induction IHp as [p Hp IHp]. constructor. intros p' ([|i] & d & d' & Hi & Hf & ->); simpl in *.
  - injection Hi as <-. apply IHc; [done|]. by constructor.
  - apply IHp. by exists i, d, d'.
Qed.

(** ** Pools *)

Section pool.
Context {L : Type} `{!EqDecision L} {S R : Type}.
Implicit Types (h : list (nat * (L * bool))) (hs : list (L * bool)) (c : code L S R).

(** A lock that is held: the goroutine, the mutex and the mode. *)
Abbreviation entry := (nat * (L * bool))%type.

Record cfg := Cfg { pool : list (code L S R); locks : list entry; shared : S }.

Definition can_lock (w : bool) (l : L) h : bool :=
  bool_decide (Forall (λ e : entry, e.2.1 = l → w = false ∧ e.2.2 = false) h).

Definition step_thread (i : nat) c h (s : S) : option (code L S R * list entry * S) :=
  match c with
  | Return _ | Crash => None
  | Lock w l k => if can_lock w l h then Some (k, (i, (l, w)) :: h, s) else None
  | Unlock l k => Some (k, filter (λ e : entry, ¬ (e.1 = i ∧ e.2.1 = l)) h, s)
  | Act X f k => let '(x, s') := f s in Some (k x, h, s')
  | Select Y f k => match f s with Some (Some y, s') => Some (k y, h, s') | _ => None end
  end.

(** The next action of one goroutine. *)
Inductive run_step : cfg → cfg → Prop :=
| run_at p h s i c c' h' s' :
    p !! i = Some c → step_thread i c h s = Some (c', h', s') →
    run_step (Cfg p h s) (Cfg (<[i := c']> p) h' s').

(** A goroutine goes round the loop of its [select]. *)
Inductive skip_step : cfg → cfg → Prop :=
| skip_at p h s i Y f k s' :
    p !! i = Some (Select Y f k) → f s = Some (None, s') → skip_step (Cfg p h s) (Cfg p h s').

(** The environment changes the shared state. *)
Inductive env_step (E : S → S → Prop) : cfg → cfg → Prop :=
| env_at p h s s' : E s s' → env_step E (Cfg p h s) (Cfg p h s').

(** A new call starts. *)
Inductive spawn_step (calls : S → code L S R → Prop) : cfg → cfg → Prop :=
| spawn_at p h s c : calls s c → spawn_step calls (Cfg p h s) (Cfg (p ++ [c]) h s).

Definition step (E : S → S → Prop) (calls : S → code L S R → Prop) (x y : cfg) : Prop :=
  run_step x y ∨ (env_step E x y ∨ skip_step x y) ∨ spawn_step calls x y.

(** What may happen between the actions that bring the calls forward. *)
Definition idle_step (E : S → S → Prop) (x y : cfg) : Prop := env_step E x y ∨ skip_step x y.

(** One action at a time, for executions by hand. *)
Lemma run_lock_at i p h s w l k y :
  p !! i = Some (Lock w l k) → can_lock w l h = true →
  rtc run_step (Cfg (<[i := k]> p) ((i, (l, w)) :: h) s) y → rtc run_step (Cfg p h s) y.
Proof. intros Hi Hc. apply rtc_l. eapply run_at; [done|]. simpl. by rewrite Hc. Qed.
Lemma run_unlock_at i p h s l k y :
  p !! i = Some (Unlock l k) →
  rtc run_step (Cfg (<[i := k]> p) (filter (λ e : entry, ¬ (e.1 = i ∧ e.2.1 = l)) h) s) y →
  rtc run_step (Cfg p h s) y.
Proof. intros Hi. apply rtc_l. by eapply run_at. Qed.
Lemma run_act_at i p h s X f k x s' y :
  p !! i = Some (Act X f k) → f s = (x, s') →
  rtc run_step (Cfg (<[i := k x]> p) h s') y → rtc run_step (Cfg p h s) y.
Proof. intros Hi Hf. apply rtc_l. eapply run_at; [done|]. simpl. by rewrite Hf. Qed.

(** ** The locks of one goroutine *)

Definition held_by (i : nat) h : list (L * bool) := (λ e : entry, e.2) <$> filter (λ e : entry, e.1 = i) h.

Definition release (l : L) hs : list (L * bool) := filter (λ e : L * bool, e.1 ≠ l) hs.

Lemma held_by_cons i j e h :
  held_by i ((j, e) :: h) = if decide (j = i) then e :: held_by i h else held_by i h.
Proof. unfold held_by. rewrite filter_cons. simpl. by case_decide. Qed.
Lemma held_by_cons_same i e h : held_by i ((i, e) :: h) = e :: held_by i h.
Proof. by rewrite held_by_cons, decide_True. Qed.
Lemma held_by_cons_other i j e h : i ≠ j → held_by j ((i, e) :: h) = held_by j h.
Proof. intros. by rewrite held_by_cons, decide_False. Qed.

Lemma held_by_unlock_same i l h :
  held_by i (filter (λ e : entry, ¬ (e.1 = i ∧ e.2.1 = l)) h) = release l (held_by i h).
Proof.
  induction h as [|[j e] h IH]; [done|]. rewrite filter_cons, held_by_cons. simpl.
  destruct (decide (j = i)) as [->|Hne].
  - unfold release. rewrite filter_cons. fold (release l (held_by i h)).
    destruct (decide (e.1 = l)) as [He|He].
    + rewrite decide_False by tauto. by rewrite decide_False by tauto.
    + rewrite decide_True, held_by_cons_same by tauto. by rewrite decide_True, IH by done.
  - rewrite decide_True by tauto. by rewrite held_by_cons_other.
Qed.
Lemma held_by_unlock_other i j l h :
  i ≠ j → held_by j (filter (λ e : entry, ¬ (e.1 = i ∧ e.2.1 = l)) h) = held_by j h.
Proof.
  intros Hij. induction h as [|[n e] h IH]; [done|]. rewrite filter_cons. simpl.
  case_decide as Hd; rewrite ?held_by_cons, IH; [done|].
  destruct (decide (n = j)) as [->|]; [|done]. by destruct Hd as [-> _].
Qed.

Lemma elem_of_held_by i e h : e ∈ held_by i h ↔ (i, e) ∈ h.
Proof.
  unfold held_by. rewrite list_elem_of_fmap. setoid_rewrite list_elem_of_filter. split.
  - intros ([j e'] & -> & Hj & Hin). simpl in *. by subst.
  - intros Hin. by exists (i, e).
Qed.

(** What a step does to the locks and codes of the pool, seen from any
    goroutine. *)
Lemma step_thread_other i j c h s c' h' s' :
  i ≠ j → step_thread i c h s = Some (c', h', s') → held_by j h' = held_by j h.
Proof.
  intros Hij. destruct c as [a|w l k|l k|X f k|Y f k|]; simpl; [done| | | | |done].
  - case_match; [|done]. intros [= <- <- <-]. by apply held_by_cons_other.
  - intros [= <- <- <-]. by apply held_by_unlock_other.
  - destruct (f s) as [x s1]. by intros [= <- <- <-].
  - destruct (f s) as [[[y|] s1]|]; [|done..]. by intros [= <- <- <-].
Qed.

(** A lock that cannot be taken is held. *)
Lemma can_lock_false w l h :
  can_lock w l h = false → ∃ i w', (i, (l, w')) ∈ h ∧ (w = true ∨ w' = true).
Proof.
  unfold can_lock. rewrite bool_decide_eq_false. intros Hn.
  apply not_Forall_Exists in Hn; [|apply _]. apply Exists_exists in Hn as ([i [l' w']] & Hin & Hn).
  simpl in Hn. destruct (decide (l' = l)) as [->|]; [|by destruct Hn]. exists i, w'. split; [done|].
  destruct w, w'; tauto.
Qed.

Lemma can_lock_true w l h i w' :
  can_lock w l h = true → (i, (l, w')) ∈ h → w = false ∧ w' = false.
Proof.
  unfold can_lock. rewrite bool_decide_eq_true, Forall_forall. intros Hf Hin. by apply (Hf _ Hin).
Qed.

(** ** Lock order: progress and termination *)

Section order.
Context (rank : L → nat) (bound : nat) (rank_bound : ∀ l, rank l ≤ bound).

(** What the code may wait for in a [select]. *)
Context (awaits : ∀ Y, (S → option (option Y * S)) → Prop).

(** An invariant of the shared state that the environment preserves. *)
Context (E : S → S → Prop) (Inv : S → Prop) (env_keeps : ∀ s s', E s s' → Inv s → Inv s').

(** The code, started with the locks [hs] where [Inv] holds, takes locks in
    increasing rank only, holds none in a [select], keeps [Inv], and ends with the
    locks [hs'] and a result that satisfies [Q]. *)
Fixpoint orderedI {A} hs (c : code L S A) hs' (Q : A → Prop) : Prop :=
  match c with
  | Return a => hs = hs' ∧ Q a
  | Crash => True
  | Lock w l k => Forall (λ e : L * bool, rank e.1 < rank l) hs ∧ orderedI ((l, w) :: hs) k hs' Q
  | Unlock l k => orderedI (release l hs) k hs' Q
  | Act X f k => ∀ s, Inv s → Inv (f s).2 ∧ orderedI hs (k (f s).1) hs' Q
  | Select Y f k => awaits Y f ∧ hs = [] ∧ ∀ s, Inv s →
      match f s with
      | Some (Some y, s') => Inv s' ∧ orderedI hs (k y) hs' Q
      | Some (None, s') => Inv s'
      | None => True
      end
  end.

Lemma orderedI_bind {A B} hs1 hs2 hs3 (c : code L S A) (k : A → code L S B) Q Q' :
  orderedI hs1 c hs2 Q → (∀ a, Q a → orderedI hs2 (k a) hs3 Q') → orderedI hs1 (c ≫= k) hs3 Q'.
Proof.
  intros Hc Hk. unfold mbind, code_mbind. revert hs1 Hc.
  induction c as [a|w l c IH|l c IH|X f c IH|Y f c IH|]; simpl; intros hs1.
  - intros [<- Ha]. by apply Hk.
  - intros [? ?]. split; [done|]. by apply IH.
  - apply IH.
  - intros Hc s Hs. destruct (Hc s Hs). split; [done|]. by apply IH.
  - intros (Hw & Hh & Hc). split; [done|]. split; [done|]. intros s Hs. specialize (Hc s Hs).
    destruct (f s) as [[[y|] s']|]; [|done..]. destruct Hc. split; [done|]. by apply IH.
  - done.
Qed.
Lemma orderedI_ret {A} hs (a : A) (Q : A → Prop) : Q a → orderedI hs (mret a) hs Q.
Proof. done. Qed.
Lemma orderedI_act {A} hs (f : S → A * S) (Q : A → Prop) :
  (∀ s, Inv s → Inv (f s).2 ∧ Q (f s).1) → orderedI hs (act f) hs Q.
Proof. intros Hf s Hs. destruct (Hf s Hs). done. Qed.
Lemma orderedI_select {A} (f : S → option (option A * S)) (Q : A → Prop) :
  awaits A f →
  (∀ s, Inv s → match f s with Some (Some a, s') => Inv s' ∧ Q a | Some (None, s') => Inv s' | None => True end) →
  orderedI [] (select_ f) [] Q.
Proof.
  intros Hw Hf. split; [done|]. split; [done|]. intros s Hs. specialize (Hf s Hs).
  destruct (f s) as [[[a|] s']|]; naive_solver.
Qed.
Lemma orderedI_lock w l hs :
  Forall (λ e : L * bool, rank e.1 < rank l) hs → orderedI hs (lock_ w l) ((l, w) :: hs) (λ _, True).
Proof. done. Qed.
Lemma orderedI_unlock w l hs :
  Forall (λ e : L * bool, rank e.1 < rank l) hs → orderedI ((l, w) :: hs) (unlock_ l) hs (λ _, True).
Proof.
  intros Hf. simpl. split; [|done]. unfold release. rewrite filter_cons_False by (simpl; tauto).
  induction Hf as [|e hs He _ IH]; [done|]. rewrite filter_cons_True, IH; [done|]. intros Heq. rewrite Heq in He. lia.
Qed.
Lemma orderedI_post {A} hs (c : code L S A) hs' (Q Q' : A → Prop) :
  (∀ a, Q a → Q' a) → orderedI hs c hs' Q → orderedI hs c hs' Q'.
Proof.
  intros HQ. revert hs. induction c as [a|w l c IH|l c IH|X f c IH|Y f c IH|]; simpl; intros hs; [|naive_solver..| |done].
  - intros [? ?]. auto.
  - intros (Hw & Hh & Hc). split; [done|]. split; [done|]. intros s Hs. specialize (Hc s Hs).
    destruct (f s) as [[[y|] s']|]; [|done..]. naive_solver.
Qed.

Definition ordered_cfg (x : cfg) : Prop :=
  Inv (shared x) ∧
  (∀ i c, pool x !! i = Some c → orderedI (held_by i (locks x)) c [] (λ _, True)) ∧
  (∀ i e, (i, e) ∈ locks x → is_Some (pool x !! i)).

Definition returned c : Prop := match c with Return _ => True | _ => False end.
#[global] Instance returned_dec c : Decision (returned c).
Proof. destruct c; simpl; apply _. Defined.
Definition all_returned (x : cfg) : Prop := Forall returned (pool x).

(** Calls that have returned, or wait in a [select]. *)
Definition settled c : Prop := match c with Return _ | Select _ _ _ => True | _ => False end.
#[global] Instance settled_dec c : Decision (settled c).
Proof. destruct c; simpl; apply _. Defined.
Definition all_settled (x : cfg) : Prop := Forall settled (pool x).
Definition no_crash (x : cfg) : Prop := Crash ∉ pool x.

Lemma ordered_thread i c h s c' h' s' :
  Inv s → orderedI (held_by i h) c [] (λ _, True) → step_thread i c h s = Some (c', h', s') →
  Inv s' ∧ orderedI (held_by i h') c' [] (λ _, True).
Proof.
  intros Hs. destruct c as [a|w l k|l k|X f k|Y f k|]; simpl; [done| | | | |done].
  - intros [_ Ho]. case_match; [|done]. intros [= <- <- <-]. by rewrite held_by_cons_same.
  - intros Ho [= <- <- <-]. by rewrite held_by_unlock_same.
  - intros Ho. specialize (Ho s Hs). destruct (f s) as [x s1]. by intros [= <- <- <-].
  - intros (_ & _ & Ho). specialize (Ho s Hs). destruct (f s) as [[[y|] s1]|]; [|done..]. by intros [= <- <- <-].
Qed.

Lemma locks_owner i c h s c' h' s' j e :
  step_thread i c h s = Some (c', h', s') → (j, e) ∈ h' → j = i ∨ (j, e) ∈ h.
Proof.
  destruct c as [a|w l k|l k|X f k|Y f k|]; simpl; [done| | | | |done].
  - case_match; [|done]. intros [= <- <- <-]. rewrite elem_of_cons. intros [[= -> ->]|]; tauto.
  - intros [= <- <- <-]. rewrite list_elem_of_filter. tauto.
  - destruct (f s) as [x s1]. intros [= <- <- <-]. tauto.
  - destruct (f s) as [[[y|] s1]|]; [|done..]. intros [= <- <- <-]. tauto.
Qed.

Lemma ordered_run x y : ordered_cfg x → run_step x y → ordered_cfg y.
Proof.
  intros (HI & Ho & Hl) Hs. destruct Hs as [p h s i c c' h' s' Hi Hs]. simpl in *.
  destruct (ordered_thread _ _ _ _ _ _ _ HI (Ho _ _ Hi) Hs) as [HI' Ho']. split; [done|]. split; simpl.
  - intros j cj. destruct (decide (i = j)) as [<-|Hij].
    + rewrite list_lookup_insert_eq by (by eapply lookup_lt_Some). by intros [= <-].
    + rewrite list_lookup_insert_ne by done. intros Hj. rewrite (step_thread_other i j _ _ _ _ _ _ Hij Hs).
      by apply Ho.
  - intros j e He. destruct (locks_owner _ _ _ _ _ _ _ _ _ Hs He) as [->|Hin].
    + rewrite list_lookup_insert_eq by (by eapply lookup_lt_Some). eauto.
    + destruct (decide (i = j)) as [<-|]; [rewrite list_lookup_insert_eq by (by eapply lookup_lt_Some); eauto|].
      rewrite list_lookup_insert_ne by done. eauto.
Qed.

(** Along the chain of goroutines that wait for each other ranks increase, so
    the last one moves. *)
Lemma chain_moves p h s :
  ordered_cfg (Cfg p h s) → Crash ∉ p →
  ∀ n i w l k, bound - rank l ≤ n → p !! i = Some (Lock w l k) →
  ∃ y, run_step (Cfg p h s) y.
Proof.
  intros (_ & Ho & Hl) Hcr. simpl in *. induction n as [n IH] using lt_wf_ind. intros i w l k Hn Hi.
  destruct (can_lock w l h) eqn:Hc.
  { eexists. eapply run_at; [done|]. simpl. by rewrite Hc. }
  destruct (can_lock_false _ _ _ Hc) as (j & w' & Hin & _). destruct (Hl _ _ Hin) as [cj Hj].
  pose proof (Ho _ _ Hj) as Hoj. assert ((l, w') ∈ held_by j h) as Hh by by apply elem_of_held_by.
  destruct cj as [a|w2 l2 k2|l2 k2|X f k2|Y f k2|]; simpl in Hoj.
  - destruct Hoj as [Hoj _]. rewrite Hoj in Hh. by apply elem_of_nil in Hh.
  - destruct Hoj as [Hr _]. rewrite Forall_forall in Hr. specialize (Hr _ Hh). simpl in Hr.
    pose proof (rank_bound l2). eapply (IH (bound - rank l2)); [lia|reflexivity|done].
  - eexists. by eapply run_at.
  - destruct (f s) as [x s'] eqn:Ef. eexists. eapply run_at; [done|]. simpl. by rewrite Ef.
  - destruct Hoj as (_ & Hoj & _). rewrite Hoj in Hh. by apply elem_of_nil in Hh.
  - exfalso. apply Hcr. by eapply list_elem_of_lookup_2.
Qed.

(** Settled goroutines hold no locks. *)
Lemma settled_unlocked x : ordered_cfg x → all_settled x → locks x = [].
Proof.
  intros (_ & Ho & Hl) Hs. destruct (locks x) as [|[i e] h] eqn:Eh; [done|]. exfalso.
  assert (e ∈ held_by i ((i, e) :: h)) as Hin by (rewrite held_by_cons_same; by left).
  destruct (Hl i e ltac:(by left)) as [c Hc]. specialize (Ho _ _ Hc).
  unfold all_settled in Hs. rewrite Forall_forall in Hs.
  specialize (Hs _ (list_elem_of_lookup_2 _ _ _ Hc)).
  destruct c; simpl in Hs, Ho; try done; [destruct Ho as [Ho _]|destruct Ho as (_ & Ho & _)];
    rewrite Ho in Hin; by apply elem_of_nil in Hin.
Qed.

(** A pool in which some call has neither returned nor waits in a [select]
    moves. *)
Lemma ordered_progress x :
  ordered_cfg x → no_crash x → all_settled x ∨ ∃ y, run_step x y.
Proof.
  intros Hx Hcr. destruct x as [p h s]. unfold all_settled, no_crash in *. simpl in *.
  destruct (decide (Exists (λ c, ¬ settled c) p)) as [He|He].
  - right. apply Exists_exists in He as (c & Hin & Hc). apply list_elem_of_lookup_1 in Hin as [i Hi].
    destruct c as [a|w l k|l k|X f k|Y f k|]; simpl in Hc; [tauto| | | |tauto|].
    + by eapply chain_moves.
    + eexists. by eapply run_at.
    + destruct (f s) as [x s'] eqn:Ef. eexists. eapply run_at; [done|]. simpl. by rewrite Ef.
    + exfalso. apply Hcr. by eapply list_elem_of_lookup_2.
  - left. apply not_Exists_Forall in He; [|apply _]. eapply Forall_impl; [exact He|].
    intros c Hc. by apply dec_stable.
Qed.

(** *** Every execution ends *)

(** [c'] is what [c] may become by one action. *)
Definition follows c' c : Prop :=
  match c with
  | Return _ | Crash => False
  | Lock _ _ k => c' = k
  | Unlock _ k => c' = k
  | Act X _ k => ∃ x, c' = k x
  | Select Y _ k => ∃ y, c' = k y
  end.

Lemma follows_wf c : Acc follows c.
Proof.
  induction c as [a|w l k IH|l k IH|X f k IH|Y f k IH|]; constructor; simpl; intros c'.
  - intros [].
  - by intros ->.
  - by intros ->.
  - by intros [x ->].
  - by intros [y ->].
  - intros [].
Qed.

Definition pool_follows : list (code L S R) → list (code L S R) → Prop := list_step follows.
Definition pool_follows_wf p : Acc pool_follows p := list_step_wf follows follows_wf p.

Lemma run_follows x y : run_step x y → pool_follows (pool y) (pool x).
Proof.
  intros Hs. destruct Hs as [p h s i c c' h' s' Hi Hs]. exists i, c, c'. split; [done|].
  split; [|done]. destruct c as [a|w l k|l k|X f k|Y f k|]; simpl in *; [done| | | | |done].
  - case_match; [|done]. by injection Hs as <- _ _.
  - by injection Hs as <- _ _.
  - destruct (f s) as [x s1]. injection Hs as <- _ _. eauto.
  - destruct (f s) as [[[y|] s1]|]; [|done..]. injection Hs as <- _ _. eauto.
Qed.

Lemma idle_ordered x y : idle_step E x y → ordered_cfg x → ordered_cfg y ∧ pool y = pool x.
Proof.
  intros [Hxy|Hxy] (HI & Ho & Hl).
  - destruct Hxy as [p h s s' Hs]. simpl in *. split; [|done]. split; [by eapply env_keeps|]. by split.
  - destruct Hxy as [p h s i Y f k s' Hi Hf]. simpl in *. split; [|done]. split; [|by split].
    destruct (Ho _ _ Hi) as (_ & _ & Hk). specialize (Hk s HI). by rewrite Hf in Hk.
Qed.

Lemma idles_ordered x y : rtc (idle_step E) x y → ordered_cfg x → ordered_cfg y ∧ pool y = pool x.
Proof.
  induction 1 as [|x y z Hxy _ IH]; [done|]. intros Hx. destruct (idle_ordered _ _ Hxy Hx) as [Hy Hp].
  destruct (IH Hy). split; [done|congruence].
Qed.

(** A pool of calls that respect the lock order moves on until its goroutines
    have returned or wait in a [select], without locks; and up to [P], when such a
    pool is in [P] or one of its goroutines leaves its [select]. *)
Theorem orderedI_inevitable x (P : cfg → Prop) :
  ordered_cfg x →
  (∀ y, rtc (λ a b, run_step a b ∨ idle_step E a b) x y →
     no_crash y ∧ (ordered_cfg y → all_settled y → P y ∨ ∃ z, run_step y z)) →
  inevitable (idle_step E) run_step (λ y, P y ∧ Inv (shared y)) x.
Proof.
  remember (pool x) as p eqn:Ep. revert x Ep.
  induction (pool_follows_wf p) as [p _ IH]. intros x -> Hx Hcr.
  destruct (Hcr x (rtc_refl _ _)) as [Hnc HP].
  assert ((P x ∧ Inv (shared x)) ∨ ∃ y, run_step x y) as [Hdone|Hmove].
  { destruct (ordered_progress x Hx Hnc) as [Hs|Hm]; [|by right].
    destruct (HP Hx Hs) as [HPx|Hm]; [left; split; [done|apply Hx]|by right]. }
  { by left. }
  right; [done|]. intros x' y Henv Hrun. destruct (idles_ordered _ _ Henv Hx) as [Hx' Hp].
  eapply IH; [by rewrite <- Hp; apply run_follows|reflexivity|by eapply ordered_run|].
  intros z Hz. apply Hcr. etrans; [|etrans; [apply rtc_once; by left|exact Hz]].
  eapply rtc_subrel; [|exact Henv]. by right.
Qed.

(** Calls that have settled have returned, unless one waits in a [select]. *)
Lemma settled_returned x :
  ordered_cfg x → all_settled x → all_returned x ∨ ∃ i Y f k, pool x !! i = Some (Select Y f k) ∧ awaits Y f.
Proof.
  intros (_ & Ho & _) Hs. destruct (decide (all_returned x)) as [Hr|Hr]; [by left|right].
  unfold all_settled, all_returned in *. apply not_Forall_Exists in Hr; [|apply _].
  apply Exists_exists in Hr as (c & Hin & Hc). rewrite Forall_forall in Hs. specialize (Hs c Hin).
  apply list_elem_of_lookup_1 in Hin as [i Hi]. specialize (Ho _ _ Hi).
  destruct c as [a|w l k|l k|X f k|Y f k|]; simpl in *; try done. exists i, Y, f, k. by split; [|apply Ho].
Qed.

Lemma ordered_reach x y :
  ordered_cfg x → rtc (λ a b, run_step a b ∨ idle_step E a b) x y → ordered_cfg y.
Proof.
  intros Hx Hy. induction Hy as [|x y z [Hxy|Hxy] _ IH]; [done|apply IH; by eapply ordered_run|].
  apply IH. by eapply idle_ordered.
Qed.
End order.

(** *** Without an invariant *)

Section plain_order.
Context (rank : L → nat) (awaits : ∀ Y, (S → option (option Y * S)) → Prop).

Definition ordered {A} hs (c : code L S A) hs' : Prop :=
  orderedI rank awaits (λ _, True) hs c hs' (λ _, True).

Lemma ordered_bind {A B} hs1 hs2 hs3 (c : code L S A) (k : A → code L S B) :
  ordered hs1 c hs2 → (∀ a, ordered hs2 (k a) hs3) → ordered hs1 (c ≫= k) hs3.
Proof. intros Hc Hk. eapply orderedI_bind; [exact Hc|]. intros a _. apply Hk. Qed.
Lemma ordered_ret {A} hs (a : A) : ordered hs (mret a) hs.
Proof. done. Qed.
Lemma ordered_act {A} hs (f : S → A * S) : ordered hs (act f) hs.
Proof. by apply orderedI_act. Qed.
Lemma ordered_select {A} (f : S → option (option A * S)) : awaits A f → ordered [] (select_ f) [].
Proof. intros Hw. apply orderedI_select; [done|]. intros s _. by destruct (f s) as [[[a|] s']|]. Qed.
Lemma ordered_lock w l hs : Forall (λ e : L * bool, rank e.1 < rank l) hs → ordered hs (lock_ w l) ((l, w) :: hs).
Proof. by apply orderedI_lock. Qed.
Lemma ordered_unlock w l hs :
  Forall (λ e : L * bool, rank e.1 < rank l) hs → ordered ((l, w) :: hs) (unlock_ l) hs.
Proof. by apply orderedI_unlock. Qed.
End plain_order.

(** ** Waiting in a circle *)

(** The goroutine [i] waits for a lock that [j] holds exclusively. *)
Definition waits (x : cfg) (i j : nat) : Prop :=
  ∃ w l k, pool x !! i = Some (Lock w l k) ∧ (j, (l, true)) ∈ locks x.

(** Two goroutines that wait for each other, or one that waits for itself, wait
    for ever. *)
Lemma circle_is_permanent E calls x y i j :
  waits x i j → waits x j i → rtc (step E calls) x y →
  waits y i j ∧ waits y j i ∧ pool y !! i = pool x !! i ∧ pool y !! j = pool x !! j.
Proof.
  intros Hij Hji Hs. induction Hs as [x|x y z Hxy _ IH]; [done|].
  assert (waits y i j ∧ waits y j i ∧ pool y !! i = pool x !! i ∧ pool y !! j = pool x !! j) as (H1 & H2 & H3 & H4).
  { clear IH. destruct Hij as (w & l & k & Hi & Hl), Hji as (w' & l' & k' & Hj & Hl').
    assert (∀ y, pool y !! i = pool x !! i → pool y !! j = pool x !! j →
      (j, (l, true)) ∈ locks y → (i, (l', true)) ∈ locks y →
      waits y i j ∧ waits y j i ∧ pool y !! i = pool x !! i ∧ pool y !! j = pool x !! j) as Hkeep.
    { intros u Hui Huj H1 H2. split_and!; [|..|done|done].
      - exists w, l, k. by rewrite Hui.
      - exists w', l', k'. by rewrite Huj. }
    destruct Hxy as [Hr|[[He|Hsk]|Hsp]].
    - destruct Hr as [p h s n c c' h' s' Hn Hs]. simpl in *.
      assert (n ≠ i ∧ n ≠ j) as [Hni Hnj].
      { split; intros ->; simplify_eq; simpl in Hs; case_match eqn:Hc; try done.
        - destruct (can_lock_true _ _ _ _ _ Hc Hl); done.
        - destruct (can_lock_true _ _ _ _ _ Hc Hl'); done. }
      apply Hkeep; simpl; [by rewrite list_lookup_insert_ne..| |];
        apply elem_of_held_by; erewrite step_thread_other by done; by apply elem_of_held_by.
    - destruct He. by apply Hkeep.
    - destruct Hsk. by apply Hkeep.
    - destruct Hsp. simpl in *. apply Hkeep; simpl; [by rewrite lookup_app_l by (by eapply lookup_lt_Some)..|done|done]. }
  destruct (IH H1 H2) as (? & ? & ? & ?). split_and!; congruence.
Qed.
End pool.
Arguments cfg : clear implicits.

(** ** Rely and guarantee *)

Section rely_guarantee.
Context {L : Type} `{!EqDecision L} {S : Type}.
Implicit Types (hs : list (L * bool)) (s : S).

(** What holds of the shared state ([J]), what a goroutine that holds the locks
    [hs] may count on ([rely]) and must respect ([guar]), and what a lock
    protects while nobody holds it ([LI]). *)
Context (E : S → S → Prop) (rely guar : list (L * bool) → S → S → Prop)
  (LI : L → S → Prop) (J : S → Prop).

(** Locks that two goroutines may hold at once. *)
Definition compat hs hs' : Prop :=
  ∀ l w w', (l, w) ∈ hs → (l, w') ∈ hs' → w = false ∧ w' = false.

Class RelyGuarantee := {
  rely_refl hs s : rely hs s s;
  rely_trans hs s1 s2 s3 : rely hs s1 s2 → rely hs s2 s3 → rely hs s1 s3;
  guar_rely hs hs' s s' : compat hs hs' → J s → guar hs s s' → rely hs' s s';
  guar_lock hs l s s' : (∀ w, (l, w) ∉ hs) → J s → guar hs s s' → LI l s → LI l s';
  env_rely hs s s' : E s s' → J s → rely hs s s';
  env_lock l s s' : E s s' → J s → LI l s → LI l s';
  env_inv s s' : E s s' → J s → J s';
}.

(** The code is safe from [s] on, and ends in [Q]; the loop of a [select] has
    an invariant. *)
Fixpoint wp {A} hs (c : code L S A) (Q : list (L * bool) → A → S → Prop) s : Prop :=
  match c with
  | Return a => Q hs a s
  | Crash => False
  | Lock w l k => ∀ s', rely hs s s' → J s' → (w = true → LI l s') → wp ((l, w) :: hs) k Q s'
  | Unlock l k => ∀ s', rely hs s s' → J s' → LI l s' ∧ wp (release l hs) k Q s'
  | Act X f k => ∀ s', rely hs s s' → J s' →
      guar hs s' (f s').2 ∧ J (f s').2 ∧ wp hs (k (f s').1) Q (f s').2
  | Select Y f k => ∃ I : S → Prop, I s ∧ (∀ s1 s2, rely hs s1 s2 → I s1 → I s2) ∧
      ∀ s', I s' → J s' →
        match f s' with
        | Some (Some y, s2) => guar hs s' s2 ∧ J s2 ∧ wp hs (k y) Q s2
        | Some (None, s2) => guar hs s' s2 ∧ J s2 ∧ I s2
        | None => True
        end
  end.

Lemma wp_bind {A B} hs (c : code L S A) (k : A → code L S B) Q s :
  wp hs c (λ hs a s, wp hs (k a) Q s) s → wp hs (c ≫= k) Q s.
Proof.
  unfold mbind, code_mbind. revert hs s. induction c as [a|w l c IH|l c IH|X f c IH|Y f c IH|]; simpl; intros hs s.
  - done.
  - intros Hc s' Hr HJ Hl. by apply IH, Hc.
  - intros Hc s' Hr HJ. destruct (Hc s' Hr HJ) as [? ?]. split; [done|]. by apply IH.
  - intros Hc s' Hr HJ. destruct (Hc s' Hr HJ) as (? & ? & ?). split_and!; [done..|]. by apply IH.
  - intros (I & HI & Hst & Hc). exists I. split_and!; [done..|]. intros s' HI' HJ. specialize (Hc s' HI' HJ).
    destruct (f s') as [[[y|] s2]|]; [|done..]. destruct Hc as (? & ? & ?). split_and!; [done..|]. by apply IH.
  - done.
Qed.

Lemma wp_mono {A} hs (c : code L S A) (Q Q' : list (L * bool) → A → S → Prop) s :
  (∀ hs a s, Q hs a s → Q' hs a s) → wp hs c Q s → wp hs c Q' s.
Proof.
  intros HQ. revert hs s. induction c as [a|w l c IH|l c IH|X f c IH|Y f c IH|]; simpl; intros hs s.
  - apply HQ.
  - intros Hc s' Hr HJ Hl. by apply IH, Hc.
  - intros Hc s' Hr HJ. destruct (Hc s' Hr HJ) as [? ?]. split; [done|]. by apply IH.
  - intros Hc s' Hr HJ. destruct (Hc s' Hr HJ) as (? & ? & ?). split_and!; [done..|]. by apply IH.
  - intros (I & HI & Hst & Hc). exists I. split_and!; [done..|]. intros s' HI' HJ. specialize (Hc s' HI' HJ).
    destruct (f s') as [[[y|] s2]|]; [|done..]. destruct Hc as (? & ? & ?). split_and!; [done..|]. by apply IH.
  - done.
Qed.

Context `{!RelyGuarantee}.

(** Other goroutines do not endanger a safe one. *)
Lemma wp_rely {A} hs (c : code L S A) s s' :
  wp hs c (λ _ _ _, True) s → rely hs s s' → wp hs c (λ _ _ _, True) s'.
Proof.
  intros Hc Hr. destruct c as [a|w l c|l c|X f c|Y f c|]; simpl in *; [done| | | | |done].
  - intros s2 Hr2. apply Hc. by eapply rely_trans.
  - intros s2 Hr2. apply Hc. by eapply rely_trans.
  - intros s2 Hr2. apply Hc. by eapply rely_trans.
  - destruct Hc as (I & HI & Hst & Hc). exists I. eauto.
Qed.

Context {R : Type}.
Implicit Types (x y : cfg L S R) (c : code L S R).

Definition safe_cfg x : Prop :=
  J (shared x) ∧
  (∀ i c, pool x !! i = Some c → wp (held_by i (locks x)) c (λ _ _ _, True) (shared x)) ∧
  (∀ i j, i ≠ j → compat (held_by i (locks x)) (held_by j (locks x))) ∧
  (∀ l, (∀ i w, (i, (l, w)) ∉ locks x) → LI l (shared x)).

Lemma exclusive_step i c h s c' h' s' :
  step_thread i c h s = Some (c', h', s') →
  (∀ i j, i ≠ j → compat (held_by i h) (held_by j h)) →
  ∀ n m, n ≠ m → compat (held_by n h') (held_by (L:=L) m h').
Proof.
  intros Hs Hex n m Hnm l w w' Hn Hm. rewrite !elem_of_held_by in *.
  destruct c as [a|v l2 k|l2 k|X f k|Y f k|]; simpl in Hs; [done| | | | |done].
  - destruct (can_lock v l2 h) eqn:Hc; [|done]. simplify_eq. rewrite !elem_of_cons in *.
    destruct Hn as [Hn|Hn], Hm as [Hm|Hm]; simplify_eq.
    + by apply (can_lock_true _ _ _ _ _ Hc) in Hm.
    + apply (can_lock_true _ _ _ _ _ Hc) in Hn. tauto.
    + by eapply (Hex n m Hnm l); apply elem_of_held_by.
  - simplify_eq. apply list_elem_of_filter in Hn as [_ Hn], Hm as [_ Hm].
    by eapply (Hex n m Hnm l); apply elem_of_held_by.
  - destruct (f s) as [? ?]. simplify_eq. by eapply (Hex n m Hnm l); apply elem_of_held_by.
  - destruct (f s) as [[[y|] s1]|]; simplify_eq. by eapply (Hex n m Hnm l); apply elem_of_held_by.
Qed.

(** One action of a safe goroutine: the shared state changes within its
    guarantee, the goroutine stays safe, and a lock it frees is restored. *)
Lemma safe_thread i c h s c' h' s' :
  step_thread i c h s = Some (c', h', s') →
  J s → wp (held_by i h) c (λ _ _ _, True) s →
  (∀ l, (∀ i w, (i, (l, w)) ∉ h) → LI l s) →
  (s' = s ∨ guar (held_by i h) s s') ∧ J s' ∧ wp (held_by i h') c' (λ _ _ _, True) s' ∧
  (∀ l, (∀ i w, (i, (l, w)) ∉ h') → LI l s').
Proof.
  intros Hs HJ Hc HL. destruct c as [a|v l2 k|l2 k|X f k|Y f k|]; simpl in Hs, Hc; [done| | | | |done].
  - destruct (can_lock v l2 h) eqn:Hcl; [|done]. simplify_eq. rewrite held_by_cons_same.
    split_and!; [by left|done| |].
    + apply Hc; [apply rely_refl|done|]. intros ->. apply HL. intros j w Hin.
      by destruct (can_lock_true _ _ _ _ _ Hcl Hin).
    + intros l Hl. apply HL. intros j w Hin. apply (Hl j w). by right.
  - simplify_eq. rewrite held_by_unlock_same. destruct (Hc s' (rely_refl _ _) HJ) as [Hl2 Hk].
    split_and!; [by left|done|done|]. intros l Hl. destruct (decide (l = l2)) as [->|Hne]; [done|].
    apply HL. intros j w Hin. apply (Hl j w). apply list_elem_of_filter. split; [|done]. simpl. tauto.
  - specialize (Hc s (rely_refl _ _) HJ). destruct (f s) as [a s1]. simplify_eq. simpl in *.
    destruct Hc as (Hg & HJ' & Hk). split_and!; [by right|done|done|]. intros l Hl.
    eapply guar_lock; [|exact HJ|exact Hg|by apply HL]. intros w Hin. apply (Hl i w).
    by apply elem_of_held_by.
  - destruct Hc as (I & HI & Hst & Hc). specialize (Hc s HI HJ).
    destruct (f s) as [[[y|] s1]|]; simplify_eq. destruct Hc as (Hg & HJ' & Hk).
    split_and!; [by right|done|done|]. intros l Hl.
    eapply guar_lock; [|exact HJ|exact Hg|by apply HL]. intros w Hin. apply (Hl i w). by apply elem_of_held_by.
Qed.

Lemma safe_run x y :
  safe_cfg x → run_step x y →
  safe_cfg y ∧ (shared y = shared x ∨ ∃ i, guar (held_by i (locks x)) (shared x) (shared y)).
Proof.
  intros (HJ & Hwp & Hex & HL) Hs. destruct Hs as [p h s i c c' h' s' Hi Hs]. simpl in *.
  destruct (safe_thread _ _ _ _ _ _ _ Hs HJ (Hwp _ _ Hi) HL) as (Hg & HJ' & Hk & HL').
  split; [|destruct Hg; eauto]. split_and!; simpl; [done| |by eapply exclusive_step|done].
  intros j cj. destruct (decide (i = j)) as [<-|Hij].
  - rewrite list_lookup_insert_eq by (by eapply lookup_lt_Some). by intros [= <-].
  - rewrite list_lookup_insert_ne by done. intros Hj.
    rewrite (step_thread_other i j _ _ _ _ _ _ Hij Hs). specialize (Hwp _ _ Hj).
    destruct Hg as [->|Hg]; [done|]. eapply wp_rely; [done|]. eapply guar_rely; [|done..]. by apply Hex.
Qed.

(** So does a round of a [select]. *)
Lemma safe_skip x y : safe_cfg x → skip_step x y → safe_cfg y.
Proof.
  intros (HJ & Hwp & Hex & HL) Hs. destruct Hs as [p h s i Y f k s' Hi Hf]. simpl in *.
  pose proof (Hwp _ _ Hi) as (I & HI & Hst & Hc). pose proof (Hc s HI HJ) as Hk. rewrite Hf in Hk.
  destruct Hk as (Hg & HJ' & HI'). split_and!; simpl; [done| |done|].
  - intros j cj Hj. destruct (decide (i = j)) as [<-|Hij].
    + rewrite Hi in Hj. injection Hj as <-. exists I. eauto.
    + eapply wp_rely; [by apply Hwp|]. eapply guar_rely; [|done..]. by apply Hex.
  - intros l Hl. eapply guar_lock; [|exact HJ|exact Hg|by apply HL]. intros w Hin. apply (Hl i w).
    by apply elem_of_held_by.
Qed.

(** Safety of every reachable pool. *)
Theorem safe_reachable calls x y :
  (∀ c s, calls s c → J s → wp [] c (λ _ _ _, True) s) →
  (∀ i e, (i, e) ∈ locks x → is_Some (pool x !! i)) →
  safe_cfg x → rtc (step E calls) x y → safe_cfg y.
Proof.
  intros Hcalls Hown Hx Hs. cut (safe_cfg y ∧ ∀ i e, (i, e) ∈ locks y → is_Some (pool y !! i)); [tauto|].
  induction Hs as [x|x y z Hxy _ IH]; [done|]. apply IH; clear IH; destruct Hxy as [Hr|[[He|Hsk]|Hsp]].
  - destruct Hr as [p h s i c c' h' s' Hi Hs]. intros j e He. simpl in *.
    apply lookup_lt_is_Some. rewrite length_insert. apply lookup_lt_is_Some.
    destruct (locks_owner _ _ _ _ _ _ _ _ _ Hs He) as [->|Hin]; eauto.
  - by destruct He.
  - by destruct Hsk.
  - destruct Hsp. simpl in *. intros j e He. apply lookup_lt_is_Some. rewrite length_app.
    pose proof (proj1 (lookup_lt_is_Some _ _) (Hown j e He)). lia.
  - by eapply safe_run.
  - destruct He as [p h s s' He], Hx as (HJ & Hwp & Hex & HL). simpl in *. split_and!; simpl; [|..|done|].
    + by eapply env_inv.
    + intros i c Hi. eapply wp_rely; [by apply Hwp|]. by eapply env_rely.
    + intros l Hl. eapply env_lock; eauto.
  - by eapply safe_skip.
  - destruct Hsp as [p h s c Hc], Hx as (HJ & Hwp & Hex & HL). simpl in *. split_and!; simpl; [done| |done|done].
    intros i c'. rewrite lookup_app_Some. intros [Hi|[Hlen Hi]]; [by apply Hwp|].
    apply list_lookup_singleton_Some in Hi as [Hi <-]. assert (held_by i h = []) as ->; [|by apply Hcalls].
    destruct (held_by i h) as [|e hs] eqn:Hh; [done|]. exfalso.
    assert ((i, e) ∈ h) as Hin by (apply elem_of_held_by; rewrite Hh; by left).
    pose proof (proj1 (lookup_lt_is_Some _ _) (Hown i e Hin)). lia.
Qed.

Lemma safe_no_crash x : safe_cfg x → no_crash x.
Proof. intros (_ & Hwp & _) Hin. apply list_elem_of_lookup_1 in Hin as [i Hi]. apply (Hwp _ _ Hi). Qed.
End rely_guarantee.
