(* ===== verification/Adapter.v ===== *)
(** * The adapter runtime (package [adapter])

    Models src/adapter/adapter.go (configuration, registration, [Run], [wrap],
    [errorEnvelope]) and the retrying dial of src/adapter/transport.go. The
    transport is an interface ([Transport W]): what [Run] calls of it. The
    Go map iteration order of the handlers is an argument of [Run]. *)
From Stdlib Require Import Ascii ZArith.
From stdpp Require Import prelude gmap strings.
From S2P Require Import Prelude GoStrings GoText GoFloat Json Rpc Backoff.

Local Open Scope Z_scope.

Record Config := {
  Provider : string;
  IntegrationType : string;
  Version : string;
  DefaultTimeout : Z;
  Concurrency : Z;
}.

(** The transport operations that [Run] uses, on the transport's state [T]; its
    handlers act on the adapter author's state [W]. A subscription is a number. *)
Record Transport (W T : Type) := {
  Consume : ConsumerConfig W → M T (result nat);
  CloseSub : nat → M T (option error);
}.
Arguments Consume {W T} _ _.
Arguments CloseSub {W T} _ _.

(** [adapter.Handler]: returns a body and a content type, or an error. *)
Definition AHandler (W : Type) : Type := Delivery → prog W (result (string * string)).

Section adapter.
Context `{UnicodeTables} {W T : Type}.

(** [beforeRun] may install a transport and its clean-up. *)
Definition BeforeHook : Type := M T (result (option (Transport W T * M T unit))).

Record Adapter := {
  config : Config;
  transport : option (Transport W T);
  handlers : gmap string (AHandler W);
  beforeRun : option BeforeHook;
  afterRun : option (M T unit);
}.

Definition New (cfg : Config) : Adapter :=
  {| config := {| Provider := Provider cfg; IntegrationType := IntegrationType cfg;
       Version := Version cfg;
       DefaultTimeout := if DefaultTimeout cfg =? 0 then 30 * Second else DefaultTimeout cfg;
       Concurrency := if Concurrency cfg <=? 0 then 1 else Concurrency cfg |};
     transport := None; handlers := ∅; beforeRun := None; afterRun := None |}.

Definition Register (capability : string) (h : AHandler W) (a : Adapter) : Adapter :=
  let capability := ToLower (TrimSpace capability) in
  {| config := config a; transport := transport a;
     handlers := <[capability := h]> (handlers a);
     beforeRun := beforeRun a; afterRun := afterRun a |}.

(** The method [Transport]. *)
Definition SetTransport (t : Transport W T) (a : Adapter) : Adapter :=
  {| config := config a; transport := Some t; handlers := handlers a;
     beforeRun := beforeRun a; afterRun := afterRun a |}.

(** ** Error normalisation *)

Definition errorEnvelope (err : error) : string :=
  let msg := ReplaceAll1 dquote (String backslash (str1 dquote)) (error_text err) in
  of_l ("{"%char :: dquote :: to_l "error" ++ dquote :: ":"%char :: [dquote])
    +:+ msg +:+ of_l [dquote; "}"%char].

Definition wrap (h : AHandler W) : Handler W := λ d,
  r ← h d;
  match r with
  | inl err =>
      _ ← Delivery_Reply d (errorEnvelope err) "application/json";
      Delivery_Nack d false
  | inr (body, contentType) =>
      replyErr ← Delivery_Reply d body contentType;
      match replyErr with
      | Some _ => Delivery_Nack d true
      | None => Delivery_Ack d
      end
  end.

(** ** [Run] *)

(** The loop over the handlers; returns the subscriptions opened so far and the
    error that stopped it. *)
Fixpoint consume_all (a : Adapter) (t : Transport W T) (order : list (string * AHandler W))
    (subs : list nat) : M T (list nat * option error) :=
  match order with
  | [] => mret (subs, None)
  | (capability, h) :: rest =>
      r ← Consume t {| cc_Endpoint := capability; cc_Handler := Some (wrap h);
                       cc_Timeout := DefaultTimeout (config a);
                       cc_Concurrency := Concurrency (config a) |};
      match r with
      | inl err => mret (subs, Some (Wrapf ("adapter: consume " +:+ Quote capability +:+ ": ") err EmptyString))
      | inr sub => consume_all a t rest (subs ++ [sub])
      end
  end.

Fixpoint close_all (t : Transport W T) (subs : list nat) : M T unit :=
  match subs with
  | [] => mret tt
  | s :: subs' => _ ← CloseSub t s; close_all t subs'
  end.

(** [wait] is what happens until the context is cancelled. *)
Definition Run (wait : M T unit) (order : list (string * AHandler W)) (a : Adapter)
    : M T (option error) :=
  if decide (order = [])
  then mret (Some (Errorf "adapter: no handlers registered — call Register before Run"))
  else
    r ← match beforeRun a with Some before => before | None => mret (inr None) end;
    match r with
    | inl err => mret (Some err)
    | inr upd =>
        let transport := match upd with Some (t, _) => Some t | None => transport a end in
        let afterRun := match upd with Some (_, f) => Some f | None => afterRun a end in
        match transport with
        | None => mret (Some (Errorf "adapter: no transport configured — call ListenHTTP, ListenAMQP, or Transport before Run"))
        | Some t =>
            '(subs, err) ← consume_all a t order [];
            _ ← match err with None => wait | Some _ => mret tt end;
            _ ← close_all t subs;
            _ ← match afterRun with Some f => f | None => mret tt end;
            mret err
        end
    end.

End adapter.
Arguments Adapter : clear implicits.

(** ** The retrying dial *)

Section dial.
Context `{UnicodeTables}.

(** The outcome of [amqp.Dial] at each attempt, and whether the context is
    cancelled during the wait that follows it. *)
Variable dial : nat → option error.
Variable cancelled : nat → option error.

Inductive dial_result :=
| Dialed (attempt : nat)
| DialFailed (e : error).

Definition maxAttempts : nat := 30.

(** The attempts left, the number of the current one (from 1), and the delays
    waited so far. *)
Fixpoint dial_loop (url : string) (left_ attempt : nat) (backoff : Z) (waited : list Z)
    : dial_result * list Z :=
  match dial attempt with
  | None => (Dialed attempt, waited)
  | Some err =>
      match left_ with
      | O => (DialFailed (Wrapf ("adapter: dial AMQP " +:+ Quote url +:+ " failed after " +:+
                dec (Z.of_nat maxAttempts) +:+ " attempts: ") err EmptyString), waited)
      | S l =>
          match cancelled attempt with
          | Some cerr => (DialFailed (Wrapf ("adapter: dial AMQP " +:+ Quote url +:+
                " cancelled after " +:+ dec (Z.of_nat attempt) +:+ " attempts: ") cerr EmptyString), waited)
          | None => dial_loop url l (S attempt) (next_backoff backoff) (waited ++ [backoff])
          end
      end
  end.

Definition dialAMQPWithRetry (url : string) : dial_result * list Z :=
  dial_loop url (maxAttempts - 1) 1 initialBackoff [].
End dial.

(** The queue prefix that [ListenAMQP] gives to the transport; [None] when
    [SetEndpointPrefix] is not called. *)
Definition queue_prefix (c : Config) : option string :=
  let queueOwner := if decide (IntegrationType c = EmptyString) then Provider c else IntegrationType c in
  if decide (queueOwner = EmptyString) then None
  else Some ("yggdrasil.adapter." +:+ queueOwner +:+ ".").

(** ** Lemmas *)

(** Printable ASCII without a backslash. *)
Definition safe_text (a : ascii) : Prop := 32 ≤ code a < 128 ∧ code a ≠ 92.

#[global] Instance safe_text_dec a : Decision (safe_text a).
Proof. unfold safe_text. apply _. Defined.

(** The text of a message after its quotes are escaped. *)
Lemma replace_units s :
  Forall safe_text (to_l s) →
  units (to_l (ReplaceAll1 dquote (String backslash (str1 dquote)) s)) (to_l s).
Proof.
  induction s as [|a s IH]; intros Hs; simpl; [constructor|].
  apply Forall_cons in Hs as [[Hr Hb] Hs]. rewrite to_l_app. case_decide as Heq.
  - subst. apply (units_cons [backslash; dquote] [dquote]); [|by apply IH].
    apply escape_unit. reflexivity.
  - apply (units_cons [a] [a]); [|by apply IH]. apply plain_unit. split; [done|]. split; [|done].
    intros Hq. apply Heq, code_inj. by rewrite Hq.
Qed.

Lemma ReplaceAll1_app c new s t :
  ReplaceAll1 c new (s +:+ t) = ReplaceAll1 c new s +:+ ReplaceAll1 c new t.
Proof. induction s as [|a s IH]; simpl; [done|]. by rewrite IH, str_app_assoc. Qed.

Lemma errorEnvelope_text err :
  errorEnvelope err = of_l ("{"%char ::
    dquote :: to_l "error" ++ dquote :: ":"%char :: dquote ::
    to_l (ReplaceAll1 dquote (String backslash (str1 dquote)) (error_text err))
      ++ [dquote; "}"%char]).
Proof. apply to_l_inj. unfold errorEnvelope. by rewrite !to_l_app, !to_of_l. Qed.

(** ** Traces of [Run] *)

Inductive run_event :=
| EConsume (capability : string) (r : result nat)
| EWait
| EClose (sub : nat)
| EAfter.

Definition tell (e : run_event) : M (list run_event) unit := λ tr, (tt, tr ++ [e]).

(** A transport that records its calls; the results come from an oracle. *)
Definition traced {W} (oracle : list run_event → string → result nat) : Transport W (list run_event) := {|
  Consume := λ cc tr, let r := oracle tr (cc_Endpoint cc) in (r, tr ++ [EConsume (cc_Endpoint cc) r]);
  CloseSub := λ s tr, (None, tr ++ [EClose s]);
|}.

Definition opened (tr : list run_event) : list nat :=
  omap (λ e, match e with EConsume _ (inr s) => Some s | _ => None end) tr.
Definition closed (tr : list run_event) : list nat :=
  omap (λ e, match e with EClose s => Some s | _ => None end) tr.

Lemma close_all_trace {W} o subs tr :
  close_all (traced (W:=W) o) subs tr = (tt, tr ++ (EClose <$> subs)).
Proof.
  revert tr. induction subs as [|s subs IH]; intros tr; simpl; [by rewrite app_nil_r|].
  unfold mbind, M_bind. simpl. rewrite IH. by rewrite <- app_assoc.
Qed.

Lemma consume_all_trace `{UnicodeTables} {W} (a : Adapter W _) o order subs tr :
  closed tr = [] → EWait ∉ tr → opened tr = subs →
  ∃ subs' err tr', consume_all a (traced o) order subs tr = ((subs', err), tr') ∧
    closed tr' = [] ∧ (EWait ∉ tr') ∧ opened tr' = subs' ∧
    (err = None ↔ length subs' = (length subs + length order)%nat).
Proof.
  revert subs tr. induction order as [|[cap h] order IH]; intros subs tr Hc Hw Ho; simpl.
  - eexists _, _, _. split; [reflexivity|]. repeat split; done || lia.
  - unfold mbind, M_bind. simpl. destruct (o tr cap) as [e|s].
    + eexists _, _, _. split; [reflexivity|]. unfold closed, opened in *. rewrite !omap_app.
      csimpl. rewrite !app_nil_r. repeat split; try done; [set_solver|lia].
    + assert (closed (tr ++ [EConsume cap (inr s)]) = []) as Hc'.
      { unfold closed in *. by rewrite omap_app, Hc. }
      assert (EWait ∉ (tr ++ [EConsume cap (inr s)])) as Hw' by set_solver.
      assert (opened (tr ++ [EConsume cap (inr s)]) = subs ++ [s]) as Ho'.
      { unfold opened in *. by rewrite omap_app, Ho. }
      destruct (IH (subs ++ [s]) _ Hc' Hw' Ho') as (subs' & err & tr' & E & H1 & H2 & H3 & H4).
      exists subs', err, tr'. rewrite E. repeat split; try done; rewrite H4, length_app; simpl; lia.
Qed.

Lemma closes_trace subs tr :
  closed tr = [] →
  closed (tr ++ (EClose <$> subs) ++ [EAfter]) = subs ∧
  opened (tr ++ (EClose <$> subs) ++ [EAfter]) = opened tr.
Proof.
  intros Hc. unfold closed, opened in *. rewrite !omap_app, Hc. csimpl. rewrite !app_nil_r.
  assert (omap (λ e, match e with EClose s => Some s | _ => None end) (EClose <$> subs) = subs) as ->
    by (induction subs; csimpl; congruence).
  assert (omap (λ e, match e with EConsume _ (inr s) => Some s | _ => None end) (EClose <$> subs) = [])
    as -> by (induction subs; csimpl; congruence).
  by rewrite app_nil_r.
Qed.

Lemma wait_not_in_closes subs : EWait ∉ (EClose <$> subs) ++ [EAfter].
Proof. rewrite elem_of_app, list_elem_of_fmap. set_solver. Qed.

(** *** The retrying dial *)

Lemma next_backoff_nth n : next_backoff (nth_backoff n) = nth_backoff (S n).
Proof. reflexivity. Qed.

(** [j] failures in a row, without a cancellation, advance the loop by [j]
    attempts and wait the next [j] delays of the sequence. *)
Lemma dial_loop_failures `{UnicodeTables} dial cancelled url j l n waited :
  (∀ i, (n < i ≤ n + j)%nat → is_Some (dial i) ∧ cancelled i = None) →
  dial_loop dial cancelled url (j + l) (S n) (nth_backoff n) waited =
  dial_loop dial cancelled url l (S (n + j)) (nth_backoff (n + j))
    (waited ++ (nth_backoff <$> seq n j)).
Proof.
  revert n waited. induction j as [|j IH]; intros n waited Hf.
  - rewrite Nat.add_0_r. csimpl. by rewrite app_nil_r.
  - destruct (Hf (S n) ltac:(lia)) as [[e He] Hc].
    cbn [dial_loop Nat.add]. rewrite He, Hc, next_backoff_nth, IH by (intros i Hi; apply Hf; lia).
    rewrite <- app_assoc. by replace (S n + j)%nat with (n + S j)%nat by lia.
Qed.

(** ** Properties *)

(** An error whose text is printable ASCII without backslashes is reported
    as a well-formed JSON object whose [error] member is that text, quotes
    included. *)
Theorem errorEnvelope_is_json err :
  Forall safe_text (to_l (error_text err)) →
  ∃ raw, json_parse (errorEnvelope err) =
    Some (JObj [("error", (raw, JStr (error_text err)))]).
Proof.
  intros Hs. rewrite errorEnvelope_text. eexists.
  pose proof (json_parse_str_obj _ _ _ _ (units_literal "error" eq_refl) (replace_units _ Hs)) as E.
  unfold str_member in E. simpl app in E. rewrite <- !app_assoc in E. simpl app in E.
  rewrite !of_to_l in E. exact E.
Qed.

(** The escaping of [errorEnvelope] is not enough for other texts: an
    error whose text has a control character (a newline, say, as in the
    multi-line errors of YAML and HTTP libraries) after printable text is
    reported as bytes that are not JSON at all. *)
Theorem errorEnvelope_control_not_json err pre c post :
  error_text err = of_l (pre ++ c :: post) → Forall safe_text pre → code c < 32 →
  json_parse (errorEnvelope err) = None.
Proof.
  intros He Hpre Hc. rewrite errorEnvelope_text, He.
  assert (of_l (pre ++ c :: post) = of_l pre +:+ (str1 c +:+ of_l post)) as ->.
  { apply to_l_inj. simpl. by rewrite to_l_app, !to_of_l; simpl; rewrite to_of_l. }
  rewrite !ReplaceAll1_app, !to_l_app. simpl ReplaceAll1.
  rewrite decide_False by (intros ->; by vm_compute in Hc).
  eapply json_parse_obj_None; [reflexivity|done|].
  simpl to_l. rewrite <- !app_assoc. simpl app.
  apply (parse_members_control _ _ (to_l "error") (to_l "error") _ (to_l (of_l pre)));
    [by apply units_literal| |done].
  apply replace_units. by rewrite to_of_l.
Qed.

(** Life cycle of [Run]. With at least one handler and a transport, on
    every path (all subscriptions opened and the context cancelled, or the
    [n]-th [Consume] failing), [Run] closes exactly the subscriptions it
    opened, in their order and each once, and the clean-up hook runs last; it
    returns nil exactly when every handler got its subscription, and only then
    waits for the context. *)
Theorem run_closes_what_it_opened `{UnicodeTables} {W} cfg o (order : list (string * AHandler W)) :
  order ≠ [] →
  let a := {| config := cfg; transport := Some (traced o); handlers := list_to_map order;
              beforeRun := None; afterRun := Some (tell EAfter) |} in
  ∃ err tr, Run (tell EWait) order a [] = (err, tr) ∧
    closed tr = opened tr ∧ last tr = Some EAfter ∧
    (err = None ↔ length (opened tr) = length order) ∧
    (err = None ↔ EWait ∈ tr).
Proof.
  intros Hne a. unfold Run. rewrite decide_False by done. cbn [beforeRun a].
  unfold mbind, M_bind, mret, M_ret. cbn [transport afterRun a].
  destruct (consume_all_trace a o order [] [] eq_refl ltac:(set_solver) eq_refl)
    as (subs & err & tr & E & Hc & Hw & Ho & Herr).
  rewrite E. simpl in Herr.
  set (tr' := match err with None => tr ++ [EWait] | Some _ => tr end).
  exists err, (tr' ++ (EClose <$> subs) ++ [EAfter]).
  assert (closed tr' = [] ∧ opened tr' = subs) as [Hc' Ho'].
  { subst tr'. destruct err; [done|]. unfold closed, opened in *. rewrite !omap_app, Hc, Ho.
    csimpl. by rewrite app_nil_r. }
  destruct (closes_trace subs tr' Hc') as [H1 H2]. rewrite H1, H2, Ho'.
  split.
  { subst tr'. destruct err; simpl; rewrite close_all_trace; unfold tell; by rewrite <- !app_assoc. }
  split; [done|]. split; [by rewrite app_assoc, last_snoc|]. split; [done|].
  rewrite elem_of_app. pose proof (wait_not_in_closes subs).
  subst tr'. destruct err; split; set_solver.
Qed.

(** The retrying dial succeeds at the first attempt that succeeds. When
    the attempts before [k] fail and none of the waits is cancelled, and the
    [k]-th one of at most 30 succeeds, [dialAMQPWithRetry] returns its
    connection after waiting 1, 2, 4, 8, 16, 30, 30, ... seconds between them. *)
Theorem dial_first_success `{UnicodeTables} dial cancelled url k :
  (k < 30)%nat →
  (∀ i, (0 < i ≤ k)%nat → is_Some (dial i) ∧ cancelled i = None) →
  dial (S k) = None →
  dialAMQPWithRetry dial cancelled url =
    (Dialed (S k), (λ n, Z.min (2 ^ Z.of_nat n) 30 * Second) <$> seq 0 k).
Proof.
  intros Hk Hf Hd. unfold dialAMQPWithRetry, maxAttempts.
  replace (30 - 1)%nat with (k + (29 - k))%nat by lia.
  change initialBackoff with (nth_backoff 0). rewrite (dial_loop_failures _ _ _ k _ 0) by done.
  rewrite Nat.add_0_l. destruct (29 - k)%nat; cbn [dial_loop]; rewrite Hd; simpl; f_equal;
    apply list_fmap_ext; intros; apply nth_backoff_closed.
Qed.

(** The retry budget. When all 30 attempts fail and nothing cancels, the
    dial gives up with an error after 29 waits of 751 seconds in all (twelve
    and a half minutes; the comment of [ListenAMQP] says about five). *)
Theorem dial_gives_up_after_751s `{UnicodeTables} dial cancelled url :
  (∀ i, (0 < i ≤ 30)%nat → is_Some (dial i) ∧ cancelled i = None) →
  ∃ e waits, dialAMQPWithRetry dial cancelled url = (DialFailed e, waits) ∧
    length waits = 29%nat ∧ foldr Z.add 0 waits = 751 * Second.
Proof.
  intros Hf. unfold dialAMQPWithRetry, maxAttempts.
  change (30 - 1)%nat with (29 + 0)%nat.
  change initialBackoff with (nth_backoff 0).
  rewrite (dial_loop_failures _ _ _ 29 0 0) by (intros i Hi; apply Hf; lia).
  destruct (Hf 30%nat ltac:(lia)) as [[e He] _]. cbn [dial_loop]. 
  change (S (0 + 29)) with 30%nat. rewrite He. eexists _, _. split; [reflexivity|].
  split; [reflexivity|]. vm_compute. reflexivity.
Qed.

(** C37: the retrying dial ends within its budget. With no cancellation, it
    returns the connection of the first attempt that succeeds, after waits of 1,
    2, 4, 8, 16, 30, 30, ... seconds; when all 30 attempts fail it gives up after
    29 waits of 751 seconds in all (twelve and a half minutes; the comment of
    [ListenAMQP] says about five). *)
Theorem dial_retry_budget `{UnicodeTables} dial cancelled url :
  (∀ k, (k < 30)%nat → (∀ i, (0 < i ≤ k)%nat → is_Some (dial i) ∧ cancelled i = None) → dial (S k) = None →
     dialAMQPWithRetry dial cancelled url =
       (Dialed (S k), (λ n, Z.min (2 ^ Z.of_nat n) 30 * Second) <$> seq 0 k)) ∧
  ((∀ i, (0 < i ≤ 30)%nat → is_Some (dial i) ∧ cancelled i = None) →
     ∃ e waits, dialAMQPWithRetry dial cancelled url = (DialFailed e, waits) ∧
       length waits = 29%nat ∧ foldr Z.add 0 waits = 751 * Second).
Proof. split; [apply dial_first_success|apply dial_gives_up_after_751s]. Qed.

(** ** Witnesses *)

Definition demo_error : error := Errorf ("unsupported operation " +:+ of_l [dquote; "x"%char; dquote]).

Lemma errorEnvelope_is_json_witness :
  ∃ raw, json_parse (errorEnvelope demo_error) =
    Some (JObj [("error", (raw, JStr (error_text demo_error)))]).
Proof.
  apply errorEnvelope_is_json. apply (bool_decide_unpack _). vm_compute. exact I.
Defined.

Lemma errorEnvelope_control_not_json_witness :
  json_parse (errorEnvelope (Errorf (of_l (to_l "yaml: unmarshal errors:" ++ newline :: to_l "  line 1"))))
  = None.
Proof.
  apply (errorEnvelope_control_not_json _ (to_l "yaml: unmarshal errors:") newline (to_l "  line 1")).
  - reflexivity.
  - apply (bool_decide_unpack _). vm_compute. exact I.
  - vm_compute. reflexivity.
Defined.

Definition demo_order : list (string * AHandler unit) :=
  [("describe", λ _, mret (inr ("{}", EmptyString))); ("execute", λ _, mret (inl (Errorf "no")))].

(** The second [Consume] fails. *)
Definition demo_oracle (tr : list run_event) (cap : string) : result nat :=
  if decide (cap = "execute") then inl (Errorf "channel closed") else inr (length tr).

Lemma run_closes_what_it_opened_witness :
  let a := {| config := Build_Config "p" "t" "1" 0 0; transport := Some (traced demo_oracle);
              handlers := list_to_map demo_order;
              beforeRun := None; afterRun := Some (tell EAfter) |} in
  ∃ err tr, Run (H:=ascii_tables) (tell EWait) demo_order a [] = (err, tr) ∧
    closed tr = opened tr ∧ last tr = Some EAfter ∧
    (err = None ↔ length (opened tr) = length demo_order) ∧
    (err = None ↔ EWait ∈ tr).
Proof. apply (run_closes_what_it_opened (H:=ascii_tables)). discriminate. Defined.

Lemma dial_first_success_witness :
  dialAMQPWithRetry (H:=ascii_tables)
    (λ i, if (i <? 3)%nat then Some (Errorf "refused") else None) (λ _, None) "amqp://b"
  = (Dialed 3, [Second; 2 * Second]).
Proof.
  rewrite (dial_first_success (H:=ascii_tables) _ _ _ 2); [reflexivity|lia| |reflexivity].
  intros i Hi. split; [|reflexivity]. rewrite (proj2 (Nat.ltb_lt i 3)) by lia. by eexists.
Defined.

Lemma dial_gives_up_after_751s_witness :
  ∃ e waits, dialAMQPWithRetry (H:=ascii_tables) (λ _, Some (Errorf "refused")) (λ _, None) "amqp://b"
    = (DialFailed e, waits) ∧ length waits = 29%nat ∧ foldr Z.add 0 waits = 751 * Second.
Proof.
  apply (dial_gives_up_after_751s (H:=ascii_tables)). intros i _. split; [by eexists|reflexivity].
Defined.
