(* ===== verification/Events.v ===== *)
(** * Mutation events (package [sdk/events])

    Models src/sdk/events/types.go and src/sdk/events/http.go: the event record
    and its JSON, the [Emitter] interface, [NoopEmitter], the construction of
    the HTTP emitter and its retry loop. The network, the clock and the context
    are the fields of [http_env], an interface over a state [W]. *)
From Stdlib Require Import Ascii ZArith.
From stdpp Require Import prelude gmap strings.
From S2P Require Import Prelude GoStrings GoText GoFloat Json JsonText Backoff GoTime.

Local Open Scope Z_scope.

(** ** Events *)

Abbreviation Verb := string.
Definition VerbEnsured : Verb := "ensured".
Definition VerbDestroyed : Verb := "destroyed".
Definition VerbCreated : Verb := "created".

(** [None] is the zero [time.Time]. *)
Record MutationEvent := {
  EventType : string;
  ev_Provider : string;
  ev_Resource : string;
  ev_Verb : Verb;
  ResourceID : string;
  ev_InstanceID : string;
  Idempotency : string;
  Observed : string;
  EmittedAt : option Time;
}.

Definition BuildEventType (provider resource : string) (verb : Verb) : string :=
  provider +:+ "." +:+ resource +:+ "." +:+ verb.

(** The [Emitter] interface: a value of it is its [Emit] method. *)
Record Emitter (W : Type) := { Emit : MutationEvent → M W (option error) }.
Arguments Emit {W} _ _.

(** [NoopEmitter] with its logger. *)
Definition NoopEmitter `{UnicodeTables} {W} (logger : string → M W unit) : Emitter W := {|
  Emit := λ e,
    _ ← logger ("events: noop emitter suppressed mutation event " +:+ Quote (EventType e) +:+
          " (resource_id=" +:+ Quote (ResourceID e) +:+
          " instance_id=" +:+ Quote (ev_InstanceID e) +:+ ")");
    mret None
|}.

(** ** The JSON of an event *)

(** The encoder's copy of a [json.RawMessage]: blanks outside strings dropped,
    HTML characters and the two line separators escaped. *)
Fixpoint compact (in_str esc : bool) (l : list ascii) : list ascii :=
  match l with
  | [] => []
  | a :: l1 =>
      let c := code a in
      let in_str' := if in_str then (if esc then true else negb (c =? 34)) else c =? 34 in
      let esc' := in_str && negb esc && (c =? 92) in
      if (c =? 60) || (c =? 62) || (c =? 38)
      then ([backslash; "u"%char] ++ hex_fixed 4 c) ++ compact in_str' esc' l1
      else if negb in_str && json_ws a then compact in_str' esc' l1
      else
        match l1 with
        | b :: d :: l3 =>
            if (c =? 226) && (code b =? 128) && ((code d =? 168) || (code d =? 169))
            then ([backslash; "u"%char] ++ hex_fixed 4 (code d + 8064)) ++ compact in_str' esc' l3
            else a :: compact in_str' esc' l1
        | _ => a :: compact in_str' esc' l1
        end
  end.

(** [None] when the bytes are not JSON; the nil message is [null]. *)
Definition marshal_raw (raw : string) : option string :=
  if decide (raw = EmptyString) then Some "null"
  else match json_parse raw with
       | Some _ => Some (of_l (compact false false (to_l raw)))
       | None => None
       end.

(** One member of the object, with its separator. *)
Definition member (name value : string) : string :=
  marshal_string name +:+ ":" +:+ value.

(** [json.Marshal] of an event whose [EmittedAt] is [at_]. *)
Definition marshal_event (e : MutationEvent) (at_ : Time) : option string :=
  obs ← marshal_raw (Observed e);
  t ← MarshalTime at_;
  Some ("{" +:+ Join ","
    [member "event_type" (marshal_string (EventType e));
     member "provider" (marshal_string (ev_Provider e));
     member "resource" (marshal_string (ev_Resource e));
     member "verb" (marshal_string (ev_Verb e));
     member "resource_id" (marshal_string (ResourceID e));
     member "instance_id" (marshal_string (ev_InstanceID e));
     member "idempotency" (marshal_string (Idempotency e));
     member "observed" obs;
     member "emitted_at" (of_l (dquote :: t ++ [dquote]))] +:+ "}").

(** ** The HTTP emitter *)

Definition DefaultEventsPath : string := "/api/v1/events".
Definition DefaultMaxRetries : Z := 3.
Definition DefaultRetryBackoff : Z := 250000000.
Definition DefaultHTTPTimeout : Z := 5 * Second.

(** The [http.Client] is represented by its timeout; [None] is nil. *)
Record httpEmitter := {
  coreURL : string;
  eventsPath : string;
  token : string;
  client : option Z;
  maxRetries : Z;
  retryBackoff : Z;
}.

Definition Option : Type := httpEmitter → httpEmitter.
Definition WithCoreURL (url : string) : Option := λ e,
  {| coreURL := url; eventsPath := eventsPath e; token := token e; client := client e;
     maxRetries := maxRetries e; retryBackoff := retryBackoff e |}.
Definition WithToken (t : string) : Option := λ e,
  {| coreURL := coreURL e; eventsPath := eventsPath e; token := t; client := client e;
     maxRetries := maxRetries e; retryBackoff := retryBackoff e |}.
Definition WithHTTPClient (c : option Z) : Option := λ e,
  {| coreURL := coreURL e; eventsPath := eventsPath e; token := token e; client := c;
     maxRetries := maxRetries e; retryBackoff := retryBackoff e |}.
Definition WithMaxRetries (n : Z) : Option := λ e,
  {| coreURL := coreURL e; eventsPath := eventsPath e; token := token e; client := client e;
     maxRetries := n; retryBackoff := retryBackoff e |}.
Definition WithRetryBackoff (d : Z) : Option := λ e,
  {| coreURL := coreURL e; eventsPath := eventsPath e; token := token e; client := client e;
     maxRetries := maxRetries e; retryBackoff := d |}.
Definition WithEventsPath (path : string) : Option := λ e,
  {| coreURL := coreURL e; eventsPath := path; token := token e; client := client e;
     maxRetries := maxRetries e; retryBackoff := retryBackoff e |}.

(** What [NewHTTPEmitter] does after applying the options. *)
Definition fill_defaults (e : httpEmitter) : httpEmitter :=
  {| coreURL := coreURL e;
     eventsPath := if decide (eventsPath e = EmptyString) then DefaultEventsPath else eventsPath e;
     token := token e;
     client := match client e with None => Some DefaultHTTPTimeout | c => c end;
     maxRetries := if maxRetries e <=? 0 then DefaultMaxRetries else maxRetries e;
     retryBackoff := if retryBackoff e <=? 0 then DefaultRetryBackoff else retryBackoff e |}.

Definition EnvCoreURL : string := "YGGDRASIL_CORE_URL".
Definition EnvRunToken : string := "YGGDRASIL_RUN_TOKEN".

(** [NewHTTPEmitter]; [getenv] is [os.Getenv]. *)
Definition NewHTTPEmitter (getenv : string → string) (opts : list Option) : httpEmitter :=
  fill_defaults (foldl (λ e o, o e)
    {| coreURL := getenv EnvCoreURL; eventsPath := DefaultEventsPath; token := getenv EnvRunToken;
       client := None; maxRetries := DefaultMaxRetries; retryBackoff := DefaultRetryBackoff |} opts).

(** [s[:n]] with an ellipsis. *)
Definition truncate (s : string) (n : nat) : string :=
  if (String.length s <=? n)%nat then s else str_take n s +:+ "...".

Inductive do_result :=
| DoErr (e : error)
| DoResp (status : Z) (body : string).

(** A POST as the emitter builds it; [auth] is the Authorization header. *)
Record post := Post { p_url : string; p_body : string; p_auth : option string }.

Record http_env (W : Type) := {
  now : M W Z; (** [time.Now().UTC()], in nanoseconds *)
  new_request : string → option error; (** [http.NewRequestWithContext] *)
  client_do : post → M W do_result;
  ctx_Err : M W (option error);
  wait_backoff : Z → M W (option error); (** the [select] of the backoff: [Some] if the context is done *)
}.
Arguments now {W} _.
Arguments new_request {W} _ _.
Arguments client_do {W} _ _.
Arguments ctx_Err {W} _.
Arguments wait_backoff {W} _ _.

Section emit.
Context {W : Type} (env : http_env W).

(** The loop from attempt number [attempt], with [left_] attempts to go. *)
Fixpoint emit_loop (h : httpEmitter) (url body : string) (left_ : nat) (attempt : Z)
    (lastErr : option error) : M W (option error) :=
  match left_ with
  | O =>
      mret (match lastErr with
            | None => Some (Errorf ("events: POST " +:+ url +:+ ": exhausted retries with no error captured"))
            | Some e => Some e
            end)
  | S left' =>
      done ← (if 0 <? attempt then wait_backoff env (retryBackoff h) else mret None);
      match done with
      | Some cerr => mret (Some (Wrapf "events: context cancelled during retry backoff: " cerr EmptyString))
      | None =>
          match new_request env url with
          | Some err => mret (Some (Wrapf "events: build request: " err EmptyString))
          | None =>
              let auth := if decide (token h = EmptyString) then None else Some ("Bearer " +:+ token h) in
              r ← client_do env (Post url body auth);
              match r with
              | DoErr err =>
                  let lastErr := Wrapf ("events: POST " +:+ url +:+ ": ") err EmptyString in
                  c ← ctx_Err env;
                  match c with
                  | Some _ => mret (Some lastErr)
                  | None => emit_loop h url body left' (attempt + 1) (Some lastErr)
                  end
              | DoResp status respBody =>
                  if (200 <=? status) && (status <? 300) then mret None
                  else if (400 <=? status) && (status <? 500) then
                    mret (Some (Errorf ("events: POST " +:+ url +:+ ": terminal status " +:+
                      dec status +:+ ": " +:+ truncate respBody 256)))
                  else
                    emit_loop h url body left' (attempt + 1)
                      (Some (Errorf ("events: POST " +:+ url +:+ ": transient status " +:+
                        dec status +:+ ": " +:+ truncate respBody 256)))
              end
          end
      end
  end.

(** The method [( *httpEmitter).Emit]. *)
Definition httpEmit (h : httpEmitter) (e : MutationEvent) : M W (option error) :=
  at_ ← match EmittedAt e with Some t => mret t | None => t ← now env; mret (UTC t) end;
  match marshal_event e at_ with
  | None => mret (Some (Wrapf "events: marshal mutation event: " (Errorf "json: error calling MarshalJSON") EmptyString))
  | Some body =>
      let url := TrimRight1 "/" (coreURL h) +:+ eventsPath h in
      emit_loop h url body (Z.to_nat (maxRetries h)) 0 None
  end.

Definition HTTPEmitter (h : httpEmitter) : Emitter W := {| Emit := httpEmit h |}.
End emit.

(** ** Traces of an emission *)

(** An environment that records the POSTs, at the time [clk]. Outcomes are given by the number of
    POSTs made so far: of the next POST, of the context after it, and of the
    context during the backoff that precedes it. *)
Definition traced_env (clk : Z) (out : nat → do_result) (ctx wait : nat → option error) : http_env (list post) := {|
  now := λ w, (clk, w);
  new_request := λ _, None;
  client_do := λ p w, (out (length w), w ++ [p]);
  ctx_Err := λ w, (ctx (length w), w);
  wait_backoff := λ _ w, (wait (length w), w);
|}.

Definition transient (r : do_result) : bool :=
  match r with
  | DoErr _ => true
  | DoResp st _ => negb ((200 <=? st) && (st <? 300)) && negb ((400 <=? st) && (st <? 500))
  end.

Definition accepted (r : do_result) : bool :=
  match r with
  | DoErr _ => false
  | DoResp st _ => (200 <=? st) && (st <? 300)
  end.

(** What lets the loop make another attempt after the POST number [i]: a transient
    outcome and, when the POST failed, a context that is not done. *)
Definition goes_on (out : nat → do_result) (ctx : nat → option error) (i : nat) : Prop :=
  transient (out i) = true ∧ ∀ e, out i = DoErr e → ctx (S i) = None.

(** The POST that every attempt of an emission sends. *)
Definition emission_post (h : httpEmitter) (body : string) : post :=
  Post (TrimRight1 "/" (coreURL h) +:+ eventsPath h) body
    (if decide (token h = EmptyString) then None else Some ("Bearer " +:+ token h)).

Section traces.
Context (clk : Z) (out : nat → do_result) (ctx wait : nat → option error) (h : httpEmitter) (body : string).
Let url := TrimRight1 "/" (coreURL h) +:+ eventsPath h.
Let p := emission_post h body.
Let loop := emit_loop (traced_env clk out ctx wait) h url body.

(** [j] transient outcomes after which the loop goes on advance the loop by [j]
    attempts. *)
Lemma emit_loop_transient j l n lastErr :
  (∀ i, (n ≤ i < n + j)%nat → goes_on out ctx i ∧ (0 < i → wait i = None)%nat) →
  ∃ lastErr', loop (j + l) (Z.of_nat n) lastErr (replicate n p) =
    loop l (Z.of_nat (n + j)) lastErr' (replicate (n + j) p) ∧
    (j = 0%nat ∧ lastErr' = lastErr ∨ is_Some lastErr').
Proof.
  revert n lastErr. induction j as [|j IH]; intros n lastErr Hf.
  { exists lastErr. rewrite Nat.add_0_r. split; [done|by left]. }
  destruct (Hf n ltac:(lia)) as ((Ht & Hc) & Hw).
  assert (∃ le, loop (S j + l) (Z.of_nat n) lastErr (replicate n p) =
    loop (j + l) (Z.of_nat (S n)) (Some le) (replicate (S n) p)) as [le E].
  { unfold loop. cbn [emit_loop Nat.add]. unfold mbind, M_bind, mret, M_ret.
    assert ((if 0 <? Z.of_nat n then wait_backoff (traced_env clk out ctx wait) (retryBackoff h)
             else λ w, (None, w)) (replicate n p) = (None, replicate n p)) as ->.
    { destruct (Z.ltb_spec 0 (Z.of_nat n)); [|done]. simpl. rewrite length_replicate, Hw by lia. done. }
    simpl. rewrite length_replicate.
    replace (Z.of_nat n + 1) with (Z.of_nat (S n)) by lia.
    change (Post _ _ _) with p. rewrite <- replicate_cons_app.
    destruct (out n) as [e|st rb] eqn:Eo; simpl in Ht.
    - eexists. simpl. by rewrite length_replicate, (Hc e).
    - apply andb_true_iff in Ht as [H1 H2]. apply negb_true_iff in H1, H2. rewrite H1, H2.
      by eexists. }
  rewrite E. destruct (IH (S n) (Some le) ltac:(intros i Hi; apply Hf; lia)) as (le' & E' & Hle).
  exists le'. replace (n + S j)%nat with (S n + j)%nat by lia. split; [done|].
  right. destruct Hle as [[_ ->]|Hle]; [by eexists|done].
Qed.

(** The attempt that settles the emission. *)
Lemma emit_loop_final l n lastErr :
  (0 < n → wait n = None)%nat → transient (out n) = false →
  ∃ r, loop (S l) (Z.of_nat n) lastErr (replicate n p) = (r, replicate (S n) p) ∧
    (r = None ↔ accepted (out n) = true).
Proof.
  intros Hw Ht. unfold loop. cbn [emit_loop]. unfold mbind, M_bind, mret, M_ret.
  assert ((if 0 <? Z.of_nat n then wait_backoff (traced_env clk out ctx wait) (retryBackoff h)
           else λ w, (None, w)) (replicate n p) = (None, replicate n p)) as ->.
  { destruct (Z.ltb_spec 0 (Z.of_nat n)); [|done]. simpl. rewrite length_replicate, Hw by lia. done. }
  simpl. rewrite length_replicate. change (Post _ _ _) with p. rewrite <- replicate_cons_app.
  destruct (out n) as [e|st rb]; simpl in *; [done|].
  destruct ((200 <=? st) && (st <? 300)); [by eexists|].
  destruct ((400 <=? st) && (st <? 500)); [|done]. by eexists.
Qed.

(** A POST that fails once the context is done. *)
Lemma emit_loop_stopped l n lastErr err c :
  (0 < n → wait n = None)%nat → out n = DoErr err → ctx (S n) = Some c →
  loop (S l) (Z.of_nat n) lastErr (replicate n p) =
    (Some (Wrapf ("events: POST " +:+ url +:+ ": ") err EmptyString), replicate (S n) p).
Proof.
  intros Hw Ho Hc. unfold loop. cbn [emit_loop]. unfold mbind, M_bind, mret, M_ret.
  assert ((if 0 <? Z.of_nat n then wait_backoff (traced_env clk out ctx wait) (retryBackoff h)
           else λ w, (None, w)) (replicate n p) = (None, replicate n p)) as ->.
  { destruct (Z.ltb_spec 0 (Z.of_nat n)); [|done]. simpl. rewrite length_replicate, Hw by lia. done. }
  simpl. rewrite length_replicate, Ho. change (Post _ _ _) with p. rewrite <- replicate_cons_app. simpl.
  by rewrite length_replicate, Hc.
Qed.

(** A context that is done during the backoff. *)
Lemma emit_loop_cancelled l n lastErr c :
  (0 < n)%nat → wait n = Some c →
  loop (S l) (Z.of_nat n) lastErr (replicate n p) =
  (Some (Wrapf "events: context cancelled during retry backoff: " c EmptyString), replicate n p).
Proof.
  intros Hn Hw. unfold loop. cbn [emit_loop]. unfold mbind, M_bind, mret, M_ret.
  rewrite (proj2 (Z.ltb_lt 0 (Z.of_nat n))) by lia. simpl. by rewrite length_replicate, Hw.
Qed.
End traces.

(** ** Properties *)

(** The configuration of an emitter is usable whatever options are given,
    in any order and any number: a positive attempt budget, a positive backoff,
    a non-empty path and a client; without options the budget is 3 attempts. *)
Theorem emitter_config_usable getenv opts :
  let e := NewHTTPEmitter getenv opts in
  0 < maxRetries e ∧ 0 < retryBackoff e ∧ eventsPath e ≠ EmptyString ∧ is_Some (client e) ∧
  maxRetries (NewHTTPEmitter getenv []) = 3.
Proof.
  unfold NewHTTPEmitter. cbv zeta.
  match goal with |- context [fill_defaults (foldl ?f ?i opts)] => generalize (foldl f i opts) end.
  intros e. unfold fill_defaults, DefaultMaxRetries, DefaultRetryBackoff.
  cbn [maxRetries retryBackoff eventsPath client coreURL token].
  destruct (Z.leb_spec (maxRetries e) 0), (Z.leb_spec (retryBackoff e) 0);
    (split_and!; [lia|lia|by case_decide|by destruct (client e)|reflexivity]).
Qed.

(** C30: the retry discipline of [Emit]. Attempts are repeated exactly while the
    outcome is transient (a network error or a status outside 2xx and 4xx), the
    context is not done after a network error, and the budget lasts. The first
    outcome that is not transient is final, nil for 2xx and an error for 4xx; when
    the budget runs out the result is an error. A context that is done after a
    network error ends the loop at once with that error, without another wait or
    POST, and one that is done during a backoff ends it there. Every attempt sends
    the same request, so the number of POSTs is known in each case and is never
    more than the budget. *)
Theorem emit_retry_discipline clk out ctx wait h e body :
  0 < maxRetries h →
  marshal_event e (default (UTC clk) (EmittedAt e)) = Some body →
  let n := Z.to_nat (maxRetries h) in
  let p := emission_post h body in
  let emit := httpEmit (traced_env clk out ctx wait) h e [] in
  (∀ k, (k < n)%nat → (∀ i, (i < k)%nat → goes_on out ctx i) → (∀ i, (0 < i ≤ k)%nat → wait i = None) →
     transient (out k) = false →
     ∃ r, emit = (r, replicate (S k) p) ∧ (r = None ↔ accepted (out k) = true)) ∧
  ((∀ i, (i < n)%nat → goes_on out ctx i) → (∀ i, (0 < i < n)%nat → wait i = None) →
     ∃ err, emit = (Some err, replicate n p)) ∧
  (∀ k err c, (k < n)%nat → (∀ i, (i < k)%nat → goes_on out ctx i) → (∀ i, (0 < i ≤ k)%nat → wait i = None) →
     out k = DoErr err → ctx (S k) = Some c →
     emit = (Some (Wrapf ("events: POST " +:+ p_url p +:+ ": ") err EmptyString), replicate (S k) p)) ∧
  (∀ k c, (0 < k < n)%nat → (∀ i, (i < k)%nat → goes_on out ctx i) → (∀ i, (0 < i < k)%nat → wait i = None) →
     wait k = Some c →
     emit = (Some (Wrapf "events: context cancelled during retry backoff: " c EmptyString), replicate k p)).
Proof.
  intros Hmax Hbody n p emit.
  assert (emit = emit_loop (traced_env clk out ctx wait) h (p_url p) body n 0 None []) as ->.
  { unfold emit, httpEmit, mbind, M_bind, mret, M_ret. destruct (EmittedAt e); cbn in Hbody |- *; by rewrite Hbody. }
  assert (∀ k l, (k + l = n)%nat → (∀ i, (i < k)%nat → goes_on out ctx i) → (∀ i, (0 < i < k)%nat → wait i = None) →
    ∃ le, emit_loop (traced_env clk out ctx wait) h (p_url p) body n 0 None [] =
      emit_loop (traced_env clk out ctx wait) h (p_url p) body l (Z.of_nat k) le (replicate k p) ∧
      (k = 0%nat ∨ is_Some le)) as Hadvance.
  { intros k l Hkl Hg Hw. destruct (emit_loop_transient clk out ctx wait h body k l 0 None) as (le & E & Hle).
    { intros i Hi. split; [apply Hg; lia|]. intros ?. apply Hw. lia. }
    rewrite Hkl in E. exists le. split; [exact E|]. tauto. }
  split_and!.
  - intros k Hk Hg Hw Hf. destruct (Hadvance k (S (n - S k))) as (le & -> & _); [lia|done|intros; apply Hw; lia|].
    destruct (emit_loop_final clk out ctx wait h body (n - S k) k le) as (r & E' & Hr); [intros; apply Hw; lia|done|].
    by exists r.
  - intros Hg Hw. destruct (Hadvance n 0%nat) as (le & -> & Hle); [lia|done|done|].
    destruct Hle as [H0|[err ->]]; [unfold n in H0; lia|]. by eexists.
  - intros k err c Hk Hg Hw Ho Hc. destruct (Hadvance k (S (n - S k))) as (le & -> & _); [lia|done|intros; apply Hw; lia|].
    apply (emit_loop_stopped clk out ctx wait h body _ _ le err c); [intros; apply Hw; lia|done|done].
  - intros k c Hk Hg Hw Hc. destruct (Hadvance k (S (n - S k))) as (le & -> & _); [lia|done|done|].
    apply (emit_loop_cancelled clk out ctx wait h body _ _ le); [lia|done].
Qed.

(** ** Witnesses *)

Definition demo_emitter : httpEmitter := NewHTTPEmitter (λ k, if decide (k = EnvCoreURL) then "http://core/" else "tok") [].
Definition demo_event : MutationEvent := {|
  EventType := "stripe.customer.ensured"; ev_Provider := "stripe"; ev_Resource := "customer";
  ev_Verb := VerbEnsured; ResourceID := "cus_1"; ev_InstanceID := "i"; Idempotency := "k";
  Observed := "{}"; EmittedAt := None |}.
Definition demo_body : string :=
  default EmptyString (marshal_event demo_event (UTC 0)).
(** A 503, then a 202. *)
Definition demo_out (i : nat) : do_result :=
  if (i =? 0)%nat then DoResp 503 "busy" else DoResp 202 EmptyString.

Lemma emit_retry_discipline_witness :
  (∃ r, httpEmit (traced_env 0 demo_out (λ _, None) (λ _, None)) demo_emitter demo_event []
    = (r, replicate 2 (emission_post demo_emitter demo_body)) ∧
    (r = None ↔ accepted (demo_out 1) = true)) ∧
  (httpEmit (traced_env 0 (λ _, DoErr (Errorf "EOF")) (λ _, Some (Errorf "done")) (λ _, None)) demo_emitter demo_event []).2
    = [emission_post demo_emitter demo_body].
Proof.
  split.
  - refine (proj1 (emit_retry_discipline 0 demo_out (λ _, None) (λ _, None) demo_emitter demo_event
      demo_body _ _) 1%nat _ _ _ _).
    + vm_compute. reflexivity.
    + vm_compute. reflexivity.
    + vm_compute. lia.
    + intros i Hi. assert (i = 0%nat) as -> by lia. split; [reflexivity|]. intros e He. reflexivity.
    + reflexivity.
    + reflexivity.
  - rewrite (proj1 (proj2 (proj2 (emit_retry_discipline 0 (λ _, DoErr (Errorf "EOF")) (λ _, Some (Errorf "done"))
      (λ _, None) demo_emitter demo_event demo_body ltac:(vm_compute; reflexivity) ltac:(vm_compute; reflexivity))))
      0%nat (Errorf "EOF") (Errorf "done")).
    + reflexivity.
    + vm_compute. lia.
    + intros i Hi. lia.
    + intros i Hi. lia.
    + reflexivity.
    + reflexivity.
Defined.
