(* ===== verification/Deadline.v ===== *)
(** * Contexts, deadlines and the time an emission takes

    A [context.Context] is known by when it ends and with which error: the first
    of its deadline and its cancellation, its parent's included. The emitter of
    Events is run here by a clock: requests and backoffs take time, the
    [http.Client] gives up at its own timeout, and both stop when the context of
    the caller ends. *)
From Stdlib Require Import Ascii ZArith.
From stdpp Require Import prelude gmap strings list.
From S2P Require Import Prelude GoStrings GoText GoFloat Json JsonText Backoff GoTime Events.

Local Open Scope Z_scope.

(** ** Contexts *)

Definition Canceled : error := Sentinel "context.Canceled" "context canceled".
Definition DeadlineExceeded : error := Sentinel "context.DeadlineExceeded" "context deadline exceeded".

(** When a context ends, and its error from then on. *)
Definition Ctx : Type := option (Z * error).
Definition Background : Ctx := None.

(** The first end of two. *)
Definition earlier (c d : Ctx) : Ctx :=
  match c, d with
  | Some (t, _), Some (t', _) => if t' <? t then d else c
  | None, _ => d
  | _, None => c
  end.

(** [context.WithTimeout(parent, d)] at the time [now]. *)
Definition WithTimeout (parent : Ctx) (now d : Z) : Ctx := earlier parent (Some (now + d, DeadlineExceeded)).
(** A context whose [cancel] is called at the time [now]. *)
Definition cancel (c : Ctx) (now : Z) : Ctx := earlier c (Some (now, Canceled)).

(** [ctx.Err()] at the time [now]. *)
Definition Err (c : Ctx) (now : Z) : option error :=
  match c with
  | Some (t, e) => if t <=? now then Some e else None
  | None => None
  end.

(** ** The emitter by the clock *)

(** The clock, the context of the call, the requests sent, and the rest. *)
Record timed (Q : Type) := Timed { tclock : Z; tctx : Ctx; tposts : list post; trest : Q }.
Arguments Timed {Q} _ _ _ _.
Arguments tclock {Q} _.
Arguments tctx {Q} _.
Arguments tposts {Q} _.
Arguments trest {Q} _.

Section timed.
Context {Q : Type}.

(** Time passes until [t]. *)
Definition until (t : Z) (w : timed Q) : timed Q := Timed (Z.max (tclock w) t) (tctx w) (tposts w) (trest w).

(** Waits for the time [t] or the end of [c], whichever comes first. *)
Definition wait_until (c : Ctx) (t : Z) : M (timed Q) (option error) := λ w,
  match c with
  | Some (tc, e) => if tc <=? Z.max (tclock w) t then (Some e, until tc w) else (None, until t w)
  | None => (None, until t w)
  end.

(** The client's own error. *)
Definition client_timeout : error := Errorf "net/http: request canceled (Client.Timeout exceeded)".

(** The end of a request by [Client.Timeout], where zero means none. *)
Definition client_limit (client : option Z) (now : Z) : Ctx :=
  match client with
  | Some timeout => if 0 <? timeout then Some (now + timeout, client_timeout) else None
  | None => None
  end.

(** The network answers the request with the number [n] after [(net n).1]
    nanoseconds, if anybody waits for it. A request whose context has ended is not
    sent. *)
Definition timed_env (net : nat → Z * do_result) (client : option Z) : http_env (timed Q) := {|
  now := λ w, (tclock w, w);
  new_request := λ _, None;
  client_do := λ p w,
    match Err (tctx w) (tclock w) with
    | Some e => (DoErr e, w)
    | None =>
        let '(dur, r) := net (length (tposts w)) in
        let w1 := Timed (tclock w) (tctx w) (tposts w ++ [p]) (trest w) in
        let '(stop, w2) := wait_until (earlier (tctx w) (client_limit client (tclock w))) (tclock w + dur) w1 in
        (match stop with Some e => DoErr e | None => r end, w2)
    end;
  ctx_Err := λ w, (Err (tctx w) (tclock w), w);
  wait_backoff := λ b w, wait_until (tctx w) (tclock w + b) w;
|}.
End timed.

(** ** Lemmas *)

Lemma earlier_end c t e : ∃ t' e', earlier c (Some (t, e)) = Some (t', e') ∧ t' ≤ t ∧
  (∀ tc ec, c = Some (tc, ec) → t' ≤ tc).
Proof.
  unfold earlier. destruct c as [[tc ec]|]; [|eexists _, _; split; [done|]; split; [lia|done]].
  destruct (Z.ltb_spec t tc); eexists _, _; (split; [done|]); (split; [lia|]); intros ? ? [= <- <-]; lia.
Qed.

Section emission.
Context {Q : Type} (net : nat → Z * do_result) (h : httpEmitter) (body : string).
Context (timeout : Z) (Hclient : client h = Some timeout) (Ht : 0 < timeout).
Let url := TrimRight1 "/" (coreURL h) +:+ eventsPath h.
Let p := emission_post h body.
Let loop := emit_loop (timed_env (Q := Q) net (client h)) h url body.

(** What a wait changes: only the clock, which does not pass the end of [c]. *)
Lemma wait_until_spec (c : Ctx) t (w : timed Q) :
  let '(r, w') := wait_until c t w in
  tctx w' = tctx w ∧ tposts w' = tposts w ∧ trest w' = trest w ∧
  tclock w ≤ tclock w' ≤ Z.max (tclock w) t ∧
  (∀ tc e, c = Some (tc, e) → tclock w' ≤ Z.max (tclock w) tc) ∧
  (is_Some r ↔ ∃ tc e, c = Some (tc, e) ∧ tc ≤ Z.max (tclock w) t).
Proof.
  unfold wait_until, until. destruct c as [[tc e]|]; [destruct (Z.leb_spec tc (Z.max (tclock w) t))|]; cbn.
  - split_and!; try done; try lia; [by intros ? ? [= <- <-]; lia|]. split; [intros _; by eexists _, _|done].
  - split_and!; try done; try lia; [intros ? ? [= <- <-]; lia|].
    split; [by intros []|]. intros (? & ? & [= <- <-] & ?). lia.
  - split_and!; try done; try lia. split; [by intros []|by intros (? & ? & ? & ?)].
Qed.

Lemma client_limit_end now : client_limit (client h) now = Some (now + timeout, client_timeout).
Proof. unfold client_limit. rewrite Hclient. by rewrite (proj2 (Z.ltb_lt 0 timeout)). Qed.

(** A request, sent or not. *)
Lemma client_do_spec (w : timed Q) :
  let '(r, w') := client_do (timed_env net (client h)) p w in
  tctx w' = tctx w ∧ trest w' = trest w ∧ tclock w ≤ tclock w' ≤ tclock w + timeout ∧
  (∀ tc e, tctx w = Some (tc, e) → tclock w' ≤ Z.max (tclock w) tc) ∧
  match Err (tctx w) (tclock w) with
  | Some e => w' = w ∧ r = DoErr e
  | None => tposts w' = tposts w ++ [p]
  end.
Proof.
  cbn [client_do timed_env]. destruct (Err (tctx w) (tclock w)) as [e|].
  { split_and!; try done; lia. }
  destruct (net (length (tposts w))) as [dur r].
  set (c := earlier (tctx w) (client_limit (client h) (tclock w))).
  pose proof (wait_until_spec c (tclock w + dur) (Timed (tclock w) (tctx w) (tposts w ++ [p]) (trest w))) as H.
  destruct (wait_until c _ _) as [stop w2]. cbn in H. destruct H as (Hc & Hp & Hr & Hcl & Hend & _).
  destruct (earlier_end (tctx w) (tclock w + timeout) client_timeout) as (t & e & Ec & Hle & Hpar).
  rewrite <- client_limit_end in Ec.
  specialize (Hend _ _ Ec). split_and!; [done|done|lia|lia| |done].
  intros tc ec Htc. specialize (Hpar _ _ Htc). lia.
Qed.

(** From [w] to [w'] at most [n] requests were sent and at most [b] nanoseconds
    passed, and none after the end of the context. *)
Definition within (n : nat) (b : Z) (w w' : timed Q) : Prop :=
  tctx w' = tctx w ∧ trest w' = trest w ∧ tclock w ≤ tclock w' ≤ tclock w + b ∧
  (∀ tc e, tctx w = Some (tc, e) → tclock w' ≤ Z.max (tclock w) tc) ∧
  ∃ k, (k ≤ n)%nat ∧ tposts w' = tposts w ++ replicate k p.

Lemma within_refl w : within 0 0 w w.
Proof. split_and!; try done; try lia. exists 0%nat. split; [done|]. by rewrite app_nil_r. Qed.

Lemma within_weaken n m b b' w w' : within n b w w' → (n ≤ m)%nat → b ≤ b' → within m b' w w'.
Proof.
  intros (? & ? & ? & ? & k & ? & ?) ? ?. split_and!; try done; try lia. exists k. split; [lia|done].
Qed.

Lemma within_trans n1 n2 b1 b2 w1 w2 w3 :
  within n1 b1 w1 w2 → within n2 b2 w2 w3 → within (n1 + n2) (b1 + b2) w1 w3.
Proof.
  intros (Hc1 & Hr1 & Ht1 & He1 & k1 & Hk1 & Hp1) (Hc2 & Hr2 & Ht2 & He2 & k2 & Hk2 & Hp2).
  split_and!; [congruence|congruence|lia|lia| |].
  - intros tc e Htc. specialize (He1 _ _ Htc). rewrite <- Hc1 in Htc. specialize (He2 _ _ Htc). lia.
  - exists (k1 + k2)%nat. split; [lia|]. by rewrite Hp2, Hp1, <- app_assoc, replicate_add.
Qed.

Lemma wait_within b (w : timed Q) : 0 ≤ b →
  within 0 b w (wait_backoff (timed_env net (client h)) b w).2.
Proof.
  intros Hb. cbn [wait_backoff timed_env]. pose proof (wait_until_spec (tctx w) (tclock w + b) w) as H.
  destruct (wait_until _ _ w) as [r w']. cbn [snd]. destruct H as (Hc & Hp & Hr & Hcl & Hend & _).
  split_and!; try done; try (cbn; lia). exists 0%nat. split; [done|]. by rewrite Hp, app_nil_r.
Qed.

Lemma do_within (w : timed Q) :
  within 1 timeout w (client_do (timed_env net (client h)) p w).2.
Proof.
  pose proof (client_do_spec w) as H. destruct (client_do _ p w) as [r w']. cbn [snd].
  destruct H as (Hc & Hr & Hcl & Hend & Hp). split_and!; try done; try (cbn; lia).
  destruct (Err _ _) as [e|]; [destruct Hp as [-> _]; exists 0%nat; rewrite app_nil_r; split; [lia|done]|].
  exists 1%nat. by split.
Qed.

Lemma loop_within n attempt lastErr (w : timed Q) :
  0 ≤ retryBackoff h →
  within n (Z.of_nat n * timeout + Z.of_nat (if 0 <? attempt then n else pred n) * retryBackoff h)
    w (loop n attempt lastErr w).2.
Proof.
  intros Hb. revert attempt lastErr w. induction n as [|n IH]; intros attempt lastErr w.
  { eapply within_weaken; [apply within_refl|done|destruct (0 <? attempt); lia]. }
  unfold loop. cbn [emit_loop]. unfold mbind, M_bind, mret, M_ret.
  set (b0 := if 0 <? attempt then retryBackoff h else 0).
  destruct ((if 0 <? attempt then wait_backoff (timed_env net (client h)) (retryBackoff h) else λ w, (None, w)) w)
    as [done_ w1] eqn:Ew.
  assert (within 0 b0 w w1) as H1.
  { unfold b0. destruct (0 <? attempt); [|simplify_eq; apply within_refl].
    pose proof (wait_within (retryBackoff h) w Hb) as H. by rewrite Ew in H. }
  assert (∀ w2, within 1 timeout w1 w2 → within (S n) (Z.of_nat (S n) * timeout +
    Z.of_nat (if 0 <? attempt then S n else pred (S n)) * retryBackoff h) w w2) as Hstop.
  { intros w2 H2. eapply within_weaken; [exact (within_trans _ _ _ _ _ _ _ H1 H2)|lia|].
    unfold b0. destruct (0 <? attempt); nia. }
  destruct done_ as [cerr|].
  { apply Hstop. eapply within_weaken; [apply within_refl|lia|lia]. }
  cbn [new_request timed_env]. fold (timed_env (Q := Q) net (client h)). change (Post _ _ _) with p.
  pose proof (do_within w1) as H2. destruct (client_do (timed_env net (client h)) p w1) as [r w2] eqn:Ed.
  cbn [snd] in H2.
  assert (∀ le, within (S n) (Z.of_nat (S n) * timeout +
    Z.of_nat (if 0 <? attempt then S n else pred (S n)) * retryBackoff h) w (loop n (attempt + 1) le w2).2) as Hnext.
  { intros le. eapply within_weaken; [exact (within_trans _ _ _ _ _ _ _ H1
      (within_trans _ _ _ _ _ _ _ H2 (IH (attempt + 1) le w2)))|lia|].
    unfold b0. destruct (Z.ltb_spec 0 attempt), (Z.ltb_spec 0 (attempt + 1)); nia. }
  destruct r as [err|st rb].
  - cbn [ctx_Err timed_env]. destruct (Err (tctx w2) (tclock w2)); [by apply Hstop|apply Hnext].
  - destruct ((200 <=? st) && (st <? 300)); [by apply Hstop|].
    destruct ((400 <=? st) && (st <? 500)); [by apply Hstop|apply Hnext].
Qed.

(** A context that has ended: nothing is sent, and no time passes. *)
Lemma loop_ended n lastErr (w : timed Q) e : Err (tctx w) (tclock w) = Some e →
  loop (S n) 0 lastErr w = (Some (Wrapf ("events: POST " +:+ url +:+ ": ") e EmptyString), w).
Proof.
  intros He. unfold loop. cbn [emit_loop]. unfold mbind, M_bind, mret, M_ret.
  cbn [Z.ltb Z.compare new_request timed_env client_do ctx_Err]. rewrite He. cbn. by rewrite He.
Qed.

(** A first request that is answered in time. *)
Lemma loop_accepted n lastErr (w : timed Q) dur st rb :
  net (length (tposts w)) = (dur, DoResp st rb) → 0 ≤ dur < timeout → 200 ≤ st < 300 →
  Err (tctx w) (tclock w + dur) = None →
  loop (S n) 0 lastErr w = (None, Timed (tclock w + dur) (tctx w) (tposts w ++ [p]) (trest w)).
Proof.
  intros Hnet Hdur Hst He. unfold loop. cbn [emit_loop]. unfold mbind, M_bind, mret, M_ret.
  cbn [Z.ltb Z.compare new_request timed_env client_do ctx_Err].
  assert (Err (tctx w) (tclock w) = None) as ->.
  { destruct (tctx w) as [[tc e]|]; [|done]. cbn in *. destruct (Z.leb_spec tc (tclock w + dur)); [done|].
    by rewrite (proj2 (Z.leb_gt tc (tclock w))) by lia. }
  rewrite Hnet. change (Post _ _ _) with p.
  assert (wait_until (earlier (tctx w) (client_limit (client h) (tclock w))) (tclock w + dur)
    (Timed (tclock w) (tctx w) (tposts w ++ [p]) (trest w)) =
    (None, Timed (tclock w + dur) (tctx w) (tposts w ++ [p]) (trest w))) as ->.
  { rewrite client_limit_end. unfold wait_until. destruct (earlier _ _) as [[t e]|] eqn:E; cbn [tclock until].
    - assert (tclock w + dur < t) as Hlt.
      { destruct (tctx w) as [[tc ec]|]; cbn in *; [|simplify_eq; lia].
        destruct (Z.leb_spec tc (tclock w + dur)); [done|]. destruct (Z.ltb_spec (tclock w + timeout) tc); simplify_eq; lia. }
      rewrite (proj2 (Z.leb_gt t _)) by lia. unfold until. cbn. by rewrite Z.max_r by lia.
    - unfold until. cbn. by rewrite Z.max_r by lia. }
  rewrite (proj2 (andb_true_iff _ _)) by lia. done.
Qed.
End emission.


(** ** Properties *)

(** An emission by the clock: nothing before the loop takes time. *)
Lemma timed_emit {Q} net h e (w : timed Q) :
  httpEmit (timed_env net (client h)) h e w =
  match marshal_event e (default (UTC (tclock w)) (EmittedAt e)) with
  | None => (Some (Wrapf "events: marshal mutation event: " (Errorf "json: error calling MarshalJSON") EmptyString), w)
  | Some body => emit_loop (timed_env net (client h)) h (TrimRight1 "/" (coreURL h) +:+ eventsPath h) body
      (Z.to_nat (maxRetries h)) 0 None w
  end.
Proof.
  unfold httpEmit, mbind, M_bind. destruct (EmittedAt e); cbn [now timed_env mret M_ret default from_option id];
    by destruct (marshal_event e _).
Qed.

(** C17: how long [Emit] takes. Whatever the network answers, and however late, an
    emission with [maxRetries] attempts returns after at most as many client
    timeouts and one backoff less; it sends at most as many requests, all the
    same; it returns by the end of its context, and when that has come before,
    it returns an error at once without sending anything. *)
Theorem emit_time_bounds {Q} net h timeout e (w : timed Q) :
  0 < maxRetries h → 0 ≤ retryBackoff h → client h = Some timeout → 0 < timeout →
  let '(r, w') := httpEmit (timed_env net (client h)) h e w in
  tclock w ≤ tclock w' ≤ tclock w + maxRetries h * timeout + (maxRetries h - 1) * retryBackoff h ∧
  (∀ tc err, tctx w = Some (tc, err) → tclock w' ≤ Z.max (tclock w) tc) ∧
  (∃ k body, Z.of_nat k ≤ maxRetries h ∧ tposts w' = tposts w ++ replicate k (emission_post h body)) ∧
  (∀ err, Err (tctx w) (tclock w) = Some err → w' = w ∧ is_Some r).
Proof.
  intros Hm Hb Hcl Ht. rewrite timed_emit. destruct (marshal_event e _) as [body|].
  - destruct (emit_loop _ _ _ _ _ _ _ _) as [r w'] eqn:El.
    pose proof (loop_within net h body timeout Hcl Ht (Z.to_nat (maxRetries h)) 0 None w Hb) as Hw.
    rewrite El in Hw. cbn [snd Z.ltb Z.compare] in Hw. destruct Hw as (_ & _ & Htime & Hend & k & Hk & Hp).
    split; [nia|]. split; [done|]. split; [exists k, body; split; [lia|done]|].
    intros err Herr. destruct (Z.to_nat (maxRetries h)) as [|n] eqn:En; [lia|].
    rewrite (loop_ended net h body n None w err Herr) in El. by simplify_eq.
  - split; [nia|]. split; [intros; lia|]. split; [|by intros].
    exists 0%nat, EmptyString. split; [lia|]. by rewrite app_nil_r.
Qed.

(** The default emitter on a network that never answers: 15.5 seconds, and 12 when
    the context ends then. *)
Lemma emit_time_bounds_witness :
  let h := NewHTTPEmitter (λ _, EmptyString) [] in
  let run c := (httpEmit (timed_env (λ _, (3600 * Second, DoResp 202 EmptyString)) (client h)) h demo_event
                  (Timed 0 c [] tt)).2 in
  tclock (run Background) = 15500000000 ∧ tclock (run (WithTimeout Background 0 (12 * Second))) = 12 * Second ∧
  tclock (run Background) ≤ 3 * (5 * Second) + 2 * 250000000.
Proof.
  pose proof (emit_time_bounds (λ _, (3600 * Second, DoResp 202 EmptyString))
    (NewHTTPEmitter (λ _, EmptyString) []) (5 * Second) demo_event (Timed 0 Background [] tt)
    ltac:(vm_compute; reflexivity) ltac:(vm_compute; discriminate) ltac:(reflexivity) ltac:(vm_compute; reflexivity))
    as H.
  cbv zeta. split; [vm_compute; reflexivity|]. split; [vm_compute; reflexivity|].
  destruct (httpEmit _ _ _ _) as [r w']. destruct H as ([_ H] & _). exact H.
Defined.
