(* ===== verification/Reconcile.v ===== *)
(** * Reconcilers and auto-emission (package [sdk/reconcile])

    Models src/sdk/reconcile/register.go, dispatch.go, options.go and the
    interfaces of types.go. The state is [world P]: the state [P] of the
    provider behind the reconcilers (with the network of the emitters), the
    clock, and the trace of the calls that leave the package (reconciler
    methods, [Emit], log lines). The package-level maps are [registry]. An
    [*adapter.Adapter] is known by its identity, a number. *)
From Stdlib Require Import Ascii ZArith.
From stdpp Require Import prelude gmap strings.
From S2P Require Import Prelude GoStrings GoText GoFloat GoCrypto Json Events.

Local Open Scope Z_scope.

(** ** The world *)

(** Where a log line goes: [fmt.Printf], [log.Printf], or the logger, known by
    a number, that the adapter supplied. *)
Inductive sink := Stdout | StdLog | Custom (logger : nat).

(** Calls that leave the package. *)
Inductive call :=
| CEnsure
| CObserve
| CDestroy (ref : string)
| CDestroyWithDesired (ref : string)
| CEmit (ev : MutationEvent)
| CWarn (to : sink) (line : string).

Record world (P : Type) := World { prov : P; clock : Z; trace : list call }.
Arguments World {P} _ _ _.
Arguments prov {P} _.
Arguments clock {P} _.
Arguments trace {P} _.

Section world.
Context {P : Type}.
Abbreviation W := (world P).

Definition tell (c : call) : M W unit := λ w, (tt, World (prov w) (clock w) (trace w ++ [c])).
(** A computation on the provider's state. *)
Definition external {A} (m : M P A) : M W A := λ w,
  let '(a, p) := m (prov w) in (a, World p (clock w) (trace w)).
(** [time.Now().UTC().UnixNano()]. *)
Definition time_now : M W Z := λ w, (clock w, w).
Definition log_to (to : sink) (line : string) : M W unit := tell (CWarn to line).
End world.

(** ** The wire request *)

Record executeRequest := {
  Operation : string;
  Capability : string;
  Idempotency_ : string;
  InstanceID : string;
  Input : string;
}.

Definition zero_request : executeRequest :=
  {| Operation := EmptyString; Capability := EmptyString; Idempotency_ := EmptyString;
     InstanceID := EmptyString; Input := EmptyString |}.

(** [json.Unmarshal(data, &req)]; [None] is any error. *)
Definition unmarshal_request (data : string) : option executeRequest :=
  v ← json_parse data;
  match v with
  | JNull => Some zero_request
  | JObj ms =>
      op ← string_field "operation" ms;
      cap ← string_field "capability" ms;
      idem ← string_field "idempotency" ms;
      inst ← string_field "instance_id" ms;
      Some {| Operation := op; Capability := cap; Idempotency_ := idem; InstanceID := inst;
              Input := raw_field "input" ms |}
  | _ => None
  end.

(** [json.Unmarshal] into [struct { Ref string }]. *)
Definition unmarshal_ref (data : string) : option string :=
  v ← json_parse data;
  match v with
  | JNull => Some EmptyString
  | JObj ms => string_field "ref" ms
  | _ => None
  end.

(** The text of [encoding/json]'s errors is not modelled. *)
Definition json_error : error := Errorf "invalid JSON".

(** ** Reflection *)

(** What [reflectID] sees of a value: an invalid value (a nil interface), a
    pointer, a struct with the fields that [FieldByName] finds, a string kind,
    or another kind. *)
Inductive rvalue :=
| RInvalid
| RPtr (target : option rvalue)
| RStruct (fields : list (string * rvalue))
| RString (s : string)
| ROther.

Definition FieldByName (fields : list (string * rvalue)) (name : string) : option rvalue :=
  snd <$> head (filter (λ f, f.1 = name) fields).

Definition struct_id (v : rvalue) : string :=
  match v with
  | RStruct fields =>
      match FieldByName fields "ID" with
      | Some (RString s) => s
      | _ => match FieldByName fields "Id" with
             | Some (RString s) => s
             | _ => EmptyString
             end
      end
  | _ => EmptyString
  end.

Definition reflectID (v : rvalue) : string :=
  match v with
  | RInvalid => EmptyString
  | RPtr None => EmptyString
  | RPtr (Some v') => struct_id v'
  | _ => struct_id v
  end.

(** ** Resource identifiers *)

Definition coerceToNonEmptyString (v : any) : string :=
  match v with
  | AnyString s => s
  | AnyNumber lit => lit
  | AnyFloat64 x =>
      if float_is_zero x then EmptyString
      else if match float_of_int (int64_of_float x) with
              | Some y => float_eqb x y
              | None => false
              end
      then dec (int64_of_float x)
      else format_g x
  | AnyInt z => if z =? 0 then EmptyString else dec z
  | AnyInt64 z => if z =? 0 then EmptyString else dec z
  | _ => EmptyString
  end.

(** [v, ok := m[k].(string); ok && v != ""]. *)
Definition get_str (m : list (string * any)) (k : string) : option string :=
  match map_get k m with
  | Some (AnyString v) => if decide (v = EmptyString) then None else Some v
  | _ => None
  end.

(** [v, ok := m[k]; ok] and [coerceToNonEmptyString(v) != ""]. *)
Definition get_coerced (m : list (string * any)) (k : string) : option string :=
  match map_get k m with
  | Some v => let s := coerceToNonEmptyString v in if decide (s = EmptyString) then None else Some s
  | None => None
  end.

(** The [owner]/[repo] pair. *)
Definition get_owner_repo (m : list (string * any)) : option string :=
  match get_str m "owner" with
  | Some owner =>
      match get_str m "repo" with
      | Some repo => Some (owner +:+ "/" +:+ repo)
      | None => None
      end
  | None => None
  end.

Definition inferRefFromInput (input resource : string) : string :=
  match unmarshal_map input with
  | None => EmptyString
  | Some m =>
      match get_str m "ref" with
      | Some v => v
      | None =>
      match (if decide (resource = EmptyString) then None else get_str m (resource +:+ "_id")) with
      | Some v => v
      | None =>
      match get_str m "id" with
      | Some v => v
      | None =>
      match get_owner_repo m with
      | Some v => v
      | None =>
      match (if decide (resource = EmptyString) then None else get_str m resource) with
      | Some v => v
      | None => EmptyString
      end end end end end
  end.

(** The loop over the spellings of [id]. *)
Fixpoint first_coerced (m : list (string * any)) (ks : list string) : option string :=
  match ks with
  | [] => None
  | k :: ks' => match get_coerced m k with Some s => Some s | None => first_coerced m ks' end
  end.

Definition inferResourceID (observed : rvalue) (body resource : string) : string :=
  if decide (reflectID observed ≠ EmptyString) then reflectID observed
  else
  match unmarshal_map body with
  | None => EmptyString
  | Some probe =>
      match first_coerced probe ["id"; "ID"; "Id"] with
      | Some s => s
      | None =>
      match (if decide (resource = EmptyString) then None else get_coerced probe (resource +:+ "_id")) with
      | Some s => s
      | None =>
      match get_owner_repo probe with
      | Some s => s
      | None =>
      match get_coerced probe "full_name" with
      | Some s => s
      | None =>
      match (if decide (resource = EmptyString) then None else get_coerced probe resource) with
      | Some s => s
      | None => EmptyString
      end end end end end
  end.

(** [fmt.Sprintf("%s.%s.%s.%s.%s", ...)] with the hash of the clock. *)
Definition synthesizeIdempotencyKey (provider resource : string) (verb : Verb) (resourceID : string)
    (now : Z) : string :=
  let h := sha256 (bytes_of (provider +:+ "|" +:+ resource +:+ "|" +:+ verb +:+ "|" +:+
                             resourceID +:+ "|" +:+ dec now)) in
  let hashPrefix := hex_EncodeToString (take 4 h) in
  provider +:+ "." +:+ resource +:+ "." +:+ verb +:+ "." +:+ resourceID +:+ "." +:+ hashPrefix.

(** ** Reconcilers *)

(** [Reconciler[D, O]]; the last field is the result of the type assertion to
    [DestroyWithDesired[D]]. A nil slice of [Observe] is [None]. *)
Record Reconciler (P D O : Type) := {
  Ensure : D → M P (result O);
  Observe : list (string * any) → M P (result (option (list O) * string));
  Destroy : string → M P (option error);
  DestroyWithDesired : option (string → D → M P (option error));
}.
Arguments Ensure {P D O} _ _.
Arguments Observe {P D O} _ _.
Arguments Destroy {P D O} _ _.
Arguments DestroyWithDesired {P D O} _.

(** What [encoding/json] and [reflect] do with the adapter's own types: the
    zero value of [D], [json.Unmarshal] into it, [json.Marshal] of an [O], and
    its reflection. *)
Record codec (D O : Type) := {
  zeroD : D;
  unmarshalD : string → result D;
  marshalO : O → result string;
  reflectO : O → rvalue;
}.
Arguments zeroD {D O} _.
Arguments unmarshalD {D O} _ _.
Arguments marshalO {D O} _ _.
Arguments reflectO {D O} _ _.

Record emitContext (P : Type) := {
  emitter : option (Emitter P);
  provider : string;
  resource : string;
  instanceID : string;
  warn : sink;
}.
Arguments emitter {P} _.
Arguments provider {P} _.
Arguments resource {P} _.
Arguments instanceID {P} _.
Arguments warn {P} _.

(** [dispatchEntry]. *)
Definition entry (P : Type) : Type := executeRequest → M (world P) (result string).

Section functions.
Context `{UnicodeTables} {P : Type}.

Definition effectiveProvider (ec : emitContext P) (env : executeRequest) : string := provider ec.

Definition effectiveInstanceID (ec : emitContext P) (env : executeRequest) : string :=
  if decide (InstanceID env = EmptyString) then instanceID ec else InstanceID env.

(** The event that [emit] posts. *)
Definition mk_event (ec : emitContext P) (env : executeRequest) (verb : Verb)
    (resourceID observed : string) (now : Z) : MutationEvent :=
  let provider := effectiveProvider ec env in
  let idempotency :=
    if decide (Idempotency_ env = EmptyString)
    then synthesizeIdempotencyKey provider (resource ec) verb resourceID now
    else Idempotency_ env in
  {| EventType := BuildEventType provider (resource ec) verb;
     ev_Provider := provider;
     ev_Resource := resource ec;
     ev_Verb := verb;
     ResourceID := resourceID;
     ev_InstanceID := effectiveInstanceID ec env;
     Idempotency := idempotency;
     Observed := observed;
     EmittedAt := None |}.

Definition emit (ec : emitContext P) (env : executeRequest) (verb : Verb)
    (resourceID observed : string) : M (world P) unit :=
  match emitter ec with
  | None => mret tt
  | Some em =>
      now ← time_now;
      let ev := mk_event ec env verb resourceID observed now in
      _ ← tell (CEmit ev);
      err ← external (Emit em ev);
      match err with
      | None => mret tt
      | Some e => log_to (warn ec) ("reconcile: emit " +:+ Quote (EventType ev) +:+
                        " failed (best-effort, not blocking): " +:+ error_text e)
      end
  end.

Section make.
Context {D O : Type} (c : codec D O) (r : Reconciler P D O).

(** [var desired D], then [json.Unmarshal] when the input is not empty. *)
Definition parse_desired (pre : string) (input : string) : result D :=
  if decide (input = EmptyString) then inr (zeroD c)
  else match unmarshalD c input with
       | inl e => inl (Wrapf pre e EmptyString)
       | inr d => inr d
       end.

Definition makeEnsureFn (ec : emitContext P) : entry P := λ env,
  match parse_desired "reconcile.Ensure: parse desired: " (Input env) with
  | inl e => mret (inl e)
  | inr desired =>
      _ ← tell CEnsure;
      res ← external (Ensure r desired);
      match res with
      | inl err => mret (inl err)
      | inr observed =>
          match marshalO c observed with
          | inl err => mret (inl (Wrapf "reconcile.Ensure: marshal observed: " err EmptyString))
          | inr body =>
              let resourceID := inferResourceID (reflectO c observed) body (resource ec) in
              _ ← emit ec env VerbEnsured resourceID body;
              mret (inr body)
          end
      end
  end.

(** [json.Marshal(map[string]any{"items": items, "cursor": cursor})]: map keys
    are sorted. *)
Fixpoint marshal_items (l : list O) : result (list string) :=
  match l with
  | [] => inr []
  | o :: l' =>
      match marshalO c o with
      | inl e => inl e
      | inr s => match marshal_items l' with inl e => inl e | inr ss => inr (s :: ss) end
      end
  end.
Definition marshal_page (items : option (list O)) (cursor : string) : result string :=
  let page its := "{" +:+ member "cursor" (marshal_string cursor) +:+ "," +:+ member "items" its +:+ "}" in
  match items with
  | None => inr (page "null")
  | Some l =>
      match marshal_items l with
      | inl e => inl e
      | inr ss => inr (page ("[" +:+ Join "," ss +:+ "]"))
      end
  end.

Definition makeObserveFn : entry P := λ env,
  match (if decide (Input env = EmptyString) then Some [] else unmarshal_map (Input env)) with
  | None => mret (inl (Wrapf "reconcile.Observe: parse filter: " json_error EmptyString))
  | Some filter =>
      _ ← tell CObserve;
      res ← external (Observe r filter);
      match res with
      | inl err => mret (inl err)
      | inr (items, cursor) => mret (marshal_page items cursor)
      end
  end.

(** The reference that [destroy] acts on. *)
Definition destroy_ref (input resource : string) : result string :=
  match (if decide (input = EmptyString) then Some EmptyString else unmarshal_ref input) with
  | None => inl (Wrapf "reconcile.Destroy: parse ref: " json_error EmptyString)
  | Some ref =>
      inr (if decide (ref = EmptyString ∧ input ≠ EmptyString)
           then inferRefFromInput input resource else ref)
  end.

(** The observed payload of a destroy event, written with the verb [%q]. *)
Definition destroyed_observed (ref : string) : string :=
  of_l ("{"%char :: dquote :: to_l "ref" ++ [dquote; ":"%char]) +:+ Quote ref +:+
  of_l (","%char :: dquote :: to_l "deleted" ++ dquote :: to_l ":true}").

Definition deleted_body : string :=
  of_l ("{"%char :: dquote :: to_l "deleted" ++ dquote :: to_l ":true}").

Definition makeDestroyFn (ec : emitContext P) : entry P := λ env,
  match destroy_ref (Input env) (resource ec) with
  | inl e => mret (inl e)
  | inr ref =>
      err ←
        match DestroyWithDesired r with
        | Some dwd =>
            match parse_desired "reconcile.DestroyWithDesired: parse desired: " (Input env) with
            | inl e => mret (Some e)
            | inr desired => _ ← tell (CDestroyWithDesired ref); external (dwd ref desired)
            end
        | None => _ ← tell (CDestroy ref); external (Destroy r ref)
        end;
      match err with
      | Some e => mret (inl e)
      | None =>
          _ ← emit ec env VerbDestroyed ref (destroyed_observed ref);
          mret (inr deleted_body)
      end
  end.
End make.

(** ** Registration *)

(** [options]; the logger is a number, [None] is nil. *)
Record options := {
  legacyNames : list string;
  warnLogger : option nat;
  o_emitter : option (Emitter P);
  o_provider : string;
  o_instanceID : string;
}.
Definition zero_options : options :=
  {| legacyNames := []; warnLogger := None; o_emitter := None;
     o_provider := EmptyString; o_instanceID := EmptyString |}.

Definition Option : Type := options → options.
Definition WithLegacyNames (names : list string) : Option := λ o,
  {| legacyNames := legacyNames o ++ names; warnLogger := warnLogger o; o_emitter := o_emitter o;
     o_provider := o_provider o; o_instanceID := o_instanceID o |}.
Definition WithWarnLogger (logger : option nat) : Option := λ o,
  {| legacyNames := legacyNames o; warnLogger := logger; o_emitter := o_emitter o;
     o_provider := o_provider o; o_instanceID := o_instanceID o |}.
Definition WithEmitter (em : option (Emitter P)) : Option := λ o,
  {| legacyNames := legacyNames o; warnLogger := warnLogger o; o_emitter := em;
     o_provider := o_provider o; o_instanceID := o_instanceID o |}.
Definition WithProvider (provider : string) : Option := λ o,
  {| legacyNames := legacyNames o; warnLogger := warnLogger o; o_emitter := o_emitter o;
     o_provider := provider; o_instanceID := o_instanceID o |}.
Definition WithInstanceID (instanceID : string) : Option := λ o,
  {| legacyNames := legacyNames o; warnLogger := warnLogger o; o_emitter := o_emitter o;
     o_provider := o_provider o; o_instanceID := instanceID |}.

Definition startsWithAny (s : string) (prefixes : list string) : bool :=
  existsb (HasPrefix s) prefixes.

Definition pickCanonicalForLegacy (legacy ensureName observeName destroyName : string) : string :=
  if startsWithAny legacy ["create_"; "update_"; "upsert_"; "register_"; "set_"; "apply_"; "issue_"]
  then ensureName
  else if startsWithAny legacy ["get_"; "list_"; "describe_"; "lookup_"; "retrieve_"]
  then observeName
  else if startsWithAny legacy
            ["delete_"; "unregister_"; "remove_"; "teardown_"; "revoke_"; "cancel_"; "archive_"]
  then destroyName
  else ensureName.

Definition warnShim (legacy canonical : string) (canonicalFn : entry P) (logger : option nat) : entry P :=
  λ env,
  _ ← log_to (from_option Custom StdLog logger)
        ("reconcile: deprecated capability name " +:+ Quote legacy +:+ " invoked; use " +:+
         Quote canonical +:+ " (compat shim, removed in v0.7.0)");
  canonicalFn env.

Definition resolveWarnLogger (logger : option nat) : sink := from_option Custom Stdout logger.

(** The package's variables. [dispatchTables] and [missingEmitterWarned] are
    keyed by the adapter; [executeInstalls] are the adapters on which
    [a.Register("execute", buildExecuteHandler(t))] was called, in order. The
    handler holds the pointer to the table, so that it serves [dispatchTables]'
    current entries. *)
Record registry := {
  dispatchTables : gmap nat (gmap string (entry P));
  missingEmitterWarned : gset nat;
  executeInstalls : list nat;
}.
Definition zero_registry : registry :=
  {| dispatchTables := ∅; missingEmitterWarned := ∅; executeInstalls := [] |}.

Definition tableFor (a : nat) (g : registry) : gmap string (entry P) * registry :=
  match dispatchTables g !! a with
  | Some t => (t, g)
  | None => (∅, {| dispatchTables := <[a := ∅]> (dispatchTables g);
                   missingEmitterWarned := missingEmitterWarned g;
                   executeInstalls := executeInstalls g ++ [a] |})
  end.

Definition missing_emitter_line (resource : string) : string :=
  "reconcile: RegisterReconciler for resource " +:+ Quote resource +:+
  " has no emitter wired (call reconcile.WithEmitter to enable " +:+
  of_l [chr 194; chr 167] +:+ "6.5 auto-emission)".

Definition warnMissingEmitterOnce (a : nat) (resource : string) (logger : option nat)
    (g : registry) : M (world P) registry :=
  if decide (a ∈ missingEmitterWarned g) then mret g
  else
    _ ← log_to (from_option Custom Stdout logger) (missing_emitter_line resource);
    mret {| dispatchTables := dispatchTables g;
            missingEmitterWarned := {[a]} ∪ missingEmitterWarned g;
            executeInstalls := executeInstalls g |}.

(** [strings.ToLower(strings.TrimSpace(s))]. *)
Definition norm (s : string) : string := ToLower (TrimSpace s).

(** The loop over the legacy names. The canonical entry is always present
    ([canonical_present]). *)
Fixpoint add_legacy (ensureName observeName destroyName : string) (logger : option nat)
    (names : list string) (t : gmap string (entry P)) : gmap string (entry P) :=
  match names with
  | [] => t
  | legacy :: rest =>
      let legacy := norm legacy in
      if decide (legacy = EmptyString)
      then add_legacy ensureName observeName destroyName logger rest t
      else
        let canonical := pickCanonicalForLegacy legacy ensureName observeName destroyName in
        match t !! canonical with
        | Some canonicalFn =>
            add_legacy ensureName observeName destroyName logger rest
              (<[legacy := warnShim legacy canonical canonicalFn logger]> t)
        | None => t
        end
  end.

Definition emit_context (cfg : options) (resource : string) : emitContext P :=
  {| emitter := o_emitter cfg; provider := o_provider cfg; resource := resource;
     instanceID := o_instanceID cfg; warn := resolveWarnLogger (warnLogger cfg) |}.

(** The second half of [RegisterReconciler], from [t := tableFor(a)]: the
    bindings of the three canonical names and of the legacy names. *)
Definition bind_entries {D O} (c : codec D O) (a : nat) (resource resourceType : string)
    (r : Reconciler P D O) (cfg : options) (ec : emitContext P) (g : registry) : registry :=
  let '(t, g2) := tableFor a g in
  let ensureName := "ensure_" +:+ resource in
  let observeName := "observe_" +:+ resourceType in
  let destroyName := "destroy_" +:+ resource in
  let t1 := <[ensureName := makeEnsureFn c r ec]> t in
  let t2 := <[observeName := makeObserveFn c r]> t1 in
  let t3 := <[destroyName := makeDestroyFn c r ec]> t2 in
  let t4 := add_legacy ensureName observeName destroyName (warnLogger cfg) (legacyNames cfg) t3 in
  {| dispatchTables := <[a := t4]> (dispatchTables g2);
     missingEmitterWarned := missingEmitterWarned g2;
     executeInstalls := executeInstalls g2 |}.

(** [None] is the panic on an empty name. *)
Definition RegisterReconciler {D O} (c : codec D O) (a : nat) (resource resourceType : string)
    (r : Reconciler P D O) (opts : list Option) (g : registry) : M (world P) (option registry) :=
  let resource := norm resource in
  let resourceType := norm resourceType in
  if decide (resource = EmptyString ∨ resourceType = EmptyString) then mret None
  else
    let cfg := foldl (λ o f, f o) zero_options opts in
    let ec := emit_context cfg resource in
    g1 ← match o_emitter cfg with
         | None => warnMissingEmitterOnce a resource None g
         | Some _ => mret g
         end;
    mret (Some (bind_entries c a resource resourceType r cfg ec g1)).

(** ** Dispatch *)

(** The operation that a request names. *)
Definition requested_op (req : executeRequest) : string :=
  if decide (TrimSpace (Operation req) = EmptyString) then TrimSpace (Capability req)
  else TrimSpace (Operation req).

Definition buildExecuteHandler (t : gmap string (entry P)) (body : string)
    : M (world P) (result (string * string)) :=
  match (if decide (body = EmptyString) then Some zero_request else unmarshal_request body) with
  | None => mret (inl (Wrapf "reconcile: parse execute request: " json_error EmptyString))
  | Some req =>
      let op := requested_op req in
      if decide (op = EmptyString) then mret (inl (Errorf "reconcile: execute request missing operation"))
      else match t !! op with
           | None => mret (inl (Errorf ("reconcile: unsupported operation " +:+ Quote op)))
           | Some fn =>
               res ← fn req;
               match res with
               | inl err => mret (inl err)
               | inr out => mret (inr (out, "application/json"))
               end
           end
  end.

Definition Dispatch (g : registry) (a : nat) (body : string) : M (world P) (result (string * string)) :=
  match dispatchTables g !! a with
  | None => mret (inl (Errorf ("reconcile: adapter has no registered Reconciler " +:+
                               "(call reconcile.RegisterReconciler before reconcile.Dispatch)")))
  | Some t => buildExecuteHandler t body
  end.

Definition ExecuteForTest (g : registry) (a : nat) (body : string) : M (world P) (result (string * string)) :=
  Dispatch g a body.
End functions.
Arguments options P : clear implicits.
Arguments registry P : clear implicits.
