(* ===== verification/ReconcileSpec.v ===== *)
(** * Theorems about reconcilers and auto-emission

    The golden rule (a successful [Ensure] or [Destroy] posts exactly one event,
    a failed one and every [Observe] post none), the independence of responses
    from the event bus, the refinement of the registry to the list of
    registrations, and the identifiers that events carry. *)
From Stdlib Require Import Ascii ZArith.
From stdpp Require Import prelude gmap strings.
From S2P Require Import Prelude GoStrings GoText GoFloat GoCrypto Json JsonText GoTime Events Reconcile.

Local Open Scope Z_scope.

(** Runs the monadic steps of a goal. *)
Ltac run_m :=
  cbv [mbind M_bind mret M_ret tell external time_now log_to]; cbn [prov clock trace fst snd].

(** ** Vocabulary *)

(** The events posted by a stretch of the trace. *)
Definition emitted (c : call) : option MutationEvent :=
  match c with CEmit ev => Some ev | _ => None end.
Definition emissions (l : list call) : list MutationEvent := omap emitted l.

(** A registration, as the adapter's [main] writes it. *)
Record registration (P : Type) := {
  reg_D : Type;
  reg_O : Type;
  reg_codec : codec reg_D reg_O;
  reg_adapter : nat;
  reg_resource : string;
  reg_resourceType : string;
  reg_reconciler : Reconciler P reg_D reg_O;
  reg_opts : list (@Option P);
}.
Arguments reg_D {P} _.
Arguments reg_O {P} _.
Arguments reg_codec {P} _.
Arguments reg_adapter {P} _.
Arguments reg_resource {P} _.
Arguments reg_resourceType {P} _.
Arguments reg_reconciler {P} _.
Arguments reg_opts {P} _.

Section spec.
Context `{UnicodeTables} {P : Type}.
Implicit Types (w : world P) (ec : emitContext P) (env : executeRequest).

(** A sequence of registrations; a panic ends it. *)
Definition register (x : registration P) (g : registry P) : M (world P) (option (registry P)) :=
  RegisterReconciler (reg_codec x) (reg_adapter x) (reg_resource x) (reg_resourceType x)
    (reg_reconciler x) (reg_opts x) g.
Fixpoint register_all (l : list (registration P)) (g : registry P)
    : M (world P) (option (registry P)) :=
  match l with
  | [] => mret (Some g)
  | x :: l' =>
      og ← register x g;
      match og with None => mret None | Some g' => register_all l' g' end
  end.

(** *** What a registration declares *)

Definition cfg_of (x : registration P) : options P := foldl (λ o f, f o) zero_options (reg_opts x).
Definition ensure_name (x : registration P) : string := "ensure_" +:+ norm (reg_resource x).
Definition observe_name (x : registration P) : string := "observe_" +:+ norm (reg_resourceType x).
Definition destroy_name (x : registration P) : string := "destroy_" +:+ norm (reg_resource x).
Definition ec_of (x : registration P) : emitContext P := emit_context (cfg_of x) (norm (reg_resource x)).

Definition canonical_entry (x : registration P) (op : string) : option (entry P) :=
  if decide (op = ensure_name x) then Some (makeEnsureFn (reg_codec x) (reg_reconciler x) (ec_of x))
  else if decide (op = observe_name x) then Some (makeObserveFn (reg_codec x) (reg_reconciler x))
  else if decide (op = destroy_name x)
  then Some (makeDestroyFn (reg_codec x) (reg_reconciler x) (ec_of x))
  else None.

(** The handler that a registration gives to [op], where [names] are its legacy
    names, the latest first: a legacy name is the shim of the canonical name
    that its prefix selects. *)
Fixpoint declared (x : registration P) (names : list string) (op : string) : option (entry P) :=
  match names with
  | [] => canonical_entry x op
  | n :: rest =>
      if decide (norm n ≠ EmptyString ∧ op = norm n) then
        let canonical := pickCanonicalForLegacy op (ensure_name x) (observe_name x) (destroy_name x) in
        (λ fn, warnShim op canonical fn (warnLogger (cfg_of x))) <$> declared x rest canonical
      else declared x rest op
  end.

(** The handler of [op] on adapter [a]: the latest registration that declares
    it. *)
Fixpoint route (log : list (registration P)) (a : nat) (op : string) : option (entry P) :=
  match log with
  | [] => None
  | x :: log' =>
      match (if decide (reg_adapter x = a) then declared x (reverse (legacyNames (cfg_of x))) op
             else None) with
      | Some fn => Some fn
      | None => route log' a op
      end
  end.

(** ** Lemmas: emission *)

Lemma emissions_app l1 l2 : emissions (l1 ++ l2) = emissions l1 ++ emissions l2.
Proof. apply omap_app. Qed.

(** What [emit] adds to the trace. *)
Definition emit_trace (ec : emitContext P) (env : executeRequest) (verb : Verb)
    (id observed : string) (w : world P) : list call :=
  match emitter ec with
  | None => []
  | Some em =>
      let ev := mk_event ec env verb id observed (clock w) in
      CEmit ev ::
      match (Emit em ev (prov w)).1 with
      | None => []
      | Some e => [CWarn (warn ec) ("reconcile: emit " +:+ Quote (EventType ev) +:+
                     " failed (best-effort, not blocking): " +:+ error_text e)]
      end
  end.

Lemma emit_spec ec env verb id observed w :
  trace (emit ec env verb id observed w).2 = trace w ++ emit_trace ec env verb id observed w.
Proof.
  unfold emit, emit_trace. destruct (emitter ec) as [em|]; [|by rewrite app_nil_r].
  run_m. destruct (Emit em _ _) as [[e|] p]; run_m; [|done].
  by rewrite <- app_assoc.
Qed.

Lemma emit_trace_emissions ec env verb id observed w :
  emissions (emit_trace ec env verb id observed w) =
  match emitter ec with
  | None => []
  | Some _ => [mk_event ec env verb id observed (clock w)]
  end.
Proof. unfold emit_trace. destruct (emitter ec); [|done]. cbn. by case_match. Qed.

Section verbs.
Context {D O : Type} (c : codec D O) (r : Reconciler P D O).

(** The state in which the events of a call are posted. *)
Lemma emit_trace_world ec env verb id observed w w' :
  prov w = prov w' → clock w = clock w' →
  emit_trace ec env verb id observed w = emit_trace ec env verb id observed w'.
Proof. unfold emit_trace. intros -> ->. done. Qed.

Lemma ensure_run ec env w :
  makeEnsureFn c r ec env w =
  match parse_desired c "reconcile.Ensure: parse desired: " (Input env) with
  | inl e => (inl e, w)
  | inr d =>
      let '(res, p) := Ensure r d (prov w) in
      let w1 := World p (clock w) (trace w ++ [CEnsure]) in
      match res with
      | inl e => (inl e, w1)
      | inr o =>
          match marshalO c o with
          | inl e => (inl (Wrapf "reconcile.Ensure: marshal observed: " e EmptyString), w1)
          | inr body =>
              (inr body,
               (emit ec env VerbEnsured (inferResourceID (reflectO c o) body (resource ec)) body w1).2)
          end
      end
  end.
Proof.
  unfold makeEnsureFn. destruct (parse_desired _ _ _) as [e|d]; [done|]. run_m.
  destruct (Ensure r d (prov w)) as [[e|o] p]; [done|].
  destruct (marshalO c o) as [e|body]; [done|]. by destruct (emit _ _ _ _ _ _) as [[] ?].
Qed.

(** The mutation of a destroy request. *)
Definition destroy_call (input ref : string) (w : world P) : option error * world P :=
  match DestroyWithDesired r with
  | Some dwd =>
      match parse_desired c "reconcile.DestroyWithDesired: parse desired: " input with
      | inl e => (Some e, w)
      | inr d =>
          let '(err, p) := dwd ref d (prov w) in
          (err, World p (clock w) (trace w ++ [CDestroyWithDesired ref]))
      end
  | None =>
      let '(err, p) := Destroy r ref (prov w) in
      (err, World p (clock w) (trace w ++ [CDestroy ref]))
  end.

Lemma destroy_run ec env w :
  makeDestroyFn c r ec env w =
  match destroy_ref (Input env) (resource ec) with
  | inl e => (inl e, w)
  | inr ref =>
      let '(err, w1) := destroy_call (Input env) ref w in
      match err with
      | Some e => (inl e, w1)
      | None =>
          (inr deleted_body, (emit ec env VerbDestroyed ref (destroyed_observed ref) w1).2)
      end
  end.
Proof.
  unfold makeDestroyFn, destroy_call. destruct (destroy_ref _ _) as [e|ref]; [done|]. run_m.
  destruct (DestroyWithDesired r) as [dwd|].
  - destruct (parse_desired _ _ _) as [e|d]; [done|].
    destruct (dwd ref d (prov w)) as [[e|] p]; [done|]. by destruct (emit _ _ _ _ _ _) as [[] ?].
  - destruct (Destroy r ref (prov w)) as [[e|] p]; [done|]. by destruct (emit _ _ _ _ _ _) as [[] ?].
Qed.

Lemma destroy_call_trace input ref w :
  ∃ new, trace (destroy_call input ref w).2 = trace w ++ new ∧ emissions new = [].
Proof.
  unfold destroy_call. repeat case_goal; simplify_eq/=;
    first [by exists []; rewrite app_nil_r | by eexists].
Qed.

Lemma mk_event_idempotency ec env verb id observed now :
  Idempotency (mk_event ec env verb id observed now) ≠ EmptyString.
Proof.
  cbn. case_decide as E; [|done]. unfold synthesizeIdempotencyKey.
  intros Heq. apply (f_equal len) in Heq. rewrite !len_app in Heq.
  unfold len in Heq. cbn in Heq. lia.
Qed.
End verbs.

(** ** Lemmas: the registry *)

Lemma canonical_present x legacy :
  is_Some (canonical_entry x
    (pickCanonicalForLegacy legacy (ensure_name x) (observe_name x) (destroy_name x))).
Proof.
  unfold pickCanonicalForLegacy, canonical_entry. repeat case_match; repeat case_decide; done.
Qed.

Lemma declared_present x names legacy :
  is_Some (declared x names
    (pickCanonicalForLegacy legacy (ensure_name x) (observe_name x) (destroy_name x))).
Proof.
  remember (pickCanonicalForLegacy _ _ _ _) as op eqn:Eop.
  assert (∃ l, op = pickCanonicalForLegacy l (ensure_name x) (observe_name x) (destroy_name x)) as Hop
    by eauto. clear Eop legacy. revert op Hop.
  induction names as [|n names IH]; intros op [l ->]; cbn; [apply canonical_present|].
  case_decide; [|by apply IH; eauto]. apply fmap_is_Some, IH. eauto.
Qed.

(** A table that holds what [x] declared up to the legacy names [names], over
    the entries [base]. *)
Definition holds (x : registration P) (names : list string)
    (base t : gmap string (entry P)) : Prop :=
  ∀ op, t !! op = match declared x names op with Some fn => Some fn | None => base !! op end.

Lemma add_legacy_holds x base names done_ t :
  holds x done_ base t →
  holds x (reverse names ++ done_) base
    (add_legacy (ensure_name x) (observe_name x) (destroy_name x) (warnLogger (cfg_of x)) names t).
Proof.
  revert done_ t. induction names as [|n names IH]; intros done_ t Ht; [done|].
  rewrite reverse_cons, <- app_assoc. cbn [app add_legacy]. cbv zeta.
  case_decide as En.
  - apply IH. intros op. rewrite Ht. cbn [declared]. by rewrite decide_False by (intros [? _]; done).
  - rewrite Ht. destruct (declared_present x done_ (norm n)) as [fn Hfn]. rewrite Hfn.
    apply IH. intros op. cbn [declared]. destruct (decide (op = norm n)) as [->|Hne].
    + by rewrite lookup_insert_eq, decide_True, Hfn by done.
    + rewrite lookup_insert_ne by done. rewrite decide_False by (intros [_ ?]; done). apply Ht.
Qed.

Lemma base_holds x t :
  holds x [] t
    (<[destroy_name x := makeDestroyFn (reg_codec x) (reg_reconciler x) (ec_of x)]>
      (<[observe_name x := makeObserveFn (reg_codec x) (reg_reconciler x)]>
        (<[ensure_name x := makeEnsureFn (reg_codec x) (reg_reconciler x) (ec_of x)]> t))).
Proof.
  intros op. cbn. unfold canonical_entry.
  assert (ensure_name x ≠ observe_name x ∧ ensure_name x ≠ destroy_name x ∧
          observe_name x ≠ destroy_name x) as (? & ? & ?) by (split_and!; intros [=]).
  repeat case_decide; subst; simplify_map_eq; done.
Qed.

(** One registration that does not panic. *)
Definition missing_emitter (x : registration P) : bool :=
  match o_emitter (cfg_of x) with None => true | Some _ => false end.

Lemma bind_entries_spec x g :
  let g' := bind_entries (reg_codec x) (reg_adapter x) (norm (reg_resource x))
    (norm (reg_resourceType x)) (reg_reconciler x) (cfg_of x) (ec_of x) g in
  ∃ t, dispatchTables g' = <[reg_adapter x := t]> (dispatchTables g) ∧
    holds x (reverse (legacyNames (cfg_of x))) (default ∅ (dispatchTables g !! reg_adapter x)) t ∧
    missingEmitterWarned g' = missingEmitterWarned g ∧
    executeInstalls g' = executeInstalls g ++
      match dispatchTables g !! reg_adapter x with Some _ => [] | None => [reg_adapter x] end.
Proof.
  unfold bind_entries, tableFor.
  destruct (dispatchTables g !! reg_adapter x) as [t0|] eqn:Et; cbn; eexists;
    rewrite ?insert_insert_eq, ?app_nil_r; (split_and!; [reflexivity| |done|done]);
    rewrite <- (app_nil_r (reverse _)); apply add_legacy_holds, base_holds.
Qed.

Lemma register_spec x g w :
  (norm (reg_resource x) = EmptyString ∨ norm (reg_resourceType x) = EmptyString) ∧
    register x g w = (None, w) ∨
  (norm (reg_resource x) ≠ EmptyString ∧ norm (reg_resourceType x) ≠ EmptyString) ∧
  ∃ g' t, register x g w =
      (Some g', if missing_emitter x && bool_decide (reg_adapter x ∉ missingEmitterWarned g)
                then World (prov w) (clock w)
                       (trace w ++ [CWarn Stdout (missing_emitter_line (norm (reg_resource x)))])
                else w) ∧
    dispatchTables g' = <[reg_adapter x := t]> (dispatchTables g) ∧
    holds x (reverse (legacyNames (cfg_of x))) (default ∅ (dispatchTables g !! reg_adapter x)) t ∧
    missingEmitterWarned g' =
      (if missing_emitter x then {[reg_adapter x]} ∪ missingEmitterWarned g
       else missingEmitterWarned g) ∧
    executeInstalls g' =
      executeInstalls g ++
      match dispatchTables g !! reg_adapter x with Some _ => [] | None => [reg_adapter x] end.
Proof.
  unfold register, RegisterReconciler. cbv zeta. fold (cfg_of x). fold (ec_of x).
  case_decide as E; [by left|]. right. split; [tauto|]. unfold missing_emitter.
  destruct (o_emitter (cfg_of x)) as [em|]; [|unfold warnMissingEmitterOnce; case_decide as Ea].
  - destruct (bind_entries_spec x g) as (t & H1 & H2 & H3 & H4).
    eexists _, t. split; [reflexivity|]. done.
  - destruct (bind_entries_spec x g) as (t & H1 & H2 & H3 & H4).
    eexists _, t. split; [rewrite bool_decide_false by auto; reflexivity|].
    split_and!; [done..| |done]. rewrite H3. set_solver.
  - destruct (bind_entries_spec x {| dispatchTables := dispatchTables g;
      missingEmitterWarned := {[reg_adapter x]} ∪ missingEmitterWarned g;
      executeInstalls := executeInstalls g |}) as (t & H1 & H2 & H3 & H4).
    eexists _, t. split; [rewrite bool_decide_true by done; reflexivity|]. done.
Qed.

(** The binding of an operation on an adapter. *)
Definition bound (g : registry P) (a : nat) (op : string) : option (entry P) :=
  dispatchTables g !! a ≫= λ t, t !! op.

Lemma bound_zero a op : bound zero_registry a op = None.
Proof. unfold bound. cbn [zero_registry dispatchTables]. by rewrite lookup_empty. Qed.

Lemma route_app l1 l2 a op :
  route (l1 ++ l2) a op = match route l1 a op with Some fn => Some fn | None => route l2 a op end.
Proof.
  induction l1 as [|x l1 IH]; [done|]. cbn [app route]. rewrite IH. by repeat case_match.
Qed.

Lemma register_bound x g w g' w' :
  register x g w = (Some g', w') →
  ∀ a op, bound g' a op = match route [x] a op with Some fn => Some fn | None => bound g a op end.
Proof.
  intros Hrun a op. destruct (register_spec x g w) as [[_ E]|(_ & g1 & t & E & Ht & Hh & _)];
    rewrite Hrun in E; simplify_eq.
  unfold bound. rewrite Ht. cbn [route]. destruct (decide (reg_adapter x = a)) as [Ea|Ea].
  - subst a. rewrite lookup_insert_eq. cbn. rewrite Hh.
    destruct (declared x _ op); [done|]. by destruct (dispatchTables g !! reg_adapter x).
  - by rewrite lookup_insert_ne by done.
Qed.

Lemma register_all_bound l g w g' w' :
  register_all l g w = (Some g', w') →
  ∀ a op, bound g' a op = match route (reverse l) a op with Some fn => Some fn | None => bound g a op end.
Proof.
  revert g w. induction l as [|x l IH]; intros g w Hrun a op; [by injection Hrun as <- <-|].
  cbn [register_all] in Hrun. revert Hrun. run_m.
  destruct (register x g w) as [[g1|] w1] eqn:E1; intros Hrun; [|done].
  rewrite (IH _ _ Hrun), reverse_cons, route_app.
  rewrite (register_bound _ _ _ _ _ E1). by destruct (route (reverse l) a op).
Qed.

(** *** Warnings and installations *)

(** The state of the once-only effects after the registrations [l]. *)
Definition once_inv (l : list (registration P)) (n : nat) (g : registry P) : Prop :=
  (∀ a, a ∈ missingEmitterWarned g ↔ ∃ x, x ∈ l ∧ reg_adapter x = a ∧ missing_emitter x = true) ∧
  n = size (missingEmitterWarned g) ∧
  NoDup (executeInstalls g) ∧
  (∀ a, a ∈ executeInstalls g ↔ is_Some (dispatchTables g !! a)) ∧
  (∀ a, a ∈ executeInstalls g ↔ a ∈ reg_adapter <$> l).

Lemma once_inv_step l n g x w g' w' :
  once_inv l n g → register x g w = (Some g', w') →
  ∃ new, trace w' = trace w ++ new ∧ once_inv (l ++ [x]) (n + length new) g' ∧
    Forall (λ c, ∃ r, c = CWarn Stdout (missing_emitter_line r)) new.
Proof.
  intros (Hwarn & Hn & Hnd & Htab & Hins) Hrun.
  destruct (register_spec x g w) as [[_ E]|(_ & g1 & t & E & Ht & _ & Hm & Hi)];
    rewrite Hrun in E; simplify_eq.
  assert (∀ a, a ∈ missingEmitterWarned g1 ↔
    ∃ y, y ∈ l ++ [x] ∧ reg_adapter y = a ∧ missing_emitter y = true) as Hw1.
  { intros a. rewrite Hm. transitivity ((∃ y, y ∈ l ∧ reg_adapter y = a ∧ missing_emitter y = true) ∨
      reg_adapter x = a ∧ missing_emitter x = true).
    - rewrite <- Hwarn. destruct (missing_emitter x); set_solver.
    - split; [intros [(y & ? & ?)|?]; [exists y|exists x]; set_solver|].
      intros (y & Hy & ?). apply elem_of_app in Hy as [?|Hy]; [by left; eauto|].
      apply list_elem_of_singleton in Hy as ->. by right. }
  assert (NoDup (executeInstalls g1) ∧ (∀ a, a ∈ executeInstalls g1 ↔ is_Some (dispatchTables g1 !! a)) ∧
    ∀ a, a ∈ executeInstalls g1 ↔ a ∈ reg_adapter <$> (l ++ [x])) as (Hnd1 & Htab1 & Hins1).
  { rewrite Hi, Ht. destruct (dispatchTables g !! reg_adapter x) as [t0|] eqn:Et.
    - rewrite app_nil_r. split_and!; [done| |]; intros a.
      + rewrite Htab, lookup_insert_is_Some'. split; [by right|]. intros [<-|?]; eauto.
      + rewrite fmap_app, elem_of_app, <- Hins. cbn. rewrite list_elem_of_singleton.
        split; [by left|]. intros [?| ->]; [done|]. rewrite Htab. eauto.
    - split_and!; [|intros a..].
      + apply NoDup_app. split_and!; [done| |apply NoDup_singleton]. intros a Ha Hx. apply list_elem_of_singleton in Hx as ->.
        apply Htab in Ha as [? ?]. congruence.
      + rewrite elem_of_app, list_elem_of_singleton, Htab, lookup_insert_is_Some'. split; intros [?|?]; auto.
      + rewrite fmap_app, !elem_of_app, <- Hins. done. }
  unfold once_inv. destruct (missing_emitter x) eqn:Ex; cbn [andb].
  - case_bool_decide as Ea.
    + eexists. split; [reflexivity|]. split; [split_and!; try done|by repeat constructor; eexists].
      rewrite Hm, size_union, size_singleton by set_solver. cbn. lia.
    + exists []. rewrite app_nil_r. split; [done|]. split; [split_and!; try done|constructor].
      rewrite Hm. cbn. replace ({[reg_adapter x]} ∪ missingEmitterWarned g)
        with (missingEmitterWarned g) by (apply leibniz_equiv; set_solver). lia.
  - exists []. rewrite app_nil_r. split; [done|]. split; [split_and!; try done|constructor].
    rewrite Hm. cbn. lia.
Qed.

Lemma register_all_once l0 l n g w g' w' :
  once_inv l0 n g → register_all l g w = (Some g', w') →
  ∃ new, trace w' = trace w ++ new ∧ once_inv (l0 ++ l) (n + length new) g' ∧
    Forall (λ c, ∃ r, c = CWarn Stdout (missing_emitter_line r)) new.
Proof.
  revert l0 n g w. induction l as [|x l IH]; intros l0 n g w Hinv Hrun.
  - injection Hrun as <- <-. exists []. rewrite !app_nil_r, Nat.add_0_r. done.
  - cbn [register_all] in Hrun. revert Hrun. run_m.
    destruct (register x g w) as [[g1|] w1] eqn:E1; intros Hrun; [|done].
    destruct (once_inv_step _ _ _ _ _ _ _ Hinv E1) as (new1 & Hw1 & Hinv1 & Hf1).
    destruct (IH _ _ _ _ Hinv1 Hrun) as (new2 & Hw2 & Hinv2 & Hf2).
    exists (new1 ++ new2). rewrite Hw2, Hw1, app_assoc. split; [done|].
    rewrite <- app_assoc in Hinv2. rewrite length_app, Nat.add_assoc. split; [done|].
    by apply Forall_app.
Qed.

Lemma once_inv_zero : once_inv [] 0 zero_registry.
Proof.
  split_and!; cbn; [set_solver|done|constructor| |set_solver].
  intros a. rewrite lookup_empty. split; [set_solver|]. by intros [? ?].
Qed.

(** ** The golden rule *)

(** What an event says about a mutation of the request [env]. *)
Definition event_for (ec : emitContext P) (env : executeRequest) (verb : Verb)
    (id observed : string) (ev : MutationEvent) : Prop :=
  EventType ev = provider ec +:+ "." +:+ resource ec +:+ "." +:+ verb ∧
  ev_Provider ev = provider ec ∧ ev_Resource ev = resource ec ∧ ev_Verb ev = verb ∧
  ResourceID ev = id ∧ Observed ev = observed ∧
  ev_InstanceID ev = (if decide (InstanceID env = EmptyString) then instanceID ec else InstanceID env) ∧
  Idempotency ev ≠ EmptyString ∧
  (Idempotency_ env ≠ EmptyString → Idempotency ev = Idempotency_ env).

Lemma mk_event_for ec env verb id observed now :
  event_for ec env verb id observed (mk_event ec env verb id observed now).
Proof.
  split_and!; try done; [apply mk_event_idempotency|].
  intros Hne. cbn. by rewrite decide_False by done.
Qed.

(** The trace of a call that posts the event of a mutation. *)
Lemma emit_adds ec env verb id observed w em :
  emitter ec = Some em →
  ∃ ev new, trace (emit ec env verb id observed w).2 = trace w ++ new ∧
    emissions new = [ev] ∧ event_for ec env verb id observed ev.
Proof.
  intros Hem. eexists _, _. split; [apply emit_spec|]. rewrite emit_trace_emissions, Hem.
  split; [reflexivity|]. apply mk_event_for.
Qed.

(** C1: with an emitter wired, an [ensure] request succeeds exactly when the
    desired state parses, the reconciler's [Ensure] succeeds and its result
    marshals; the response is then that JSON, and exactly one event is posted,
    after the mutation, of type [provider.resource.ensured], carrying the
    response as the observed state, the inferred resource id and a non-empty
    idempotency key (the caller's, when it sent one). A failed request posts
    none. *)
Theorem ensure_golden_rule {D O} (c : codec D O) (r : Reconciler P D O) ec env w em :
  emitter ec = Some em →
  (∀ body, (makeEnsureFn c r ec env w).1 = inr body ↔
     ∃ d o, parse_desired c "reconcile.Ensure: parse desired: " (Input env) = inr d ∧
            (Ensure r d (prov w)).1 = inr o ∧ marshalO c o = inr body) ∧
  match makeEnsureFn c r ec env w with
  | (inl _, w') => ∃ new, trace w' = trace w ++ new ∧ emissions new = []
  | (inr body, w') =>
      ∃ d o ev new,
        parse_desired c "reconcile.Ensure: parse desired: " (Input env) = inr d ∧
        (Ensure r d (prov w)).1 = inr o ∧
        trace w' = trace w ++ CEnsure :: new ∧ emissions new = [ev] ∧
        event_for ec env VerbEnsured (inferResourceID (reflectO c o) body (resource ec)) body ev
  end.
Proof.
  intros Hem. rewrite ensure_run.
  destruct (parse_desired _ _ _) as [e|d]; [split; [naive_solver|by exists []; rewrite app_nil_r]|].
  destruct (Ensure r d (prov w)) as [[e|o] p] eqn:EE; cbn.
  { split; [|by exists [CEnsure]]. intros body. split; [done|]. intros (? & ? & ? & Ho & _).
    simplify_eq/=. by rewrite EE in Ho. }
  destruct (marshalO c o) as [e|body] eqn:Em.
  { split; [|by exists [CEnsure]]. intros body. split; [done|]. intros (? & ? & ? & Ho & ?).
    simplify_eq/=. rewrite EE in Ho. simplify_eq/=. congruence. }
  split.
  { intros body'. split; [intros [= <-]; exists d, o; by rewrite EE|].
    intros (? & ? & ? & Ho & ?). simplify_eq/=. rewrite EE in Ho. simplify_eq/=. congruence. }
  destruct (emit_adds ec env VerbEnsured (inferResourceID (reflectO c o) body (resource ec)) body
    (World p (clock w) (trace w ++ [CEnsure])) em Hem) as (ev & new & Ht & He & Hev).
  exists d, o, ev, new. rewrite Ht, EE. cbn. by rewrite <- app_assoc.
Qed.

(** The one call of the reconciler that a [destroy] request leads to, with its
    outcome: by [DestroyWithDesired] when the reconciler implements it and the
    desired state parses, by [Destroy] when it does not implement it. *)
Inductive destroy_by {D O} (c : codec D O) (r : Reconciler P D O) (input ref : string) (p : P)
    : call → option error → P → Prop :=
| destroy_plain err p' : DestroyWithDesired r = None → Destroy r ref p = (err, p') →
    destroy_by c r input ref p (CDestroy ref) err p'
| destroy_desired dwd d err p' : DestroyWithDesired r = Some dwd →
    parse_desired c "reconcile.DestroyWithDesired: parse desired: " input = inr d → dwd ref d p = (err, p') →
    destroy_by c r input ref p (CDestroyWithDesired ref) err p'.

(** A request that names nothing to destroy: the reference or the desired state
    does not parse. *)
Definition destroy_unparsed {D O} (c : codec D O) (r : Reconciler P D O) (input resource : string) (e : error) : Prop :=
  destroy_ref input resource = inl e ∨
  (∃ ref, destroy_ref input resource = inr ref) ∧ is_Some (DestroyWithDesired r) ∧
  parse_desired c "reconcile.DestroyWithDesired: parse desired: " input = inl e.

(** C16: with an emitter wired, a [destroy] request whose input parses calls the
    reconciler once, with the reference found in the input ([DestroyWithDesired]
    when it is implemented, [Destroy] otherwise). If that call fails, its error is
    returned and no event is posted; if it succeeds, the response is
    [{"deleted":true}] and exactly one event of type [provider.resource.destroyed]
    with that reference as the resource id is posted after it, and nothing but a
    warning follows. A request whose input does not parse returns the error and
    calls nothing. *)
Theorem destroy_golden_rule {D O} (c : codec D O) (r : Reconciler P D O) ec env w em :
  emitter ec = Some em →
  (∀ e, destroy_unparsed c r (Input env) (resource ec) e → makeDestroyFn c r ec env w = (inl e, w)) ∧
  (∀ ref called err p, destroy_ref (Input env) (resource ec) = inr ref →
     destroy_by c r (Input env) ref (prov w) called err p →
     match err with
     | Some e => makeDestroyFn c r ec env w = (inl e, World p (clock w) (trace w ++ [called]))
     | None => ∃ w' ev warnings, makeDestroyFn c r ec env w = (inr deleted_body, w') ∧
         trace w' = trace w ++ called :: CEmit ev :: warnings ∧
         Forall (λ x, ∃ to line, x = CWarn to line) warnings ∧
         event_for ec env VerbDestroyed ref (destroyed_observed ref) ev
     end) ∧
  ((∃ e, destroy_unparsed c r (Input env) (resource ec) e) ∨
   ∃ ref called err p, destroy_ref (Input env) (resource ec) = inr ref ∧
     destroy_by c r (Input env) ref (prov w) called err p).
Proof.
  intros Hem. split_and!.
  - intros e He. rewrite destroy_run. destruct He as [-> |([ref ->] & [dwd Hd] & Hp)]; [done|].
    unfold destroy_call. by rewrite Hd, Hp.
  - intros ref called err p Href Hby. rewrite destroy_run, Href.
    assert (destroy_call c r (Input env) ref w = (err, World p (clock w) (trace w ++ [called]))) as ->.
    { unfold destroy_call. destruct Hby as [err p -> -> |dwd d err p -> -> ->]; done. }
    destruct err as [e|]; [done|]. eexists _, (mk_event ec env VerbDestroyed ref (destroyed_observed ref) (clock w)), _.
    split; [reflexivity|]. rewrite emit_spec. cbn [trace]. unfold emit_trace. rewrite Hem. cbn [clock prov].
    rewrite <- app_assoc. split; [reflexivity|]. split; [|apply mk_event_for].
    case_match; [apply Forall_singleton; eauto|apply Forall_nil_2].
  - destruct (destroy_ref (Input env) (resource ec)) as [e|ref] eqn:Er; [left; exists e; by left|].
    destruct (DestroyWithDesired r) as [dwd|] eqn:Ed.
    + destruct (parse_desired c "reconcile.DestroyWithDesired: parse desired: " (Input env)) as [e|d] eqn:Ep.
      * left. exists e. right. split; [by exists ref|]. by rewrite Ed.
      * right. destruct (dwd ref d (prov w)) as [err p] eqn:Ec. exists ref, (CDestroyWithDesired ref), err, p.
        split; [done|]. by eapply destroy_desired.
    + right. destruct (Destroy r ref (prov w)) as [err p] eqn:Ec. exists ref, (CDestroy ref), err, p.
      split; [done|]. by apply destroy_plain.
Qed.

(** C6: the dispatch table built by any sequence of registrations that does
    not panic is the one that the list of registrations declares: an operation
    of an adapter goes to the latest registration that declares it, under its
    canonical names and, through the warning shim, under its legacy names; a
    registration for one adapter or resource never changes another's. The
    sequence panics exactly when one of its names is blank. *)
Theorem registry_refines_registrations l w :
  match register_all l zero_registry w with
  | (None, _) =>
      ∃ x, x ∈ l ∧ (norm (reg_resource x) = EmptyString ∨ norm (reg_resourceType x) = EmptyString)
  | (Some g, _) =>
      (∀ x, x ∈ l → norm (reg_resource x) ≠ EmptyString ∧ norm (reg_resourceType x) ≠ EmptyString) ∧
      ∀ a op, bound g a op = route (reverse l) a op
  end.
Proof.
  destruct (register_all l zero_registry w) as [[g|] w'] eqn:E; [split|].
  - revert E. generalize (@zero_registry P) as g0. revert w. induction l as [|x l IH]; [set_solver|].
    intros w g0. cbn [register_all]. run_m.
    destruct (register_spec x g0 w) as [[_ ->]|(Hx & g1 & t & -> & _)]; [done|].
    intros Hrun y [-> |Hy]%elem_of_cons; [done|]. by eapply IH.
  - intros a op. rewrite (register_all_bound _ _ _ _ _ E). by destruct (route _ _ _).
  - revert E. generalize (@zero_registry P) as g0. revert w. induction l as [|x l IH]; [done|].
    intros w g0. cbn [register_all]. run_m.
    destruct (register_spec x g0 w) as [[Hx ->]|(Hx & g1 & t & -> & _)]; [by exists x; set_solver|].
    intros Hrun. destruct (IH _ _ Hrun) as (y & ? & ?). exists y. set_solver.
Qed.

(** Whatever the order and the number of registrations, each adapter that
    registers a reconciler without an emitter is warned about exactly once, and
    the [execute] handler is installed exactly once on each adapter that
    registers one. *)
Theorem registration_effects_once l w g w' :
  register_all l zero_registry w = (Some g, w') →
  ∃ (lines : list call) (unwired : gset nat),
    trace w' = trace w ++ lines ∧
    Forall (λ c, ∃ r, c = CWarn Stdout (missing_emitter_line r)) lines ∧
    (∀ a, a ∈ unwired ↔ ∃ x, x ∈ l ∧ reg_adapter x = a ∧ missing_emitter x = true) ∧
    length lines = size unwired ∧
    NoDup (executeInstalls g) ∧ (∀ a, a ∈ executeInstalls g ↔ a ∈ reg_adapter <$> l).
Proof.
  intros Hrun. destruct (register_all_once [] l 0 _ _ _ _ once_inv_zero Hrun)
    as (new & Ht & (Hw & Hn & Hnd & _ & Hins) & Hf).
  exists new, (missingEmitterWarned g). done.
Qed.

(** ** All dispatches *)

(** Events only accompany a success, and at most one does. *)
Definition disciplined (fn : entry P) : Prop := ∀ env w,
  ∃ new, trace (fn env w).2 = trace w ++ new ∧
    match (fn env w).1 with
    | inl _ => emissions new = []
    | inr _ => (length (emissions new) ≤ 1)%nat
    end.

(** The same response, whatever the rest. *)
Definition same_response (fn fn' : entry P) : Prop := ∀ env w, (fn env w).1 = (fn' env w).1.

Lemma emit_trace_bound ec env verb id observed w :
  (length (emissions (emit_trace ec env verb id observed w)) ≤ 1)%nat.
Proof. rewrite emit_trace_emissions. destruct (emitter ec); cbn; lia. Qed.

Section entries.
Context {D O : Type} (c : codec D O) (r : Reconciler P D O).

Lemma ensure_disciplined ec : disciplined (makeEnsureFn c r ec).
Proof.
  intros env w. rewrite ensure_run.
  destruct (parse_desired _ _ _) as [e|d]; [by exists []; rewrite app_nil_r|].
  destruct (Ensure r d (prov w)) as [[e|o] p]; [by eexists|].
  destruct (marshalO c o) as [e|body]; [by eexists|]. cbn. rewrite emit_spec. cbn.
  rewrite <- app_assoc. eexists. split; [reflexivity|]. rewrite emissions_app. apply emit_trace_bound.
Qed.

Lemma observe_run env w :
  ∃ new, trace (makeObserveFn c r env w).2 = trace w ++ new ∧ emissions new = [] ∧ (length new ≤ 1)%nat.
Proof.
  unfold makeObserveFn. destruct (if decide _ then _ else _) as [f|].
  - run_m. destruct (Observe r f (prov w)) as [[e|[items cursor]] p]; exists [CObserve]; cbn;
      split_and!; try done; lia.
  - exists []. rewrite app_nil_r. cbn. split_and!; [done..|lia].
Qed.

Lemma observe_disciplined : disciplined (makeObserveFn c r).
Proof.
  intros env w. destruct (observe_run env w) as (new & Ht & He & _). exists new. split; [done|].
  rewrite He. case_match; [done|cbn; lia].
Qed.

Lemma destroy_disciplined ec : disciplined (makeDestroyFn c r ec).
Proof.
  intros env w. rewrite destroy_run. destruct (destroy_ref _ _) as [e|ref]; [by exists []; rewrite app_nil_r|].
  destruct (destroy_call_trace c r (Input env) ref w) as (new & Ht & He).
  destruct (destroy_call c r (Input env) ref w) as [[e|] w1]; cbn in *; [by exists new|].
  rewrite emit_spec, Ht, <- app_assoc. eexists. split; [reflexivity|].
  rewrite emissions_app, He. apply emit_trace_bound.
Qed.

Lemma ensure_same_response ec ec' :
  resource ec = resource ec' → same_response (makeEnsureFn c r ec) (makeEnsureFn c r ec').
Proof.
  intros Hr env w. rewrite !ensure_run. destruct (parse_desired _ _ _); [done|].
  destruct (Ensure r _ _) as [[]]; [done|]. by destruct (marshalO c _).
Qed.

Lemma destroy_same_response ec ec' :
  resource ec = resource ec' → same_response (makeDestroyFn c r ec) (makeDestroyFn c r ec').
Proof.
  intros Hr env w. rewrite !destroy_run, Hr. destruct (destroy_ref _ _) as [e|ref]; [done|].
  by destruct (destroy_call c r (Input env) ref w) as [[] ?].
Qed.
End entries.

Lemma shim_disciplined legacy canonical fn logger :
  disciplined fn → disciplined (warnShim legacy canonical fn logger).
Proof.
  intros Hfn env w. unfold warnShim. run_m.
  destruct (Hfn env (World (prov w) (clock w) (trace w ++ [CWarn (from_option Custom StdLog logger)
    ("reconcile: deprecated capability name " +:+ Quote legacy +:+ " invoked; use " +:+
     Quote canonical +:+ " (compat shim, removed in v0.7.0)")]))) as (new & Ht & Hm).
  rewrite Ht. cbn. rewrite <- app_assoc. eexists. split; [reflexivity|]. exact Hm.
Qed.

Lemma declared_disciplined x names op fn : declared x names op = Some fn → disciplined fn.
Proof.
  revert op fn. induction names as [|n names IH]; intros op fn; cbn.
  - unfold canonical_entry. repeat case_decide; intros [= <-];
      auto using ensure_disciplined, observe_disciplined, destroy_disciplined.
  - case_decide; [|by apply IH]. intros (fn' & Hd & ->)%fmap_Some. eapply shim_disciplined, IH, Hd.
Qed.

Lemma route_disciplined log a op fn : route log a op = Some fn → disciplined fn.
Proof.
  induction log as [|x log IH]; cbn; [done|]. case_decide; [|done].
  destruct (declared x _ op) eqn:Hd; [|done]. intros [= <-]. by eapply declared_disciplined.
Qed.

(** The same registration on another event bus. *)
Definition rewire (bus : registration P → option (Emitter P)) (x : registration P) : registration P :=
  {| reg_D := reg_D x; reg_O := reg_O x; reg_codec := reg_codec x; reg_adapter := reg_adapter x;
     reg_resource := reg_resource x; reg_resourceType := reg_resourceType x;
     reg_reconciler := reg_reconciler x; reg_opts := reg_opts x ++ [WithEmitter (bus x)] |}.

Lemma rewire_cfg bus x : cfg_of (rewire bus x) = WithEmitter (bus x) (cfg_of x).
Proof. unfold cfg_of. cbn [reg_opts rewire]. by rewrite foldl_app. Qed.

(** Both absent, or both present and answering alike. *)
Abbreviation same_option := (option_Forall2 same_response).

Lemma declared_rewire bus x names op :
  same_option (declared x names op) (declared (rewire bus x) names op).
Proof.
  revert op. induction names as [|n names IH]; intros op; cbn [declared].
  - unfold canonical_entry. cbn [reg_D reg_O reg_codec reg_reconciler rewire].
    repeat case_decide; try done; constructor;
      [apply ensure_same_response|done|apply destroy_same_response]; done.
  - rewrite rewire_cfg. case_decide; [|apply IH].
    change (ensure_name (rewire bus x)) with (ensure_name x).
    change (observe_name (rewire bus x)) with (observe_name x).
    change (destroy_name (rewire bus x)) with (destroy_name x).
    generalize (pickCanonicalForLegacy op (ensure_name x) (observe_name x) (destroy_name x)).
    intros canonical. pose proof (IH canonical) as Hi. revert Hi.
    generalize (declared x names canonical), (declared (rewire bus x) names canonical).
    intros ? ? [fn fn' Hs|]; constructor. intros env w. unfold warnShim. run_m. apply Hs.
Qed.

Lemma route_rewire bus log a op : same_option (route log a op) (route (rewire bus <$> log) a op).
Proof.
  induction log as [|x log IH]; [constructor|]. cbn [route fmap list_fmap].
  change (reg_adapter (rewire bus x)) with (reg_adapter x). case_decide; [|done].
  rewrite rewire_cfg. change (legacyNames (WithEmitter _ ?c)) with (legacyNames c).
  by destruct (declared_rewire bus x (reverse (legacyNames (cfg_of x))) op); [constructor|].
Qed.

Lemma dispatch_bound g a body w :
  is_Some (dispatchTables g !! a) →
  Dispatch g a body w =
  match (if decide (body = EmptyString) then Some zero_request else unmarshal_request body) with
  | None => (inl (Wrapf "reconcile: parse execute request: " json_error EmptyString), w)
  | Some req =>
      if decide (requested_op req = EmptyString)
      then (inl (Errorf "reconcile: execute request missing operation"), w)
      else match bound g a (requested_op req) with
           | None => (inl (Errorf ("reconcile: unsupported operation " +:+ Quote (requested_op req))), w)
           | Some fn =>
               let '(res, w') := fn req w in
               (match res with inl e => inl e | inr out => inr (out, "application/json") end, w')
           end
  end.
Proof.
  intros [t Ht]. unfold Dispatch, bound. rewrite Ht. cbn [mbind option_bind]. unfold buildExecuteHandler.
  destruct (if decide (body = _) then _ else _) as [req|]; [|done]. cbv zeta.
  destruct (decide (requested_op req = _)); [done|]. destruct (t !! _) as [fn|]; [|done].
  run_m. by destruct (fn req w) as [[e|out] w'].
Qed.

(** C25: in the registry built by any registrations, every dispatch, of any
    bytes, posts events only when it succeeds, at most one, and answers with
    JSON. *)
Theorem dispatch_emission_discipline l w0 g w1 :
  register_all l zero_registry w0 = (Some g, w1) →
  ∀ a body w, ∃ new, trace (Dispatch g a body w).2 = trace w ++ new ∧
    match (Dispatch g a body w).1 with
    | inl _ => emissions new = []
    | inr (_, contentType) =>
        contentType = "application/json" ∧ (length (emissions new) ≤ 1)%nat
    end.
Proof.
  intros Hreg a body w.
  assert (∀ e, ∃ new, trace (@inl error (string * string) e, w).2 = trace w ++ new ∧ emissions new = [])
    as Hskip by (intros e; exists []; by rewrite app_nil_r).
  destruct (dispatchTables g !! a) as [t|] eqn:Et; cycle 1.
  { unfold Dispatch. rewrite Et. eapply Hskip. }
  rewrite dispatch_bound by (by rewrite Et).
  destruct (if decide _ then _ else _) as [req|]; [|eapply Hskip].
  case_decide; [eapply Hskip|]. destruct (bound g a _) as [fn|] eqn:Eb; [|eapply Hskip].
  rewrite (register_all_bound _ _ _ _ _ Hreg), bound_zero in Eb.
  destruct (route _ _ _) as [fn'|] eqn:Er; simplify_eq.
  destruct (route_disciplined _ _ _ _ Er req w) as (new & Ht & Hm).
  destruct (fn req w) as [[e|out] w']; by exists new.
Qed.

(** C26: the responses of an adapter do not depend on its event bus: after the
    same registrations with other emitters (failing, or none at all), every
    dispatch of any bytes from any state returns the same body or error. *)
Theorem responses_ignore_event_bus l bus w0 g w1 w0' g' w1' :
  register_all l zero_registry w0 = (Some g, w1) →
  register_all (rewire bus <$> l) zero_registry w0' = (Some g', w1') →
  ∀ a body w, (Dispatch g a body w).1 = (Dispatch g' a body w).1.
Proof.
  intros Hreg Hreg' a body w.
  destruct (register_all_once [] l 0 _ _ _ _ once_inv_zero Hreg) as (? & _ & (_ & _ & _ & Ht & Hl) & _).
  destruct (register_all_once [] _ 0 _ _ _ _ once_inv_zero Hreg') as (? & _ & (_ & _ & _ & Ht' & Hl') & _).
  assert (is_Some (dispatchTables g !! a) ↔ is_Some (dispatchTables g' !! a)) as Hiff.
  { rewrite <- Ht, <- Ht', Hl, Hl'. cbn. by rewrite <- list_fmap_compose. }
  destruct (dispatchTables g !! a) as [t|] eqn:Et; cycle 1.
  { unfold Dispatch. rewrite Et. destruct (dispatchTables g' !! a); [|done].
    destruct (proj2 Hiff) as [? ?]; [done|]. simplify_eq. }
  rewrite !dispatch_bound by (rewrite ?Et; naive_solver).
  destruct (if decide _ then _ else _) as [req|]; [|done]. case_decide; [done|].
  rewrite (register_all_bound _ _ _ _ _ Hreg), (register_all_bound _ _ _ _ _ Hreg'), !bound_zero.
  rewrite <- fmap_reverse. destruct (route_rewire bus (reverse l) a (requested_op req)) as [fn fn' Hs|]; [|done].
  specialize (Hs req w). destruct (fn req w) as [res u], (fn' req w) as [res' u']. by simplify_eq/=.
Qed.

(** ** Identifiers on the wire *)

(** [{"k":"v"}] with the text [tv] of the value. *)
Definition str_object (k : string) (tv : list ascii) : string :=
  of_l ("{"%char :: str_member (to_l k) tv ++ ["}"%char]).

(** [{"k":n}]. *)
Definition num_object (k : string) (n : Z) : string :=
  of_l ("{"%char :: member_text (to_l k) (dec_nat n) ++ ["}"%char]).

Lemma str_object_ne k tv : str_object k tv ≠ EmptyString.
Proof. done. Qed.

(** Both readings of a destroy input with one string member. *)
Lemma unmarshal_str_object k tv bv :
  Forall plain (to_l k) → units tv bv →
  unmarshal_ref (str_object k tv) =
    Some (if names_field "ref" k then of_l bv else EmptyString) ∧
  unmarshal_map (str_object k tv) = Some [(k, AnyString (of_l bv))].
Proof.
  intros Hk Hv. unfold unmarshal_ref, unmarshal_map, str_object.
  rewrite (json_parse_str_obj _ _ _ _ (units_plain _ Hk) Hv), of_to_l. cbn [mbind option_bind].
  split; [|done]. unfold string_field, field_members. cbn [filter list_filter fst].
  by destruct (names_field "ref" k).
Qed.

Lemma map_get_single {A} k k' (v : A) :
  map_get k [(k', v)] = if decide (k' = k) then Some v else None.
Proof. unfold map_get. cbn. by case_decide. Qed.

Lemma get_str_single k k' s :
  s ≠ EmptyString → get_str [(k', AnyString s)] k = if decide (k' = k) then Some s else None.
Proof. intros Hs. unfold get_str. rewrite map_get_single. case_decide; [|done]. by rewrite decide_False. Qed.

(** The reference of a destroy request whose input is an object with one
    string member is that string, for each of the documented single-member
    shapes: [ref], [<resource>_id], [id] and [<resource>], with any escapes in
    the text of the value. *)
Theorem destroy_ref_single_member resource k tv bv :
  resource ≠ EmptyString → Forall plain (to_l resource) →
  k ∈ ["ref"; resource +:+ "_id"; "id"; resource] →
  units tv bv → bv ≠ [] →
  destroy_ref (str_object k tv) resource = inr (of_l bv).
Proof.
  intros Hne Hp Hk Hv Hbv.
  assert (of_l bv ≠ EmptyString) as Hb by (by destruct bv).
  assert (Forall plain (to_l k)) as Hpk.
  { rewrite !elem_of_cons, elem_of_nil in Hk.
    destruct Hk as [-> |[-> |[-> |[-> |[]]]]]; rewrite ?to_l_app; try done;
      try (apply Forall_app; split; [done|]);
      apply (bool_decide_unpack (Forall plain _)); vm_compute; exact I. }
  destruct (unmarshal_str_object k tv bv Hpk Hv) as [Hr Hm].
  unfold destroy_ref. rewrite decide_False, Hr by apply str_object_ne.
  destruct (names_field "ref" k); [by rewrite decide_False by tauto|].
  rewrite decide_True by (split; [done|apply str_object_ne]). f_equal.
  unfold inferRefFromInput, get_owner_repo. rewrite Hm.
  rewrite !(decide_False (P := resource = _)) by done. rewrite !get_str_single by done.
  rewrite !elem_of_cons, elem_of_nil in Hk. repeat case_decide; try done; intuition congruence.
Qed.

Lemma skip_ws_dec n r : 0 < n → skip_ws (dec_nat n ++ r) = dec_nat n ++ r.
Proof.
  intros Hn. destruct (dec_nat_head n Hn) as (a & l & -> & Ha). cbn.
  by replace (json_ws a) with false by (unfold json_ws; lia).
Qed.

Lemma json_parse_num_object k n :
  Forall plain (to_l k) → 0 < n →
  json_parse (num_object k n) = Some (JObj [(k, (of_l (dec_nat n), JNum (dec n)))]).
Proof.
  intros Hk Hn. unfold num_object. eapply json_parse_obj; [reflexivity|done|].
  replace (length _) with (S (pred (length (member_text (to_l k) (dec_nat n) ++ ["}"%char]))))
    by (unfold member_text; cbn; lia).
  rewrite (parse_members_step _ _ _ _ _ (JNum (dec n)) "}" [] (units_lit _ _ (units_plain _ Hk)));
    [by rewrite of_to_l|intros r; by apply skip_ws_dec| |by right].
  apply parse_value_dec; [done|by right].
Qed.

Lemma unmarshal_num_object k n :
  Forall plain (to_l k) → 0 < n ≤ 2 ^ 53 →
  ∃ x, unmarshal_map (num_object k n) = Some [(k, AnyFloat64 x)] ∧
       coerceToNonEmptyString (AnyFloat64 x) = dec n.
Proof.
  intros Hk Hn. destruct (int_float_int n Hn) as (x & Hx & Hz & Hi & He). exists x. split.
  - unfold unmarshal_map. rewrite json_parse_num_object by (done || lia).
    cbn [mbind option_bind any_of_json]. by rewrite ParseFloat_dec, Hx by lia.
  - cbn [coerceToNonEmptyString]. by rewrite Hz, Hi, Hx, He.
Qed.

(** Numeric identifiers. When the observed state of an [ensure] is
    [{"id":n}] and [n] is at most 2^53, the event's resource id is the decimal
    text of [n], with no loss and no exponent. A [destroy] whose input is the
    same object derives no reference at all: the fallback of the destroy path
    reads strings only. *)
Theorem numeric_ids_ensure_and_destroy resource observed n :
  reflectID observed = EmptyString → 0 < n ≤ 2 ^ 53 →
  resource ≠ EmptyString → Forall plain (to_l resource) →
  inferResourceID observed (num_object "id" n) resource = dec n ∧
  destroy_ref (num_object "id" n) resource = inr EmptyString.
Proof.
  intros Hr Hn Hne Hp.
  assert (Forall plain (to_l "id")) as Hid by (apply (bool_decide_unpack _); vm_compute; exact I).
  destruct (unmarshal_num_object "id" n Hid Hn) as (x & Hm & Hc). split.
  - unfold inferResourceID. rewrite Hr, decide_False, Hm by auto.
    cbn [first_coerced]. unfold get_coerced. rewrite map_get_single, decide_True by done. cbv zeta.
    rewrite Hc, decide_False by apply dec_nonempty. done.
  - unfold destroy_ref, unmarshal_ref. rewrite decide_False by done.
    rewrite json_parse_num_object by (done || lia). cbn [mbind option_bind].
    change (string_field "ref" [("id", (of_l (dec_nat n), JNum (dec n)))]) with (Some EmptyString).
    cbv iota. rewrite decide_True by done. f_equal. unfold inferRefFromInput. rewrite Hm.
    assert (∀ k, get_str [("id", AnyFloat64 x)] k = None) as Hnone.
    { intros k. unfold get_str. rewrite map_get_single. by case_decide. }
    unfold get_owner_repo. rewrite !Hnone. by repeat case_decide.
Qed.

Lemma destroyed_observed_text ref :
  destroyed_observed ref =
  of_l ("{"%char :: member_text (to_l "ref") (to_l (Quote ref)) ++ ","%char ::
        member_text (to_l "deleted") (to_l "true") ++ ["}"%char]).
Proof.
  apply to_l_inj. unfold destroyed_observed. rewrite !to_l_app, !to_of_l. cbn.
  reflexivity.
Qed.

Lemma parse_true d a rest : parse_value d (to_l "true" ++ a :: rest) = Some (JBool true, a :: rest).
Proof. by destruct d. Qed.

Lemma observed_fuel ref :
  length (member_text (to_l "ref") (to_l (Quote ref)) ++ ","%char ::
    member_text (to_l "deleted") (to_l "true") ++ ["}"%char]) =
  S (S (20 + length (to_l (Quote ref)))).
Proof. unfold member_text. cbn [length app]. rewrite !length_app. cbn. lia. Qed.

(** The observed state posted with a destroy event is the JSON object
    [{"ref":<ref>,"deleted":true}] for every reference of printable ASCII,
    quotes and backslashes included. *)
Theorem destroy_observed_json ref :
  Forall printable (to_l ref) →
  ∃ raw, json_parse (destroyed_observed ref) =
    Some (JObj [("ref", (raw, JStr ref)); ("deleted", ("true", JBool true))]).
Proof.
  intros Hp. rewrite destroyed_observed_text.
  assert (units (to_l "ref") (to_l "ref") ∧ units (to_l "deleted") (to_l "deleted")) as [Hr Hd]
    by (split; by apply units_literal).
  destruct (quote_units (to_l ref) [] Hp) as (t & Ht & Hq). rewrite !app_nil_r in Hq.
  assert (to_l (Quote ref) = dquote :: t ++ [dquote]) as HQ.
  { unfold Quote. by rewrite to_of_l, <- length_to_l, Hq. }
  eexists. eapply json_parse_obj; [reflexivity|done|]. rewrite observed_fuel, HQ.
  erewrite parse_members_step; [|exact (units_lit _ _ Hr)|done| |by left]; cycle 1.
  { cbn [app]. rewrite <- app_assoc. by apply parse_value_str, units_lit. }
  change (code "," =? 44) with true. cbv iota zeta.
  erewrite parse_members_step; [|exact (units_lit _ _ Hd)|done|apply parse_true|by right].
  cbn. by rewrite of_to_l.
Qed.

(** A reference with a byte that [%q] escapes in Go's own way (DEL, or a
    control character other than backspace, tab, newline, form feed and carriage
    return) makes the observed state of the destroy event invalid JSON, so that
    the HTTP emitter fails before it sends any request: the resource is
    destroyed and its event is lost. *)
Theorem destroy_event_lost ref pre a post {W} (he : http_env W) h ec env now u :
  to_l ref = pre ++ a :: post → Forall printable pre → unjson a →
  let ev := mk_event ec env VerbDestroyed ref (destroyed_observed ref) now in
  json_parse (destroyed_observed ref) = None ∧
  httpEmit he h ev u =
    (Some (Wrapf "events: marshal mutation event: "
       (Errorf "json: error calling MarshalJSON") EmptyString), (Events.now he u).2).
Proof.
  intros Href Hp Ha ev.
  assert (json_parse (destroyed_observed ref) = None) as Hnone.
  { rewrite destroyed_observed_text.
    assert (units (to_l "ref") (to_l "ref")) as Hr by (by apply units_literal).
    destruct (quote_units pre (a :: post) Hp) as (t & Ht & Hq).
    destruct (escape_unjson a Ha) as (e & l & He & Hse & H117).
    eapply json_parse_obj_None; [reflexivity|done|].
    assert (to_l (Quote ref) = dquote :: t ++ backslash :: e :: (l ++ quote_loop (length post) post) ++ [dquote])
      as ->.
    { unfold Quote. rewrite to_of_l, <- length_to_l, Href, Hq. cbn [length].
      rewrite quote_loop_ascii, He by apply Ha. by rewrite <- !app_assoc. }
    generalize (length (member_text (to_l "ref") (dquote :: t ++ backslash :: e ::
      (l ++ quote_loop (length post) post) ++ [dquote]) ++ ","%char ::
      member_text (to_l "deleted") (to_l "true") ++ ["}"%char])) as fuel. intros fuel.
    unfold member_text at 1. cbn [app]. rewrite <- app_assoc. cbn [app].
    apply (parse_members_bad_str _ _ _ _ _ Hr). intros n. rewrite <- app_assoc. cbn [app].
    apply (str_body_bad_escape _ _ _ _ _ Ht Hse H117). }
  assert (∀ at_, marshal_event ev at_ = None) as Hm.
  { intros at_. unfold marshal_event, marshal_raw. cbn [Observed mk_event ev].
    rewrite decide_False by done. by rewrite Hnone. }
  split; [done|]. unfold httpEmit.
  replace (EmittedAt ev) with (@None Time) by done. unfold mbind, M_bind.
  destruct (Events.now he u) as [t0 u']. cbn. by rewrite Hm.
Qed.
End spec.

(** ** A concrete adapter *)

(** A text with its apostrophes read as double quotes. *)
Definition q (s : string) : string :=
  of_l ((λ a, if decide (a = "'"%char) then dquote else a) <$> to_l s).

(** A provider that holds the documents it was given. *)
Definition demo_codec : codec string string := {|
  zeroD := EmptyString; unmarshalD := inr; marshalO := inr; reflectO := λ _, ROther |}.
Definition demo_reconciler : Reconciler (list string) string string := {|
  Ensure := λ d p, (inr d, p ++ [d]);
  Observe := λ _ p, (inr (Some p, EmptyString), p);
  Destroy := λ ref p, (if decide (p = []) then Some (Errorf "gone") else None, []);
  DestroyWithDesired := None |}.
(** A bus that is down. *)
Definition dead_bus : Emitter (list string) := {| Emit := λ _ p, (Some (Errorf "bus down"), p) |}.
Definition demo_registration (em : option (Emitter (list string))) : registration (list string) := {|
  reg_codec := demo_codec; reg_adapter := 7; reg_resource := " User "; reg_resourceType := "users";
  reg_reconciler := demo_reconciler;
  reg_opts := [WithEmitter em; WithProvider "github"; WithLegacyNames ["create_user"]] |}.
Definition demo_ec : emitContext (list string) :=
  {| emitter := Some dead_bus; provider := "github"; resource := "user";
     instanceID := "acme"; warn := Stdout |}.
Definition demo_world : world (list string) := World [] 1700000000 [].
Definition demo_request (input : string) : executeRequest :=
  {| Operation := "ensure_user"; Capability := EmptyString; Idempotency_ := "k1";
     InstanceID := EmptyString; Input := input |}.

Example demo_dispatch :
  let '(og, w) := register_all (H:=ascii_tables) [demo_registration (Some dead_bus)] zero_registry demo_world in
  match og with
  | None => False
  | Some g =>
      (Dispatch (H:=ascii_tables) g 7 (q "{'operation':'create_user','input':{'id':'u1'}}") w).1 =
        inr (q "{'id':'u1'}", "application/json") ∧
      (Dispatch (H:=ascii_tables) g 7 (q "{'operation':'destroy_team'}") w).1 =
        inl (Errorf (q "reconcile: unsupported operation 'destroy_team'")) ∧
      (Dispatch (H:=ascii_tables) g 8 EmptyString w).1 =
        inl (Errorf "reconcile: adapter has no registered Reconciler (call reconcile.RegisterReconciler before reconcile.Dispatch)")
  end.
Proof. vm_compute. done. Qed.

(** Without [WithProvider] the provider of the events is empty. *)
Lemma provider_not_defaulted {P} (x : registration P) :
  reg_opts x = [] → provider (ec_of (H:=ascii_tables) x) = EmptyString.
Proof. unfold ec_of, cfg_of. by intros ->. Qed.

Lemma ensure_golden_rule_witness :
  let env := demo_request (q "{'id':'u1'}") in
  let run := makeEnsureFn (H:=ascii_tables) demo_codec demo_reconciler demo_ec env demo_world in
  run.1 = inr (q "{'id':'u1'}") ∧
  match run with
  | (inl _, w') => ∃ new, trace w' = trace demo_world ++ new ∧ emissions new = []
  | (inr body, w') =>
      ∃ d o ev new,
        parse_desired demo_codec "reconcile.Ensure: parse desired: " (Input env) = inr d ∧
        (Ensure demo_reconciler d []).1 = inr o ∧
        trace w' = trace demo_world ++ CEnsure :: new ∧ emissions new = [ev] ∧
        event_for demo_ec env VerbEnsured (inferResourceID (reflectO demo_codec o) body "user") body ev
  end.
Proof.
  split; [vm_compute; reflexivity|].
  exact (proj2 (ensure_golden_rule (H:=ascii_tables) demo_codec demo_reconciler demo_ec
    (demo_request (q "{'id':'u1'}")) demo_world dead_bus eq_refl)).
Defined.

Lemma destroy_golden_rule_witness :
  let env := demo_request (q "{'user_id':'u1'}") in
  let w := World ["doc"] 5 [] in
  ∃ w' ev warnings, makeDestroyFn (H:=ascii_tables) demo_codec demo_reconciler demo_ec env w = (inr deleted_body, w') ∧
    trace w' = CDestroy "u1" :: CEmit ev :: warnings ∧
    event_for demo_ec env VerbDestroyed "u1" (destroyed_observed (H:=ascii_tables) "u1") ev.
Proof.
  intros env w.
  destruct (proj1 (proj2 (destroy_golden_rule (H:=ascii_tables) demo_codec demo_reconciler demo_ec env w dead_bus eq_refl))
    "u1" (CDestroy "u1") None (Destroy demo_reconciler "u1" ["doc"]).2) as (w' & ev & warnings & H1 & H2 & _ & H3);
    [vm_compute; reflexivity|apply destroy_plain; vm_compute; reflexivity|].
  exists w', ev, warnings. split; [exact H1|]. split; [exact H2|exact H3].
Defined.

(** The registry of the concrete adapter. *)
Definition demo_registry (em : option (Emitter (list string))) : registry (list string) :=
  default zero_registry
    (register_all (H:=ascii_tables) [demo_registration em; demo_registration em] zero_registry demo_world).1.
Definition demo_world' (em : option (Emitter (list string))) : world (list string) :=
  (register_all (H:=ascii_tables) [demo_registration em; demo_registration em] zero_registry demo_world).2.

Lemma registration_effects_once_witness :
  ∃ (lines : list call), trace (demo_world' None) = lines ∧ length lines = 1%nat.
Proof.
  destruct (registration_effects_once (H:=ascii_tables) [demo_registration None; demo_registration None]
    demo_world (demo_registry None) (demo_world' None)) as (lines & unwired & Ht & _ & Hu & Hl & _).
  - reflexivity.
  - exists lines. split; [exact Ht|]. rewrite Hl.
    assert (unwired = {[7%nat]}) as ->; [|apply size_singleton].
    apply leibniz_equiv. intros a. rewrite Hu, elem_of_singleton. split.
    + intros (x & Hx & <- & _). rewrite !elem_of_cons, elem_of_nil in Hx. by destruct Hx as [-> |[-> |[]]].
    + intros ->. exists (demo_registration None). split; [left|]. by split.
Defined.

Lemma dispatch_emission_discipline_witness :
  ∃ new, trace (Dispatch (H:=ascii_tables) (demo_registry (Some dead_bus)) 7
      (q "{'operation':'ensure_user'}") demo_world).2 = trace demo_world ++ new ∧
    (length (emissions new) ≤ 1)%nat.
Proof.
  destruct (dispatch_emission_discipline (H:=ascii_tables)
    [demo_registration (Some dead_bus); demo_registration (Some dead_bus)] demo_world
    (demo_registry (Some dead_bus)) (demo_world' (Some dead_bus)) eq_refl 7
    (q "{'operation':'ensure_user'}") demo_world) as (new & Ht & Hm).
  exists new. split; [exact Ht|].
  destruct (Dispatch _ _ _ _) as [[e|[out ct]] w'] eqn:E; cbn [fst] in Hm.
  - rewrite Hm. apply Nat.le_0_l.
  - exact (proj2 Hm).
Defined.

Lemma responses_ignore_event_bus_witness :
  (Dispatch (H:=ascii_tables) (demo_registry (Some dead_bus)) 7
     (q "{'operation':'ensure_user','input':{'id':'u1'}}") demo_world).1 =
  (Dispatch (H:=ascii_tables)
     (default zero_registry (register_all (H:=ascii_tables)
        (rewire (λ _, None) <$> [demo_registration (Some dead_bus); demo_registration (Some dead_bus)])
        zero_registry demo_world).1) 7
     (q "{'operation':'ensure_user','input':{'id':'u1'}}") demo_world).1.
Proof.
  apply (responses_ignore_event_bus (H:=ascii_tables)
    [demo_registration (Some dead_bus); demo_registration (Some dead_bus)] (λ _, None) demo_world
    (demo_registry (Some dead_bus)) (demo_world' (Some dead_bus)) demo_world _
    (register_all (H:=ascii_tables)
        (rewire (λ _, None) <$> [demo_registration (Some dead_bus); demo_registration (Some dead_bus)])
        zero_registry demo_world).2); reflexivity.
Defined.

Lemma destroy_ref_single_member_witness :
  destroy_ref (str_object "channel_id" (to_l "C123")) "channel" = inr "C123".
Proof.
  apply (destroy_ref_single_member "channel" "channel_id" (to_l "C123") (to_l "C123")).
  - done.
  - apply (bool_decide_unpack _). vm_compute. exact I.
  - apply (bool_decide_unpack _). vm_compute. exact I.
  - apply units_literal. reflexivity.
  - done.
Defined.

Lemma numeric_ids_ensure_and_destroy_witness :
  inferResourceID ROther (num_object "id" 1296269) "repository" = "1296269" ∧
  destroy_ref (num_object "id" 1296269) "repository" = inr EmptyString.
Proof.
  apply (numeric_ids_ensure_and_destroy "repository" ROther 1296269).
  - reflexivity.
  - lia.
  - done.
  - apply (bool_decide_unpack _). vm_compute. exact I.
Defined.

Lemma destroy_observed_json_witness :
  ∃ raw, json_parse (destroyed_observed (H:=ascii_tables) "owner/repo") =
    Some (JObj [("ref", (raw, JStr "owner/repo")); ("deleted", ("true", JBool true))]).
Proof.
  apply (destroy_observed_json (H:=ascii_tables) "owner/repo").
  repeat (constructor; [vm_compute; split; [intros E; discriminate E|reflexivity]|]). constructor.
Defined.

Lemma destroy_event_lost_witness :
  json_parse (destroyed_observed (H:=ascii_tables) (of_l (to_l "a" ++ chr 127 :: to_l "b"))) = None.
Proof.
  refine (proj1 (destroy_event_lost (H:=ascii_tables) (of_l (to_l "a" ++ chr 127 :: to_l "b")) (to_l "a") (chr 127) (to_l "b")
    (traced_env 0 (λ _, DoResp 202 EmptyString) (λ _, None) (λ _, None)) demo_emitter demo_ec
    (demo_request EmptyString) 5 [] _ _ _)).
  - reflexivity.
  - repeat (constructor; [vm_compute; split; [intros E; discriminate E|reflexivity]|]). constructor.
  - split_and!; [reflexivity|by right|]. apply (bool_decide_unpack _). vm_compute. exact I.
Defined.
