(* ===== verification/ReconcileIds.v ===== *)
(** * Resource identifiers of ensure and destroy events

    [inferResourceID] finds the identifier of an ensure event in the observed
    state, [inferRefFromInput] that of a destroy event in the input. They look at
    the same members in different orders. *)
From Stdlib Require Import Ascii ZArith.
From stdpp Require Import prelude gmap strings list.
From S2P Require Import Prelude GoStrings GoText GoFloat GoCrypto Json JsonText Events Reconcile ReconcileSpec.

Local Open Scope Z_scope.

(** The members of a decoded object have the names of the document. *)
Lemma any_map_keys ms m : any_of_json (JObj ms) = Some (AnyMap m) → m.*1 = ms.*1.
Proof.
  cbn [any_of_json]. intros H. apply fmap_Some in H as (m' & H & E). apply (f_equal (λ v, match v with AnyMap x => x | _ => [] end)) in E.
  cbn in E. subst m'. revert m H. induction ms as [|[k [raw v]] ms IH]; intros m H; [by simplify_eq|].
  apply bind_Some in H as (a & _ & H). apply bind_Some in H as (m' & Hm' & H).
  simplify_eq. cbn. f_equal. by apply IH.
Qed.

Lemma map_get_None {A} k (m : list (string * A)) : k ∉ m.*1 → map_get k m = None.
Proof.
  intros Hk. unfold map_get. enough (filter (λ e, e.1 = k) m = []) as -> by done.
  induction m as [|[k' a] m IH]; [done|]. cbn in Hk. apply not_elem_of_cons in Hk as [Hne Hk].
  rewrite filter_cons_False by (cbn; congruence). by apply IH.
Qed.

Section ids.
Context (raw resource : string) (ms : list (string * (string * json))) (m : list (string * any)).
Context (Hraw : json_parse raw = Some (JObj ms)) (Hm : any_of_json (JObj ms) = Some (AnyMap m)).
(** No member addresses the field [ref]. *)
Context (Href : field_members "ref" ms = []).

Lemma ids_unmarshal : unmarshal_map raw = Some m.
Proof. unfold unmarshal_map. rewrite Hraw. cbn [mbind option_bind]. by rewrite Hm. Qed.

Lemma ids_no_ref : get_str m "ref" = None.
Proof.
  unfold get_str. rewrite map_get_None; [done|]. rewrite (any_map_keys _ _ Hm). intros Hin.
  apply list_elem_of_fmap in Hin as ([k v] & Hk & Hin). cbn in Hk. subst k.
  assert (v ∈ field_members "ref" ms) as Hv; [|rewrite Href in Hv; by apply elem_of_nil in Hv].
  unfold field_members. apply list_elem_of_fmap. exists ("ref", v). split; [done|].
  by apply list_elem_of_filter.
Qed.

Lemma ids_destroy_ref : destroy_ref raw resource = inr (inferRefFromInput raw resource).
Proof.
  assert (raw ≠ EmptyString) as Hne by (intros ->; done).
  unfold destroy_ref. rewrite decide_False by done. unfold unmarshal_ref. rewrite Hraw. cbn [mbind option_bind].
  unfold string_field. rewrite Href. cbn. by rewrite decide_True.
Qed.

(** Where a member is a string or absent, coercion changes nothing. *)
Lemma coerced_string k : (∀ v, map_get k m = Some v → ∃ s, v = AnyString s) → get_coerced m k = get_str m k.
Proof.
  intros Hk. unfold get_coerced, get_str. destruct (map_get k m) as [v|]; [|done].
  destruct (Hk v eq_refl) as [s ->]. done.
Qed.
End ids.

(** C19: when the events of a resource agree on its identifier. Take a document
    whose identifiers are strings, without a member [ref], of a state without a
    reflected identifier. If it has none of the members [ID], [Id] and [full_name],
    which only the ensure path reads, the destroy path finds the identifier that
    the ensure path finds exactly if [id] and [<resource>_id] are not both given
    with different values; if they are, the ensure event carries [id] and the
    destroy event [<resource>_id]. If [full_name] is its only identifier, the ensure
    event carries that and the destroy event none. *)
Theorem ensure_destroy_same_id raw resource ms m observed :
  json_parse raw = Some (JObj ms) → any_of_json (JObj ms) = Some (AnyMap m) → field_members "ref" ms = [] →
  reflectID observed = EmptyString → resource ≠ EmptyString →
  (∀ k v, k ∈ ["id"; resource +:+ "_id"; resource] → map_get k m = Some v → ∃ s, v = AnyString s) →
  let id := get_str m "id" in
  let rid := get_str m (resource +:+ "_id") in
  ((∀ k, k ∈ ["ID"; "Id"; "full_name"] → get_coerced m k = None) →
   (destroy_ref raw resource = inr (inferResourceID observed raw resource) ↔ id = None ∨ rid = None ∨ id = rid) ∧
   (∀ x y, id = Some x → rid = Some y →
      inferResourceID observed raw resource = x ∧ destroy_ref raw resource = inr y)) ∧
  (∀ s, get_coerced m "full_name" = Some s → get_coerced m "ID" = None → get_coerced m "Id" = None →
     id = None → rid = None → get_owner_repo m = None → get_str m resource = None →
     inferResourceID observed raw resource = s ∧ destroy_ref raw resource = inr EmptyString).
Proof.
  intros Hraw Hm Href Hrefl Hres Hstr id rid. rewrite (ids_destroy_ref raw resource ms Hraw Href).
  assert (∀ k, k ∈ ["id"; resource +:+ "_id"; resource] → get_coerced m k = get_str m k) as Hco.
  { intros k Hk. apply coerced_string. intros v. by apply Hstr. }
  unfold inferResourceID, inferRefFromInput. rewrite Hrefl, decide_False by (by intros []).
  rewrite (ids_unmarshal _ _ _ Hraw Hm), (ids_no_ref _ _ Hm Href). rewrite !(decide_False (P := resource = EmptyString)) by done.
  cbn [first_coerced]. rewrite (Hco "id"), (Hco (resource +:+ "_id")), (Hco resource) by (rewrite !elem_of_cons; auto).
  fold id rid. split; [intros Hnone|by intros s -> -> -> -> -> -> ->].
  rewrite (Hnone "ID"), (Hnone "Id"), (Hnone "full_name") by (by repeat constructor).
  destruct id as [x|], rid as [y|]; cbn.
  - split; [|by intros ? ? [= <-] [= <-]]. split.
    + intros [= ->]. right. by right.
    + intros [Hx|[Hy|Hxy]]; congruence.
  - split; [|done]. split; [intros _; right; by left|done].
  - split; [|done]. split; [intros _; by left|done].
  - split; [split; [intros _; by left|]|done]. intros _. by destruct (get_owner_repo m), (get_str m resource).
Qed.

(** ** Witness *)

Definition one_id : string := q "{'customer_id':'cus_1','name':'x'}".
Definition two_ids : string := q "{'id':'evt_9','customer_id':'cus_1'}".
Definition full_name_only : string := q "{'full_name':'o/r'}".

Lemma ensure_destroy_same_id_witness :
  destroy_ref one_id "customer" = inr (inferResourceID ROther one_id "customer") ∧
  (inferResourceID ROther two_ids "customer" = "evt_9" ∧ destroy_ref two_ids "customer" = inr "cus_1") ∧
  (inferResourceID ROther full_name_only "repository" = "o/r" ∧ destroy_ref full_name_only "repository" = inr EmptyString).
Proof.
  split; [|split].
  - refine (proj2 (proj1 (proj1 (ensure_destroy_same_id one_id "customer"
      [("customer_id", (q "'cus_1'", JStr "cus_1")); ("name", (q "'x'", JStr "x"))]
      [("customer_id", AnyString "cus_1"); ("name", AnyString "x")] ROther _ _ _ _ _ _) _)) _);
      [vm_compute; reflexivity|reflexivity|vm_compute; reflexivity|reflexivity|discriminate| | |].
    + intros k v Hk. rewrite !elem_of_cons, elem_of_nil in Hk.
      destruct Hk as [->|[->|[->|[]]]]; vm_compute; intros [=]; subst; eauto.
    + intros k Hk. rewrite !elem_of_cons, elem_of_nil in Hk. destruct Hk as [->|[->|[->|[]]]]; reflexivity.
    + left. reflexivity.
  - refine (proj2 (proj1 (ensure_destroy_same_id two_ids "customer"
      [("id", (q "'evt_9'", JStr "evt_9")); ("customer_id", (q "'cus_1'", JStr "cus_1"))]
      [("id", AnyString "evt_9"); ("customer_id", AnyString "cus_1")] ROther _ _ _ _ _ _) _) "evt_9" "cus_1" _ _);
      [vm_compute; reflexivity|reflexivity|vm_compute; reflexivity|reflexivity|discriminate| | |reflexivity|reflexivity].
    + intros k v Hk. rewrite !elem_of_cons, elem_of_nil in Hk.
      destruct Hk as [->|[->|[->|[]]]]; vm_compute; intros [=]; subst; eauto.
    + intros k Hk. rewrite !elem_of_cons, elem_of_nil in Hk. destruct Hk as [->|[->|[->|[]]]]; reflexivity.
  - refine (proj2 (ensure_destroy_same_id full_name_only "repository"
      [("full_name", (q "'o/r'", JStr "o/r"))] [("full_name", AnyString "o/r")] ROther _ _ _ _ _ _) "o/r" _ _ _ _ _ _ _);
      try (vm_compute; reflexivity); [discriminate|].
    intros k v Hk. rewrite !elem_of_cons, elem_of_nil in Hk.
    destruct Hk as [->|[->|[->|[]]]]; vm_compute; intros [=].
Defined.
