(* ===== verification/Amqp.v ===== *)
(** * The AMQP transport (package [rpc/amqp])

    Models src/rpc/amqp/amqp.go. The client library amqp091-go is the record
    [amqp091 B] of the operations that the file calls, on a broker state [B];
    connections, channels, delivery streams and dial functions are numbers. The
    code is written in a state monad with four outcomes: a value, a mutex that
    the running goroutine already holds ([Blocked]: Go's mutexes are not
    reentrant, so it waits for ever), the [select] of a [Request] that has not
    returned ([Parked]), and a nil dereference ([Panicked]).
    Goroutines that the package starts are modelled by the body of their loop
    ([watchdog_iter], [rebind_iter], [handle_delivery]) and the continuation
    that follows each wait. *)
From Stdlib Require Import Ascii ZArith.
From stdpp Require Import prelude gmap strings.
From S2P Require Import Prelude GoStrings GoText Rpc Backoff.

Local Open Scope Z_scope.

(** ** Data *)

(** The dynamic type of a header value: a string, a byte slice, or another
    type, given by what [json.Marshal] returns for it ([None] on error). *)
Inductive table_value :=
| TString (s : string)
| TBytes (b : string)
| TOther (json : option string).

(** [amqp091.Publishing], the fields that are set. *)
Record Publishing := {
  pub_ContentType : string;
  pub_CorrelationId : string;
  pub_ReplyTo : string;
  pub_Headers : gmap string table_value;
  pub_Body : string;
}.

(** [amqp091.Delivery], the fields that are read; its tag names the message. *)
Record raw_delivery := {
  raw_tag : Z;
  raw_Body : string;
  raw_ContentType : string;
  raw_Headers : gmap string table_value;
  raw_CorrelationId : string;
  raw_ReplyTo : string;
}.

(** What the [select] of [Request] sees next. *)
Inductive reply_event :=
| CtxDone (deadline : bool) (err : error)
| StreamClosed
| Incoming (d : raw_delivery).

(** The operations of amqp091-go (and [uuid.NewString]) on the broker state. *)
Record amqp091 (B : Type) := {
  dial : nat → M B (result nat); (** a [DialFunc], known by a number *)
  conn_IsClosed : nat → B → bool;
  conn_Channel : nat → M B (result nat);
  conn_Close : nat → M B (option error);
  ch_IsClosed : nat → B → bool;
  ch_Close : nat → M B (option error);
  ch_QueueDeclare : nat → string → bool → bool → bool → M B (result string);
  ch_Qos : nat → Z → M B (option error);
  ch_Consume : nat → string → bool → bool → M B (result nat);
  ch_Publish : nat → string → Publishing → M B (option error);
  raw_Ack : raw_delivery → M B (option error);
  raw_Nack : raw_delivery → bool → M B (option error);
  (** what a [select] on a stream and on a context (with a timeout when it is
      positive) finds: nothing yet, or an event *)
  next_reply : nat → Z → B → option (reply_event * B);
  uuid_NewString : M B string;
}.
Arguments dial {B} _ _.
Arguments conn_IsClosed {B} _ _ _.
Arguments conn_Channel {B} _ _.
Arguments conn_Close {B} _ _.
Arguments ch_IsClosed {B} _ _ _.
Arguments ch_Close {B} _ _.
Arguments ch_QueueDeclare {B} _ _ _ _ _ _.
Arguments ch_Qos {B} _ _ _.
Arguments ch_Consume {B} _ _ _ _ _.
Arguments ch_Publish {B} _ _ _ _.
Arguments raw_Ack {B} _ _.
Arguments raw_Nack {B} _ _ _.
Arguments next_reply {B} _ _ _ _.
Arguments uuid_NewString {B} _.

(** ** Headers *)

Definition stringHeadersToTable (m : gmap string string) : gmap string table_value := TString <$> m.

Definition header_text (v : table_value) : option string :=
  match v with
  | TString s => Some s
  | TBytes b => Some b
  | TOther json => json
  end.
Definition tableToStringHeaders (t : gmap string table_value) : gmap string string :=
  omap header_text t.

(** ** State *)

Inductive mutex := connMu | pubMu | closeMu | subsMu | dialMu.
#[global] Instance mutex_eq_dec : EqDecision mutex.
Proof. solve_decision. Defined.

(** [subscription]; [s_ch] is guarded by its own mutex. *)
Record subscription := {
  s_endpoint : string;
  s_ch : option nat;
  s_done : bool;
}.

Record Transport := {
  conn : option nat;
  dialFn : option nat;
  pubCh : option nat;
  closed : bool;
  closeErr : option error;
  subs : list nat;
  watchdog : bool; (** [watchdogOnce] has run: the goroutine was started *)
  endpointPrefix : string;
}.

(** The transport, the subscriptions by their address, the broker and the
    mutexes held. *)
Record st (B : Type) := St {
  tr : Transport;
  heap : list subscription;
  broker : B;
  held : list mutex;
}.
Arguments St {B} _ _ _ _.
Arguments tr {B} _.
Arguments heap {B} _.
Arguments broker {B} _.
Arguments held {B} _.

Inductive outcome (A : Type) :=
| Done (a : A)
| Blocked (m : mutex)
| Parked
| Panicked.
Arguments Done {A} a.
Arguments Blocked {A} m.
Arguments Parked {A}.
Arguments Panicked {A}.

(** ** The monad *)

Definition Go (B A : Type) : Type := st B → outcome A * st B.

#[global] Instance Go_ret {B} : MRet (Go B) := λ A a s, (Done a, s).
#[global] Instance Go_bind {B} : MBind (Go B) := λ A C k m s,
  match m s with
  | (Done a, s') => k a s'
  | (Blocked l, s') => (Blocked l, s')
  | (Parked, s') => (Parked, s')
  | (Panicked, s') => (Panicked, s')
  end.

Section monad.
Context {B : Type}.

Definition lock (m : mutex) : Go B unit := λ s,
  if decide (m ∈ held s) then (Blocked m, s)
  else (Done tt, St (tr s) (heap s) (broker s) (m :: held s)).
Definition unlock (m : mutex) : Go B unit := λ s,
  (Done tt, St (tr s) (heap s) (broker s) (filter (λ m', m' ≠ m) (held s))).
Definition get : Go B Transport := λ s, (Done (tr s), s).
Definition modify (f : Transport → Transport) : Go B unit := λ s,
  (Done tt, St (f (tr s)) (heap s) (broker s) (held s)).
(** A call of the library. *)
Definition call {A} (m : M B A) : Go B A := λ s,
  let '(a, b) := m (broker s) in (Done a, St (tr s) (heap s) b (held s)).
Definition query {A} (f : B → A) : Go B A := λ s, (Done (f (broker s)), s).
Definition panic {A} : Go B A := λ s, (Panicked, s).
Definition park {A} : Go B A := λ s, (Parked, s).
End monad.

(** Field updates. *)
Definition set_conn (c : option nat) (t : Transport) : Transport :=
  {| conn := c; dialFn := dialFn t; pubCh := pubCh t; closed := closed t; closeErr := closeErr t;
     subs := subs t; watchdog := watchdog t; endpointPrefix := endpointPrefix t |}.
Definition set_dialFn (d : option nat) (t : Transport) : Transport :=
  {| conn := conn t; dialFn := d; pubCh := pubCh t; closed := closed t; closeErr := closeErr t;
     subs := subs t; watchdog := watchdog t; endpointPrefix := endpointPrefix t |}.
Definition set_pubCh (c : option nat) (t : Transport) : Transport :=
  {| conn := conn t; dialFn := dialFn t; pubCh := c; closed := closed t; closeErr := closeErr t;
     subs := subs t; watchdog := watchdog t; endpointPrefix := endpointPrefix t |}.
Definition set_closed (t : Transport) : Transport :=
  {| conn := conn t; dialFn := dialFn t; pubCh := pubCh t; closed := true; closeErr := closeErr t;
     subs := subs t; watchdog := watchdog t; endpointPrefix := endpointPrefix t |}.
Definition set_closeErr (e : option error) (t : Transport) : Transport :=
  {| conn := conn t; dialFn := dialFn t; pubCh := pubCh t; closed := closed t; closeErr := e;
     subs := subs t; watchdog := watchdog t; endpointPrefix := endpointPrefix t |}.
Definition set_subs (l : list nat) (t : Transport) : Transport :=
  {| conn := conn t; dialFn := dialFn t; pubCh := pubCh t; closed := closed t; closeErr := closeErr t;
     subs := l; watchdog := watchdog t; endpointPrefix := endpointPrefix t |}.
Definition set_watchdog (t : Transport) : Transport :=
  {| conn := conn t; dialFn := dialFn t; pubCh := pubCh t; closed := closed t; closeErr := closeErr t;
     subs := subs t; watchdog := true; endpointPrefix := endpointPrefix t |}.
Definition set_endpointPrefix (p : string) (t : Transport) : Transport :=
  {| conn := conn t; dialFn := dialFn t; pubCh := pubCh t; closed := closed t; closeErr := closeErr t;
     subs := subs t; watchdog := watchdog t; endpointPrefix := p |}.

Definition New (c : option nat) : Transport :=
  {| conn := c; dialFn := None; pubCh := None; closed := false; closeErr := None; subs := [];
     watchdog := false; endpointPrefix := EmptyString |}.

Section transport.
Context `{UnicodeTables} {B : Type} (lib : amqp091 B).

(** ** Connections *)

Definition startWatchdog : Go B unit := modify set_watchdog.

(** A nil [DialFunc] is [None]. *)
Definition NewWithDial (f : option nat) : M B (result Transport) :=
  match f with
  | None => mret (inl (Errorf "amqp: NewWithDial requires a non-nil DialFunc"))
  | Some d =>
      r ← dial lib d;
      match r with
      | inl err => mret (inl (Wrapf "amqp: initial dial: " err EmptyString))
      | inr c => mret (inr (set_watchdog (set_dialFn (Some d) (New (Some c)))))
      end
  end.

Definition SetDialFunc (f : option nat) : Go B unit :=
  match f with
  | None => mret tt
  | Some d =>
      _ ← lock connMu;
      _ ← modify (set_dialFn (Some d));
      _ ← unlock connMu;
      startWatchdog
  end.

(** The method [Connection]. *)
Definition Connection : Go B (option nat) :=
  _ ← lock connMu;
  t ← get;
  _ ← unlock connMu;
  mret (conn t).

Definition SetEndpointPrefix (prefix : string) : Go B unit := modify (set_endpointPrefix prefix).

(** [conn != nil && !conn.IsClosed()]. *)
Definition live (c : option nat) : Go B bool :=
  match c with
  | None => mret false
  | Some c => closed ← query (conn_IsClosed lib c); mret (negb closed)
  end.

(** The swap of the connection under [connMu]. *)
Definition swap_connection (newConn : nat) : Go B unit :=
  _ ← lock connMu;
  t ← get;
  _ ← match conn t with
      | Some old => _ ← call (conn_Close lib old); mret tt
      | None => mret tt
      end;
  _ ← modify (set_conn (Some newConn));
  unlock connMu.

(** The reset of the publish channel under [pubMu] (in [reconnect] and
    [Close]). *)
Definition reset_pubCh : Go B unit :=
  _ ← lock pubMu;
  t ← get;
  _ ← match pubCh t with
      | Some ch => _ ← call (ch_Close lib ch); modify (set_pubCh None)
      | None => mret tt
      end;
  unlock pubMu.

(** [reconnect] between the two operations on [dialMu]. *)
Definition reconnect_locked (d : nat) : Go B (result nat) :=
  _ ← lock connMu;
  t ← get;
  ok ← live (conn t);
  _ ← unlock connMu;
  match conn t, ok with
  | Some c, true => mret (inr c)
  | _, _ =>
      t ← get;
      if closed t then mret (inl ErrClosed)
      else
        r ← call (dial lib d);
        match r with
        | inl err => mret (inl err)
        | inr newConn =>
            _ ← swap_connection newConn;
            _ ← reset_pubCh;
            mret (inr newConn)
        end
  end.

Definition reconnect (d : nat) : Go B (result nat) :=
  _ ← lock dialMu;
  r ← reconnect_locked d;
  _ ← unlock dialMu;
  mret r.

(** The connection may be nil without an error in the legacy mode. *)
Definition connectionForUse : Go B (result (option nat)) :=
  _ ← lock connMu;
  t ← get;
  _ ← unlock connMu;
  ok ← live (conn t);
  if (ok : bool) then mret (inr (conn t))
  else
    t' ← get;
    if closed t' then mret (inl ErrClosed)
    else match dialFn t with
         | None => mret (inr (conn t))
         | Some d =>
             r ← reconnect d;
             match r with inl e => mret (inl e) | inr c => mret (inr (Some c)) end
         end.

(** [conn.Channel()]: a nil connection is dereferenced. *)
Definition open_channel (c : option nat) : Go B (result nat) :=
  match c with None => panic | Some c => call (conn_Channel lib c) end.

(** ** Producers *)

Definition json_default (contentType : string) : string :=
  if decide (contentType = EmptyString) then "application/json" else contentType.

Definition publishChannel : Go B (result nat) :=
  _ ← lock pubMu;
  t ← get;
  isClosed ← match pubCh t with Some ch => query (ch_IsClosed lib ch) | None => mret true end;
  match pubCh t, isClosed with
  | Some ch, false => _ ← unlock pubMu; mret (inr ch)
  | _, _ =>
      r ← connectionForUse;
      match r with
      | inl err =>
          _ ← unlock pubMu;
          mret (inl (Wrapf "amqp: get connection for publish: " err EmptyString))
      | inr c =>
          r' ← open_channel c;
          match r' with
          | inl err =>
              _ ← unlock pubMu;
              mret (inl (Wrapf "amqp: open publish channel: " err EmptyString))
          | inr ch =>
              _ ← modify (set_pubCh (Some ch));
              _ ← unlock pubMu;
              mret (inr ch)
          end
      end
  end.

Definition Publish (req : Request) : Go B (option error) :=
  if decide (req_Endpoint req = EmptyString)
  then mret (Some (Errorf "amqp publish: endpoint is required"))
  else
    r ← publishChannel;
    match r with
    | inl err => mret (Some err)
    | inr ch =>
        call (ch_Publish lib ch (req_Endpoint req)
          {| pub_ContentType := json_default (req_ContentType req);
             pub_CorrelationId := EmptyString; pub_ReplyTo := EmptyString;
             pub_Headers := stringHeadersToTable (req_Headers req); pub_Body := req_Body req |})
    end.

(** The body of the receive loop of [Request]: what it returns, or [None] when
    it goes on. *)
Definition examine (correlationID : string) (ev : reply_event) : option (result Reply) :=
  match ev with
  | CtxDone deadline err => Some (inl (if deadline then ErrTimeout else err))
  | StreamClosed => Some (inl (Errorf "amqp request: reply channel closed"))
  | Incoming d =>
      if decide (raw_CorrelationId d ≠ correlationID) then None
      else Some (inr {| rep_Body := raw_Body d; rep_ContentType := raw_ContentType d;
                        rep_Headers := tableToStringHeaders (raw_Headers d);
                        rep_CorrelationID := raw_CorrelationId d |})
  end.

(** The receive loop, while nobody else acts on the broker. [None]: the call has
    not returned, because it waits for an event or because it has examined [fuel]
    of them. *)
Fixpoint await_reply (fuel : nat) (stream : nat) (timeout : Z) (correlationID : string)
    : M B (option (result Reply)) := λ b,
  match fuel with
  | O => (None, b)
  | S f =>
      match next_reply lib stream timeout b with
      | None => (None, b)
      | Some (ev, b') =>
          match examine correlationID ev with
          | None => await_reply f stream timeout correlationID b'
          | Some r => (Some r, b')
          end
      end
  end.

(** From the open channel on. *)
Definition request_on (fuel : nat) (ch : nat) (req : Request) : M B (option (result Reply)) :=
  let fail pre err := mret (Some (inl (Wrapf pre err EmptyString))) in
  r ← ch_QueueDeclare lib ch EmptyString false true true;
  match r with
  | inl err => fail "amqp request: declare reply queue: " err
  | inr replyQueue =>
      r' ← ch_Consume lib ch replyQueue true true;
      match r' with
      | inl err => fail "amqp request: consume reply queue: " err
      | inr deliveries =>
          correlationID ← (if decide (req_CorrelationID req = EmptyString)
                           then uuid_NewString lib else mret (req_CorrelationID req));
          perr ← ch_Publish lib ch (req_Endpoint req)
            {| pub_ContentType := json_default (req_ContentType req);
               pub_CorrelationId := correlationID; pub_ReplyTo := replyQueue;
               pub_Headers := stringHeadersToTable (req_Headers req); pub_Body := req_Body req |};
          match perr with
          | Some err => fail "amqp request: publish: " err
          | None => await_reply fuel deliveries (req_Timeout req) correlationID
          end
      end
  end.

(** The method [Request]; the channel is closed by the deferred call. *)
Definition TRequest (fuel : nat) (req : Request) : Go B (result Reply) :=
  if decide (req_Endpoint req = EmptyString)
  then mret (inl (Errorf "amqp request: endpoint is required"))
  else
    r ← connectionForUse;
    match r with
    | inl err => mret (inl (Wrapf "amqp request: get connection: " err EmptyString))
    | inr c =>
        r' ← open_channel c;
        match r' with
        | inl err => mret (inl (Wrapf "amqp request: open channel: " err EmptyString))
        | inr ch =>
            reply ← call (request_on fuel ch req);
            match reply with
            | None => park
            | Some reply => _ ← call (ch_Close lib ch); mret reply
            end
        end
    end.

(** ** Consumers *)

(** From the open channel on. *)
Definition setup_on (ch : nat) (queueName : string) (concurrency : Z) : M B (result (nat * nat)) :=
  let fail pre err := _ ← ch_Close lib ch; mret (inl (Wrapf pre err EmptyString)) in
  r ← ch_QueueDeclare lib ch queueName true false false;
  match r with
  | inl err => fail ("amqp consume: declare queue " +:+ Quote queueName +:+ ": ") err
  | inr _ =>
      q ← ch_Qos lib ch concurrency;
      match q with
      | Some err => fail "amqp consume: set qos: " err
      | None =>
          r' ← ch_Consume lib ch queueName false false;
          match r' with
          | inl err => fail ("amqp consume: start consumer " +:+ Quote queueName +:+ ": ") err
          | inr deliveries => mret (inr (ch, deliveries))
          end
      end
  end.

Definition setupConsumer (queueName : string) (concurrency : Z) : Go B (result (nat * nat)) :=
  r ← connectionForUse;
  match r with
  | inl err => mret (inl (Wrapf "amqp consume: get connection: " err EmptyString))
  | inr c =>
      r' ← open_channel c;
      match r' with
      | inl err => mret (inl (Wrapf "amqp consume: open channel: " err EmptyString))
      | inr ch => call (setup_on ch queueName concurrency)
      end
  end.

(** A new subscription; its address is its position in the heap. *)
Definition alloc (sub : subscription) : Go B nat := λ s,
  (Done (length (heap s)), St (tr s) (heap s ++ [sub]) (broker s) (held s)).

(** Returns the subscription, its first stream and the configuration that its
    goroutine runs with. *)
Definition Consume {W} (cfg : ConsumerConfig W) : Go B (result (nat * nat * ConsumerConfig W)) :=
  if decide (cc_Endpoint cfg = EmptyString)
  then mret (inl (Errorf "amqp consume: endpoint is required"))
  else match cc_Handler cfg with
  | None => mret (inl (Errorf "amqp consume: handler is required"))
  | Some h =>
      let cfg := {| cc_Endpoint := cc_Endpoint cfg; cc_Handler := Some h;
        cc_Timeout := if cc_Timeout cfg <=? 0 then 30 * Second else cc_Timeout cfg;
        cc_Concurrency := if cc_Concurrency cfg <=? 0 then 1 else cc_Concurrency cfg |} in
      t ← get;
      let queueName := endpointPrefix t +:+ cc_Endpoint cfg in
      r ← setupConsumer queueName (cc_Concurrency cfg);
      match r with
      | inl err => mret (inl err)
      | inr (ch, deliveries) =>
          sub ← alloc {| s_endpoint := queueName; s_ch := Some ch; s_done := false |};
          _ ← lock subsMu;
          _ ← modify (λ t, set_subs (subs t ++ [sub]) t);
          _ ← unlock subsMu;
          mret (inr (sub, deliveries, cfg))
      end
  end.

(** [swapChannel]. *)
Definition swapChannel (sub : nat) (ch : nat) : Go B unit := λ s,
  (Done tt, St (tr s)
     (alter (λ x, {| s_endpoint := s_endpoint x; s_ch := Some ch; s_done := s_done x |}) sub (heap s))
     (broker s) (held s)).

(** [currentChannel]. *)
Definition currentChannel (sub : nat) : Go B (option nat) := λ s,
  (Done (heap s !! sub ≫= s_ch), s).

(** The body of [closeOnce] of a subscription: [s_done] says that it ran. *)
Definition sub_Close (sub : nat) : Go B (option error) := λ s,
  match heap s !! sub with
  | None => (Panicked, s)
  | Some x =>
      if s_done x then (Done None, s)
      else
        let '(err, b) := match s_ch x with Some ch => ch_Close lib ch (broker s) | None => (None, broker s) end in
        (Done err, St (tr s)
           (<[sub := {| s_endpoint := s_endpoint x; s_ch := s_ch x; s_done := true |}]> (heap s))
           b (held s))
  end.

Fixpoint close_subs (l : list nat) : Go B unit :=
  match l with
  | [] => mret tt
  | sub :: l' => _ ← sub_Close sub; close_subs l'
  end.

(** ** [Close] *)

Definition Close : Go B (option error) :=
  _ ← lock closeMu;
  t ← get;
  if closed t then _ ← unlock closeMu; t ← get; mret (closeErr t)
  else
    _ ← modify set_closed;
    _ ← unlock closeMu;
    _ ← lock subsMu;
    t ← get;
    _ ← modify (set_subs []);
    _ ← unlock subsMu;
    _ ← close_subs (subs t);
    _ ← reset_pubCh;
    _ ← lock connMu;
    t ← get;
    _ ← modify (set_conn None);
    _ ← unlock connMu;
    err ← match conn t with Some c => call (conn_Close lib c) | None => mret None end;
    _ ← modify (set_closeErr err);
    mret err.

(** ** The watchdog *)

(** What an iteration of [watchdogLoop] ends with: a return, the wait for the
    delay (and the delay after it), the next iteration at once, or the wait for
    [NotifyClose]. *)
Inductive wd_next :=
| WdReturn
| WdSleep (delay next : Z)
| WdLoop (backoff : Z)
| WdListen.

Definition watchdog_iter (backoff : Z) : Go B wd_next :=
  t ← get;
  if closed t then mret WdReturn
  else
    _ ← lock connMu;
    t ← get;
    _ ← unlock connMu;
    match dialFn t with
    | None => mret WdReturn
    | Some d =>
        ok ← live (conn t);
        if (ok : bool) then mret WdListen
        else
          r ← reconnect d;
          match r with
          | inl _ => mret (WdSleep backoff (next_backoff backoff))
          | inr _ => mret (WdLoop Second)
          end
    end.

(** What the rest of the program does while a goroutine waits. *)
Definition others (f : st B → st B) : Go B unit := λ s, (Done tt, f s).

(** The loop: [world i] is what happens during the [i]-th wait. Returns whether
    the goroutine ended, and the delays it waited. *)
Fixpoint watchdogLoop (world : nat → st B → st B) (fuel i : nat) (backoff : Z) (slept : list Z)
    : Go B (bool * list Z) :=
  match fuel with
  | O => mret (false, slept)
  | S f =>
      n ← watchdog_iter backoff;
      match n with
      | WdReturn => mret (true, slept)
      | WdLoop b => watchdogLoop world f i b slept
      | WdSleep d b =>
          _ ← others (world i);
          t ← get;
          if closed t then mret (true, slept)
          else watchdogLoop world f (S i) b (slept ++ [d])
      | WdListen =>
          _ ← others (world i);
          t ← get;
          if closed t then mret (true, slept)
          else watchdogLoop world f (S i) Second slept
      end
  end.

(** ** The subscription's goroutine *)

(** [s.done] is closed. *)
Definition sub_done (sub : nat) : Go B bool := λ s,
  (Done (from_option s_done true (heap s !! sub)), s).

Inductive sub_phase :=
| Serving (stream : nat)
| Rebinding.

(** [serve i stream] is what happens until the stream of the [i]-th phase is
    closed; [world i] is what happens during the [i]-th wait. Returns whether
    the goroutine ended, and the delays it waited. *)
Fixpoint runWithReconnect (serve : nat → nat → st B → st B) (world : nat → st B → st B)
    (fuel i : nat) (sub : nat) (endpoint : string) (concurrency : Z) (ph : sub_phase) (backoff : Z)
    (slept : list Z) : Go B (bool * list Z) :=
  match fuel with
  | O => mret (false, slept)
  | S f =>
      match ph with
      | Serving stream =>
          _ ← others (serve i stream);
          fin ← sub_done sub;
          if (fin : bool) then mret (true, slept)
          else runWithReconnect serve world f (S i) sub endpoint concurrency Rebinding backoff slept
      | Rebinding =>
          _ ← others (world i);
          fin ← sub_done sub;
          if (fin : bool) then mret (true, slept)
          else
            r ← setupConsumer endpoint concurrency;
            match r with
            | inr (ch, stream) =>
                _ ← swapChannel sub ch;
                runWithReconnect serve world f (S i) sub endpoint concurrency (Serving stream) Second
                  (slept ++ [backoff])
            | inl _ =>
                runWithReconnect serve world f (S i) sub endpoint concurrency Rebinding
                  (next_backoff backoff) (slept ++ [backoff])
            end
      end
  end.

(** ** Deliveries *)

(** The two [sync.Once] of a delivery. *)
Record onces := { settled : bool; replied : bool }.

(** The delivery that the handler sees. *)
Definition mk_delivery (endpoint : string) (raw : raw_delivery) : Delivery :=
  {| Endpoint := endpoint; Body := raw_Body raw; ContentType := raw_ContentType raw;
     Headers := tableToStringHeaders (raw_Headers raw);
     CorrelationID := raw_CorrelationId raw; ReplyTo := raw_ReplyTo raw;
     AckFn := true; NackFn := true; ReplyFn := true |}.

(** [settleOnce.Do(func() { err = ... })]. *)
Definition settle (act : M B (option error)) (o : onces) : Go B (option error * onces) :=
  if settled o then mret (None, o)
  else
    err ← call act;
    mret (err, {| settled := true; replied := replied o |}).

Definition reply_fn (sub : nat) (raw : raw_delivery) (body contentType : string) (o : onces)
    : Go B (option error * onces) :=
  if decide (raw_ReplyTo raw = EmptyString)
  then mret (Some (Errorf "amqp delivery: no reply_to set"), o)
  else if replied o then mret (None, o)
  else
    c ← currentChannel sub;
    let o := {| settled := settled o; replied := true |} in
    match c with
    | None => mret (Some (Errorf "amqp delivery: subscription has no active channel"), o)
    | Some ch =>
        err ← call (ch_Publish lib ch (raw_ReplyTo raw)
          {| pub_ContentType := json_default contentType; pub_CorrelationId := raw_CorrelationId raw;
             pub_ReplyTo := EmptyString; pub_Headers := ∅; pub_Body := body |});
        mret (err, o)
    end.

(** The handler's computation, with the adapter's state [W] and the delivery's
    [Ack], [Nack] and [Reply]. *)
Fixpoint run_handler {W A} (sub : nat) (raw : raw_delivery) (p : prog W A) (o : onces) (w : W)
    : Go B (A * onces * W) :=
  match p with
  | Ret a => mret (a, o, w)
  | Eff X f k => let '(x, w') := f w in run_handler sub raw (k x) o w'
  | AckOp k => '(err, o') ← settle (raw_Ack lib raw) o; run_handler sub raw (k err) o' w
  | NackOp requeue k => '(err, o') ← settle (raw_Nack lib raw requeue) o; run_handler sub raw (k err) o' w
  | ReplyOp body ct k => '(err, o') ← reply_fn sub raw body ct o; run_handler sub raw (k err) o' w
  end.

(** The goroutine of one delivery. *)
Definition handle_delivery {W} (sub : nat) (endpoint : string) (h : Handler W) (raw : raw_delivery) (w : W)
    : Go B W :=
  '(err, o, w') ← run_handler sub raw (h (mk_delivery endpoint raw))
                    {| settled := false; replied := false |} w;
  _ ← settle (match err with Some _ => raw_Nack lib raw false | None => raw_Ack lib raw end) o;
  mret w'.

(** [deliverLoop] with [Concurrency] 1: the semaphore admits the next delivery
    when the handler of the previous one has ended. *)
Fixpoint deliverLoop {W} (sub : nat) (endpoint : string) (h : Handler W) (raws : list raw_delivery) (w : W)
    : Go B W :=
  match raws with
  | [] => mret w
  | raw :: rest => w' ← handle_delivery sub endpoint h raw w; deliverLoop sub endpoint h rest w'
  end.
End transport.
