(* ===== verification/AmqpSpec.v ===== *)
(** * Theorems about the AMQP transport

    Deliveries are settled exactly once whatever the handler does, the
    adapter's handlers over this transport, connections, [Close], the receive
    loop of [Request], and the publish path after a dropped connection. *)
From Stdlib Require Import Ascii ZArith.
From stdpp Require Import prelude gmap strings.
From S2P Require Import Prelude GoStrings GoText Rpc Backoff Adapter Amqp.

Local Open Scope Z_scope.

(** ** Logged libraries *)

(** The calls of the library that change something. *)
Inductive op :=
| OpDial (d : nat)
| OpConnClose (c : nat)
| OpChannel (c : nat)
| OpChClose (ch : nat)
| OpDeclare (ch : nat) (queue : string)
| OpQos (ch : nat) (n : Z)
| OpConsume (ch : nat) (queue : string)
| OpPublish (ch : nat) (key : string) (p : Publishing)
| OpAck (raw : raw_delivery)
| OpNack (raw : raw_delivery) (requeue : bool).

Section logged.
Context {B : Type} (lib : amqp091 B).

Definition log1 {A} (o : op) (m : M B A) : M (B * list op) A := λ bl,
  let '(a, b) := m bl.1 in (a, (b, bl.2 ++ [o])).
Definition log0 {A} (m : M B A) : M (B * list op) A := λ bl,
  let '(a, b) := m bl.1 in (a, (b, bl.2)).

(** The same library, keeping the list of the calls. *)
Definition logged : amqp091 (B * list op) := {|
  dial := λ d, log1 (OpDial d) (dial lib d);
  conn_IsClosed := λ c bl, conn_IsClosed lib c bl.1;
  conn_Channel := λ c, log1 (OpChannel c) (conn_Channel lib c);
  conn_Close := λ c, log1 (OpConnClose c) (conn_Close lib c);
  ch_IsClosed := λ c bl, ch_IsClosed lib c bl.1;
  ch_Close := λ c, log1 (OpChClose c) (ch_Close lib c);
  ch_QueueDeclare := λ c q x y z, log1 (OpDeclare c q) (ch_QueueDeclare lib c q x y z);
  ch_Qos := λ c n, log1 (OpQos c n) (ch_Qos lib c n);
  ch_Consume := λ c q x y, log1 (OpConsume c q) (ch_Consume lib c q x y);
  ch_Publish := λ c k p, log1 (OpPublish c k p) (ch_Publish lib c k p);
  raw_Ack := λ raw, log1 (OpAck raw) (raw_Ack lib raw);
  raw_Nack := λ raw r, log1 (OpNack raw r) (raw_Nack lib raw r);
  next_reply := λ c t bl, match next_reply lib c t bl.1 with Some (ev, b) => Some (ev, (b, bl.2)) | None => None end;
  uuid_NewString := log0 (uuid_NewString lib);
|}.
End logged.

(** The calls made between two states. *)
Definition calls {B} (s : st (B * list op)) : list op := (broker s).2.

Definition settle_of (o : op) : option raw_delivery :=
  match o with OpAck raw => Some raw | OpNack raw _ => Some raw | _ => None end.
Definition publish_of (o : op) : option (string * Publishing) :=
  match o with OpPublish _ key p => Some (key, p) | _ => None end.

(** Runs the monadic steps of a goal. *)
Ltac run_go :=
  cbv [mbind Go_bind mret Go_ret get modify call query panic lock unlock others];
  cbn [tr heap broker held fst snd].

(** ** Deliveries *)

Section delivery.
Context `{UnicodeTables} {B : Type} (lib : amqp091 B).
Abbreviation L := (logged lib).

(** A step that only makes library calls, which it returns. *)
Definition only_calls {A} (m : Go (B * list op) A) (s : st (B * list op))
    (post : A → list op → Prop) : Prop :=
  ∃ a b new, m s = (Done a, St (tr s) (heap s) (b, calls s ++ new) (held s)) ∧ post a new.

Lemma only_calls_ret {A} (a : A) s (post : A → list op → Prop) :
  post a [] → only_calls (mret a) s post.
Proof.
  intros Hp. exists a, (broker s).1, []. unfold calls. rewrite app_nil_r. split; [|done].
  by destruct s as [? ? [] ?].
Qed.

Lemma only_calls_bind {A C} (m : Go (B * list op) A) (k : A → Go (B * list op) C) s
    (post1 : A → list op → Prop) (post : C → list op → Prop) :
  only_calls m s post1 →
  (∀ a new1 s', post1 a new1 → heap s' = heap s → only_calls (k a) s' (λ c new2, post c (new1 ++ new2))) →
  only_calls (m ≫= k) s post.
Proof.
  intros (a & b & new1 & Hm & Hp) Hk.
  destruct (Hk a new1 (St (tr s) (heap s) (b, calls s ++ new1) (held s)) Hp eq_refl)
    as (c & b' & new2 & Hk' & Hp').
  exists c, b', (new1 ++ new2). split; [|done]. unfold mbind, Go_bind. rewrite Hm, Hk'.
  cbn. by rewrite app_assoc.
Qed.

Lemma only_calls_mono {A} (m : Go (B * list op) A) s (post post' : A → list op → Prop) :
  only_calls m s post → (∀ a new, post a new → post' a new) → only_calls m s post'.
Proof. intros (a & b & new & ? & ?) Hi. exists a, b, new. auto. Qed.

Lemma only_calls_call {A} (o : op) (m : M B A) s (post : A → list op → Prop) :
  (∀ a, post a [o]) → only_calls (call (log1 o m)) s post.
Proof.
  intros Hp. unfold only_calls, call, log1. destruct (m (broker s).1) as [a b].
  exists a, b, [o]. done.
Qed.

(** The flag of a [sync.Once], before and after. *)
Definition once_calls {X} (before after : bool) (l : list X) (x : X) : Prop :=
  match before, after with
  | false, true => l = [x]
  | true, false => False
  | _, _ => l = []
  end.

(** The calls of a delivery: its settlement and its reply. *)
Definition delivery_calls (raw : raw_delivery) (o o' : onces) (new : list op) : Prop :=
  once_calls (settled o) (settled o') (omap settle_of new) raw ∧
  (replied o = true → replied o' = true ∧ omap publish_of new = []) ∧
  (length (omap publish_of new) ≤ 1)%nat ∧
  Forall (λ kp, kp.1 = raw_ReplyTo raw ∧ pub_CorrelationId kp.2 = raw_CorrelationId raw)
    (omap publish_of new) ∧
  (replied o' = false → omap publish_of new = []).

Lemma delivery_calls_nil raw o : delivery_calls raw o o [].
Proof.
  split_and!; cbn; [by destruct (settled o)|done|lia|constructor|done].
Qed.

Lemma delivery_calls_app raw o1 o2 o3 l1 l2 :
  delivery_calls raw o1 o2 l1 → delivery_calls raw o2 o3 l2 → delivery_calls raw o1 o3 (l1 ++ l2).
Proof.
  intros (S1 & R1 & P1 & F1 & N1) (S2 & R2 & P2 & F2 & N2). unfold delivery_calls.
  rewrite !omap_app, length_app. split_and!.
  - destruct (settled o1), (settled o2), (settled o3); cbn in *; try done;
      by rewrite S1, S2.
  - intros Hr. destruct (R1 Hr) as [Hr2 ->]. destruct (R2 Hr2) as [? ->]. done.
  - destruct (replied o2) eqn:E; [destruct (R2 eq_refl) as [_ ->]; cbn; lia|].
    rewrite (N1 eq_refl). cbn. lia.
  - by apply Forall_app.
  - intros Hr. rewrite (N2 Hr), app_nil_r. apply N1.
    destruct (replied o2) eqn:E; [|done]. destruct (R2 eq_refl). congruence.
Qed.

Lemma settle_calls raw ack o s :
  only_calls (settle (if (ack : option bool) is Some r then raw_Nack L raw r else raw_Ack L raw) o) s
    (λ '(_, o') new, delivery_calls raw o o' new ∧ settled o' = true).
Proof.
  unfold settle. destruct (settled o) eqn:E.
  - apply only_calls_ret. split; [apply delivery_calls_nil|done].
  - eapply (only_calls_bind _ _ _ (λ _ new, omap settle_of new = [raw] ∧ omap publish_of new = [])).
    + destruct ack; by apply only_calls_call.
    + intros err new s' [Hs Hp] _. apply only_calls_ret. rewrite app_nil_r. split; [|done].
      unfold delivery_calls. rewrite Hs, Hp, E. cbn. split_and!; try done; lia.
Qed.

Lemma reply_calls sub raw body ct o s :
  only_calls (reply_fn L sub raw body ct o) s (λ '(_, o') new, delivery_calls raw o o' new).
Proof.
  unfold reply_fn. case_decide; [apply only_calls_ret, delivery_calls_nil|].
  destruct (replied o) eqn:E; [apply only_calls_ret, delivery_calls_nil|].
  eapply (only_calls_bind _ _ _ (λ _ new, new = [])).
  { by exists (heap s !! sub ≫= s_ch), (broker s).1, []; unfold calls; rewrite app_nil_r;
      destruct s as [? ? [] ?]. }
  intros c ? s' -> _. cbn [app]. destruct c as [ch|].
  - eapply (only_calls_bind _ _ _ (λ _ new, ∃ p,
      new = [OpPublish ch (raw_ReplyTo raw) p] ∧ pub_CorrelationId p = raw_CorrelationId raw)).
    { apply only_calls_call. intros _. by eexists. }
    intros err ? s'' (p & -> & Hp) _. apply only_calls_ret. unfold delivery_calls. cbn.
    split_and!; [by destruct (settled o)|congruence|lia|by repeat constructor|done].
  - apply only_calls_ret. unfold delivery_calls. cbn.
    split_and!; [by destruct (settled o)|congruence|lia|constructor|done].
Qed.

(** Whatever the handler does. *)
Lemma run_handler_calls {W A} sub raw (p : prog W A) : ∀ o w s,
  only_calls (run_handler L sub raw p o w) s (λ '(_, o', _) new, delivery_calls raw o o' new).
Proof.
  induction p as [a|X f k IH|k IH|requeue k IH|body ct k IH]; intros o w s; cbn [run_handler].
  - apply only_calls_ret, delivery_calls_nil.
  - destruct (f w) as [x w']. apply IH.
  - eapply only_calls_bind; [apply (settle_calls raw None)|]. intros [err o'] new s' [Hd _] _.
    eapply only_calls_mono; [apply IH|]. intros [[? ?] ?] new2 Hd2. by eapply delivery_calls_app.
  - eapply only_calls_bind; [apply (settle_calls raw (Some requeue))|]. intros [err o'] new s' [Hd _] _.
    eapply only_calls_mono; [apply IH|]. intros [[? ?] ?] new2 Hd2. by eapply delivery_calls_app.
  - eapply only_calls_bind; [apply reply_calls|]. intros [err o'] new s' Hd _.
    eapply only_calls_mono; [apply IH|]. intros [[? ?] ?] new2 Hd2. by eapply delivery_calls_app.
Qed.

Lemma handle_delivery_calls {W} sub endpoint (h : Handler W) raw w s :
  only_calls (handle_delivery L sub endpoint h raw w) s
    (λ _ new, omap settle_of new = [raw] ∧ (length (omap publish_of new) ≤ 1)%nat ∧
      Forall (λ kp, kp.1 = raw_ReplyTo raw ∧ pub_CorrelationId kp.2 = raw_CorrelationId raw)
        (omap publish_of new)).
Proof.
  unfold handle_delivery. eapply only_calls_bind; [apply run_handler_calls|].
  intros [[err o] w'] new s' Hd _.
  eapply only_calls_bind.
  { destruct err; [apply (settle_calls raw (Some false))|apply (settle_calls raw None)]. }
  intros [err' o'] new2 s'' [Hd2 Hs] _. apply only_calls_ret. rewrite app_nil_r.
  pose proof (delivery_calls_app _ _ _ _ _ _ Hd Hd2) as (S & _ & Pl & Pf & _).
  cbn in S. rewrite Hs in S. done.
Qed.

(** Every delivery is settled exactly once, in order, whatever its handler
    does (acknowledge twice, acknowledge and then fail, forget, reply many
    times), and is answered at most once, on its reply queue and with its
    correlation id; the loop always runs to its end. *)
Theorem deliveries_settled_once {W} sub endpoint (h : Handler W) raws w s :
  ∃ w' s' new, deliverLoop L sub endpoint h raws w s = (Done w', s') ∧
    calls s' = calls s ++ new ∧ omap settle_of new = raws ∧
    (length (omap publish_of new) ≤ length raws)%nat ∧
    Forall (λ kp, ∃ raw, raw ∈ raws ∧ kp.1 = raw_ReplyTo raw ∧ pub_CorrelationId kp.2 = raw_CorrelationId raw)
      (omap publish_of new).
Proof.
  enough (only_calls (deliverLoop L sub endpoint h raws w) s (λ _ new,
    omap settle_of new = raws ∧ (length (omap publish_of new) ≤ length raws)%nat ∧
    Forall (λ kp, ∃ raw, raw ∈ raws ∧ kp.1 = raw_ReplyTo raw ∧ pub_CorrelationId kp.2 = raw_CorrelationId raw)
      (omap publish_of new))) as (w' & b & new & Hrun & Hp).
  { eexists w', _, new. split; [exact Hrun|]. done. }
  revert w s. induction raws as [|raw raws IH]; intros w s; cbn [deliverLoop].
  - apply only_calls_ret. cbn. split_and!; [done|lia|constructor].
  - eapply only_calls_bind; [apply handle_delivery_calls|]. intros w' new s' (Hs & Hl & Hf) _.
    eapply only_calls_mono; [apply IH|]. intros _ new2 (Hs2 & Hl2 & Hf2).
    rewrite !omap_app, Hs, Hs2, length_app, Forall_app. cbn. split_and!; [done|lia| |].
    + eapply Forall_impl; [exact Hf|]. intros kp [? ?]. exists raw. set_solver.
    + eapply Forall_impl; [exact Hf2|]. intros kp (r & ? & ?). exists r. set_solver.
Qed.

(** ** Adapter handlers over AMQP *)

(** The reply that [wrap] publishes. *)
Definition reply_op (ch : nat) (raw : raw_delivery) (body ct : string) : op :=
  OpPublish ch (raw_ReplyTo raw)
    {| pub_ContentType := json_default ct; pub_CorrelationId := raw_CorrelationId raw;
       pub_ReplyTo := EmptyString; pub_Headers := ∅; pub_Body := body |}.

Lemma run_handler_bind {W A C} sub raw (p : prog W A) (k : A → prog W C) :
  ∀ o w s, run_handler L sub raw (p ≫= k) o w s =
    (run_handler L sub raw p o w ≫= λ '(a, o', w'), run_handler L sub raw (k a) o' w') s.
Proof.
  unfold mbind at 1, prog_mbind.
  induction p as [a|X f k' IH|k' IH|requeue k' IH|body ct k' IH]; intros o w s; cbn [prog_bind run_handler].
  - done.
  - destruct (f w) as [x w']. apply IH.
  - unfold mbind, Go_bind. destruct (settle _ _ _) as [[[err o']| | |] s']; [apply IH|done..].
  - unfold mbind, Go_bind. destruct (settle _ _ _) as [[[err o']| | |] s']; [apply IH|done..].
  - unfold mbind, Go_bind. destruct (reply_fn _ _ _ _ _ _ _) as [[[err o']| | |] s']; [apply IH|done..].
Qed.

Lemma run_handler_quiet {W A} sub raw (p : prog W A) r w' :
  ∀ o w s, run_quiet p w = Some (r, w') → run_handler L sub raw p o w s = (Done (r, o, w'), s).
Proof.
  induction p as [a|X f k IH| | |]; intros o w s; cbn; try done.
  - by intros [= -> ->].
  - destruct (f w) as [x w1]. apply IH.
Qed.

Lemma settle_first (act : M B (option error)) o raw_op s :
  settled o = false →
  settle (log1 raw_op act) o s =
  (Done ((act (broker s).1).1, {| settled := true; replied := replied o |}),
   St (tr s) (heap s) ((act (broker s).1).2, calls s ++ [raw_op]) (held s)).
Proof.
  intros E. unfold settle, log1. rewrite E. run_go. by destruct (act (broker s).1).
Qed.

Lemma settle_again (act : M (B * list op) (option error)) o s :
  settled o = true → settle act o s = (Done (None, o), s).
Proof. intros E. unfold settle. by rewrite E. Qed.

Lemma reply_first sub raw x ch body ct o s :
  heap s !! sub = Some x → s_ch x = Some ch → raw_ReplyTo raw ≠ EmptyString → replied o = false →
  ∃ err b, reply_fn L sub raw body ct o s =
    (Done (err, {| settled := settled o; replied := true |}),
     St (tr s) (heap s) (b, calls s ++ [reply_op ch raw body ct]) (held s)) ∧
    err = (ch_Publish lib ch (raw_ReplyTo raw)
      {| pub_ContentType := json_default ct; pub_CorrelationId := raw_CorrelationId raw;
         pub_ReplyTo := EmptyString; pub_Headers := ∅; pub_Body := body |} (broker s).1).1.
Proof.
  intros Hx Hch Hr E. unfold reply_fn. rewrite decide_False, E by done. unfold currentChannel.
  run_go. rewrite Hx. cbn [mbind option_bind]. rewrite Hch. cbn. unfold log1.
  destruct (ch_Publish lib ch _ _ _) as [err b]. by eexists _, _.
Qed.

Lemma reply_none sub raw body ct o s :
  raw_ReplyTo raw = EmptyString →
  reply_fn L sub raw body ct o s = (Done (Some (Errorf "amqp delivery: no reply_to set"), o), s).
Proof. intros E. unfold reply_fn. by rewrite decide_True. Qed.

(** The goroutine of a delivery with an adapter's handler. *)
Lemma handle_adapter {W} (h : AHandler W) sub endpoint raw x ch w s r w' :
  heap s !! sub = Some x → s_ch x = Some ch →
  run_quiet (h (mk_delivery endpoint raw)) w = Some (r, w') →
  let publish body ct :=
    (ch_Publish lib ch (raw_ReplyTo raw)
      {| pub_ContentType := json_default ct; pub_CorrelationId := raw_CorrelationId raw;
         pub_ReplyTo := EmptyString; pub_Headers := ∅; pub_Body := body |} (broker s).1).1 in
  ∃ s', handle_delivery L sub endpoint (wrap h) raw w s = (Done w', s') ∧
    calls s' = calls s ++
      match r with
      | inl err =>
          (if decide (raw_ReplyTo raw = EmptyString) then []
           else [reply_op ch raw (errorEnvelope err) "application/json"]) ++ [OpNack raw false]
      | inr (body, ct) =>
          if decide (raw_ReplyTo raw = EmptyString) then [OpNack raw true]
          else [reply_op ch raw body (json_default ct);
                match publish body (json_default ct) with Some _ => OpNack raw true | None => OpAck raw end]
      end.
Proof.
  intros Hx Hch Hq publish. unfold handle_delivery. unfold mbind at 1, Go_bind at 1.
  unfold wrap. rewrite run_handler_bind. unfold mbind at 1, Go_bind at 1.
  rewrite (run_handler_quiet _ _ _ _ _ _ _ _ Hq).
  destruct r as [err|[body ct]];
    cbn [run_handler Delivery_Reply Delivery_Nack Delivery_Ack mk_delivery ReplyFn NackFn AckFn
         prog_bind mbind prog_mbind]; unfold mbind, Go_bind.
  - destruct (decide (raw_ReplyTo raw = EmptyString)) as [Er|Er].
    + rewrite (reply_none _ _ _ _ _ _ Er). cbn [raw_Nack logged]. rewrite settle_first by done.
      cbn [mret prog_ret run_handler]. unfold mret, Go_ret. rewrite settle_again by done. by eexists.
    + edestruct (reply_first sub raw x ch) as (perr & b & -> & _); [done..|].
      cbn [raw_Nack logged]. rewrite settle_first by done. cbn [run_handler]. unfold mret, Go_ret.
      rewrite settle_again by done. eexists. split; [reflexivity|]. cbn. by rewrite <- app_assoc.
  - destruct (decide (raw_ReplyTo raw = EmptyString)) as [Er|Er].
    + rewrite (reply_none _ _ _ _ _ _ Er). cbn [run_handler Delivery_Nack mk_delivery NackFn raw_Nack logged].
      unfold mbind, Go_bind. rewrite settle_first by done. cbn [run_handler]. unfold mret, Go_ret.
      rewrite settle_again by done. by eexists.
    + fold (json_default ct).
      edestruct (reply_first sub raw x ch body (json_default ct)) as (perr & b & -> & Hperr); [done..|].
      unfold publish. rewrite <- Hperr. clear Hperr.
      destruct perr; cbn [run_handler Delivery_Nack Delivery_Ack mk_delivery NackFn AckFn raw_Nack raw_Ack logged];
        unfold mbind, Go_bind; rewrite settle_first by done; cbn [run_handler]; unfold mret, Go_ret;
        rewrite settle_again by done; eexists; (split; [reflexivity|]); cbn; by rewrite <- app_assoc.
Qed.

(** C20: an adapter's handler over AMQP. On success its body is published to
    the reply queue under the request's correlation id and the delivery is
    acknowledged; if the reply cannot be published the delivery is requeued. On
    an error, the error envelope is published and the delivery is rejected
    without requeueing. A delivery without a reply queue gets no reply: an error
    rejects it, and a success requeues it. *)
Theorem adapter_handler_over_amqp {W} (h : AHandler W) sub endpoint raw x ch w s r w' :
  heap s !! sub = Some x → s_ch x = Some ch →
  run_quiet (h (mk_delivery endpoint raw)) w = Some (r, w') →
  let publish body ct :=
    (ch_Publish lib ch (raw_ReplyTo raw)
      {| pub_ContentType := json_default ct; pub_CorrelationId := raw_CorrelationId raw;
         pub_ReplyTo := EmptyString; pub_Headers := ∅; pub_Body := body |} (broker s).1).1 in
  ∃ s', handle_delivery L sub endpoint (wrap h) raw w s = (Done w', s') ∧
    calls s' = calls s ++
      match r with
      | inl err =>
          (if decide (raw_ReplyTo raw = EmptyString) then []
           else [reply_op ch raw (errorEnvelope err) "application/json"]) ++ [OpNack raw false]
      | inr (body, ct) =>
          if decide (raw_ReplyTo raw = EmptyString) then [OpNack raw true]
          else [reply_op ch raw body (json_default ct);
                match publish body (json_default ct) with Some _ => OpNack raw true | None => OpAck raw end]
      end.
Proof. apply handle_adapter. Qed.
End delivery.

(** ** Locks *)

Section locks.
Context {B : Type}.

Lemma lock_free m (s : st B) : m ∉ held s →
  lock m s = (Done tt, St (tr s) (heap s) (broker s) (m :: held s)).
Proof. intros Hm. unfold lock. by rewrite decide_False. Qed.

Lemma lock_held m (s : st B) : m ∈ held s → lock m s = (Blocked m, s).
Proof. intros Hm. unfold lock. by rewrite decide_True. Qed.

Lemma unlock_top m t h (b : B) l : m ∉ l → unlock m (St t h b (m :: l)) = (Done tt, St t h b l).
Proof.
  intros Hm. unfold unlock. cbn [held tr heap broker]. do 2 f_equal.
  rewrite filter_cons_False by auto. induction l as [|m' l IH]; [done|].
  rewrite filter_cons_True by set_solver. f_equal. apply IH. set_solver.
Qed.

(** Taking a mutex, reading the transport and releasing it. *)
Lemma locked_get {A} m (k : Transport → Go B A) (s : st B) : m ∉ held s →
  (_ ← lock m; t ← get; _ ← unlock m; k t) s = k (tr s) s.
Proof.
  intros Hm. unfold mbind, Go_bind. rewrite lock_free by done. unfold get. cbn [tr].
  rewrite unlock_top by done. by destruct s.
Qed.
End locks.

(** ** Connections *)

Section connections.
Context `{UnicodeTables} {B : Type} (lib : amqp091 B).

(** The connection is present and open. *)
Definition is_live (s : st B) : bool :=
  match conn (tr s) with Some c => negb (conn_IsClosed lib c (broker s)) | None => false end.

Definition close_conn_opt (c : option nat) (b : B) : B :=
  match c with Some c => (conn_Close lib c b).2 | None => b end.
Definition close_ch_opt (c : option nat) (b : B) : B :=
  match c with Some c => (ch_Close lib c b).2 | None => b end.

(** The state after a dial that returned [c] in the broker state [b]. *)
Definition redialed (s : st B) (c : nat) (b : B) : st B :=
  St (set_pubCh None (set_conn (Some c) (tr s))) (heap s)
     (close_ch_opt (pubCh (tr s)) (close_conn_opt (conn (tr s)) b)) (held s).

Lemma live_run c (s : st B) :
  live lib c s = (Done (match c with Some c => negb (conn_IsClosed lib c (broker s)) | None => false end), s).
Proof. by destruct c. Qed.

Lemma swap_connection_run c (s : st B) :
  connMu ∉ held s →
  swap_connection lib c s =
  (Done tt, St (set_conn (Some c) (tr s)) (heap s) (close_conn_opt (conn (tr s)) (broker s)) (held s)).
Proof.
  intros Hc. unfold swap_connection, mbind, Go_bind. rewrite lock_free by done.
  unfold get. cbn [tr heap broker held]. destruct (conn (tr s)) as [old|]; unfold call, mret, Go_ret;
    cbn [broker close_conn_opt]; [destruct (conn_Close lib old (broker s)) as [e b]|];
    unfold modify; cbn [tr heap broker held]; by rewrite unlock_top.
Qed.

Lemma reset_pubCh_run (s : st B) :
  pubMu ∉ held s →
  reset_pubCh lib s =
  (Done tt, St (set_pubCh None (tr s)) (heap s) (close_ch_opt (pubCh (tr s)) (broker s)) (held s)).
Proof.
  intros Hc. unfold reset_pubCh, mbind, Go_bind. rewrite lock_free by done.
  unfold get. cbn [tr heap broker held]. destruct (pubCh (tr s)) as [ch|] eqn:Ep; unfold call, mret, Go_ret;
    cbn [broker close_ch_opt]; [destruct (ch_Close lib ch (broker s)) as [e b]|];
    unfold modify; cbn [tr heap broker held]; rewrite unlock_top by done; [done|].
  do 2 f_equal. destruct (tr s). cbn in Ep. by subst.
Qed.

Lemma reconnect_locked_run d (s : st B) :
  connMu ∉ held s → pubMu ∉ held s →
  reconnect_locked lib d s =
  if is_live s then (Done (from_option inr (inl ErrClosed) (conn (tr s))), s)
  else if closed (tr s) then (Done (inl ErrClosed), s)
  else match dial lib d (broker s) with
       | (inl err, b) => (Done (inl err), St (tr s) (heap s) b (held s))
       | (inr c, b) => (Done (inr c), redialed s c b)
       end.
Proof.
  intros Hc Hp. unfold reconnect_locked, is_live. unfold mbind at 1, Go_bind at 1. rewrite lock_free by done.
  unfold mbind at 1, Go_bind at 1, get at 1. cbn [tr].
  unfold mbind at 1, Go_bind at 1. rewrite live_run. cbn [tr held heap broker].
  unfold mbind at 1, Go_bind at 1. rewrite unlock_top by done.
  replace (St (tr s) (heap s) (broker s) (held s)) with s by (by destruct s).
  destruct (conn (tr s)) as [c|] eqn:Ec; cbn [from_option];
    [destruct (negb (conn_IsClosed lib c (broker s))); [done|]|];
    unfold mbind at 1, Go_bind at 1, get at 1; (destruct (closed (tr s)); [done|]);
    unfold mbind at 1, Go_bind at 1, call at 1;
    destruct (dial lib d (broker s)) as [[err|c'] b]; try done;
    unfold mbind, Go_bind; rewrite swap_connection_run by done; rewrite reset_pubCh_run by done;
    unfold redialed; cbn; rewrite Ec; done.
Qed.

Lemma reconnect_run d s :
  dialMu ∉ held s → connMu ∉ held s → pubMu ∉ held s →
  reconnect lib d s =
  if is_live s then (Done (from_option inr (inl ErrClosed) (conn (tr s))), s)
  else if closed (tr s) then (Done (inl ErrClosed), s)
  else match dial lib d (broker s) with
       | (inl err, b) => (Done (inl err), St (tr s) (heap s) b (held s))
       | (inr c, b) => (Done (inr c), redialed s c b)
       end.
Proof.
  intros Hd Hc Hp. unfold reconnect. unfold mbind at 1, Go_bind at 1. rewrite lock_free by done.
  unfold mbind at 1, Go_bind at 1. rewrite reconnect_locked_run by (cbn; set_solver).
  change (is_live (St (tr s) (heap s) (broker s) (dialMu :: held s))) with (is_live s).
  unfold redialed. cbn [tr heap broker held]. destruct s as [t h b l]. cbn [tr heap broker held] in *.
  destruct (is_live _); [|destruct (closed t); [|destruct (dial lib d b) as [[err|c] b']]];
    unfold mbind, Go_bind; rewrite unlock_top by done; done.
Qed.

Lemma connectionForUse_run s :
  dialMu ∉ held s → connMu ∉ held s → pubMu ∉ held s →
  connectionForUse lib s =
  if is_live s then (Done (inr (conn (tr s))), s)
  else if closed (tr s) then (Done (inl ErrClosed), s)
  else match dialFn (tr s) with
       | None => (Done (inr (conn (tr s))), s)
       | Some d =>
           match dial lib d (broker s) with
           | (inl err, b) => (Done (inl err), St (tr s) (heap s) b (held s))
           | (inr c, b) => (Done (inr (Some c)), redialed s c b)
           end
       end.
Proof.
  intros Hd Hc Hp. unfold connectionForUse. rewrite locked_get by done.
  unfold mbind at 1, Go_bind at 1. rewrite live_run. fold (is_live s).
  destruct (is_live s) eqn:El; [done|]. unfold mbind at 1, Go_bind at 1, get at 1.
  destruct (closed (tr s)) eqn:Ecl; [done|]. destruct (dialFn (tr s)) as [d|]; [|done].
  unfold mbind at 1, Go_bind at 1. rewrite reconnect_run by done. rewrite El, Ecl.
  by destruct (dial lib d (broker s)) as [[err|c] b].
Qed.

(** What amqp091-go documents of connections: a new one is open, a closed one
    stays closed, and closing one thing does not close another. *)
Class AmqpLaws := {
  dial_open d b c b' : dial lib d b = (inr c, b') → conn_IsClosed lib c b' = false;
  closed_stays d b r b' c : dial lib d b = (r, b') →
    conn_IsClosed lib c b = true → conn_IsClosed lib c b' = true;
  close_other c b e b' c' : conn_Close lib c b = (e, b') → c' ≠ c →
    conn_IsClosed lib c' b' = conn_IsClosed lib c' b;
  ch_close_conn ch b e b' c : ch_Close lib ch b = (e, b') →
    conn_IsClosed lib c b' = conn_IsClosed lib c b;
}.

Lemma redialed_live `{!AmqpLaws} s d c b :
  is_live s = false → dial lib d (broker s) = (inr c, b) →
  conn_IsClosed lib c (broker (redialed s c b)) = false.
Proof.
  intros Hl Hd. cbn [broker redialed]. unfold close_ch_opt.
  assert (conn_IsClosed lib c (close_conn_opt (conn (tr s)) b) = false) as Hc.
  { unfold is_live in Hl. unfold close_conn_opt. destruct (conn (tr s)) as [old|]; [|by eapply dial_open].
    destruct (conn_Close lib old b) as [e b'] eqn:E. cbn [snd].
    rewrite (close_other _ _ _ _ c E); [by eapply dial_open|]. intros ->.
    apply negb_false_iff in Hl. pose proof (closed_stays _ _ _ _ _ Hd Hl) as Hs.
    pose proof (dial_open _ _ _ _ Hd). congruence. }
  destruct (pubCh (tr s)) as [ch|]; [|done]. destruct (ch_Close lib ch _) as [e b'] eqn:E. cbn [snd].
  by rewrite (ch_close_conn _ _ _ _ c E).
Qed.

(** [connectionForUse] of a transport with a dial function always returns,
    with its mutexes released: a connection that is open and is the transport's
    (the current one, with nothing changed, when it is still open; otherwise one
    freshly dialed, the publish channel of the dead one being dropped), or, when
    the connection is dead, [ErrClosed] without dialing after [Close], or the
    error of the dial with the transport unchanged. *)
Theorem connection_for_use_is_live `{!AmqpLaws} s d :
  held s = [] → dialFn (tr s) = Some d →
  ∃ r s', connectionForUse lib s = (Done r, s') ∧ held s' = [] ∧ closed (tr s') = closed (tr s) ∧
    match r with
    | inr oc => ∃ c, oc = Some c ∧ conn (tr s') = Some c ∧ conn_IsClosed lib c (broker s') = false ∧
                (is_live s = true ∧ s' = s ∨ is_live s = false ∧ closed (tr s) = false ∧ pubCh (tr s') = None)
    | inl err => is_live s = false ∧ tr s' = tr s ∧
                 (if closed (tr s) then err = ErrClosed ∧ s' = s
                  else dial lib d (broker s) = (inl err, broker s'))
    end.
Proof.
  intros Hh Hf. rewrite connectionForUse_run by (rewrite Hh; set_solver). rewrite Hf.
  destruct (is_live s) eqn:El.
  { eexists _, s. split; [reflexivity|]. split_and!; [done..|]. unfold is_live in El.
    destruct (conn (tr s)) as [c|]; [|done]. apply negb_true_iff in El. exists c. eauto 10. }
  destruct (closed (tr s)) eqn:Ecl; [by eexists _, s|].
  destruct (dial lib d (broker s)) as [[err|c] b] eqn:Ed; eexists _, _; (split; [reflexivity|]);
    (split_and!; [done..|]); [done|].
  exists c. split_and!; [done..| |by right]. by eapply redialed_live.
Qed.

(** Where a goroutine that holds [pubMu] ends up when it reconnects. *)
Definition stuck (s : st B) (c : nat) (b : B) : st B :=
  St (set_conn (Some c) (tr s)) (heap s) (close_conn_opt (conn (tr s)) b) [dialMu; pubMu].

Lemma reconnect_holding_pubMu s d c b :
  held s = [pubMu] → is_live s = false → closed (tr s) = false → dial lib d (broker s) = (inr c, b) →
  reconnect lib d s = (Blocked pubMu, stuck s c b).
Proof.
  intros Hh Hl Hcl Hd. unfold reconnect. unfold mbind at 1, Go_bind at 1.
  rewrite lock_free, Hh by (rewrite Hh; set_solver).
  unfold mbind at 1, Go_bind at 1, reconnect_locked. unfold mbind at 1, Go_bind at 1.
  rewrite lock_free by (cbn; set_solver).
  unfold mbind at 1, Go_bind at 1, get at 1. unfold mbind at 1, Go_bind at 1. rewrite live_run.
  unfold mbind at 1, Go_bind at 1. cbn [tr heap broker held].
  rewrite unlock_top by set_solver. unfold is_live in Hl.
  assert (reset_pubCh lib (stuck s c b) = (Blocked pubMu, stuck s c b)) as Hreset.
  { unfold reset_pubCh, mbind, Go_bind. by rewrite lock_held by (cbn; set_solver). }
  unfold stuck in *.
  destruct (conn (tr s)) as [c0|] eqn:Ec; rewrite ?Hl; unfold mbind, Go_bind, get; cbn [tr];
    rewrite Hcl; unfold call at 1; cbn [broker tr heap held]; rewrite Hd;
    rewrite swap_connection_run by (cbn; set_solver); cbn [tr heap broker held]; rewrite Ec;
    by rewrite Hreset.
Qed.

(** C21: the publish path holds [pubMu] while it reconnects, and reconnecting
    takes [pubMu]: when the connection has dropped, the publish channel is gone
    and the broker accepts a new connection, [Publish] dials, swaps the
    connection and then waits for ever on its own mutex; from then on every
    other reconnection and every publication waits for ever too. *)
Theorem publish_after_drop_deadlocks req s d c b :
  held s = [] → is_live s = false → closed (tr s) = false → dialFn (tr s) = Some d →
  match pubCh (tr s) with Some ch => ch_IsClosed lib ch (broker s) = true | None => True end →
  dial lib d (broker s) = (inr c, b) → req_Endpoint req ≠ EmptyString →
  ∃ s', Publish lib req s = (Blocked pubMu, s') ∧
    held s' = [dialMu; pubMu] ∧ conn (tr s') = Some c ∧
    (∀ d', reconnect lib d' s' = (Blocked dialMu, s')) ∧
    (∀ req', req_Endpoint req' ≠ EmptyString → Publish lib req' s' = (Blocked pubMu, s')).
Proof.
  intros Hh Hl Hcl Hf Hp Hd Hreq.
  assert (publishChannel lib s = (Blocked pubMu, stuck s c b)) as Hpub.
  { unfold publishChannel. unfold mbind at 1, Go_bind at 1. rewrite lock_free, Hh by (rewrite Hh; set_solver).
    unfold mbind at 1, Go_bind at 1, get at 1. unfold mbind at 1, Go_bind at 1. cbn [tr].
    assert (connectionForUse lib (St (tr s) (heap s) (broker s) [pubMu]) = (Blocked pubMu, stuck s c b)) as Hcon.
    { unfold connectionForUse. rewrite locked_get by (cbn; set_solver).
      unfold mbind at 1, Go_bind at 1. rewrite live_run. cbn [tr broker]. fold (is_live s). rewrite Hl.
      unfold mbind at 1, Go_bind at 1, get at 1. cbn [tr]. rewrite Hcl, Hf.
      unfold mbind at 1, Go_bind at 1. by rewrite (reconnect_holding_pubMu _ d c b). }
    destruct (pubCh (tr s)) as [ch|]; unfold query; cbn [broker]; rewrite ?Hp;
      unfold mret, Go_ret, mbind, Go_bind; by rewrite Hcon. }
  exists (stuck s c b). split_and!; [|done|done|intros d'|intros req' Hr].
  - unfold Publish. rewrite decide_False by done. unfold mbind, Go_bind. by rewrite Hpub.
  - unfold reconnect, mbind, Go_bind. by rewrite lock_held by (cbn; set_solver).
  - unfold Publish. rewrite decide_False by done. unfold publishChannel, mbind, Go_bind.
    by rewrite lock_held by (cbn; set_solver).
Qed.

(** ** [Close] *)

Lemma sub_Close_run sub x (s : st B) :
  heap s !! sub = Some x →
  ∃ err b, sub_Close lib sub s = (Done err, St (tr s)
    (<[sub := {| s_endpoint := s_endpoint x; s_ch := s_ch x; s_done := true |}]> (heap s)) b (held s)).
Proof.
  intros Hx. unfold sub_Close. rewrite Hx. destruct (s_done x) eqn:Ed.
  - eexists _, (broker s). rewrite list_insert_id; [by destruct s|]. rewrite Hx. f_equal.
    destruct x. cbn in Ed. by subst.
  - destruct (match s_ch x with Some ch => _ | None => _ end) as [err b]. by eexists _, _.
Qed.

(** All the subscriptions of [l] are closed and none is reopened. *)
Lemma close_subs_run l : ∀ s : st B,
  Forall (λ i, is_Some (heap s !! i)) l →
  ∃ h b, close_subs lib l s = (Done tt, St (tr s) h b (held s)) ∧ length h = length (heap s) ∧
    (∀ i x, h !! i = Some x → (s_done x = true ∨ i ∉ l)) ∧
    (∀ i x, heap s !! i = Some x → s_done x = true → ∃ x', h !! i = Some x' ∧ s_done x' = true).
Proof.
  induction l as [|i l IH]; intros s Hl.
  - exists (heap s), (broker s). split; [by destruct s|]. split; [done|]. split; [|eauto].
    intros; right; set_solver.
  - apply Forall_cons in Hl as [[x Hx] Hl]. cbn [close_subs].
    destruct (sub_Close_run i x s Hx) as (err & b & E).
    set (s1 := St (tr s) (<[i:={| s_endpoint := s_endpoint x; s_ch := s_ch x; s_done := true |}]> (heap s)) b (held s)) in *.
    destruct (IH s1) as (h & b' & Hrun & Hlen & Hdone & Hkeep).
    { eapply Forall_impl; [exact Hl|]. intros j Hj. cbn. by apply lookup_lt_is_Some in Hj;
        apply lookup_lt_is_Some; rewrite length_insert. }
    exists h, b'. unfold mbind, Go_bind. rewrite E. split; [exact Hrun|].
    split; [rewrite Hlen; cbn; apply length_insert|].
    assert (i < length (heap s))%nat as Hi by (by eapply lookup_lt_Some).
    split.
    + intros j y Hj. destruct (Hdone j y Hj) as [?|Hnot]; [by left|].
      destruct (decide (j = i)) as [->|]; [|right; set_solver]. left.
      destruct (Hkeep i {| s_endpoint := s_endpoint x; s_ch := s_ch x; s_done := true |}) as (x' & ? & ?);
        [cbn; by rewrite list_lookup_insert_eq|done|congruence].
    + intros j y Hj Hy. destruct (decide (j = i)) as [->|Hne].
      * eapply Hkeep; [cbn; by rewrite list_lookup_insert_eq|done].
      * eapply Hkeep; [|exact Hy]. cbn. by rewrite list_lookup_insert_ne.
Qed.

Lemma Close_again s :
  closeMu ∉ held s → closed (tr s) = true → Close lib s = (Done (closeErr (tr s)), s).
Proof.
  intros Hh Hc. unfold Close. unfold mbind at 1, Go_bind at 1. rewrite lock_free by done.
  unfold mbind at 1, Go_bind at 1, get at 1. cbn [tr]. rewrite Hc. unfold mbind, Go_bind.
  rewrite unlock_top by done. by destruct s.
Qed.

Lemma Close_run s :
  held s = [] → closed (tr s) = false → Forall (λ i, is_Some (heap s !! i)) (subs (tr s)) →
  ∃ err h b, Close lib s = (Done err,
      St (set_closeErr err (set_conn None (set_pubCh None (set_subs [] (set_closed (tr s)))))) h b []) ∧
    length h = length (heap s) ∧ ∀ i x, i ∈ subs (tr s) → h !! i = Some x → s_done x = true.
Proof.
  intros Hh Hc Hs. unfold Close. unfold mbind at 1, Go_bind at 1. rewrite lock_free, Hh by (rewrite Hh; set_solver).
  unfold mbind at 1, Go_bind at 1, get at 1. cbn [tr]. rewrite Hc.
  unfold mbind at 1, Go_bind at 1, modify at 1. cbn [tr heap broker held].
  unfold mbind at 1, Go_bind at 1. rewrite unlock_top by set_solver.
  unfold mbind at 1, Go_bind at 1. rewrite lock_free by (cbn; set_solver).
  unfold mbind at 1, Go_bind at 1, get at 1. unfold mbind at 1, Go_bind at 1, modify at 1. cbn [tr heap broker held].
  unfold mbind at 1, Go_bind at 1. rewrite unlock_top by set_solver.
  unfold mbind at 1, Go_bind at 1.
  edestruct (close_subs_run (subs (tr s))) as (h & b & Hrun & Hlen & Hdone & _); cycle 1.
  { cbn [subs set_closed]. rewrite Hrun. unfold mbind at 1, Go_bind at 1.
    rewrite reset_pubCh_run by (cbn; set_solver). unfold mbind at 1, Go_bind at 1.
    rewrite lock_free by (cbn; set_solver). unfold mbind at 1, Go_bind at 1, get at 1.
    unfold mbind at 1, Go_bind at 1, modify at 1. cbn [tr heap broker held].
    unfold mbind at 1, Go_bind at 1. rewrite unlock_top by set_solver.
    cbn [conn set_conn set_pubCh set_subs set_closed]. destruct (conn (tr s)) as [c|].
    - unfold mbind, Go_bind, call. cbn [broker]. destruct (conn_Close lib c _) as [err b'].
      eexists err, h, b'. split; [reflexivity|]. split; [done|]. intros i x Hi Hx. by destruct (Hdone i x Hx).
    - eexists None, h, _. split; [reflexivity|]. split; [done|]. intros i x Hi Hx. by destruct (Hdone i x Hx). }
  exact Hs.
Qed.

(** C22: [Close] returns with every subscription stopped, the publish channel
    and the connection dropped; calling it again returns the same error and
    calls nothing; and afterwards no operation reaches the broker: [Publish],
    [Request] and [Consume] fail with an error that wraps [ErrClosed] and leave
    the state as it is. *)
Theorem close_is_final s :
  held s = [] → closed (tr s) = false → Forall (λ i, is_Some (heap s !! i)) (subs (tr s)) →
  ∃ err s', Close lib s = (Done err, s') ∧ Close lib s' = (Done err, s') ∧
    conn (tr s') = None ∧ pubCh (tr s') = None ∧ subs (tr s') = [] ∧
    (∀ i x, i ∈ subs (tr s) → heap s' !! i = Some x → s_done x = true) ∧
    (∀ req, req_Endpoint req ≠ EmptyString →
      ∃ e, Publish lib req s' = (Done (Some e), s') ∧ errors_is "rpc.ErrClosed" e = true) ∧
    (∀ fuel req, req_Endpoint req ≠ EmptyString →
      ∃ e, TRequest lib fuel req s' = (Done (inl e), s') ∧ errors_is "rpc.ErrClosed" e = true) ∧
    (∀ W (cfg : ConsumerConfig W), cc_Endpoint cfg ≠ EmptyString → is_Some (cc_Handler cfg) →
      ∃ e, Consume lib cfg s' = (Done (inl e), s') ∧ errors_is "rpc.ErrClosed" e = true).
Proof.
  intros Hh Hc Hs. destruct (Close_run s Hh Hc Hs) as (err & h & b & Hrun & _ & Hdone).
  set (s' := St _ h b []) in Hrun.
  assert (∀ l, l = [] ∨ l = [pubMu] → connectionForUse lib (St (tr s') h b l) =
    (Done (inl ErrClosed), St (tr s') h b l)) as Hcon.
  { intros l Hl. unfold connectionForUse. rewrite locked_get; [done|]. cbn [held]. destruct Hl as [-> | ->]; set_solver. }
  assert (connectionForUse lib s' = (Done (inl ErrClosed), s')) as Hcon0 by (apply (Hcon []); auto).
  exists err, s'. split_and!; [done|apply (Close_again s'); [apply not_elem_of_nil|done]|done|done|done|exact Hdone|..].
  - intros req Hreq. exists (Wrapf "amqp: get connection for publish: " ErrClosed EmptyString).
    split; [|reflexivity]. unfold Publish. rewrite decide_False by done.
    unfold mbind at 1, Go_bind at 1, publishChannel. unfold mbind at 1, Go_bind at 1.
    rewrite lock_free by apply not_elem_of_nil. unfold mbind at 1, Go_bind at 1, get at 1.
    unfold mbind at 1, Go_bind at 1. change (pubCh (tr (St (tr s') _ _ _))) with (@None nat).
    change (St (tr s') (heap s') (broker s') (pubMu :: held s')) with (St (tr s') h b [pubMu]).
    cbv iota. unfold mret at 1, Go_ret at 1. unfold mbind at 1, Go_bind at 1.
    rewrite (Hcon [pubMu]) by auto. unfold mbind, Go_bind. by rewrite unlock_top by set_solver.
  - intros fuel req Hreq. exists (Wrapf "amqp request: get connection: " ErrClosed EmptyString).
    split; [|reflexivity]. unfold TRequest. rewrite decide_False by done.
    unfold mbind, Go_bind. by rewrite Hcon0.
  - intros W cfg He [hd Hhd]. exists (Wrapf "amqp consume: get connection: " ErrClosed EmptyString).
    split; [|reflexivity]. unfold Consume. rewrite decide_False, Hhd by done.
    unfold mbind at 1, Go_bind at 1, get at 1. unfold mbind at 1, Go_bind at 1, setupConsumer.
    unfold mbind at 1, Go_bind at 1. by rewrite Hcon0.
Qed.
End connections.

(** ** [Request] *)

Section request.
Context `{UnicodeTables} {B : Type} (lib : amqp091 B).

(** The stream gives the events [evs], from the broker state [b] to [b']. *)
Fixpoint yields (stream : nat) (timeout : Z) (evs : list reply_event) (b b' : B) : Prop :=
  match evs with
  | [] => b = b'
  | ev :: evs' => ∃ b1, next_reply lib stream timeout b = Some (ev, b1) ∧ yields stream timeout evs' b1 b'
  end.

(** What a caller gets for the event that ends the wait. *)
Definition reply_of (ev : reply_event) : result Reply :=
  match ev with
  | CtxDone deadline err => inl (if deadline then ErrTimeout else err)
  | StreamClosed => inl (Errorf "amqp request: reply channel closed")
  | Incoming d => inr {| rep_Body := raw_Body d; rep_ContentType := raw_ContentType d;
                         rep_Headers := tableToStringHeaders (raw_Headers d);
                         rep_CorrelationID := raw_CorrelationId d |}
  end.

(** Replies to other requests, and events that end the wait. *)
Definition stale (cid : string) (d : raw_delivery) : Prop := raw_CorrelationId d ≠ cid.
Definition ends_wait (cid : string) (ev : reply_event) : Prop :=
  match ev with Incoming d => raw_CorrelationId d = cid | _ => True end.

Lemma await_reply_skips cid stream timeout ds b' : ∀ fuel b,
  Forall (stale cid) ds → yields stream timeout (Incoming <$> ds) b b' → (length ds ≤ fuel)%nat →
  await_reply lib fuel stream timeout cid b = await_reply lib (fuel - length ds) stream timeout cid b'.
Proof.
  induction ds as [|d ds IH]; intros fuel b Hst Hy Hle; cbn in *; [by rewrite Nat.sub_0_r, Hy|].
  apply Forall_cons in Hst as [Hd Hst]. destruct Hy as (b1 & E & Hy). destruct fuel as [|f]; [lia|].
  cbn [await_reply Nat.sub]. rewrite E. cbn [examine]. rewrite decide_True by done. apply IH; [done..|lia].
Qed.

Lemma await_reply_short cid stream timeout ds b' : ∀ fuel b,
  Forall (stale cid) ds → yields stream timeout (Incoming <$> ds) b b' → (fuel <= length ds)%nat →
  (await_reply lib fuel stream timeout cid b).1 = None.
Proof.
  induction ds as [|d ds IH]; intros [|f] b Hst Hy Hle; cbn in *; try done; [lia|].
  apply Forall_cons in Hst as [Hd Hst]. destruct Hy as (b1 & E & Hy). rewrite E. cbn [examine].
  rewrite decide_True by done. apply IH; [done..|lia].
Qed.

Lemma yields_app stream timeout evs ev b b' :
  yields stream timeout (evs ++ [ev]) b b' →
  ∃ b1, yields stream timeout evs b b1 ∧ next_reply lib stream timeout b1 = Some (ev, b').
Proof.
  revert b. induction evs as [|e evs IH]; intros b; cbn.
  - intros (b1 & Hn & <-). eauto.
  - intros (b1 & Hn & Hy). destruct (IH _ Hy) as (b2 & ? & ?). eauto 10.
Qed.

Lemma await_reply_ends cid stream timeout ds ev fuel b b' :
  Forall (stale cid) ds → ends_wait cid ev → yields stream timeout ((Incoming <$> ds) ++ [ev]) b b' →
  (await_reply lib fuel stream timeout cid b).1 =
  if decide (length ds < fuel)%nat then Some (reply_of ev) else None.
Proof.
  intros Hst Hev (b1 & Hy & Hn)%yields_app. case_decide; [|eapply await_reply_short; [done..|lia]].
  rewrite (await_reply_skips cid _ _ _ _ _ _ Hst Hy) by lia. destruct (fuel - length ds)%nat eqn:Ef; [lia|].
  cbn. rewrite Hn. destruct ev as [dl err| |d]; cbn in *; [done..|]. by rewrite decide_False by auto.
Qed.

Lemma await_reply_parked cid stream timeout ds fuel b b' :
  Forall (stale cid) ds → yields stream timeout (Incoming <$> ds) b b' → next_reply lib stream timeout b' = None →
  (await_reply lib fuel stream timeout cid b).1 = None.
Proof.
  intros Hst Hy Hn. destruct (decide (length ds ≤ fuel)%nat); [|eapply await_reply_short; [done..|lia]].
  rewrite (await_reply_skips cid _ _ _ _ _ _ Hst Hy) by lia. destruct (fuel - length ds)%nat; cbn; [done|]. by rewrite Hn.
Qed.

Lemma await_logged fuel stream timeout cid : ∀ b l,
  await_reply (logged lib) fuel stream timeout cid (b, l) =
  let '(r, b') := await_reply lib fuel stream timeout cid b in (r, (b', l)).
Proof.
  induction fuel as [|f IH]; intros b l; cbn; [done|].
  destruct (next_reply lib stream timeout b) as [[ev b1]|]; [|done]. destruct (examine cid ev); [done|]. apply IH.
Qed.

(** The correlation id of a call, and its message. *)
Definition request_id (req : Request) : M B string :=
  if decide (req_CorrelationID req = EmptyString) then uuid_NewString lib else mret (req_CorrelationID req).
Definition request_message (req : Request) (cid q : string) : Publishing :=
  {| pub_ContentType := json_default (req_ContentType req); pub_CorrelationId := cid; pub_ReplyTo := q;
     pub_Headers := stringHeadersToTable (req_Headers req); pub_Body := req_Body req |}.

(** The calls that [Request] makes on its channel, and what it returns when they
    succeed. *)
Lemma request_on_logged fuel ch req b l :
  ∃ r b' new, request_on (logged lib) fuel ch req (b, l) = (r, (b', l ++ new)) ∧ (OpChClose ch ∉ new) ∧
    (length (omap publish_of new) <= 1)%nat ∧
    ∀ q b2 stream b3 cid b4 b5,
      ch_QueueDeclare lib ch EmptyString false true true b = (inr q, b2) →
      ch_Consume lib ch q true true b2 = (inr stream, b3) → request_id req b3 = (cid, b4) →
      ch_Publish lib ch (req_Endpoint req) (request_message req cid q) b4 = (None, b5) →
      new = [OpDeclare ch EmptyString; OpConsume ch q; OpPublish ch (req_Endpoint req) (request_message req cid q)] ∧
      r = (await_reply lib fuel stream (req_Timeout req) cid b5).1.
Proof.
  unfold request_on. unfold mbind at 1, M_bind at 1. cbn [logged ch_QueueDeclare]. unfold log1 at 1. cbn [fst snd].
  destruct (ch_QueueDeclare lib ch EmptyString false true true b) as [[e|q] b2] eqn:E1.
  { eexists _, _, _. split; [reflexivity|]. split; [set_solver|]. split; [cbn; lia|]. intros; congruence. }
  unfold mbind at 1, M_bind at 1. cbn [logged ch_Consume]. unfold log1 at 1. cbn [fst snd].
  destruct (ch_Consume lib ch q true true b2) as [[e|stream] b3] eqn:E2.
  { eexists _, _, [_; _]. split; [unfold mret, M_ret; rewrite <- app_assoc; reflexivity|].
    split; [set_solver|]. split; [cbn; lia|]. intros; congruence. }
  unfold mbind at 1, M_bind at 1.
  replace ((if decide (req_CorrelationID req = EmptyString) then uuid_NewString (logged lib)
            else mret (req_CorrelationID req)) (b3, (l ++ [OpDeclare ch EmptyString]) ++ [OpConsume ch q]))
    with ((let '(cid, b4) := request_id req b3 in (cid, (b4, (l ++ [OpDeclare ch EmptyString]) ++ [OpConsume ch q]))))
    by (unfold request_id; case_decide; [done|done]).
  destruct (request_id req b3) as [cid b4] eqn:E3.
  unfold mbind at 1, M_bind at 1. cbn [logged ch_Publish]. unfold log1 at 1. cbn [fst snd].
  fold (request_message req cid q). destruct (ch_Publish lib ch _ _ b4) as [[e|] b5] eqn:E4.
  { eexists _, _, [_; _; _]. split; [unfold mret, M_ret; rewrite <- !app_assoc; reflexivity|].
    split; [set_solver|]. split; [cbn; lia|]. intros; congruence. }
  rewrite await_logged. destruct (await_reply lib fuel stream (req_Timeout req) cid b5) as [r b6] eqn:E5.
  eexists _, _, [_; _; _]. split; [rewrite <- !app_assoc; reflexivity|]. split; [set_solver|]. split; [cbn; lia|].
  intros q' b2' stream' b3' cid' b4' b5' [= <- <-]. rewrite E2. intros [= <- <-]. rewrite E3. intros [= <- <-].
  rewrite E4. intros [= <-]. by rewrite E5.
Qed.

(** C23: an RPC over an open connection. It opens one channel and closes it
    exactly once, as its last call, whenever it returns, on every path: failures
    of the declaration of the reply queue, of the consumer, of the publication and
    of the wait included; while it waits the channel is open. When those calls
    succeed, the request was published once, with its correlation id (a new one if
    it had none) and the name of the reply queue, and the call returns the first
    reply that carries that id, whatever the number of other replies before it;
    the end of the context gives [ErrTimeout] for a deadline and the context's
    error otherwise. Until such an event comes, it does not return. *)
Theorem request_returns_matching_reply req s c fuel :
  held s = [] → conn (tr s) = Some c → conn_IsClosed lib c (broker s).1 = false → req_Endpoint req ≠ EmptyString →
  ∃ o s', TRequest (logged lib) fuel req s = (o, s') ∧ tr s' = tr s ∧ heap s' = heap s ∧ held s' = [] ∧
    match conn_Channel lib c (broker s).1 with
    | (inl err, _) => o = Done (inl (Wrapf "amqp request: open channel: " err EmptyString)) ∧
        calls s' = calls s ++ [OpChannel c]
    | (inr ch, b1) => ∃ new, (OpChClose ch ∉ new) ∧ (length (omap publish_of new) <= 1)%nat ∧
        match o with
        | Done _ => calls s' = calls s ++ OpChannel c :: new ++ [OpChClose ch]
        | Parked => calls s' = calls s ++ OpChannel c :: new
        | _ => False
        end ∧
        ∀ q b2 stream b3 cid b4 b5,
          ch_QueueDeclare lib ch EmptyString false true true b1 = (inr q, b2) →
          ch_Consume lib ch q true true b2 = (inr stream, b3) → request_id req b3 = (cid, b4) →
          ch_Publish lib ch (req_Endpoint req) (request_message req cid q) b4 = (None, b5) →
          omap publish_of new = [(req_Endpoint req, request_message req cid q)] ∧
          (∀ ds ev b6, Forall (stale cid) ds → ends_wait cid ev →
             yields stream (req_Timeout req) ((Incoming <$> ds) ++ [ev]) b5 b6 →
             o = if decide (length ds < fuel)%nat then Done (reply_of ev) else Parked) ∧
          (∀ ds b6, Forall (stale cid) ds → yields stream (req_Timeout req) (Incoming <$> ds) b5 b6 →
             next_reply lib stream (req_Timeout req) b6 = None → o = Parked)
    end.
Proof.
  intros Hh Hc Hl He. unfold TRequest. rewrite decide_False by done.
  unfold mbind at 1, Go_bind at 1. rewrite connectionForUse_run by (rewrite Hh; set_solver).
  unfold is_live. rewrite Hc. cbn [logged conn_IsClosed]. rewrite Hl. cbn [negb]. unfold open_channel.
  unfold mbind at 1, Go_bind at 1, call at 1. cbn [logged conn_Channel]. unfold log1 at 1.
  destruct (conn_Channel lib c (broker s).1) as [[err|ch] b1].
  { eexists _, _. split; [reflexivity|]. by split_and!. }
  destruct (request_on_logged fuel ch req b1 ((broker s).2 ++ [OpChannel c])) as (r & b' & new & Hon & Hn & Hp & Hrest).
  unfold mbind at 1, Go_bind at 1, call at 1. cbn [broker tr heap held]. rewrite Hon.
  assert (∀ o : outcome (result Reply), o = match r with Some x => Done x | None => Parked end →
    ∀ q b2 stream b3 cid b4 b5,
      ch_QueueDeclare lib ch EmptyString false true true b1 = (inr q, b2) →
      ch_Consume lib ch q true true b2 = (inr stream, b3) → request_id req b3 = (cid, b4) →
      ch_Publish lib ch (req_Endpoint req) (request_message req cid q) b4 = (None, b5) →
      omap publish_of new = [(req_Endpoint req, request_message req cid q)] ∧
      (∀ ds ev b6, Forall (stale cid) ds → ends_wait cid ev →
         yields stream (req_Timeout req) ((Incoming <$> ds) ++ [ev]) b5 b6 →
         o = if decide (length ds < fuel)%nat then Done (reply_of ev) else Parked) ∧
      (∀ ds b6, Forall (stale cid) ds → yields stream (req_Timeout req) (Incoming <$> ds) b5 b6 →
         next_reply lib stream (req_Timeout req) b6 = None → o = Parked)) as Hall.
  { intros o -> q b2 stream b3 cid b4 b5 H1 H2 H3 H4. destruct (Hrest _ _ _ _ _ _ _ H1 H2 H3 H4) as [-> ->].
    split; [done|]. split.
    - intros ds ev b6 Hst Hev Hy. rewrite (await_reply_ends _ _ _ _ _ _ _ _ Hst Hev Hy). by case_decide.
    - intros ds b6 Hst Hy Hnn. by rewrite (await_reply_parked _ _ _ _ _ _ _ Hst Hy Hnn). }
  destruct r as [r|].
  - unfold mbind, Go_bind, call. cbn [logged ch_Close broker tr heap held]. unfold log1.
    destruct (ch_Close lib ch b') as [e b7] eqn:Ecl. cbn [fst]. rewrite Ecl. eexists _, _. split; [reflexivity|].
    split; [done|]. split; [done|]. split; [done|]. exists new. split; [done|]. split; [done|].
    split; [unfold calls; cbn; by rewrite <- !app_assoc|]. by apply Hall.
  - eexists _, _. split; [reflexivity|]. split; [done|]. split; [done|]. split; [done|]. exists new. split; [done|].
    split; [done|]. split; [unfold calls; cbn; by rewrite <- !app_assoc|]. by apply Hall.
Qed.

(** ** [Consume] *)

(** [Consume] on an open connection. Either the subscription is recorded
    (its queue is the prefixed endpoint, declared before the prefetch is set to
    the concurrency, at least one, and before the consumer is started, on one
    new channel that stays open), or an error is returned, the transport is
    unchanged and the channel that was opened is closed. *)
Theorem consume_registers_or_cleans_up {W} (cfg : ConsumerConfig W) s c ch b1 :
  held s = [] → conn (tr s) = Some c → conn_IsClosed lib c (broker s).1 = false →
  cc_Endpoint cfg ≠ EmptyString → is_Some (cc_Handler cfg) →
  conn_Channel lib c (broker s).1 = (inr ch, b1) →
  let queue := endpointPrefix (tr s) +:+ cc_Endpoint cfg in
  ∃ r s' new, Consume (logged lib) cfg s = (Done r, s') ∧ held s' = [] ∧
    calls s' = calls s ++ OpChannel c :: new ∧
    match r with
    | inl _ => tr s' = tr s ∧ heap s' = heap s ∧ last new = Some (OpChClose ch)
    | inr (sub, _, cfg') =>
        tr s' = set_subs (subs (tr s) ++ [sub]) (tr s) ∧ heap s !! sub = None ∧
        heap s' !! sub = Some {| s_endpoint := queue; s_ch := Some ch; s_done := false |} ∧
        0 < cc_Concurrency cfg' ∧ 0 < cc_Timeout cfg' ∧
        new = [OpDeclare ch queue; OpQos ch (cc_Concurrency cfg'); OpConsume ch queue]
    end.
Proof.
  intros Hh Hc Hl He [h Hhd] Hch queue. unfold Consume. rewrite decide_False, Hhd by done. cbv zeta.
  cbn [cc_Endpoint cc_Concurrency].
  set (n := if cc_Concurrency cfg <=? 0 then 1 else cc_Concurrency cfg).
  set (tmo := if cc_Timeout cfg <=? 0 then 30 * Second else cc_Timeout cfg).
  assert (0 < n) as Hn by (unfold n; case_match; lia).
  assert (0 < tmo) as Ht by (unfold tmo, Second; case_match; lia).
  unfold mbind at 1, Go_bind at 1, get at 1. unfold mbind at 1, Go_bind at 1, setupConsumer.
  unfold mbind at 1, Go_bind at 1. rewrite connectionForUse_run by (rewrite Hh; set_solver).
  unfold is_live. rewrite Hc. cbn [logged conn_IsClosed]. rewrite Hl. cbn [negb].
  unfold mbind at 1, Go_bind at 1, open_channel, call at 1. cbn [logged conn_Channel]. unfold log1 at 1.
  rewrite Hch. unfold call at 1. cbn [broker tr heap held]. unfold setup_on.
  cbn [logged ch_QueueDeclare ch_Qos ch_Consume ch_Close].
  unfold mbind, M_bind, log1, mret, M_ret. cbn [fst snd]. fold queue. unfold calls.
  repeat first
    [ destruct (ch_QueueDeclare lib ch queue true false false b1) as [[e1|q1] b2]; cbn [fst snd]
    | destruct (ch_Qos lib ch n _) as [[e2|] b3]; cbn [fst snd]
    | destruct (ch_Consume lib ch queue false false _) as [[e3|stream] b4]; cbn [fst snd] ].
  4: { unfold Go_bind, alloc. cbn [tr heap broker held].
       rewrite lock_free by (cbn; rewrite Hh; set_solver). unfold modify. cbn [tr heap broker held].
       rewrite unlock_top by (rewrite Hh; set_solver).
       eexists _, _, _. split; [reflexivity|]. split; [done|]. split; [cbn; by rewrite <- !app_assoc|].
       cbn. split_and!; try done; [by apply lookup_ge_None|].
       by rewrite lookup_app_r, Nat.sub_diag by done. }
  all: destruct (ch_Close lib ch _) as [e b5]; eexists _, _, _; split; [reflexivity|];
       split; [done|]; split; [cbn; by rewrite <- !app_assoc|]; done.
Qed.
End request.

(** ** A concrete broker *)

(** The number of dials, the closed connections, and the replies to come. *)
Record demo_broker := DB { dials : nat; closed_conns : list nat; replies : list reply_event }.

Definition demo_lib : amqp091 demo_broker := {|
  dial := λ _ b, let c := S (max_list (closed_conns b) + dials b) in
            (inr c, DB (S (dials b)) (closed_conns b) (replies b));
  conn_IsClosed := λ c b, bool_decide (c ∈ closed_conns b);
  conn_Channel := λ c b, (inr (100 + c)%nat, b);
  conn_Close := λ c b, (None, DB (dials b) (c :: closed_conns b) (replies b));
  ch_IsClosed := λ c b, bool_decide ((c - 100)%nat ∈ closed_conns b);
  ch_Close := λ _ b, (None, b);
  ch_QueueDeclare := λ _ q _ _ _ b, (inr (if decide (q = EmptyString) then "amq.gen-1" else q), b);
  ch_Qos := λ _ _ b, (None, b);
  ch_Consume := λ _ _ _ _ b, (inr 1%nat, b);
  ch_Publish := λ _ _ _ b, (None, b);
  raw_Ack := λ _ b, (None, b);
  raw_Nack := λ _ _ b, (None, b);
  next_reply := λ _ _ b, match replies b with
    | [] => None
    | ev :: r => Some (ev, DB (dials b) (closed_conns b) r) end;
  uuid_NewString := λ b, ("uuid", b);
|}.

Lemma max_list_fresh l n : S (max_list l + n) ∉ l.
Proof. intros Hin. apply max_list_elem_of_le in Hin. lia. Qed.

#[global] Instance demo_laws : AmqpLaws demo_lib.
Proof.
  split; cbn.
  - intros d b c b' [= <- <-]. cbn. apply bool_decide_eq_false. apply max_list_fresh.
  - intros d b r b' c [= <- <-]. done.
  - intros c b e b' c' [= <- <-] Hne. cbn. apply bool_decide_ext. set_solver.
  - intros ch b e b' c [= <- <-]. done.
Defined.

(** A transport whose connection 1 was dropped by the broker. *)
Definition dropped : st demo_broker :=
  St (set_dialFn (Some 0%nat) (New (Some 1%nat))) [] (DB 1 [1%nat] []) [].
Definition healthy (r : list reply_event) : st demo_broker :=
  St (set_dialFn (Some 0%nat) (New (Some 1%nat))) [] (DB 1 [] r) [].
Definition demo_req : Request :=
  {| req_Endpoint := "q"; req_Body := "hi"; req_ContentType := EmptyString; req_Headers := ∅;
     req_CorrelationID := "c1"; req_Timeout := 0 |}.
Definition demo_raw (cid reply_to : string) : raw_delivery :=
  {| raw_tag := 1; raw_Body := "ok"; raw_ContentType := "text/plain"; raw_Headers := ∅;
     raw_CorrelationId := cid; raw_ReplyTo := reply_to |}.

(** A message without a reply queue, handled with success, goes back to its
    queue. *)
Lemma adapter_handler_over_amqp_witness :
  ∃ s', handle_delivery (logged demo_lib) 0 "q" (wrap (λ _, Ret (inr ("done", EmptyString))))
          (demo_raw "c1" EmptyString) tt
          (St (New (Some 1%nat)) [{| s_endpoint := "q"; s_ch := Some 101%nat; s_done := false |}]
             (DB 1 [] [], []) []) = (Done tt, s') ∧
        calls s' = [OpNack (demo_raw "c1" EmptyString) true].
Proof.
  apply (adapter_handler_over_amqp demo_lib (λ _, Ret (inr ("done", EmptyString))) 0 "q"
    (demo_raw "c1" EmptyString) {| s_endpoint := "q"; s_ch := Some 101%nat; s_done := false |} 101 tt
    (St (New (Some 1%nat)) [{| s_endpoint := "q"; s_ch := Some 101%nat; s_done := false |}]
             (DB 1 [] [], []) []) (inr ("done", EmptyString)) tt); reflexivity.
Defined.

Lemma connection_for_use_is_live_witness :
  ∃ r s', connectionForUse demo_lib dropped = (Done r, s') ∧ held s' = [] ∧
    closed (tr s') = closed (tr dropped) ∧
    match r with
    | inr oc => ∃ c, oc = Some c ∧ conn (tr s') = Some c ∧ conn_IsClosed demo_lib c (broker s') = false ∧
                (is_live demo_lib dropped = true ∧ s' = dropped ∨
                 is_live demo_lib dropped = false ∧ closed (tr dropped) = false ∧ pubCh (tr s') = None)
    | inl err => is_live demo_lib dropped = false ∧ tr s' = tr dropped ∧
                 (if closed (tr dropped) then err = ErrClosed ∧ s' = dropped
                  else dial demo_lib 0 (broker dropped) = (inl err, broker s'))
    end.
Proof. apply (connection_for_use_is_live demo_lib dropped 0); reflexivity. Defined.

Lemma publish_after_drop_deadlocks_witness :
  ∃ s', Publish demo_lib demo_req dropped = (Blocked pubMu, s') ∧
    held s' = [dialMu; pubMu] ∧ conn (tr s') = Some 3%nat ∧
    (∀ d', reconnect demo_lib d' s' = (Blocked dialMu, s')) ∧
    (∀ req', req_Endpoint req' ≠ EmptyString → Publish demo_lib req' s' = (Blocked pubMu, s')).
Proof.
  apply (publish_after_drop_deadlocks demo_lib demo_req dropped 0 3 (DB 2 [1%nat] []));
    [reflexivity..|exact I|reflexivity|done].
Defined.

Lemma close_is_final_witness :
  ∃ err s', Close demo_lib (healthy []) = (Done err, s') ∧ Close demo_lib s' = (Done err, s') ∧
    conn (tr s') = None.
Proof.
  destruct (close_is_final (H:=ascii_tables) demo_lib (healthy [])) as (err & s' & H1 & H2 & H3 & _);
    [reflexivity|reflexivity|constructor|].
  exists err, s'. split; [exact H1|]. split; [exact H2|exact H3].
Defined.

(** A stale reply is skipped; the channel of the call is closed after the wait. *)
Lemma request_returns_matching_reply_witness :
  let queued := [Incoming (demo_raw "old" EmptyString); Incoming (demo_raw "c1" EmptyString)] in
  let s := St (set_dialFn (Some 0%nat) (New (Some 1%nat))) [] (DB 1 [] queued, []) [] in
  ∃ s' new, TRequest (logged demo_lib) 2 demo_req s = (Done (reply_of (Incoming (demo_raw "c1" EmptyString))), s') ∧
    calls s' = OpChannel 1 :: new ++ [OpChClose 101] ∧
    omap publish_of new = [("q", request_message demo_req "c1" "amq.gen-1")].
Proof.
  intros queued s. set (b := DB 1 [] queued).
  destruct (request_returns_matching_reply demo_lib demo_req s 1 2 eq_refl eq_refl eq_refl ltac:(done))
    as (o & s' & Hr & _ & _ & _ & new & _ & _ & Hcalls & Hall).
  destruct (Hall "amq.gen-1" b 1%nat b "c1" b b eq_refl eq_refl eq_refl eq_refl) as (Hpub & Hreply & _).
  assert (o = Done (reply_of (Incoming (demo_raw "c1" EmptyString)))) as ->.
  { apply (Hreply [demo_raw "old" EmptyString] (Incoming (demo_raw "c1" EmptyString)) (DB 1 [] [])).
    - constructor; [|constructor]. done.
    - reflexivity.
    - eexists. split; [reflexivity|]. eexists. split; [reflexivity|]. reflexivity. }
  exists s', new. split; [exact Hr|]. split; [exact Hcalls|exact Hpub].
Defined.

Lemma consume_registers_or_cleans_up_witness :
  let cfg := {| cc_Endpoint := "execute"; cc_Handler := Some (λ _ : Delivery, Ret (W:=unit) None);
                cc_Timeout := 0; cc_Concurrency := 0 |} in
  let s := St (set_endpointPrefix "yggdrasil.adapter.x." (New (Some 1%nat))) [] (DB 1 [] [], []) [] in
  ∃ r s' new, Consume (H:=ascii_tables) (logged demo_lib) cfg s = (Done r, s') ∧
    calls s' = OpChannel 1 :: new.
Proof.
  intros cfg s.
  destruct (consume_registers_or_cleans_up (H:=ascii_tables) demo_lib cfg s 1 101 (DB 1 [] []))
    as (r & s' & new & H1 & _ & H3 & _); [reflexivity..|done|by eexists|reflexivity|].
  exists r, s', new. split; [exact H1|exact H3].
Defined.
