(* ===== verification/Recover.v ===== *)
(** * Recovery of the AMQP transport

    The two goroutines of src/rpc/amqp/amqp.go that run for ever: [watchdogLoop],
    which dials again when the broker drops the connection, and
    [runWithReconnect], which binds a subscription again when its channel closes.
    Both survive an outage of any length, with the delays of Backoff, and end
    when they are told to. *)
From Stdlib Require Import Ascii ZArith.
From stdpp Require Import prelude gmap strings list.
From S2P Require Import Prelude GoStrings GoText Rpc Backoff Adapter Amqp AmqpSpec.

Section recover.
Context `{UnicodeTables} {B : Type} (lib : amqp091 B).

(** What the rest of the program does during the [i]-th wait. *)
Context (world : nat → st B → st B).

(** The delays of [k] failures in a row. *)
Definition delays (k : nat) : list Z := nth_backoff <$> seq 0 k.

(** ** The watchdog *)

(** The connection is dead and can be dialed again; nobody is inside the
    transport. *)
Definition down (d : nat) (s : st B) : Prop :=
  held s = [] ∧ closed (tr s) = false ∧ dialFn (tr s) = Some d ∧ is_live lib s = false.

(** From the wait [i] on, [k] dials fail and the next one gives [c]. *)
Inductive outage (d : nat) : nat → nat → st B → nat → st B → Prop :=
| outage_over i s c b :
    down d s → dial lib d (broker s) = (inr c, b) → outage d i 0 s c (redialed lib s c b)
| outage_lasts i k s err b c s' :
    down d s → dial lib d (broker s) = (inl err, b) →
    let s1 := world i (St (tr s) (heap s) b (held s)) in
    outage d (S i) k s1 c s' → outage d i (S k) s c s'.

Lemma outage_down d i k s c s' : outage d i k s c s' → down d s.
Proof. by destruct 1. Qed.

(** An iteration on a dead connection dials. *)
Lemma watchdog_iter_down d backoff s :
  down d s →
  watchdog_iter lib backoff s =
  match dial lib d (broker s) with
  | (inl _, b) => (Done (WdSleep backoff (next_backoff backoff)), St (tr s) (heap s) b (held s))
  | (inr c, b) => (Done (WdLoop Second), redialed lib s c b)
  end.
Proof.
  intros (Hh & Hc & Hd & Hl). assert (∀ m, m ∉ held s) as Hfree by (intros m; rewrite Hh; apply not_elem_of_nil).
  unfold watchdog_iter. unfold mbind at 1, Go_bind at 1, get at 1. rewrite Hc, locked_get by done. rewrite Hd.
  unfold mbind at 1, Go_bind at 1. rewrite live_run. fold (is_live lib s). rewrite Hl.
  unfold mbind at 1, Go_bind at 1. rewrite reconnect_run by done. rewrite Hl, Hc.
  by destruct (dial lib d (broker s)) as [[err|c] b].
Qed.

(** On a live connection it listens for its end. *)
Lemma watchdog_iter_live backoff s d :
  held s = [] → closed (tr s) = false → dialFn (tr s) = Some d → is_live lib s = true →
  watchdog_iter lib backoff s = (Done WdListen, s).
Proof.
  intros Hh Hc Hd Hl. unfold watchdog_iter. unfold mbind at 1, Go_bind at 1, get at 1.
  rewrite Hc, locked_get by (rewrite Hh; apply not_elem_of_nil). rewrite Hd.
  unfold mbind at 1, Go_bind at 1. rewrite live_run. fold (is_live lib s). by rewrite Hl.
Qed.

Lemma watchdogLoop_S f i backoff slept :
  watchdogLoop lib world (S f) i backoff slept =
  (n ← watchdog_iter lib backoff;
   match n with
   | WdReturn => mret (true, slept)
   | WdLoop b => watchdogLoop lib world f i b slept
   | WdSleep d b =>
       _ ← others (world i); t ← get;
       if closed t then mret (true, slept) else watchdogLoop lib world f (S i) b (slept ++ [d])
   | WdListen =>
       _ ← others (world i); t ← get;
       if closed t then mret (true, slept) else watchdogLoop lib world f (S i) Second slept
   end).
Proof. reflexivity. Qed.

Lemma outage_rounds d i k s c s' : outage d i k s c s' → ∀ f n slept,
  watchdogLoop lib world (S k + f) i (nth_backoff n) slept s =
  watchdogLoop lib world f (i + k) Second (slept ++ (nth_backoff <$> seq n k)) s'.
Proof.
  induction 1 as [i s c b Hd Hdial|i k s err b c s' Hd Hdial s1 Ho IH]; intros f n slept;
    cbn [Nat.add]; rewrite watchdogLoop_S; unfold mbind at 1, Go_bind at 1; rewrite (watchdog_iter_down _ _ _ Hd), Hdial.
  - rewrite Nat.add_0_r. cbn. by rewrite app_nil_r.
  - unfold mbind at 1, Go_bind at 1, others at 1. fold s1. unfold mbind at 1, Go_bind at 1, get at 1.
    destruct (outage_down _ _ _ _ _ _ Ho) as (_ & -> & _). rewrite next_backoff_nth.
    change (watchdogLoop lib world (S (k + f))) with (watchdogLoop lib world (S k + f)). rewrite IH.
    rewrite <- app_assoc. cbn. by rewrite Nat.add_succ_r.
Qed.

Lemma outage_end `{!AmqpLaws lib} d i k s c s' : outage d i k s c s' →
  held s' = [] ∧ closed (tr s') = false ∧ dialFn (tr s') = Some d ∧ conn (tr s') = Some c ∧ is_live lib s' = true.
Proof.
  induction 1 as [i s c b (Hh & Hc & Hd & Hl) Hdial|]; [|done]. split_and!; [done..|].
  unfold is_live. cbn [tr redialed conn set_conn set_pubCh]. by rewrite (redialed_live lib s d c b).
Qed.

(** C24: the watchdog recovers. If the broker refuses any number [k] of dials and
    then accepts one, the watchdog sleeps between them for the doubling delays
    (1, 2, 4, ... and at most 30 seconds), installs the new connection, which is
    open, resets its delay and listens for the end of that connection; and it
    returns without another dial if the transport is closed while it waits. *)
Theorem watchdog_recovers `{!AmqpLaws lib} d k s c s' fuel :
  outage d 0 k s c s' →
  conn (tr s') = Some c ∧ is_live lib s' = true ∧
  watchdogLoop lib world (S (S k) + fuel) 0 Second [] s =
    (let s1 := world k s' in
     if closed (tr s1) then (Done (true, delays k), s1)
     else watchdogLoop lib world fuel (S k) Second (delays k) s1) ∧
  (∀ j, j < k → delays k !! j = Some (Z.min (2 ^ Z.of_nat j) 30 * Second)%Z).
Proof.
  intros Ho. destruct (outage_end d 0 k s c s' Ho) as (Hh & Hc & Hd & Hcon & Hl). split_and!; [done|done| |].
  - replace (S (S k) + fuel) with (S k + S fuel) by lia.
    pose proof (outage_rounds d 0 k s c s' Ho (S fuel) 0 []) as Hr. change (nth_backoff 0) with Second in Hr.
    rewrite Hr. cbn [app Nat.add]. rewrite watchdogLoop_S.
    unfold mbind at 1, Go_bind at 1. rewrite (watchdog_iter_live _ _ d) by done.
    unfold mbind at 1, Go_bind at 1, others at 1. unfold mbind at 1, Go_bind at 1, get at 1. fold (delays k).
    by destruct (closed (tr (world k s'))).
  - intros j Hj. unfold delays. rewrite <- nth_backoff_closed.
    by rewrite list_lookup_fmap, lookup_seq_lt.
Qed.

(** ** The subscription *)

Section subscription.
Context (serve : nat → nat → st B → st B) (sub : nat) (endpoint : string) (n : Z).

(** From the wait [i] on, [k] set-ups fail and the next one gives the channel
    [ch] and its [stream]; the subscription is not closed meanwhile. *)
Inductive unbound : nat → nat → st B → nat → nat → st B → Prop :=
| unbound_over i s ch stream s' :
    sub_done sub (world i s) = (Done false, world i s) →
    setupConsumer lib endpoint n (world i s) = (Done (inr (ch, stream)), s') →
    unbound i 0 s ch stream s'
| unbound_lasts i k s err s1 ch stream s' :
    sub_done sub (world i s) = (Done false, world i s) →
    setupConsumer lib endpoint n (world i s) = (Done (inl err), s1) →
    unbound (S i) k s1 ch stream s' → unbound i (S k) s ch stream s'.

Abbreviation run f i ph backoff slept := (runWithReconnect lib serve world f i sub endpoint n ph backoff slept).

Lemma run_rebinding f i backoff slept :
  run (S f) i Rebinding backoff slept =
  (_ ← others (world i);
   fin ← sub_done sub;
   if (fin : bool) then mret (true, slept)
   else
     r ← setupConsumer lib endpoint n;
     match r with
     | inr (ch, stream) =>
         _ ← swapChannel sub ch; run f (S i) (Serving stream) Second (slept ++ [backoff])
     | inl _ => run f (S i) Rebinding (next_backoff backoff) (slept ++ [backoff])
     end).
Proof. reflexivity. Qed.

Lemma unbound_rounds i k s ch stream s' : unbound i k s ch stream s' → ∀ f m slept,
  run (S k + f) i Rebinding (nth_backoff m) slept s =
  (_ ← swapChannel sub ch;
   run f (i + S k) (Serving stream) Second (slept ++ (nth_backoff <$> seq m (S k)))) s'.
Proof.
  induction 1 as [i s ch stream s' Hd Hs|i k s err s1 ch stream s' Hd Hs Hu IH]; intros f m slept;
    cbn [Nat.add]; rewrite run_rebinding; unfold mbind at 1, Go_bind at 1, others at 1;
    unfold mbind at 1, Go_bind at 1; rewrite Hd; unfold mbind at 1, Go_bind at 1; rewrite Hs.
  - by rewrite Nat.add_1_r.
  - change (S (k + f)) with (S k + f). rewrite next_backoff_nth, IH, Nat.add_succ_comm, <- app_assoc. done.
Qed.

(** A subscription recovers. When its stream ends without its being closed,
    and the set-up then fails any number [k] of times and succeeds (whatever the
    cause: no connection, no channel, a refused declaration), the goroutine waits
    the doubling delays, makes the new channel that of the subscription and
    serves the new stream; and when it finds the subscription closed after the
    stream it returns at once, without a set-up. *)
Theorem subscription_recovers k s ch stream s' stream0 i slept fuel :
  let s0 := serve i stream0 s in
  (sub_done sub s0 = (Done true, s0) →
     run (S fuel) i (Serving stream0) Second slept s = (Done (true, slept), s0)) ∧
  (sub_done sub s0 = (Done false, s0) → unbound (S i) k s0 ch stream s' →
     run (S (S k) + fuel) i (Serving stream0) Second slept s =
       run fuel (i + S (S k)) (Serving stream) Second (slept ++ delays (S k))
         (St (tr s') (alter (λ x, {| s_endpoint := s_endpoint x; s_ch := Some ch; s_done := s_done x |}) sub (heap s'))
             (broker s') (held s'))).
Proof.
  intros s0. split.
  - intros Hd. cbn [runWithReconnect]. unfold mbind at 1, Go_bind at 1, others at 1. fold s0.
    unfold mbind at 1, Go_bind at 1. by rewrite Hd.
  - intros Hd Hu. cbn [Nat.add]. change (S (S (k + fuel))) with (S (S k + fuel)).
    transitivity (run (S k + fuel) (S i) Rebinding (nth_backoff 0) slept s0).
    { generalize (S k + fuel). intros f. cbn [runWithReconnect]. unfold mbind at 1, Go_bind at 1, others at 1. fold s0.
      unfold mbind at 1, Go_bind at 1. by rewrite Hd. }
    rewrite (unbound_rounds _ _ _ _ _ _ Hu). by rewrite Nat.add_succ_comm.
Qed.
End subscription.
End recover.

(** ** Witnesses *)

#[local] Existing Instance ascii_tables.

(** A broker that refuses dials until its counter of refusals is used up. *)
Definition flaky : amqp091 (nat * demo_broker) :=
  let lift {A} (m : M demo_broker A) : M (nat * demo_broker) A :=
    λ b, let '(a, b') := m b.2 in (a, (b.1, b')) in {|
  dial := λ d b, match b.1 with
    | O => lift (dial demo_lib d) b
    | S n => (inl (Errorf "connection refused"), (n, b.2))
    end;
  conn_IsClosed := λ c b, conn_IsClosed demo_lib c b.2;
  conn_Channel := λ c, lift (conn_Channel demo_lib c);
  conn_Close := λ c, lift (conn_Close demo_lib c);
  ch_IsClosed := λ c b, ch_IsClosed demo_lib c b.2;
  ch_Close := λ c, lift (ch_Close demo_lib c);
  ch_QueueDeclare := λ c q d a e, lift (ch_QueueDeclare demo_lib c q d a e);
  ch_Qos := λ c n, lift (ch_Qos demo_lib c n);
  ch_Consume := λ c q a e, lift (ch_Consume demo_lib c q a e);
  ch_Publish := λ c q p, lift (ch_Publish demo_lib c q p);
  raw_Ack := λ r, lift (raw_Ack demo_lib r);
  raw_Nack := λ r q, lift (raw_Nack demo_lib r q);
  next_reply := λ s t b, match next_reply demo_lib s t b.2 with Some (ev, b') => Some (ev, (b.1, b')) | None => None end;
  uuid_NewString := lift (uuid_NewString demo_lib);
|}.

#[local] Instance flaky_laws : AmqpLaws flaky.
Proof.
  split; cbn.
  - intros d [[|n] b] c b' Hd; simplify_eq/=. apply bool_decide_eq_false, max_list_fresh.
  - intros d [[|n] b] r b' c Hd Hc; simplify_eq/=; done.
  - intros c [n b] e b' c' Hd Hne; simplify_eq/=. 
    exact (close_other demo_lib c b None (DB (dials b) (c :: closed_conns b) (replies b)) c' eq_refl Hne).
  - intros ch [n b] e b' c Hd; simplify_eq/=. done.
Defined.

(** Connection 1 has dropped; the next two dials are refused. *)
Definition demo_down : st (nat * demo_broker) :=
  St (set_dialFn (Some 0) (New (Some 1))) [{| s_endpoint := "describe"; s_ch := Some 101; s_done := false |}]
     (2, DB 1 [1] []) [].

Lemma watchdog_recovers_witness :
  ∃ s', conn (tr s') = Some 3 ∧ is_live flaky s' = true ∧ delays 2 = [1 * Second; 2 * Second]%Z ∧
    watchdogLoop flaky (λ _ s, s) 5 0 Second [] demo_down = watchdogLoop flaky (λ _ s, s) 1 3 Second (delays 2) s'.
Proof.
  destruct (watchdog_recovers flaky (λ _ s, s) 0 2 demo_down 3
    (redialed flaky (St (tr demo_down) (heap demo_down) (0, DB 1 [1] []) []) 3 (0, DB 2 [1] [])) 1) as (H1 & H2 & H3 & _).
  { apply (outage_lasts _ _ _ _ _ _ (Errorf "connection refused") (1, DB 1 [1] [])); [done|reflexivity|].
    apply (outage_lasts _ _ _ _ _ _ (Errorf "connection refused") (0, DB 1 [1] [])); [done|reflexivity|].
    apply outage_over; [done|reflexivity]. }
  eexists. split; [exact H1|]. split; [exact H2|]. split; [reflexivity|]. exact H3.
Defined.

Definition refused : error := Wrapf "amqp consume: get connection: " (Errorf "connection refused") EmptyString.
Definition demo_bound : st (nat * demo_broker) :=
  St (set_pubCh None (set_conn (Some 3) (tr demo_down))) (heap demo_down) (0, DB 2 [1; 1] []) [].

Lemma subscription_recovers_witness :
  runWithReconnect flaky (λ _ _ s, s) (λ _ s, s) 5 0 0 "describe" 1 (Serving 1) Second [] demo_down =
  runWithReconnect flaky (λ _ _ s, s) (λ _ s, s) 1 4 0 "describe" 1 (Serving 1) Second (delays 3)
    (St (tr demo_bound) [{| s_endpoint := "describe"; s_ch := Some 103; s_done := false |}] (broker demo_bound) []).
Proof.
  apply (proj2 (subscription_recovers flaky (λ _ s, s) (λ _ _ s, s) 0 "describe" 1 2 demo_down 103 1 demo_bound 1 0 [] 1)).
  - reflexivity.
  - apply (unbound_lasts _ _ _ _ _ _ _ _ refused (St (tr demo_down) (heap demo_down) (1, DB 1 [1] []) []));
      [reflexivity|vm_compute; reflexivity|].
    apply (unbound_lasts _ _ _ _ _ _ _ _ refused (St (tr demo_down) (heap demo_down) (0, DB 1 [1] []) []));
      [reflexivity|vm_compute; reflexivity|].
    apply unbound_over; [reflexivity|vm_compute; reflexivity].
Defined.
