(* ===== verification/Deliver.v ===== *)
(** * The delivery loop of the AMQP transport, with its concurrency

    [deliverLoop] of src/rpc/amqp/amqp.go as a state machine: a semaphore of
    [Concurrency] slots admits deliveries in the order of the stream, each is
    handled by a goroutine of its own, and the goroutines interleave their
    actions with each other and with the rest of the program. *)
From Stdlib Require Import Ascii ZArith.
From stdpp Require Import prelude gmap strings list relations.
From S2P Require Import Prelude GoStrings GoText Rpc Adapter Threads Amqp AmqpSpec.

Section loop.
Context {B W : Type} (lib : amqp091 B) (sub : nat) (endpoint : string) (h : Handler W).

(** The goroutine of one delivery: what is left of its handler, and its two
    [sync.Once]. *)
Record worker := Worker { w_raw : raw_delivery; w_prog : prog W (option error); w_onces : onces }.

Definition spawn (raw : raw_delivery) : worker :=
  Worker raw (h (mk_delivery endpoint raw)) {| settled := false; replied := false |}.

(** The settlement that follows the handler. *)
Definition fallback (raw : raw_delivery) (err : option error) : M B (option error) :=
  match err with Some _ => raw_Nack lib raw false | None => raw_Ack lib raw end.

(** One action of a goroutine; [None] when it ends and frees its slot. *)
Definition work (x : worker) (w : W) : Go B (option worker * W) :=
  let go p o := Some (Worker (w_raw x) p o) in
  match w_prog x with
  | Ret err => _ ← settle (fallback (w_raw x) err) (w_onces x); mret (None, w)
  | Eff X f k => let '(v, w') := f w in mret (go (k v) (w_onces x), w')
  | AckOp k => '(err, o) ← settle (raw_Ack lib (w_raw x)) (w_onces x); mret (go (k err) o, w)
  | NackOp requeue k => '(err, o) ← settle (raw_Nack lib (w_raw x) requeue) (w_onces x); mret (go (k err) o, w)
  | ReplyOp body ct k => '(err, o) ← reply_fn lib sub (w_raw x) body ct (w_onces x); mret (go (k err) o, w)
  end.

(** The deliveries still in the stream, the goroutines, the deliveries whose
    goroutine has ended, the adapter's state and the transport. *)
Record loop := Loop {
  l_pending : list raw_delivery;
  l_running : list worker;
  l_done : list raw_delivery;
  l_w : W;
  l_st : st B;
}.

(** [n] is the capacity of the semaphore. *)
Inductive loop_step (n : nat) : loop → loop → Prop :=
| accept raw rest run fin w s :
    length run < n →
    loop_step n (Loop (raw :: rest) run fin w s) (Loop rest (run ++ [spawn raw]) fin w s)
| advance pend run fin w s i x x' w' s' :
    run !! i = Some x → work x w s = (Done (Some x', w'), s') →
    loop_step n (Loop pend run fin w s) (Loop pend (<[i := x']> run) fin w' s')
| finish pend run fin w s i x w' s' :
    run !! i = Some x → work x w s = (Done (None, w'), s') →
    loop_step n (Loop pend run fin w s) (Loop pend (delete i run) (fin ++ [w_raw x]) w' s').

(** The rest of the program acts on the transport and on the adapter's state. *)
Inductive elsewhere (E : W * st B → W * st B → Prop) : loop → loop → Prop :=
| elsewhere_at pend run fin w s w' s' :
    E (w, s) (w', s') → elsewhere E (Loop pend run fin w s) (Loop pend run fin w' s').

Definition start (raws : list raw_delivery) (w : W) (s : st B) : loop := Loop raws [] [] w s.
Definition drained (l : loop) : Prop := l_pending l = [] ∧ l_running l = [].

(** ** The loop ends *)

(** No action of a goroutine blocks or panics. *)
Lemma settle_done act o (s : st B) : ∃ e o' s', settle act o s = (Done (e, o'), s').
Proof.
  unfold settle. destruct (settled o); [by eexists _, _, _|]. unfold mbind, Go_bind, call.
  destruct (act (broker s)) as [e b]. by eexists _, _, _.
Qed.
Lemma reply_done raw body ct o (s : st B) : ∃ e o' s', reply_fn lib sub raw body ct o s = (Done (e, o'), s').
Proof.
  unfold reply_fn. case_decide; [by eexists _, _, _|]. destruct (replied o); [by eexists _, _, _|].
  unfold mbind, Go_bind, currentChannel. destruct (heap s !! sub ≫= s_ch); [|by eexists _, _, _].
  unfold call. destruct (ch_Publish lib _ _ _ _) as [e b]. by eexists _, _, _.
Qed.

(** What is left of a handler after one action. *)
Definition next_prog (p' p : prog W (option error)) : Prop :=
  match p with
  | Ret _ => False
  | Eff X _ k => ∃ x, p' = k x
  | AckOp k | NackOp _ k | ReplyOp _ _ k => ∃ e, p' = k e
  end.

Lemma next_prog_wf p : Acc next_prog p.
Proof.
  induction p as [a|X f k IH|k IH|r k IH|b c k IH]; constructor; simpl; intros p'.
  - intros [].
  - by intros [x ->].
  - by intros [x ->].
  - by intros [x ->].
  - by intros [x ->].
Qed.

Lemma work_done x w s :
  ∃ r w' s', work x w s = (Done (r, w'), s') ∧
    match r with
    | None => ∃ err, w_prog x = Ret err
    | Some x' => w_raw x' = w_raw x ∧ next_prog (w_prog x') (w_prog x)
    end.
Proof.
  unfold work. destruct x as [raw [err|X f k|k|r k|b c k] o]; simpl; unfold mbind, Go_bind.
  - destruct (settle_done (fallback raw err) o s) as (e & o' & s' & ->). eexists _, _, _.
    split; [reflexivity|]. by eexists.
  - destruct (f w) as [v w']. eexists _, _, _. split; [reflexivity|]. simpl. split; [done|]. by eexists.
  - destruct (settle_done (raw_Ack lib raw) o s) as (e & o' & s' & ->). eexists _, _, _.
    split; [reflexivity|]. simpl. split; [done|]. by eexists.
  - destruct (settle_done (raw_Nack lib raw r) o s) as (e & o' & s' & ->). eexists _, _, _.
    split; [reflexivity|]. simpl. split; [done|]. by eexists.
  - destruct (reply_done raw b c o s) as (e & o' & s' & ->). eexists _, _, _.
    split; [reflexivity|]. simpl. split; [done|]. by eexists.
Qed.

(** One goroutine moves or ends. *)
Inductive workers_step : list (prog W (option error)) → list (prog W (option error)) → Prop :=
| ws_move l i p p' : l !! i = Some p → next_prog p' p → workers_step (<[i := p']> l) l
| ws_end l i p : l !! i = Some p → workers_step (delete i l) l.

Lemma workers_wf l : Acc workers_step l.
Proof.
  induction l as [|p l IHl]; [constructor; inversion 1; done|].
  revert l IHl. induction (next_prog_wf p) as [p _ IHp]. intros l IHl.
  induction IHl as [l Hl IHl]. constructor. intros l' Hs.
  remember (p :: l) as pl eqn:Epl. destruct Hs as [pl [|i] q q' Hi Hn|pl [|i] q Hi]; subst; simpl in *.
  - simplify_eq. apply IHp; [done|]. by constructor.
  - apply IHl. by econstructor.
  - by constructor.
  - apply IHl. by eapply ws_end.
Qed.

(** A step admits a delivery, or is the step of a goroutine. *)
Lemma loop_step_inv n pend run fin w s y :
  loop_step n (Loop pend run fin w s) y →
  (∃ raw rest, pend = raw :: rest ∧ y = Loop rest (run ++ [spawn raw]) fin w s) ∨
  ∃ run' fin' w' s', y = Loop pend run' fin' w' s' ∧ workers_step (w_prog <$> run') (w_prog <$> run).
Proof.
  intros Hs. inversion Hs as [|? ? ? ? ? i x x' w' s' Hi Hw|? ? ? ? ? i x w' s' Hi Hw]; subst; [left; eauto|..];
    right; eexists _, _, _, _; (split; [reflexivity|]).
  - rewrite list_fmap_insert. apply (ws_move _ _ (w_prog x)); [by rewrite list_lookup_fmap, Hi|].
    destruct (work_done x w s) as (r & w1 & s1 & Hw' & Hn). rewrite Hw in Hw'. simplify_eq. by destruct Hn.
  - rewrite list_fmap_delete. apply (ws_end _ _ (w_prog x)). by rewrite list_lookup_fmap, Hi.
Qed.

Lemma elsewhere_same E pend run fin w s l :
  rtc (elsewhere E) (Loop pend run fin w s) l → ∃ w' s', l = Loop pend run fin w' s'.
Proof.
  remember (Loop pend run fin w s) as l0 eqn:El. intros Hs. revert w s El.
  induction Hs as [|l1 l2 l3 Hl _ IH]; intros w s ->; [eauto|]. inversion Hl; subst. by eapply IH.
Qed.

(** A goroutine can always move, and without one the next delivery is admitted. *)
Lemma loop_moves n pend run fin w s :
  0 < n → drained (Loop pend run fin w s) ∨ ∃ y, loop_step n (Loop pend run fin w s) y.
Proof.
  intros Hn. destruct run as [|x run].
  - destruct pend as [|raw pend]; [by left|right; eexists; by apply accept].
  - right. destruct (work_done x w s) as ([x'|] & w1 & s1 & Hw & _); eexists;
      [by eapply (advance _ _ _ _ _ _ 0)|by eapply (finish _ _ _ _ _ _ 0)].
Qed.

Lemma drains n E l : 0 < n → inevitable (elsewhere E) (loop_step n) drained l.
Proof.
  intros Hn. destruct l as [pend run fin w s]. revert run fin w s.
  induction pend as [|raw pend IHp]; intros run;
    remember (w_prog <$> run) as progs eqn:Ep; revert run Ep;
    induction (workers_wf progs) as [progs _ IHr]; intros run -> fin w s;
    (match goal with |- inevitable _ _ _ (Loop ?p _ _ _ _) =>
       destruct (loop_moves n p run fin w s Hn) as [Hd|Hm]; [by left|right; [exact Hm|]] end);
    intros l' y (w' & s' & ->)%elsewhere_same Hs;
    destruct (loop_step_inv _ _ _ _ _ _ _ Hs)
      as [(raw' & rest & Heq & ->)|(run' & fin' & w2 & s2 & -> & Hws)]; simplify_eq;
    solve [by eapply IHr | apply IHp].
Qed.

(** ** With one slot, the machine is the sequential loop *)

(** What remains to be done, as one computation. *)
Definition complete (x : worker) (w : W) : Go B W :=
  '(err, o, w') ← run_handler lib sub (w_raw x) (w_prog x) (w_onces x) w;
  _ ← settle (fallback (w_raw x) err) o;
  mret w'.
Definition remaining (l : loop) : outcome W * st B :=
  match l_running l with
  | [] => deliverLoop lib sub endpoint h (l_pending l) (l_w l) (l_st l)
  | x :: _ => (w' ← complete x (l_w l); deliverLoop lib sub endpoint h (l_pending l) w') (l_st l)
  end.

Lemma work_complete x w s :
  complete x w s =
  match work x w s with
  | (Done (Some x', w'), s') => complete x' w' s'
  | (Done (None, w'), s') => (Done w', s')
  | (Blocked m, s') => (Blocked m, s')
  | (Parked, s') => (Parked, s')
  | (Panicked, s') => (Panicked, s')
  end.
Proof.
  unfold complete, work. destruct x as [raw [err|X f k|k|r k|b c k] o]; simpl.
  - unfold mbind, Go_bind, mret, Go_ret. by destruct (settle _ _ s) as [[[e o']| | |] s'].
  - by destruct (f w).
  - unfold mbind, Go_bind, mret, Go_ret. by destruct (settle _ _ s) as [[[e o']| | |] s'].
  - unfold mbind, Go_bind, mret, Go_ret. by destruct (settle _ _ s) as [[[e o']| | |] s'].
  - unfold mbind, Go_bind, mret, Go_ret. by destruct (reply_fn _ _ _ _ _ _ s) as [[[e o']| | |] s'].
Qed.

Lemma remaining_step l l' :
  length (l_running l) ≤ 1 → loop_step 1 l l' → length (l_running l') ≤ 1 ∧ remaining l' = remaining l.
Proof.
  intros Hlen Hs. destruct Hs as [raw rest run fin w s Hr|pend run fin w s i x x' w' s' Hi Hw|pend run fin w s i x w' s' Hi Hw];
    simpl in *.
  - destruct run as [|x0 run]; simpl in *; [|lia]. split; [lia|]. unfold remaining. simpl.
    unfold complete, handle_delivery, spawn, fallback. simpl.
    unfold mbind, Go_bind. by destruct (run_handler _ _ _ _ _ _ _) as [[[[err o] w']| | |] s'].
  - destruct run as [|x0 [|x1 run]]; simpl in *; [done| |lia]. destruct i as [|i]; [|done].
    injection Hi as ->. split; [done|]. unfold remaining. simpl.
    unfold mbind, Go_bind. by rewrite (work_complete x w), Hw.
  - destruct run as [|x0 [|x1 run]]; simpl in *; [done| |lia]. destruct i as [|i]; [|done].
    injection Hi as ->. split; [simpl; lia|]. unfold remaining. simpl.
    unfold mbind, Go_bind. by rewrite (work_complete x w), Hw.
Qed.

(** With a [Concurrency] of 1, every complete run of the concurrent loop
    ends as the sequential loop does: deliveries are handled one after the other
    in the order of the stream. *)
Theorem serial_loop_refines_deliverLoop raws w s l :
  rtc (loop_step 1) (start raws w s) l → drained l →
  deliverLoop lib sub endpoint h raws w s = (Done (l_w l), l_st l).
Proof.
  intros Hs [Hp Hr]. assert (remaining l = remaining (start raws w s)) as Heq.
  { assert (length (l_running (start raws w s)) ≤ 1) as Hlen by (simpl; lia). revert Hlen.
    induction Hs as [|l1 l2 l3 H12 _ IH]; [done|]. intros Hlen.
    destruct (remaining_step _ _ Hlen H12) as [? <-]. by apply IH. }
  unfold remaining in Heq. rewrite Hr, Hp in Heq. simpl in Heq. by rewrite <- Heq.
Qed.

(** The delivery loop always drains its stream. Whatever the handlers do,
    however their actions interleave, and whatever the rest of the program does
    meanwhile, every delivery is admitted and its goroutine ends after finitely
    many actions; no action blocks or panics. *)
Theorem delivery_loop_drains n E raws w s :
  0 < n → inevitable (elsewhere E) (loop_step n) drained (start raws w s).
Proof. apply drains. Qed.
End loop.

(** ** Settlements *)

Section settlements.
Context {B W : Type} (lib : amqp091 B) (sub : nat) (endpoint : string) (h : Handler W).
Abbreviation L := (logged lib).
Abbreviation lst := (st (B * list op)).

(** Nobody else settles deliveries. *)
Definition undisturbed (x y : W * lst) : Prop :=
  ∃ new, calls y.2 = calls x.2 ++ new ∧ omap settle_of new = [].

Lemma work_calls (x : worker (W:=W)) w s :
  only_calls (work L sub x w) s (λ r new,
    match r.1 with
    | None => once_calls (settled (w_onces x)) true (omap settle_of new) (w_raw x)
    | Some x' => w_raw x' = w_raw x ∧
        once_calls (settled (w_onces x)) (settled (w_onces x')) (omap settle_of new) (w_raw x)
    end).
Proof.
  unfold work. destruct x as [raw [err|X f k|k|r k|b c k] o]; simpl.
  - eapply only_calls_bind.
    { unfold fallback. destruct err; [apply (settle_calls lib raw (Some false))|apply (settle_calls lib raw None)]. }
    intros [e o'] new s' [[Hd _] Hs] _. apply only_calls_ret. rewrite app_nil_r, <- Hs. exact Hd.
  - destruct (f w) as [v w']. apply only_calls_ret. simpl. split; [done|]. by destruct (settled o).
  - eapply only_calls_bind; [apply (settle_calls lib raw None)|]. intros [e o'] new s' [[Hd _] Hs] _.
    apply only_calls_ret. rewrite app_nil_r. done.
  - eapply only_calls_bind; [apply (settle_calls lib raw (Some r))|]. intros [e o'] new s' [[Hd _] Hs] _.
    apply only_calls_ret. rewrite app_nil_r. done.
  - eapply only_calls_bind; [apply reply_calls|]. intros [e o'] new s' [Hd _] _.
    apply only_calls_ret. rewrite app_nil_r. done.
Qed.

(** The deliveries in progress that are settled already. *)
Definition settled_now (run : list (worker (W:=W))) : list raw_delivery :=
  w_raw <$> filter (λ x, settled (w_onces x) = true) run.

Lemma settled_now_cons x (run : list (worker (W:=W))) :
  settled_now (x :: run) = (if settled (w_onces x) then [w_raw x] else []) ++ settled_now run.
Proof. unfold settled_now. rewrite filter_cons. by destruct (settled (w_onces x)). Qed.
Lemma settled_now_app l1 l2 : settled_now (l1 ++ l2) = settled_now l1 ++ settled_now l2.
Proof. unfold settled_now. by rewrite filter_app, fmap_app. Qed.

(** The deliveries are in the stream, in progress or done, admitted in order and
    within the slots; the settlements made are those of the deliveries that are
    done and of the ones in progress whose flag is set. *)
Definition loop_inv (n : nat) (raws : list raw_delivery) (log0 : list op) (l : loop (B:=B * list op) (W:=W)) : Prop :=
  length (l_running l) ≤ n ∧
  (∃ admitted, raws = admitted ++ l_pending l ∧ admitted ≡ₚ l_done l ++ (w_raw <$> l_running l)) ∧
  ∃ new, calls (l_st l) = log0 ++ new ∧ omap settle_of new ≡ₚ l_done l ++ settled_now (l_running l).

Lemma loop_inv_step n raws log0 l l' :
  loop_inv n raws log0 l → loop_step L sub endpoint h n l l' → loop_inv n raws log0 l'.
Proof.
  intros (Hn & (adm & Hraws & Hadm) & new & Hc & Hs) Hst.
  destruct Hst as [raw rest run fin w s Hr|pend run fin w s i x x' w' s' Hi Hw|pend run fin w s i x w' s' Hi Hw];
    simpl in *.
  - split_and!; simpl.
    + rewrite length_app. simpl. lia.
    + exists (adm ++ [raw]). rewrite <- app_assoc. split; [done|]. by rewrite fmap_app, app_assoc, Hadm.
    + exists new. split; [done|]. rewrite settled_now_app, settled_now_cons. simpl. by rewrite app_nil_r.
  - destruct (work_calls x w s) as ([[x1|] w1] & b & new1 & Hw1 & Hp); rewrite Hw in Hw1; simplify_eq; simpl in Hp.
    destruct Hp as [Hraw Ho]. rewrite <- (take_drop_middle _ _ _ Hi) in *.
    assert (i = length (take i run)) as Hlen by (rewrite length_take; apply lookup_lt_Some in Hi; lia).
    rewrite Hlen at 1. rewrite insert_app_r_alt, Nat.sub_diag by lia. simpl.
    split_and!; simpl.
    + rewrite length_app in *. simpl in *. lia.
    + exists adm. split; [done|]. rewrite fmap_app in *. simpl in *. by rewrite Hraw.
    + exists (new ++ new1). split; [by rewrite Hc, app_assoc|].
      rewrite omap_app, Hs, !settled_now_app, !settled_now_cons, Hraw.
      destruct (settled (w_onces x)), (settled (w_onces x1)); simpl in Ho; try done; rewrite Ho; simpl;
        rewrite ?app_nil_r; try done. solve_Permutation.
  - destruct (work_calls x w s) as ([[x1|] w1] & b & new1 & Hw1 & Hp); rewrite Hw in Hw1; simplify_eq; simpl in Hp.
    rewrite <- (take_drop_middle _ _ _ Hi) in Hn, Hadm, Hs. rewrite delete_take_drop.
    split_and!; simpl.
    + rewrite length_app in *. simpl in *. lia.
    + exists adm. split; [done|]. rewrite Hadm, !fmap_app. simpl. solve_Permutation.
    + exists (new ++ new1). split; [by rewrite Hc, app_assoc|].
      rewrite omap_app, Hs, !settled_now_app, !settled_now_cons.
      destruct (settled (w_onces x)); simpl in Hp; rewrite Hp; simpl; rewrite ?app_nil_r; solve_Permutation.
Qed.

Lemma loop_inv_elsewhere n raws log0 l l' :
  loop_inv n raws log0 l → elsewhere undisturbed l l' → loop_inv n raws log0 l'.
Proof.
  intros (Hn & Hadm & new & Hc & Hs) He. destruct He as [pend run fin w s w' s' (new1 & Hc1 & Hs1)]. simpl in *.
  split; [done|]. split; [done|]. exists (new ++ new1). simpl.
  by rewrite Hc1, Hc, app_assoc, omap_app, Hs1, app_nil_r.
Qed.

(** C5: at any time during the concurrent loop, at most [Concurrency] handlers
    run; deliveries were admitted in the order of the stream, and each is in the
    stream, in progress or done; and every delivery that is done was settled
    exactly once, every one in progress at most once, and no other delivery was
    settled, whatever the handlers do and however they interleave. *)
Theorem concurrent_deliveries_settled_once n raws w s l :
  rtc (λ x y, loop_step L sub endpoint h n x y ∨ elsewhere undisturbed x y) (start raws w s) l →
  length (l_running l) ≤ n ∧
  (∃ admitted, raws = admitted ++ l_pending l ∧ admitted ≡ₚ l_done l ++ (w_raw <$> l_running l)) ∧
  ∃ new, calls (l_st l) = calls s ++ new ∧ omap settle_of new ≡ₚ l_done l ++ settled_now (l_running l).
Proof.
  intros Hl. change (loop_inv n raws (calls s) l).
  assert (loop_inv n raws (calls s) (start raws w s)) as Hinv.
  { split; [simpl; lia|]. split; [by exists []|]. exists []. simpl. by rewrite app_nil_r. }
  revert Hinv. induction Hl as [|x y z Hxy _ IH]; [done|]. intros Hx. apply IH.
  destruct Hxy; [by eapply loop_inv_step|by eapply loop_inv_elsewhere].
Qed.
End settlements.

(** ** Across rebinds *)

Section rebinds.
Context {B W : Type} (lib : amqp091 B) (sub : nat) (endpoint : string) (h : Handler W).

(** What [runWithReconnect] makes of the loop: the goroutines that loops over
    earlier streams have left behind, the loop over the current stream, and how
    often the subscription was bound anew. *)
Record streams := Streams { s_old : list (worker (W:=W)); s_cur : loop (B:=B) (W:=W); s_rebinds : nat }.

(** The loop over a stream returns when the stream is closed and all its
    deliveries are admitted. [setupConsumer] then gives a new stream, whose loop
    has a semaphore of its own; nothing waits for the goroutines. *)
Inductive rebind_step (n : nat) : streams → streams → Prop :=
| in_loop old l l' r :
    loop_step lib sub endpoint h n l l' → rebind_step n (Streams old l r) (Streams old l' r)
| old_advance old l r i x x' w' s' :
    old !! i = Some x → work lib sub x (l_w l) (l_st l) = (Done (Some x', w'), s') →
    rebind_step n (Streams old l r)
      (Streams (<[i := x']> old) (Loop (l_pending l) (l_running l) (l_done l) w' s') r)
| old_finish old l r i x w' s' :
    old !! i = Some x → work lib sub x (l_w l) (l_st l) = (Done (None, w'), s') →
    rebind_step n (Streams old l r)
      (Streams (delete i old) (Loop (l_pending l) (l_running l) (l_done l ++ [w_raw x]) w' s') r)
| rebind old l r raws s' :
    l_pending l = [] →
    rebind_step n (Streams old l r) (Streams (old ++ l_running l) (Loop raws [] (l_done l) (l_w l) s') (S r)).

Definition handlers_in_flight (x : streams) : nat := length (s_old x) + length (l_running (s_cur x)).

Lemma rebind_step_bound n x y :
  length (s_old x) ≤ s_rebinds x * n ∧ length (l_running (s_cur x)) ≤ n → rebind_step n x y →
  length (s_old y) ≤ s_rebinds y * n ∧ length (l_running (s_cur y)) ≤ n.
Proof.
  intros [Ho Hc] Hs. destruct Hs as [old l l' r Hl|old l r i x x' w' s' Hi Hw|old l r i x w' s' Hi Hw|old l r raws s' Hp];
    simpl in *.
  - split; [done|]. destruct Hl; simpl in *; rewrite ?length_app, ?length_insert; simpl; [lia|lia|].
    rewrite length_delete by done. lia.
  - by rewrite length_insert.
  - rewrite length_delete by done. split; [lia|done].
  - rewrite length_app. split; lia.
Qed.

(** The current loop can admit a whole stream before any handler moves. *)
Lemma admits_all n old r raws run fin w s :
  length run + length raws ≤ n →
  rtc (rebind_step n) (Streams old (Loop raws run fin w s) r)
    (Streams old (Loop [] (run ++ (spawn endpoint h <$> raws)) fin w s) r).
Proof.
  revert run. induction raws as [|raw raws IH]; intros run Hl; simpl in *; [by rewrite app_nil_r|].
  eapply rtc_l; [apply in_loop, accept; lia|].
  specialize (IH (run ++ [spawn endpoint h raw])). rewrite <- app_assoc in IH. apply IH.
  rewrite length_app. simpl. lia.
Qed.

(** C40: [Concurrency] bounds the handlers of one stream, not those of the
    subscription. After [k] rebinds at most [k + 1] times as many handlers are in
    flight, and so many can be: a stream that drops while its handlers run is
    replaced without waiting for them. *)
Theorem rebind_concurrency n :
  (∀ raws w s x, rtc (rebind_step n) (Streams [] (start raws w s) 0) x →
     handlers_in_flight x ≤ S (s_rebinds x) * n) ∧
  (∀ k raw w s, ∃ x, rtc (rebind_step n) (Streams [] (start (replicate n raw) w s) 0) x ∧
     s_rebinds x = k ∧ handlers_in_flight x = S k * n).
Proof.
  split.
  - intros raws w s x Hx. assert (length (s_old x) ≤ s_rebinds x * n ∧ length (l_running (s_cur x)) ≤ n) as [? ?];
      [|unfold handlers_in_flight; lia].
    assert (∀ y, rtc (rebind_step n) y x → length (s_old y) ≤ s_rebinds y * n ∧ length (l_running (s_cur y)) ≤ n →
      length (s_old x) ≤ s_rebinds x * n ∧ length (l_running (s_cur x)) ≤ n) as Hinv.
    { intros y. induction 1 as [|y z x Hyz _ IH]; [done|]. eauto using rebind_step_bound. }
    apply (Hinv _ Hx). simpl. lia.
  - intros k raw w s. enough (∃ old run, length old = k * n ∧ length run = n ∧
      rtc (rebind_step n) (Streams [] (start (replicate n raw) w s) 0) (Streams old (Loop [] run [] w s) k))
      as (old & run & Ho & Hr & Hs) by (eexists; split; [exact Hs|]; split; [done|]; unfold handlers_in_flight; simpl; lia).
    induction k as [|k (old & run & Ho & Hr & Hs)].
    + eexists [], _. split; [done|]. split; [|apply (admits_all n [] 0 (replicate n raw) []); simpl; by rewrite length_replicate].
      simpl. by rewrite length_fmap, length_replicate.
    + eexists (old ++ run), _. split; [rewrite length_app; lia|]. split; [|etransitivity; [exact Hs|];
        eapply rtc_l; [by apply (rebind n old (Loop [] run [] w s) k (replicate n raw) s)|];
        apply (admits_all n (old ++ run) (S k) (replicate n raw) []); simpl; by rewrite length_replicate].
      simpl. by rewrite length_fmap, length_replicate.
Qed.
End rebinds.

(** ** A concrete run *)

(** A handler that acknowledges twice and then fails. *)
Definition clumsy : Handler nat := λ _, AckOp (λ _, AckOp (λ _, Ret (Some (Errorf "late")))).
Definition demo_raws : list raw_delivery := [demo_raw "c1" EmptyString; demo_raw "c2" EmptyString].
Definition demo_st : st (demo_broker * list op) := St (New (Some 1)) [] (DB 1 [] [], []) [].

Lemma concurrent_deliveries_settled_once_witness :
  ∃ l, rtc (λ x y, loop_step (logged demo_lib) 0 "q" clumsy 2 x y ∨ elsewhere undisturbed x y)
         (start demo_raws 0 demo_st) l ∧
    drained l ∧ l_done l = reverse demo_raws ∧ omap settle_of (calls (l_st l)) ≡ₚ l_done l.
Proof.
  eexists. eassert (rtc (λ x y, loop_step (logged demo_lib) 0 "q" clumsy 2 x y ∨ elsewhere undisturbed x y)
    (start demo_raws 0 demo_st) _) as Hl.
  { do 2 (eapply rtc_l; [left; apply accept; simpl; lia|simpl]).
    do 2 (eapply rtc_l; [left; by eapply (advance _ _ _ _ _ _ _ _ _ _ 1)|simpl]).
    do 2 (eapply rtc_l; [left; by eapply (advance _ _ _ _ _ _ _ _ _ _ 0)|simpl]).
    eapply rtc_l; [left; by eapply (finish _ _ _ _ _ _ _ _ _ _ 1)|simpl].
    eapply rtc_l; [left; by eapply (finish _ _ _ _ _ _ _ _ _ _ 0)|simpl]. apply rtc_refl. }
  split; [exact Hl|]. split; [done|]. split; [reflexivity|].
  destruct (concurrent_deliveries_settled_once demo_lib 0 "q" clumsy 2 demo_raws 0 demo_st _ Hl)
    as (_ & _ & new & Hc & Hs). simpl in Hc, Hs |- *. subst new. exact Hs.
Defined.

Lemma serial_loop_refines_deliverLoop_witness :
  ∃ l, rtc (loop_step demo_lib 0 "q" clumsy 1) (start demo_raws 0 (healthy [])) l ∧
    deliverLoop demo_lib 0 "q" clumsy demo_raws 0 (healthy []) = (Done (l_w l), l_st l).
Proof.
  eexists. eassert (rtc (loop_step demo_lib 0 "q" clumsy 1) (start demo_raws 0 (healthy [])) _) as Hl.
  { do 2 (eapply rtc_l; [apply accept; simpl; lia|simpl];
      do 2 (eapply rtc_l; [by eapply (advance _ _ _ _ _ _ _ _ _ _ 0)|simpl]);
      eapply rtc_l; [by eapply (finish _ _ _ _ _ _ _ _ _ _ 0)|simpl]). apply rtc_refl. }
  split; [exact Hl|]. apply (serial_loop_refines_deliverLoop demo_lib 0 "q" clumsy demo_raws 0 (healthy []) _ Hl).
  done.
Defined.

Lemma delivery_loop_drains_witness :
  inevitable (elsewhere (λ _ _, True)) (loop_step demo_lib 0 "q" clumsy 2) drained (start demo_raws 0 (healthy [])).
Proof. apply delivery_loop_drains. lia. Defined.
