(* ===== verification/AmqpThreads.v ===== *)
(** * The AMQP transport as goroutines

    The operations of src/rpc/amqp/amqp.go again, this time as trees of atomic
    actions that can be interleaved (Threads): every acquisition and release of
    a mutex, every access to the transport's fields and every call of the client
    library is one action. [sequential_equivalence] shows that each operation,
    run on its own, is the definition of Amqp. *)
From Stdlib Require Import Ascii ZArith.
From stdpp Require Import prelude gmap strings.
From S2P Require Import Prelude GoStrings GoText Rpc Backoff Threads Amqp.

Local Open Scope Z_scope.

(** The mutexes of the transport, those of the subscriptions ([chMu]) and the
    internal mutex of their [closeOnce]. *)
Inductive gmutex := Mu (m : mutex) | ChMu (sub : nat) | CloseOnce (sub : nat).
#[global] Instance gmutex_eq_dec : EqDecision gmutex.
Proof. solve_decision. Defined.

(** The state that goroutines share; [g_dialed] is the history of the
    connections that [reconnect] has opened. *)
Record sh (B : Type) := Sh {
  g_tr : Transport;
  g_heap : list subscription;
  g_broker : B;
  g_dialed : list nat;
}.
Arguments Sh {B} _ _ _ _.
Arguments g_tr {B} _.
Arguments g_heap {B} _.
Arguments g_broker {B} _.
Arguments g_dialed {B} _.

Section threads.
Context `{UnicodeTables} {B : Type} (lib : amqp091 B).

Abbreviation G := (code gmutex (sh B)).

(** ** Actions *)

Definition lockT (m : mutex) : G unit := lock_ true (Mu m).
Definition rlockT (m : mutex) : G unit := lock_ false (Mu m).
Definition unlockT (m : mutex) : G unit := unlock_ (Mu m).
(** The locks of subscriptions. *)
Definition lockG (l : gmutex) : G unit := lock_ true l.
Definition unlockG (l : gmutex) : G unit := unlock_ l.
Definition getT : G Transport := act (λ s, (g_tr s, s)).
Definition modifyT (f : Transport → Transport) : G unit := act (λ s,
  (tt, Sh (f (g_tr s)) (g_heap s) (g_broker s) (g_dialed s))).
Definition callT {A} (m : M B A) : G A := act (λ s,
  let '(a, b) := m (g_broker s) in (a, Sh (g_tr s) (g_heap s) b (g_dialed s))).
Definition queryT {A} (f : B → A) : G A := act (λ s, (f (g_broker s), s)).
Definition heapT {A} (f : list subscription → A * list subscription) : G A := act (λ s,
  let '(a, hp) := f (g_heap s) in (a, Sh (g_tr s) hp (g_broker s) (g_dialed s))).
(** The dial of [reconnect]. *)
Definition dialT (d : nat) : G (result nat) := act (λ s,
  let '(r, b) := dial lib d (g_broker s) in
  (r, Sh (g_tr s) (g_heap s) b (match r with inr c => g_dialed s ++ [c] | inl _ => g_dialed s end))).

(** ** Connections *)

Definition SetDialFuncT (f : option nat) : G unit :=
  match f with
  | None => mret tt
  | Some d =>
      _ ← lockT connMu;
      _ ← modifyT (set_dialFn (Some d));
      _ ← unlockT connMu;
      modifyT set_watchdog
  end.

Definition ConnectionT : G (option nat) :=
  _ ← rlockT connMu;
  t ← getT;
  _ ← unlockT connMu;
  mret (conn t).

Definition liveT (c : option nat) : G bool :=
  match c with
  | None => mret false
  | Some c => closed ← queryT (conn_IsClosed lib c); mret (negb closed)
  end.

Definition swap_connectionT (newConn : nat) : G unit :=
  _ ← lockT connMu;
  t ← getT;
  _ ← match conn t with
      | Some old => _ ← callT (conn_Close lib old); mret tt
      | None => mret tt
      end;
  _ ← modifyT (set_conn (Some newConn));
  unlockT connMu.

Definition reset_pubChT : G unit :=
  _ ← lockT pubMu;
  t ← getT;
  _ ← match pubCh t with
      | Some ch => _ ← callT (ch_Close lib ch); modifyT (set_pubCh None)
      | None => mret tt
      end;
  unlockT pubMu.

Definition reconnect_lockedT (d : nat) : G (result nat) :=
  _ ← rlockT connMu;
  t ← getT;
  ok ← liveT (conn t);
  _ ← unlockT connMu;
  match conn t, ok with
  | Some c, true => mret (inr c)
  | _, _ =>
      t ← getT;
      if closed t then mret (inl ErrClosed)
      else
        r ← dialT d;
        match r with
        | inl err => mret (inl err)
        | inr newConn =>
            _ ← swap_connectionT newConn;
            _ ← reset_pubChT;
            mret (inr newConn)
        end
  end.

Definition reconnectT (d : nat) : G (result nat) :=
  _ ← lockT dialMu;
  r ← reconnect_lockedT d;
  _ ← unlockT dialMu;
  mret r.

Definition connectionForUseT : G (result (option nat)) :=
  _ ← rlockT connMu;
  t ← getT;
  _ ← unlockT connMu;
  ok ← liveT (conn t);
  if (ok : bool) then mret (inr (conn t))
  else
    t' ← getT;
    if closed t' then mret (inl ErrClosed)
    else match dialFn t with
         | None => mret (inr (conn t))
         | Some d =>
             r ← reconnectT d;
             match r with inl e => mret (inl e) | inr c => mret (inr (Some c)) end
         end.

Definition open_channelT (c : option nat) : G (result nat) :=
  match c with None => Crash | Some c => callT (conn_Channel lib c) end.

(** ** Producers *)

Definition publishChannelT : G (result nat) :=
  _ ← lockT pubMu;
  t ← getT;
  isClosed ← match pubCh t with Some ch => queryT (ch_IsClosed lib ch) | None => mret true end;
  match pubCh t, isClosed with
  | Some ch, false => _ ← unlockT pubMu; mret (inr ch)
  | _, _ =>
      r ← connectionForUseT;
      match r with
      | inl err =>
          _ ← unlockT pubMu;
          mret (inl (Wrapf "amqp: get connection for publish: " err EmptyString))
      | inr c =>
          r' ← open_channelT c;
          match r' with
          | inl err =>
              _ ← unlockT pubMu;
              mret (inl (Wrapf "amqp: open publish channel: " err EmptyString))
          | inr ch =>
              _ ← modifyT (set_pubCh (Some ch));
              _ ← unlockT pubMu;
              mret (inr ch)
          end
      end
  end.

Definition PublishT (req : Request) : G (option error) :=
  if decide (req_Endpoint req = EmptyString)
  then mret (Some (Errorf "amqp publish: endpoint is required"))
  else
    r ← publishChannelT;
    match r with
    | inl err => mret (Some err)
    | inr ch =>
        callT (ch_Publish lib ch (req_Endpoint req)
          {| pub_ContentType := json_default (req_ContentType req);
             pub_CorrelationId := EmptyString; pub_ReplyTo := EmptyString;
             pub_Headers := stringHeadersToTable (req_Headers req); pub_Body := req_Body req |})
    end.

(** The receive loop of [Request]: it waits for the next event of its stream or
    its context, as long as it takes. *)
Definition receive (stream : nat) (timeout : Z) (correlationID : string) (s : sh B)
    : option (option (result Reply) * sh B) :=
  match next_reply lib stream timeout (g_broker s) with
  | None => None
  | Some (ev, b) => Some (examine correlationID ev, Sh (g_tr s) (g_heap s) b (g_dialed s))
  end.
Definition await_replyT (stream : nat) (timeout : Z) (correlationID : string) : G (result Reply) :=
  select_ (receive stream timeout correlationID).

Definition request_onT (ch : nat) (req : Request) : G (result Reply) :=
  let fail pre err := mret (inl (Wrapf pre err EmptyString)) in
  r ← callT (ch_QueueDeclare lib ch EmptyString false true true);
  match r with
  | inl err => fail "amqp request: declare reply queue: " err
  | inr replyQueue =>
      r' ← callT (ch_Consume lib ch replyQueue true true);
      match r' with
      | inl err => fail "amqp request: consume reply queue: " err
      | inr deliveries =>
          correlationID ← (if decide (req_CorrelationID req = EmptyString)
                           then callT (uuid_NewString lib) else mret (req_CorrelationID req));
          perr ← callT (ch_Publish lib ch (req_Endpoint req)
            {| pub_ContentType := json_default (req_ContentType req);
               pub_CorrelationId := correlationID; pub_ReplyTo := replyQueue;
               pub_Headers := stringHeadersToTable (req_Headers req); pub_Body := req_Body req |});
          match perr with
          | Some err => fail "amqp request: publish: " err
          | None => await_replyT deliveries (req_Timeout req) correlationID
          end
      end
  end.

Definition RequestT (req : Request) : G (result Reply) :=
  if decide (req_Endpoint req = EmptyString)
  then mret (inl (Errorf "amqp request: endpoint is required"))
  else
    r ← connectionForUseT;
    match r with
    | inl err => mret (inl (Wrapf "amqp request: get connection: " err EmptyString))
    | inr c =>
        r' ← open_channelT c;
        match r' with
        | inl err => mret (inl (Wrapf "amqp request: open channel: " err EmptyString))
        | inr ch =>
            reply ← request_onT ch req;
            _ ← callT (ch_Close lib ch);
            mret reply
        end
    end.

(** ** Consumers *)

Definition setup_onT (ch : nat) (queueName : string) (concurrency : Z) : G (result (nat * nat)) :=
  let fail pre err := _ ← callT (ch_Close lib ch); mret (inl (Wrapf pre err EmptyString)) in
  r ← callT (ch_QueueDeclare lib ch queueName true false false);
  match r with
  | inl err => fail ("amqp consume: declare queue " +:+ Quote queueName +:+ ": ") err
  | inr _ =>
      q ← callT (ch_Qos lib ch concurrency);
      match q with
      | Some err => fail "amqp consume: set qos: " err
      | None =>
          r' ← callT (ch_Consume lib ch queueName false false);
          match r' with
          | inl err => fail ("amqp consume: start consumer " +:+ Quote queueName +:+ ": ") err
          | inr deliveries => mret (inr (ch, deliveries))
          end
      end
  end.

Definition setupConsumerT (queueName : string) (concurrency : Z) : G (result (nat * nat)) :=
  r ← connectionForUseT;
  match r with
  | inl err => mret (inl (Wrapf "amqp consume: get connection: " err EmptyString))
  | inr c =>
      r' ← open_channelT c;
      match r' with
      | inl err => mret (inl (Wrapf "amqp consume: open channel: " err EmptyString))
      | inr ch => setup_onT ch queueName concurrency
      end
  end.

(** The handler is not needed here: [has_handler] says that it is not nil.
    Returns the subscription and its first stream. *)
Definition ConsumeT (endpoint : string) (has_handler : bool) (concurrency : Z) : G (result (nat * nat)) :=
  if decide (endpoint = EmptyString) then mret (inl (Errorf "amqp consume: endpoint is required"))
  else if has_handler then
    let concurrency := if concurrency <=? 0 then 1 else concurrency in
    t ← getT;
    let queueName := endpointPrefix t +:+ endpoint in
    r ← setupConsumerT queueName concurrency;
    match r with
    | inl err => mret (inl err)
    | inr (ch, deliveries) =>
        sub ← heapT (λ hp, (length hp, hp ++ [{| s_endpoint := queueName; s_ch := Some ch; s_done := false |}]));
        _ ← lockT subsMu;
        _ ← modifyT (λ t, set_subs (subs t ++ [sub]) t);
        _ ← unlockT subsMu;
        mret (inr (sub, deliveries))
    end
  else mret (inl (Errorf "amqp consume: handler is required")).

(** A rebind of [runWithReconnect]: [setupConsumer], then [swapChannel]. *)
Definition swapChannelT (sub ch : nat) : G unit :=
  _ ← lockG (ChMu sub);
  _ ← heapT (λ hp, (tt, alter (λ x, {| s_endpoint := s_endpoint x; s_ch := Some ch; s_done := s_done x |}) sub hp));
  unlockG (ChMu sub).

Definition rebindT (sub : nat) (endpoint : string) (concurrency : Z) : G (option nat) :=
  r ← setupConsumerT endpoint concurrency;
  match r with
  | inr (ch, stream) => _ ← swapChannelT sub ch; mret (Some stream)
  | inl _ => mret None
  end.

Definition channel_of (sub : nat) (hp : list subscription) : option nat := hp !! sub ≫= s_ch.

Definition currentChannelT (sub : nat) : G (option nat) :=
  _ ← lockG (ChMu sub);
  ch ← heapT (λ hp, (channel_of sub hp, hp));
  _ ← unlockG (ChMu sub);
  mret ch.

Definition set_done (x : subscription) : subscription :=
  {| s_endpoint := s_endpoint x; s_ch := s_ch x; s_done := true |}.

(** [closeOnce.Do]: a second call waits until the first has ended. *)
Definition sub_CloseT (sub : nat) : G (option error) :=
  _ ← lockG (CloseOnce sub);
  x ← heapT (λ hp, (hp !! sub, hp));
  match x with
  | None => Crash
  | Some x =>
      if s_done x then _ ← unlockG (CloseOnce sub); mret None
      else
        ch ← currentChannelT sub;
        err ← match ch with Some ch => callT (ch_Close lib ch) | None => mret None end;
        _ ← heapT (λ hp, (tt, alter set_done sub hp));
        _ ← unlockG (CloseOnce sub);
        mret err
  end.

Fixpoint close_subsT (l : list nat) : G unit :=
  match l with
  | [] => mret tt
  | sub :: l' => _ ← sub_CloseT sub; close_subsT l'
  end.

(** ** [Close] and the watchdog *)

Definition CloseT : G (option error) :=
  _ ← lockT closeMu;
  t ← getT;
  if closed t then _ ← unlockT closeMu; t ← getT; mret (closeErr t)
  else
    _ ← modifyT set_closed;
    _ ← unlockT closeMu;
    _ ← lockT subsMu;
    t ← getT;
    _ ← modifyT (set_subs []);
    _ ← unlockT subsMu;
    _ ← close_subsT (subs t);
    _ ← reset_pubChT;
    _ ← lockT connMu;
    t ← getT;
    _ ← modifyT (set_conn None);
    _ ← unlockT connMu;
    err ← match conn t with Some c => callT (conn_Close lib c) | None => mret None end;
    _ ← modifyT (set_closeErr err);
    mret err.

Definition watchdog_iterT (backoff : Z) : G wd_next :=
  t ← getT;
  if closed t then mret WdReturn
  else
    _ ← rlockT connMu;
    t ← getT;
    _ ← unlockT connMu;
    match dialFn t with
    | None => mret WdReturn
    | Some d =>
        ok ← liveT (conn t);
        if (ok : bool) then mret WdListen
        else
          r ← reconnectT d;
          match r with
          | inl _ => mret (WdSleep backoff (next_backoff backoff))
          | inr _ => mret (WdLoop Second)
          end
    end.

(** ** The calls that goroutines make *)

Inductive request :=
| CallSetDialFunc (d : option nat)
| CallConnection
| CallConsume (endpoint : string) (has_handler : bool) (concurrency : Z)
| CallRebind (sub : nat) (endpoint : string) (concurrency : Z)
| CallWatchdog (backoff : Z)
| CallPublish (req : Request)
| CallRequest (req : Request)
| CallSubClose (sub : nat)
| CallClose.

Inductive answer :=
| AnsUnit
| AnsConn (c : option nat)
| AnsConsume (r : result (nat * nat))
| AnsStream (r : option nat)
| AnsWatchdog (n : wd_next)
| AnsErr (e : option error)
| AnsReply (r : result Reply).

Definition goroutine (q : request) : G answer :=
  match q with
  | CallSetDialFunc d => _ ← SetDialFuncT d; mret AnsUnit
  | CallConnection => r ← ConnectionT; mret (AnsConn r)
  | CallConsume e h n => r ← ConsumeT e h n; mret (AnsConsume r)
  | CallRebind sub e n => r ← rebindT sub e n; mret (AnsStream r)
  | CallWatchdog b => r ← watchdog_iterT b; mret (AnsWatchdog r)
  | CallPublish req => r ← PublishT req; mret (AnsErr r)
  | CallRequest req => r ← RequestT req; mret (AnsReply r)
  | CallSubClose sub => r ← sub_CloseT sub; mret (AnsErr r)
  | CallClose => r ← CloseT; mret (AnsErr r)
  end.

(** The same calls as the sequential definitions; a [Request] examines [fuel]
    events. *)
Definition consume_seq (endpoint : string) (has_handler : bool) (concurrency : Z)
    : Go B (result (nat * nat)) :=
  r ← Consume lib {| cc_Endpoint := endpoint;
        cc_Handler := if has_handler then Some (λ _, Ret None) else None : option (Handler unit);
        cc_Timeout := 0; cc_Concurrency := concurrency |};
  match r with
  | inl err => mret (inl err)
  | inr (sub, stream, _) => mret (inr (sub, stream))
  end.

Definition rebind_seq (sub : nat) (endpoint : string) (concurrency : Z) : Go B (option nat) :=
  r ← setupConsumer lib endpoint concurrency;
  match r with
  | inr (ch, stream) => _ ← swapChannel sub ch; mret (Some stream)
  | inl _ => mret None
  end.

Definition perform (fuel : nat) (q : request) : Go B answer :=
  match q with
  | CallSetDialFunc d => _ ← SetDialFunc d; mret AnsUnit
  | CallConnection => r ← Connection; mret (AnsConn r)
  | CallConsume e h n => r ← consume_seq e h n; mret (AnsConsume r)
  | CallRebind sub e n => r ← rebind_seq sub e n; mret (AnsStream r)
  | CallWatchdog b => r ← watchdog_iter lib b; mret (AnsWatchdog r)
  | CallPublish req => r ← Publish lib req; mret (AnsErr r)
  | CallRequest req => r ← TRequest lib fuel req; mret (AnsReply r)
  | CallSubClose sub => r ← sub_Close lib sub; mret (AnsErr r)
  | CallClose => r ← Close lib; mret (AnsErr r)
  end.

(** ** One goroutine alone *)

(** Runs a goroutine while nobody else moves, and a [select] for [fuel] events.
    The locks of subscriptions are free then, and the history of dials is not
    kept. *)
Context (fuel : nat).

Definition seen (s : st B) : sh B := Sh (tr s) (heap s) (broker s) [].
Definition put (s : st B) (s' : sh B) : st B := St (g_tr s') (g_heap s') (g_broker s') (held s).

Fixpoint poll {Y} (n : nat) (f : sh B → option (option Y * sh B)) : Go B Y := λ s,
  match n with
  | O => (Parked, s)
  | S n' =>
      match f (seen s) with
      | None => (Parked, s)
      | Some (None, s') => poll n' f (put s s')
      | Some (Some y, s') => (Done y, put s s')
      end
  end.

Fixpoint run {A} (c : G A) : Go B A := λ s,
  match c with
  | Return a => (Done a, s)
  | Lock _ (Mu m) k => (_ ← lock m; run k) s
  | Lock _ _ k => run k s
  | Unlock (Mu m) k => (_ ← unlock m; run k) s
  | Unlock _ k => run k s
  | Act X f k =>
      let '(x, s') := f (seen s) in run (k x) (put s s')
  | Select Y f k => (y ← poll fuel f; run (k y)) s
  | Crash => (Panicked, s)
  end.

(** Equality of computations. *)
Definition geq {A} (m m' : Go B A) : Prop := ∀ s, m s = m' s.

Lemma geq_bind {A C} (m m' : Go B A) (k k' : A → Go B C) :
  geq m m' → (∀ a, geq (k a) (k' a)) → geq (m ≫= k) (m' ≫= k').
Proof.
  intros Hm Hk s. unfold mbind, Go_bind. rewrite Hm. destruct (m' s) as [[a|l| |] s']; [apply Hk|done..].
Qed.

Lemma run_bind {A C} (c : G A) (k : A → G C) : geq (run (c ≫= k)) (r ← run c; run (k r)).
Proof.
  unfold mbind at 1, code_mbind. induction c as [a|w [m|sub|sub] c IH|[m|sub|sub] c IH|X f c IH|Y f c IH|]; intros s; simpl.
  - done.
  - unfold mbind, Go_bind. destruct (lock m s) as [[u|l| |] s']; [by rewrite IH|done..].
  - by rewrite IH.
  - by rewrite IH.
  - unfold mbind, Go_bind. destruct (unlock m s) as [[u|l| |] s']; [by rewrite IH|done..].
  - by rewrite IH.
  - by rewrite IH.
  - destruct (f _) as [x s'] eqn:Ef. rewrite IH. unfold mbind, Go_bind. by rewrite Ef.
  - unfold mbind, Go_bind. destruct (poll fuel f s) as [[y|l| |] s']; [by rewrite IH|done..].
  - done.
Qed.

Lemma run_bind_eq {A C} (c : G A) (m : Go B A) (k : A → G C) (k' : A → Go B C) :
  geq (run c) m → (∀ a, geq (run (k a)) (k' a)) → geq (run (c ≫= k)) (m ≫= k').
Proof. intros Hc Hk s. rewrite run_bind. by apply geq_bind. Qed.

Lemma run_ret {A} (a : A) : geq (run (mret a)) (mret a).
Proof. done. Qed.
Lemma run_lock m : geq (run (lockT m)) (lock m).
Proof. intros s. unfold lock. simpl. unfold mbind, Go_bind, lock. by case_decide. Qed.
Lemma run_rlock m : geq (run (rlockT m)) (lock m).
Proof. intros s. unfold lock. simpl. unfold mbind, Go_bind, lock. by case_decide. Qed.
Lemma run_unlock m : geq (run (unlockT m)) (unlock m).
Proof. done. Qed.
Lemma run_get : geq (run getT) get.
Proof. by intros []. Qed.
Lemma run_modify f : geq (run (modifyT f)) (modify f).
Proof. done. Qed.
Lemma run_call {A} (m : M B A) : geq (run (callT m)) (call m).
Proof. intros s. simpl. unfold call. by destruct (m (broker s)). Qed.
Lemma run_query {A} (f : B → A) : geq (run (queryT f)) (query f).
Proof. by intros []. Qed.
Lemma run_dial d : geq (run (dialT d)) (call (dial lib d)).
Proof. intros s. simpl. unfold call. by destruct (dial lib d (broker s)). Qed.
Lemma run_crash {A} : geq (run (Crash : G A)) panic.
Proof. done. Qed.

(** Sequences of library calls. *)
Lemma run_call_ret {A} (a : A) : geq (run (mret a)) (call (mret a)).
Proof. by intros []. Qed.
Lemma run_call_bind {A C} (c : G A) (m : M B A) (k : A → G C) (k' : A → M B C) :
  geq (run c) (call m) → (∀ a, geq (run (k a)) (call (k' a))) → geq (run (c ≫= k)) (call (m ≫= k')).
Proof.
  intros Hc Hk s. rewrite run_bind. unfold mbind at 1, Go_bind. rewrite Hc. unfold call, mbind, M_bind.
  destruct (m (broker s)) as [a b]. rewrite Hk. unfold call. simpl. by destruct (k' a b).
Qed.

Ltac seq_step :=
  first
  [ apply run_lock | apply run_rlock | apply run_unlock | apply run_get | apply run_modify
  | apply run_query | apply run_dial | apply run_crash | apply run_call_ret | apply run_call | apply run_ret
  | apply run_call_bind | apply run_bind_eq
  | match goal with |- geq (run (match ?x with _ => _ end)) _ => destruct x end ].
Ltac seq := intros; cbv zeta; repeat (seq_step; intros; cbv zeta).

Lemma run_live c : geq (run (liveT c)) (live lib c).
Proof. unfold liveT, live. seq. Qed.
Lemma run_swap c : geq (run (swap_connectionT c)) (swap_connection lib c).
Proof. unfold swap_connectionT, swap_connection. seq. Qed.
Lemma run_reset : geq (run reset_pubChT) (reset_pubCh lib).
Proof. unfold reset_pubChT, reset_pubCh. seq. Qed.
Lemma run_reconnect d : geq (run (reconnectT d)) (reconnect lib d).
Proof.
  unfold reconnectT, reconnect, reconnect_lockedT, reconnect_locked.
  repeat first [apply run_live | apply run_swap | apply run_reset | seq_step; intros].
Qed.
Lemma run_connectionForUse : geq (run connectionForUseT) (connectionForUse lib).
Proof.
  unfold connectionForUseT, connectionForUse.
  repeat first [apply run_live | apply run_reconnect | seq_step; intros].
Qed.
Lemma run_open_channel c : geq (run (open_channelT c)) (open_channel lib c).
Proof. unfold open_channelT, open_channel. seq. Qed.
Lemma run_publishChannel : geq (run publishChannelT) (publishChannel lib).
Proof.
  unfold publishChannelT, publishChannel.
  repeat first [apply run_connectionForUse | apply run_open_channel | seq_step; intros].
Qed.
(** The outcome of the steps of [Request] that may not return. *)
Definition returned_or_parked {A} (m : M B (option A)) : Go B A :=
  r ← call m; match r with None => park | Some a => mret a end.

Lemma run_await stream timeout cid :
  geq (run (await_replyT stream timeout cid)) (returned_or_parked (await_reply lib fuel stream timeout cid)).
Proof.
  intros [t hp b hs]. cbn [await_replyT run select_]. unfold mbind, Go_bind. generalize fuel as n. intros n. revert b.
  induction n as [|n IH]; intros b; [done|]. unfold returned_or_parked, mbind, Go_bind, call, receive in *. cbn in *.
  destruct (next_reply lib stream timeout b) as [[ev b']|]; [|done].
  destruct (examine cid ev) as [r|]; [done|]. apply IH.
Qed.
Lemma run_returned_bind {A C} (c : G A) (m : M B A) (k : A → G C) (k' : A → M B (option C)) :
  geq (run c) (call m) → (∀ a, geq (run (k a)) (returned_or_parked (k' a))) →
  geq (run (c ≫= k)) (returned_or_parked (m ≫= k')).
Proof.
  intros Hc Hk s. rewrite run_bind. unfold mbind at 1, Go_bind at 1. rewrite Hc.
  unfold call, returned_or_parked, mbind at 1, Go_bind at 1, mbind, M_bind, call.
  destruct (m (broker s)) as [a b] eqn:E. rewrite Hk. unfold returned_or_parked, mbind, Go_bind, call. simpl.
  by destruct (k' a b).
Qed.
Lemma run_returned_ret {A} (a : A) : geq (run (mret a)) (returned_or_parked (mret (Some a))).
Proof. by intros []. Qed.
Lemma run_request_on ch req : geq (run (request_onT ch req)) (returned_or_parked (request_on lib fuel ch req)).
Proof.
  unfold request_onT, request_on. cbv zeta.
  repeat first [apply run_await | apply run_returned_ret | apply run_returned_bind; [seq|] | seq_step; intros | intros ? ].
Qed.
Lemma run_returned_then {A C} (c : G A) (m : M B (option A)) (k : A → G C) (k' : A → Go B C) :
  geq (run c) (returned_or_parked m) → (∀ a, geq (run (k a)) (k' a)) →
  geq (run (c ≫= k)) (r ← call m; match r with None => park | Some a => k' a end).
Proof.
  intros Hc Hk s. rewrite run_bind. unfold mbind at 1, Go_bind at 1. rewrite Hc.
  unfold returned_or_parked, mbind, Go_bind, call. destruct (m (broker s)) as [[a|] b]; [apply Hk|done].
Qed.
Lemma run_setup_on ch q n : geq (run (setup_onT ch q n)) (call (setup_on lib ch q n)).
Proof. unfold setup_onT, setup_on. seq. Qed.
Lemma run_setupConsumer q n : geq (run (setupConsumerT q n)) (setupConsumer lib q n).
Proof.
  unfold setupConsumerT, setupConsumer.
  repeat first [apply run_connectionForUse | apply run_open_channel | apply run_setup_on | seq_step; intros].
Qed.
Lemma run_sub_Close sub : geq (run (sub_CloseT sub)) (sub_Close lib sub).
Proof.
  intros s. unfold sub_CloseT, sub_Close. simpl. destruct (heap s !! sub) as [x|] eqn:Ex; simpl; [|by destruct s].
  destruct (s_done x); simpl; [by destruct s|]. unfold channel_of. rewrite Ex. simpl.
  assert (alter set_done sub (heap s) = <[sub := set_done x]> (heap s)) as Ha.
  { apply list_eq. intros i. destruct (decide (i = sub)) as [->|].
    - rewrite list_lookup_alter_eq, Ex, list_lookup_insert_eq; [done|]. by eapply lookup_lt_Some.
    - by rewrite list_lookup_alter_ne, list_lookup_insert_ne. }
  destruct (s_ch x) as [ch|] eqn:Ec; simpl; [destruct (ch_Close lib ch (broker s)) as [e b]; simpl|];
    by rewrite Ha; unfold set_done; rewrite Ec.
Qed.
Lemma run_close_subs l : geq (run (close_subsT l)) (close_subs lib l).
Proof.
  induction l as [|sub l IH]; cbn [close_subsT close_subs]; [done|].
  apply run_bind_eq; [apply run_sub_Close|]. intros _. apply IH.
Qed.
Lemma run_swapChannel sub ch : geq (run (swapChannelT sub ch)) (swapChannel sub ch).
Proof. done. Qed.

Lemma run_alloc sub : geq (run (heapT (λ hp, (length hp, hp ++ [sub])))) (alloc sub).
Proof. done. Qed.

Lemma run_bind_assoc {A C D} (c : G A) (m : Go B A) (k : A → G D) (k1 : A → Go B C) (k2 : C → Go B D) :
  geq (run c) m → (∀ a, geq (run (k a)) (k1 a ≫= k2)) → geq (run (c ≫= k)) ((m ≫= k1) ≫= k2).
Proof.
  intros Hc Hk s. rewrite run_bind. unfold mbind at 1, Go_bind at 1. rewrite Hc.
  unfold mbind at 2, Go_bind at 2, mbind at 1, Go_bind at 1.
  destruct (m s) as [[a|l| |] s']; [apply Hk|done..].
Qed.

Lemma run_Consume e h n : geq (run (ConsumeT e h n)) (consume_seq e h n).
Proof.
  unfold ConsumeT, consume_seq, Consume. cbn [cc_Endpoint cc_Handler cc_Timeout cc_Concurrency].
  case_decide; [done|]. destruct h; [|done]. cbv zeta. cbn [cc_Endpoint cc_Concurrency].
  apply run_bind_assoc; [apply run_get|]. intros t.
  apply run_bind_assoc; [apply run_setupConsumer|]. intros [err|[ch stream]]; [done|].
  apply run_bind_assoc; [apply run_alloc|]. intros sub.
  apply run_bind_assoc; [apply run_lock|]. intros _.
  apply run_bind_assoc; [apply run_modify|]. intros _.
  apply run_bind_assoc; [apply run_unlock|]. done.
Qed.

(** Each operation of the transport as a goroutine, run while no other
    goroutine moves, does exactly what its sequential definition does: the same
    result or block or panic, on the same state, with the same mutexes held. *)
Theorem sequential_equivalence (q : request) (s : st B) : run (goroutine q) s = perform fuel q s.
Proof.
  revert s. change (geq (run (goroutine q)) (perform fuel q)).
  destruct q; cbn [goroutine perform]; apply run_bind_eq; try (intros; apply run_ret).
  - unfold SetDialFuncT, SetDialFunc, startWatchdog. seq.
  - unfold ConnectionT, Connection. seq.
  - apply run_Consume.
  - unfold rebindT, rebind_seq. repeat first [apply run_setupConsumer | apply run_swapChannel | seq_step; intros].
  - unfold watchdog_iterT, watchdog_iter. repeat first [apply run_live | apply run_reconnect | seq_step; intros].
  - unfold PublishT, Publish. repeat first [apply run_publishChannel | seq_step; intros].
  - unfold RequestT, TRequest.
    repeat first [apply run_connectionForUse | apply run_open_channel | apply run_returned_then; [apply run_request_on|seq]
      | seq_step; intros].
  - apply run_sub_Close.
  - unfold CloseT, Close. repeat first [apply run_close_subs | apply run_reset | seq_step; intros].
Qed.
End threads.
