(* ===== verification/AmqpRace.v ===== *)
(** * Theorems about the concurrent AMQP transport

    Any number of goroutines call the transport at once, while the broker may
    drop connections at any time: dials are collapsed into one, calls return,
    and the three interleavings that go wrong. *)
From Stdlib Require Import Ascii ZArith.
From stdpp Require Import prelude gmap strings list relations.
From S2P Require Import Prelude GoStrings GoText Rpc Backoff Threads Amqp AmqpSpec AmqpThreads.

Section race.
Context `{UnicodeTables} {B : Type} (lib : amqp091 B).

Abbreviation G := (code gmutex (sh B)).
Abbreviation dialLock := (Mu dialMu, true).

(** ** What amqp091-go documents of connections *)

(** The operations on channels and messages. *)
Inductive channel_op : B → B → Prop :=
| op_Channel c b : channel_op b (conn_Channel lib c b).2
| op_Close ch b : channel_op b (ch_Close lib ch b).2
| op_QueueDeclare ch q d1 d2 d3 b : channel_op b (ch_QueueDeclare lib ch q d1 d2 d3 b).2
| op_Qos ch n b : channel_op b (ch_Qos lib ch n b).2
| op_Consume ch q d1 d2 b : channel_op b (ch_Consume lib ch q d1 d2 b).2
| op_Publish ch q p b : channel_op b (ch_Publish lib ch q p b).2
| op_next_reply stream t b ev b' : next_reply lib stream t b = Some (ev, b') → channel_op b b'
| op_uuid b : channel_op b (uuid_NewString lib b).2.

(** Beyond [AmqpLaws]: a dial does not touch other connections, closing a closed
    connection leaves it closed, and channels do not open or close connections
    (a connection that the broker drops during a call is a step of the
    environment before or after it). *)
Class ConnLaws := {
  conn_laws :: AmqpLaws lib;
  dial_frame d b c : (dial lib d b).1 ≠ inr c → conn_IsClosed lib c (dial lib d b).2 = conn_IsClosed lib c b;
  close_stays c b : conn_IsClosed lib c b = true → conn_IsClosed lib c (conn_Close lib c b).2 = true;
  channel_frame b b' c : channel_op b b' → conn_IsClosed lib c b' = conn_IsClosed lib c b;
}.
Context `{!ConnLaws}.

(** ** The state of the connection *)

Definition isc (c : nat) (s : sh B) : bool := conn_IsClosed lib c (g_broker s).
Definition conn_live (s : sh B) : Prop := ∃ c, conn (g_tr s) = Some c ∧ isc c s = false.

(** Steps of the broker: connections drop. With [nodrop] they do not. *)
Context (nodrop : bool).
Definition drops (s s' : sh B) : Prop :=
  g_tr s' = g_tr s ∧ g_heap s' = g_heap s ∧ g_dialed s' = g_dialed s ∧
  (∀ c, isc c s = true → isc c s' = true) ∧ (nodrop = true → ∀ c, isc c s' = isc c s).

(** What never goes back. *)
Definition base (s s' : sh B) : Prop :=
  (closed (g_tr s) = true → closed (g_tr s') = true) ∧
  (∀ c, isc c s = true → isc c s' = true) ∧ length (g_heap s) ≤ length (g_heap s').

(** Before [Close], open connections stay open, and a transport with a live
    connection keeps it and opens no other. *)
Definition calm (s s' : sh B) : Prop :=
  closed (g_tr s') = false →
  (∀ c, isc c s = false → isc c s' = false) ∧
  (conn_live s → conn (g_tr s') = conn (g_tr s) ∧ g_dialed s' = g_dialed s).

(** The connection is replaced only under [dialMu], or dropped by [Close]. *)
Definition mine (s s' : sh B) : Prop :=
  g_dialed s' = g_dialed s ∧
  (conn (g_tr s') = conn (g_tr s) ∨ conn (g_tr s') = None ∧ closed (g_tr s') = true).

Definition relyb (b : bool) (s s' : sh B) : Prop :=
  base s s' ∧ (nodrop = true → calm s s') ∧ (b = true → mine s s').
Definition guarb (b : bool) (s s' : sh B) : Prop := base s s' ∧ calm s s' ∧ (b = true ∨ mine s s').
Definition neutral (s s' : sh B) : Prop := base s s' ∧ calm s s' ∧ mine s s'.

Definition rely (hs : list (gmutex * bool)) : sh B → sh B → Prop := relyb (bool_decide (dialLock ∈ hs)).
Definition guar (hs : list (gmutex * bool)) : sh B → sh B → Prop := guarb (bool_decide (dialLock ∈ hs)).

(** The connections that were dialed before, and whether the transport started
    with a live one. *)
Context (d0 : list nat) (live0 : bool).

Definition J (s : sh B) : Prop :=
  dialFn (g_tr s) ≠ None ∧ Forall (λ sub, sub < length (g_heap s)) (subs (g_tr s)) ∧
  (nodrop = true → closed (g_tr s) = false →
   length (g_dialed s) ≤ length d0 + (if live0 then 0 else 1)).

(** While [dialMu] is free, a connection that was dialed is in use. *)
Definition K (s : sh B) : Prop :=
  nodrop = true → closed (g_tr s) = false → conn_live s ∨ g_dialed s = d0 ∧ live0 = false.
Definition LI (l : gmutex) (s : sh B) : Prop := match l with Mu dialMu => K s | _ => True end.

Lemma base_refl s : base s s.
Proof. done. Qed.
Lemma base_trans s1 s2 s3 : base s1 s2 → base s2 s3 → base s1 s3.
Proof. intros (? & ? & ?) (? & ? & ?). split_and!; [tauto|auto|lia]. Qed.
Lemma base_open s s' : base s s' → closed (g_tr s') = false → closed (g_tr s) = false.
Proof. intros (Hc & _) Hs'. destruct (closed (g_tr s)); [|done]. by rewrite Hc in Hs'. Qed.

Lemma calm_live s s' : calm s s' → closed (g_tr s') = false → conn_live s → conn_live s'.
Proof.
  intros Hc Hcl Hl. destruct (Hc Hcl) as [Ho Hk]. destruct (Hk Hl) as [Heq _], Hl as (c & Hc1 & Hc2).
  exists c. rewrite Heq. auto.
Qed.
Lemma calm_trans s1 s2 s3 : base s2 s3 → calm s1 s2 → calm s2 s3 → calm s1 s3.
Proof.
  intros Hb H12 H23 Hcl. pose proof (base_open _ _ Hb Hcl) as Hcl2.
  destruct (H12 Hcl2) as [Ho12 Hk12], (H23 Hcl) as [Ho23 Hk23]. split; [auto|]. intros Hl.
  destruct (Hk12 Hl) as [<- <-]. apply Hk23. by eapply calm_live.
Qed.
Lemma mine_trans s1 s2 s3 : base s2 s3 → mine s1 s2 → mine s2 s3 → mine s1 s3.
Proof.
  intros (Hb & _) [Hd1 H12] [Hd2 H23]. split; [congruence|]. destruct H23 as [->|?]; [|by right].
  destruct H12 as [->|[-> Hc]]; [by left|right; auto].
Qed.

#[global] Instance rg : RelyGuarantee drops rely guar LI J.
Proof.
  split; unfold rely, guar.
  - intros hs s. split_and!; [apply base_refl|by intros _ _|by intros _; split; [|left]].
  - intros hs s1 s2 s3 (Hb1 & Hc1 & Hm1) (Hb2 & Hc2 & Hm2). split_and!.
    + by eapply base_trans.
    + intros Hn. eapply calm_trans; eauto.
    + intros Hh. eapply mine_trans; eauto.
  - intros hs hs' s s' Hcomp _ (Hb & Hc & Hm). split_and!; [done|done|]. intros Hh.
    apply bool_decide_eq_true in Hh. destruct Hm as [Hm|Hm]; [|done]. apply bool_decide_eq_true in Hm.
    by destruct (Hcomp _ _ _ Hm Hh).
  - intros hs l s s' Hl _ (Hb & Hc & Hm). destruct l as [[]| |]; simpl; try done. intros HK Hn Hcl.
    destruct Hm as [Hm|[Hd _]]; [apply bool_decide_eq_true in Hm; by apply Hl in Hm|].
    destruct (HK Hn (base_open _ _ Hb Hcl)) as [Hlive|[Hd0 ?]]; [left; by eapply calm_live|].
    right. by rewrite Hd.
  - intros hs s s' (Ht & Hh & Hd & Hm & Hn) _. split_and!.
    + split_and!; [by rewrite Ht|done|by rewrite Hh].
    + intros Hnd _. specialize (Hn Hnd). split; [intros c; by rewrite Hn|]. by rewrite Ht.
    + intros _. split; [done|]. left. by rewrite Ht.
  - intros l s s' (Ht & Hh & Hd & Hm & Hn) _. destruct l as [[]| |]; simpl; try done.
    intros HK Hnd. rewrite Ht, Hd. intros Hcl. destruct (HK Hnd Hcl) as [(c & Hc & Ho)|?]; [|by right].
    left. exists c. rewrite Ht. split; [done|]. by rewrite Hn.
  - intros s s' (Ht & Hh & Hd & _) (? & ? & ?). unfold J. by rewrite Ht, Hh, Hd.
Qed.

(** ** Specifications *)

Abbreviation wp := (wp rely guar LI J).

(** Facts that no other goroutine can undo; with [b], while [dialMu] is held. *)
Definition Stable (b : bool) (P : sh B → Prop) : Prop := ∀ s s', relyb b s s' → P s → P s'.

Definition spec {A} (b : bool) (P : sh B → Prop) (c : G A) (Q : A → sh B → Prop) : Prop :=
  ∀ hs s, (b = true → dialLock ∈ hs) → P s →
  wp hs c (λ hs' a s', (b = true → dialLock ∈ hs') ∧ Q a s') s.

Lemma relyb_mono (b b' : bool) s s' : (b = true → b' = true) → relyb b' s s' → relyb b s s'.
Proof. intros Hb (? & ? & Hm). split_and!; auto. Qed.

Lemma rely_relyb (b : bool) hs s s' : (b = true → dialLock ∈ hs) → rely hs s s' → relyb b s s'.
Proof. intros Hh. apply relyb_mono. intros Hb. by apply bool_decide_eq_true, Hh. Qed.

Lemma neutral_rely (b : bool) s s' : neutral s s' → relyb b s s'.
Proof. intros (? & ? & ?). split_and!; done. Qed.
Lemma neutral_guar (b : bool) s s' : neutral s s' → guarb b s s'.
Proof. intros (? & ? & ?). split_and!; auto. Qed.

Lemma spec_ret {A} b (P : sh B → Prop) (a : A) (Q : A → sh B → Prop) :
  (∀ s, P s → Q a s) → spec b P (mret a) Q.
Proof. intros HQ hs s Hh HP. split; auto. Qed.

Lemma spec_bind {A C} b P (c : G A) (k : A → G C) Q Q' :
  spec b P c Q → (∀ a, spec b (Q a) (k a) Q') → spec b P (c ≫= k) Q'.
Proof.
  intros Hc Hk hs s Hh HP. apply wp_bind. eapply wp_mono; [|by apply Hc].
  intros hs' a s' [Hh' HQ]. by apply Hk.
Qed.

Lemma spec_pre {A} b (P P' : sh B → Prop) (c : G A) Q : (∀ s, P s → P' s) → spec b P' c Q → spec b P c Q.
Proof. intros HP Hc hs s Hh Hs. by apply Hc, HP. Qed.
Lemma spec_post {A} b P (c : G A) (Q Q' : A → sh B → Prop) :
  (∀ a s, Q a s → Q' a s) → spec b P c Q → spec b P c Q'.
Proof. intros HQ Hc hs s Hh Hs. eapply wp_mono; [|by apply Hc]. intros hs' a s' [? ?]. auto. Qed.

Lemma spec_lock b P w l : Stable b P → spec b P (lock_ w l) (λ _, P).
Proof.
  intros HS hs s Hh HP s' Hr _ _. split; [intros Hb; right; auto|]. eapply HS; [|done].
  by eapply rely_relyb.
Qed.
Lemma spec_unlock b P l : l ≠ Mu dialMu → Stable b P → spec b P (unlock_ l) (λ _, P).
Proof.
  intros Hl HS hs s Hh HP s' Hr _. split; [by destruct l as [[]| |]|]. split.
  - intros Hb. apply list_elem_of_filter. split; [done|auto].
  - eapply HS; [|done]. by eapply rely_relyb.
Qed.
Lemma spec_act {A} b P (f : sh B → A * sh B) Q :
  Stable b P →
  (∀ s, J s → P s → guarb b s (f s).2 ∧ J (f s).2 ∧ Q (f s).1 (f s).2) →
  spec b P (act f) Q.
Proof.
  intros HS Hf hs s Hh HP s' Hr HJ. destruct (Hf s' HJ) as ((? & ? & Hm) & ? & ?).
  { eapply HS; [|done]. by eapply rely_relyb. }
  split; [|split; [done|by split]]. unfold guar. split_and!; [done..|].
  destruct Hm as [->|]; [left; by apply bool_decide_eq_true, Hh|by right].
Qed.
Lemma spec_get b P Q :
  Stable b P → (∀ s, J s → P s → Q (g_tr s) s) → spec b P getT Q.
Proof.
  intros HS HQ. apply spec_act; [done|]. intros s HJ HP. split_and!; [|done|by apply HQ].
  apply neutral_guar. split_and!; [done|by intros _|by split; [|left]].
Qed.

(** A critical section of [dialMu]. *)
Lemma spec_critical {A} P (c : G A) Q :
  Stable false P → (∀ a, Stable false (Q a)) →
  spec true (λ s, P s ∧ K s) c (λ a s, Q a s ∧ K s) → (∀ a, Stable true (λ s, Q a s ∧ K s)) →
  spec false P (_ ← lockT dialMu; r ← c; _ ← unlockT dialMu; mret r) Q.
Proof.
  intros HP HQ Hc HS hs s _ Hs s1 Hr HJ HL. apply wp_bind. eapply wp_mono; [|apply Hc].
  - intros hs' a s2 [Hh HQK] s3 Hr3 HJ3. specialize (Hh eq_refl).
    assert (Q a s3 ∧ K s3) as [? ?].
    { eapply HS; [|done]. eapply rely_relyb; [|done]. done. }
    split; [done|]. split; [done|done].
  - intros _. by left.
  - split; [|by apply HL]. eapply HP; [|done]. by eapply rely_relyb.
Qed.

Lemma stable_true b : Stable b (λ _, True).
Proof. by intros s s'. Qed.
Lemma stable_and b P Q : Stable b P → Stable b Q → Stable b (λ s, P s ∧ Q s).
Proof. intros HP HQ s s' Hr [? ?]. split; eauto. Qed.
Lemma stable_pure b (φ : Prop) : Stable b (λ _, φ).
Proof. by intros s s'. Qed.
Lemma stable_weaken (b b' : bool) P : (b = true → b' = true) → Stable b P → Stable b' P.
Proof. intros Hb HS s s' Hr. apply HS. by eapply relyb_mono. Qed.
Lemma stable_closed b : Stable b (λ s, closed (g_tr s) = true).
Proof. intros s s' ((? & _) & _) ?. auto. Qed.
Lemma stable_heap b l : Stable b (λ s, Forall (λ sub, sub < length (g_heap s)) l).
Proof. intros s s' ((_ & _ & ?) & _) Hl. eapply Forall_impl; [done|]. intros; simpl in *; lia. Qed.
Lemma stable_K : Stable true K.
Proof.
  intros s s' (Hb & Hc & Hm) HK Hn Hcl. destruct (Hm eq_refl) as [Hd _].
  destruct (HK Hn (base_open _ _ Hb Hcl)) as [Hl|[? ?]]; [left|right; by rewrite Hd].
  eapply calm_live; eauto.
Qed.
Lemma stable_dead : Stable true (λ s, ¬ conn_live s).
Proof.
  intros s s' ((_ & Hb & _) & _ & Hm) Hd (c & Hc & Ho). destruct (Hm eq_refl) as [_ [Heq|[Heq _]]]; [|congruence].
  apply Hd. exists c. split; [congruence|]. destruct (isc c s) eqn:E; [|done]. rewrite Hb in Ho; done.
Qed.
Lemma stable_open c b : Stable b (λ s, nodrop = true → closed (g_tr s) = false → isc c s = false).
Proof.
  intros s s' (Hb & Hc & _) Ho Hn Hcl. apply (Hc Hn Hcl). apply Ho; [done|]. by eapply base_open.
Qed.

(** ** Actions that leave the connection alone *)

Lemma neutral_same s s' :
  g_tr s' = g_tr s → length (g_heap s) ≤ length (g_heap s') → g_dialed s' = g_dialed s →
  (∀ c, isc c s' = isc c s) → neutral s s' ∧ (J s → J s').
Proof.
  intros Ht Hh Hd Hi. split; [split_and!|].
  - split_and!; [by rewrite Ht|intros c; by rewrite Hi|done].
  - intros _. split; [intros c; by rewrite Hi|]. by rewrite Ht.
  - split; [done|]. left. by rewrite Ht.
  - intros (? & Hs & ?). unfold J. rewrite Ht, Hd. split_and!; [done| |done].
    eapply Forall_impl; [exact Hs|]. intros; simpl in *; lia.
Qed.

Lemma spec_neutral {A} b P (f : sh B → A * sh B) (φ : A → sh B → Prop) :
  Stable b P →
  (∀ s, J s → P s → neutral s (f s).2 ∧ J (f s).2 ∧ φ (f s).1 (f s).2) →
  spec b P (act f) (λ a s, P s ∧ φ a s).
Proof.
  intros HS Hf. apply spec_act; [done|]. intros s HJ HP. destruct (Hf s HJ HP) as (Hn & HJ' & Hφ).
  split_and!; [by apply neutral_guar|done| |done]. eapply HS; [by apply neutral_rely|done].
Qed.

Lemma spec_call {A} b P (m : M B A) :
  Stable b P → (∀ x, channel_op x (m x).2) → spec b P (callT m) (λ _, P).
Proof.
  intros HS Hm. eapply spec_post; [|apply (spec_neutral b P _ (λ _ _, True)); [done|]]; [by intros a s []|].
  intros s HJ HP. specialize (Hm (g_broker s)). destruct (m (g_broker s)) as [a b']. simpl in *.
  destruct (neutral_same s (Sh (g_tr s) (g_heap s) b' (g_dialed s))) as [? ?]; simpl; auto.
  intros c. by apply channel_frame.
Qed.

Lemma spec_query {A} b P (f : B → A) : Stable b P → spec b P (queryT f) (λ _, P).
Proof.
  intros HS. eapply spec_post; [|apply (spec_neutral b P _ (λ _ _, True)); [done|]]; [by intros a s []|].
  intros s HJ HP. simpl. by destruct (neutral_same s s) as [? ?].
Qed.

Lemma spec_heap {A} b P (f : list subscription → A * list subscription) (φ : A → list subscription → Prop) :
  Stable b P → (∀ hp, length hp ≤ length (f hp).2) → (∀ hp, φ (f hp).1 (f hp).2) →
  spec b P (heapT f) (λ a s, P s ∧ φ a (g_heap s)).
Proof.
  intros HS Hl Hφ. apply (spec_neutral b P _ (λ a s, φ a (g_heap s))); [done|]. intros s HJ HP.
  specialize (Hl (g_heap s)). specialize (Hφ (g_heap s)). destruct (f (g_heap s)) as [a hp]. simpl in *.
  destruct (neutral_same s (Sh (g_tr s) hp (g_broker s) (g_dialed s))) as [? ?]; simpl; auto.
Qed.

(** Updates of the transport's other fields. *)
Definition tame (f : Transport → Transport) (hp : list subscription) (t : Transport) : Prop :=
  (conn (f t) = conn t ∨ conn (f t) = None ∧ closed (f t) = true) ∧
  (closed t = true → closed (f t) = true) ∧
  (dialFn t ≠ None → dialFn (f t) ≠ None) ∧
  (Forall (λ sub, sub < length hp) (subs t) → Forall (λ sub, sub < length hp) (subs (f t))).

Lemma spec_modify b P f :
  Stable b P → (∀ s, J s → P s → tame f (g_heap s) (g_tr s)) → spec b P (modifyT f) (λ _, P).
Proof.
  intros HS Hf. eapply spec_post; [|apply (spec_neutral b P _ (λ _ _, True)); [done|]]; [by intros a s []|].
  intros s HJ HP. destruct (Hf s HJ HP) as (Hc & Hcl & Hd & Hs), HJ as (HJ1 & HJ2 & HJ3). simpl.
  assert (closed (f (g_tr s)) = false → closed (g_tr s) = false) as Hopen.
  { intros Hcl'. destruct (closed (g_tr s)); [|done]. by rewrite Hcl in Hcl'. }
  split; [split_and!|split; [split_and!|done]]; simpl; auto.
  - done.
  - intros Hcl'. split; [done|]. intros _. split; [|done]. destruct Hc as [?|[_ ?]]; simpl in *; congruence.
  - done.
Qed.

(** ** The operations *)

Ltac nxt := let u := fresh "u" in intros u; cbv beta; try clear u.

Lemma spec_live b P c : Stable b P → spec b P (liveT lib c) (λ _, P).
Proof.
  intros HS. destruct c as [c|]; cbn [liveT]; [|by apply spec_ret].
  eapply spec_bind; [by apply spec_query|]. nxt. by apply spec_ret.
Qed.

(** Under [dialMu], a connection found dead stays dead. *)
Lemma spec_live_dead P c :
  Stable true P →
  spec true (λ s, P s ∧ (conn (g_tr s) = c ∨ conn (g_tr s) = None)) (liveT lib c)
    (λ ok s, P s ∧ (ok = false ∨ c = None → ¬ conn_live s)).
Proof.
  intros HS. assert (Stable true (λ s, P s ∧ (conn (g_tr s) = c ∨ conn (g_tr s) = None))) as HS'.
  { apply stable_and; [done|]. intros s s' (_ & _ & Hm) Hc. destruct (Hm eq_refl) as [_ [->|[-> _]]]; auto. }
  destruct c as [c|]; cbn [liveT].
  - eapply spec_bind; [eapply spec_post; [|apply (spec_neutral true _ _ (λ r s,
      (conn (g_tr s) = Some c ∨ conn (g_tr s) = None) ∧ r = isc c s)); [exact HS'|]]|].
    + intros a s HQ. exact HQ.
    + intros s HJ [HP Hc]. simpl. destruct (neutral_same s s) as [? ?]; auto.
    + intros r. apply spec_ret. intros s ([HP _] & Hc & ->). split; [done|].
      rewrite negb_false_iff. intros [Hr|?] (c' & Hc' & Ho); [|done]. destruct Hc; congruence.
  - apply spec_ret. intros s [HP Hc]. split; [done|]. intros _ (c' & Hc' & _). destruct Hc; congruence.
Qed.

Lemma spec_reset b P : Stable b P → spec b P (reset_pubChT lib) (λ _, P).
Proof.
  intros HS. unfold reset_pubChT. eapply spec_bind; [by apply spec_lock|]. nxt.
  eapply spec_bind; [by apply (spec_get _ _ (λ _, P))|]. intros t.
  eapply spec_bind; [|nxt; by apply spec_unlock].
  destruct (pubCh t) as [ch|]; [|by apply spec_ret].
  eapply spec_bind; [apply spec_call; [done|constructor]|]. nxt.
  apply spec_modify; [done|]. intros s HJ _. split_and!; try done. by left.
Qed.

(** The transport has no live connection, and [c] was just dialed. *)
Definition ready (P : sh B → Prop) (c : nat) (s : sh B) : Prop :=
  P s ∧ ¬ conn_live s ∧ (nodrop = true → closed (g_tr s) = false → isc c s = false).

Lemma stable_ready P c : Stable true P → Stable true (ready P c).
Proof. intros HS. apply stable_and; [done|]. apply stable_and; [apply stable_dead|apply stable_open]. Qed.

(** The swap. *)
Lemma spec_swap P c :
  Stable false P →
  spec true (ready P c)
    (swap_connectionT lib c) (λ _ s, P s ∧ K s).
Proof.
  intros HSf. assert (Stable true P) as HS by by eapply stable_weaken; [|exact HSf].
  unfold swap_connectionT.
  assert (Stable true (ready P c)) as HS' by by apply stable_ready.
  eapply spec_bind; [by apply spec_lock|]. nxt.
  eapply spec_bind; [apply (spec_get _ _ (λ t s, ready P c s ∧ from_option (λ old, isc old s = true) True (conn t)))|].
  { done. }
  { intros s HJ HP. split; [done|]. destruct HP as (_ & Hd & _). destruct (conn (g_tr s)) as [old|] eqn:Ec; [|done].
    simpl. destruct (isc old s) eqn:Eo; [done|]. exfalso. apply Hd. by exists old. }
  intros t. eapply spec_bind with (Q := λ _, ready P c).
  { destruct (conn t) as [old|]; [|apply spec_ret; by intros s [? _]].
    eapply spec_bind with (Q := λ _, ready P c); [|nxt; by apply spec_ret]. apply spec_act.
    { apply stable_and; [done|]. intros s s' ((_ & Hb & _) & _) Ho. by apply Hb. }
    intros s HJ [HP Ho]. simpl. pose proof (close_stays old (g_broker s)) as Hst.
    destruct (conn_Close lib old (g_broker s)) as [e b'] eqn:Ecl. simpl in *.
    assert (neutral s (Sh (g_tr s) (g_heap s) b' (g_dialed s)) ∧ (J s → J (Sh (g_tr s) (g_heap s) b' (g_dialed s))))
      as [Hn HJ'].
    { apply neutral_same; simpl; try done. intros c'. unfold isc in *; simpl.
      destruct (decide (c' = old)) as [->|Hne]; [by rewrite Ho; apply Hst|]. exact (close_other lib old _ _ _ c' Ecl Hne). }
    split_and!; [by apply neutral_guar|by apply HJ'|]. eapply HS'; [by apply neutral_rely|done]. }
  nxt. eapply spec_bind; [|nxt; apply spec_unlock; [done|apply stable_and; [done|apply stable_K]]].
  apply spec_act; [done|]. intros s HJ (HP & Hd & Ho). simpl.
  assert (guarb true s (Sh (set_conn (Some c) (g_tr s)) (g_heap s) (g_broker s) (g_dialed s))) as Hg.
  { split_and!; [done| |by left]. intros _. split; [done|]. intros Hl. by destruct Hd. }
  split; [done|]. split; [done|]. split.
  - eapply HSf; [|exact HP]. destruct Hg as (? & ? & _). by split_and!.
  - intros Hn Hcl. left. exists c. split; [done|]. by apply Ho.
Qed.

Lemma spec_dial P d :
  Stable false P →
  spec true (λ s, (P s ∧ K s) ∧ ¬ conn_live s) (dialT lib d)
    (λ r s, match r with inl _ => P s ∧ K s | inr c => ready P c s end).
Proof.
  intros HSf. assert (Stable true P) as HS by by eapply stable_weaken; [|exact HSf].
  apply spec_act; [apply stable_and; [apply stable_and; [done|apply stable_K]|apply stable_dead]|].
  intros s (HJ1 & HJ2 & HJ3) [[HP HK] Hd]. simpl. pose proof (dial_frame d (g_broker s)) as Hfr.
  destruct (dial lib d (g_broker s)) as [r b'] eqn:Ed. simpl in *.
  set (hist := match r with inl _ => g_dialed s | inr c => g_dialed s ++ [c] end).
  assert (∀ c, isc c s = true → conn_IsClosed lib c b' = true) as Hst.
  { intros c. by apply (closed_stays lib _ _ _ _ c Ed). }
  assert (∀ c, isc c s = false → conn_IsClosed lib c b' = false) as Hop.
  { intros c Ho. destruct r as [e|c1]; [by rewrite Hfr|]. destruct (decide (c = c1)) as [->|Hne].
    - exact (dial_open lib _ _ _ _ Ed).
    - rewrite Hfr; [done|]. congruence. }
  assert (guarb true s (Sh (g_tr s) (g_heap s) b' hist)) as Hg.
  { split_and!; [done| |by left]. intros _. split; [done|]. by intros Hl. }
  assert (P (Sh (g_tr s) (g_heap s) b' hist)) as HP'.
  { eapply HSf; [|exact HP]. destruct Hg as (? & ? & _). by split_and!. }
  split; [done|]. split.
  - split_and!; [done..|]. simpl. intros Hn Hcl. specialize (HJ3 Hn Hcl). unfold hist.
    destruct r as [e|c1]; [done|]. destruct (HK Hn Hcl) as [?|[-> ->]]; [done|]. rewrite length_app. simpl. lia.
  - destruct r as [e|c1].
    + split; [done|]. intros Hn Hcl. right. by destruct (HK Hn Hcl).
    + split; [done|]. split.
      * intros (c & Hc & Ho). apply Hd. exists c. split; [done|]. destruct (isc c s) eqn:E; [|done].
        unfold isc in Ho. simpl in Ho. by rewrite (Hst c E) in Ho.
      * intros _ _. exact (dial_open lib _ _ _ _ Ed).
Qed.

Lemma spec_reconnect P d : Stable false P → spec false P (reconnectT lib d) (λ _, P).
Proof.
  intros HSf. assert (Stable true P) as HS by by eapply stable_weaken; [|exact HSf].
  assert (Stable true (λ s, P s ∧ K s)) as HSK by (apply stable_and; [done|apply stable_K]).
  apply spec_critical; [done..| |done]. unfold reconnect_lockedT.
  eapply spec_bind; [by apply spec_lock|]. nxt.
  eapply spec_bind; [apply (spec_get _ _ (λ t s, (P s ∧ K s) ∧ (conn (g_tr s) = conn t ∨ conn (g_tr s) = None)));
    [done|by auto]|]. intros t.
  eapply spec_bind; [by apply spec_live_dead|]. intros ok.
  eapply spec_bind; [apply spec_unlock; [done|]|].
  { apply stable_and; [done|]. intros s s' Hr Hd Hok. eapply stable_dead; [exact Hr|]. by apply Hd. }
  nxt. assert (spec true (λ s, (P s ∧ K s) ∧ ¬ conn_live s)
    (t ← getT; if closed t then mret (inl ErrClosed) else
       r ← dialT lib d;
       match r with
       | inl err => mret (inl err)
       | inr newConn => _ ← swap_connectionT lib newConn; _ ← reset_pubChT lib; mret (inr newConn)
       end) (λ (_ : result nat) s, P s ∧ K s)) as Hrest.
  { eapply spec_bind; [apply (spec_get _ _ (λ _ s, (P s ∧ K s) ∧ ¬ conn_live s));
      [apply stable_and; [done|apply stable_dead]|done]|].
    intros t'. destruct (closed t'); [apply spec_ret; by intros s [? _]|].
    eapply spec_bind; [by apply spec_dial|]. intros [e|c]; [by apply spec_ret|].
    eapply spec_bind; [by apply spec_swap|]. nxt. eapply spec_bind; [by apply spec_reset|]. nxt. by apply spec_ret. }
  destruct (conn t) as [c|], ok; [apply spec_ret; by intros s [? _]|..];
    (eapply spec_pre; [|exact Hrest]); intros s [? Hd]; auto.
Qed.

Lemma spec_get_any b P : Stable b P → spec b P getT (λ _, P).
Proof. intros HS. by apply spec_get. Qed.

(** A fact about the value alone. *)
Lemma spec_pure {A} b P (φ : Prop) (c : G A) Q : (φ → spec b P c Q) → spec b (λ s, P s ∧ φ) c Q.
Proof. intros Hc hs s Hh [HP Hφ]. by apply Hc. Qed.

Ltac spec_prim :=
  first [ by apply spec_lock | by apply spec_unlock | by apply spec_query | by apply spec_get_any
        | by apply spec_live | by apply spec_reset
        | (apply spec_call; [done|intros; constructor]) | by apply spec_ret ].
Ltac spec_auto :=
  repeat first
    [ spec_prim
    | (eapply spec_bind; [solve [spec_prim]|nxt])
    | match goal with |- spec _ _ (match ?x with _ => _ end) _ => destruct x end ].

Lemma spec_connectionForUse P :
  Stable false P → spec false P (connectionForUseT lib) (λ r s, P s ∧ r ≠ inr None).
Proof.
  intros HS. unfold connectionForUseT. eapply spec_bind; [spec_prim|]. nxt.
  eapply spec_bind; [apply (spec_get _ _ (λ t s, P s ∧ dialFn t ≠ None)); [done|]|].
  { by intros s (? & _) HP. }
  intros t. eapply spec_bind; [apply spec_unlock; [done|by apply stable_and; [|apply stable_pure]]|]. nxt.
  apply spec_pure. intros Hd.
  eapply spec_bind with (Q := λ ok s, P s ∧ (ok = true → conn t ≠ None)).
  { destruct (conn t) as [c|]; cbn [liveT]; [|by apply spec_ret].
    eapply spec_bind; [spec_prim|]. nxt. by apply spec_ret. }
  intros ok. apply spec_pure. intros Hok. destruct ok.
  - apply spec_ret. intros s HP. split; [done|]. intros [= Hc]. by apply Hok.
  - eapply spec_bind; [spec_prim|]. intros t'. destruct (closed t'); [by apply spec_ret|].
    destruct (dialFn t) as [d|]; [|done]. eapply spec_bind; [by apply spec_reconnect|].
    intros [e|c]; by apply spec_ret.
Qed.

Lemma spec_open_channel b P c : Stable b P → c ≠ None → spec b P (open_channelT lib c) (λ _, P).
Proof. intros HS Hc. destruct c as [c|]; [|done]. cbn [open_channelT]. spec_prim. Qed.

(** A connection, then a channel on it. *)
Lemma spec_connected {A} P (k : result (option nat) → G A) (k' : option nat → result nat → G A) Q :
  Stable false P →
  (∀ e, spec false P (k (inl e)) Q) →
  (∀ c, k (inr c) = (r' ← open_channelT lib c; k' c r')) →
  (∀ c r', spec false P (k' c r') Q) →
  spec false P (r ← connectionForUseT lib; k r) Q.
Proof.
  intros HS He Hk Hk'. eapply spec_bind; [by apply spec_connectionForUse|]. intros r.
  apply spec_pure. intros Hr. destruct r as [e|c]; [done|]. rewrite Hk.
  eapply spec_bind; [apply spec_open_channel; [done|congruence]|]. intros r'. apply Hk'.
Qed.

Lemma spec_publishChannel P : Stable false P → spec false P (publishChannelT lib) (λ _, P).
Proof.
  intros HS. unfold publishChannelT. eapply spec_bind; [spec_prim|]. nxt.
  eapply spec_bind; [spec_prim|]. intros t.
  eapply spec_bind with (Q := λ _, P); [destruct (pubCh t); spec_prim|]. intros isClosed.
  assert (spec false P
    (r ← connectionForUseT lib;
     match r with
     | inl err => _ ← unlockT pubMu; mret (inl (Wrapf "amqp: get connection for publish: " err EmptyString))
     | inr c =>
         r' ← open_channelT lib c;
         match r' with
         | inl err => _ ← unlockT pubMu; mret (inl (Wrapf "amqp: open publish channel: " err EmptyString))
         | inr ch => _ ← modifyT (set_pubCh (Some ch)); _ ← unlockT pubMu; mret (inr ch)
         end
     end) (λ _ : result nat, P)) as Hopen.
  { eapply spec_connected; [done|intros e; spec_auto|done|]. intros c [e|ch]; [spec_auto|].
    eapply spec_bind; [|nxt; spec_auto]. apply spec_modify; [done|]. intros s HJ _.
    split_and!; try done. by left. }
  destruct (pubCh t), isClosed; try exact Hopen. spec_auto.
Qed.

Lemma spec_await b P stream timeout cid :
  Stable b P → spec b P (await_replyT lib stream timeout cid) (λ _, P).
Proof.
  intros HS hs s Hh HP. cbn [await_replyT select_ Threads.wp]. exists P. split; [done|]. split.
  { intros s1 s2 Hr. apply HS. by eapply rely_relyb. }
  intros s' HP' HJ. unfold receive. destruct (next_reply lib stream timeout (g_broker s')) as [[ev b']|] eqn:En; [|done].
  set (s2 := Sh (g_tr s') (g_heap s') b' (g_dialed s')).
  assert (neutral s' s2 ∧ (J s' → J s2)) as [Hn HJ2].
  { apply neutral_same; [done..|]. intros c. apply channel_frame. by eapply op_next_reply. }
  assert (P s2) by (eapply HS; [by apply (neutral_rely b)|done]).
  destruct (examine cid ev); (split; [by apply neutral_guar|split; [by apply HJ2|]]); by split || done.
Qed.

Lemma spec_request_on b P ch req : Stable b P → spec b P (request_onT lib ch req) (λ _, P).
Proof.
  intros HS. unfold request_onT. cbv zeta. eapply spec_bind; [spec_prim|]. intros [e|q]; [spec_prim|].
  eapply spec_bind; [spec_prim|]. intros [e|stream]; [spec_prim|].
  eapply spec_bind with (Q := λ _, P); [case_decide; spec_prim|]. intros cid.
  eapply spec_bind; [spec_prim|]. intros [e|]; [spec_prim|]. by apply spec_await.
Qed.

Lemma spec_setupConsumer P q n : Stable false P → spec false P (setupConsumerT lib q n) (λ _, P).
Proof.
  intros HS. unfold setupConsumerT. eapply spec_connected; [done|intros e; spec_prim|done|].
  intros c [e|ch]; [spec_prim|]. unfold setup_onT. cbv zeta. spec_auto.
Qed.

Lemma spec_heap_any {A} b P (f : list subscription → A * list subscription) :
  Stable b P → (∀ hp, length hp ≤ length (f hp).2) → spec b P (heapT f) (λ _, P).
Proof.
  intros HS Hl. eapply spec_post; [|by apply (spec_heap b P f (λ _ _, True))]. by intros a s [? _].
Qed.

Lemma spec_currentChannel b P sub : Stable b P → spec b P (currentChannelT sub) (λ _, P).
Proof.
  intros HS. unfold currentChannelT. eapply spec_bind; [spec_prim|]. nxt.
  eapply spec_bind; [by apply spec_heap_any|]. nxt. spec_auto.
Qed.

Lemma spec_sub_Close b P sub :
  Stable b P → spec b (λ s, P s ∧ sub < length (g_heap s)) (sub_CloseT lib sub) (λ _, P).
Proof.
  intros HS. assert (Stable b (λ s, P s ∧ sub < length (g_heap s))) as HS'.
  { apply stable_and; [done|]. intros s s' ((_ & _ & ?) & _) ?. lia. }
  unfold sub_CloseT. eapply spec_bind; [by apply spec_lock|]. nxt.
  eapply spec_bind with (Q := λ x s, P s ∧ x ≠ None).
  { eapply spec_post; [|apply (spec_neutral b _ _ (λ x _, x ≠ None)); [exact HS'|]].
    - by intros x s [[? _] ?].
    - intros s HJ [_ Hlt]. simpl. destruct (neutral_same s s) as [? ?]; [done..|].
      destruct s. split_and!; [done|done|]. by apply lookup_lt_is_Some, not_eq_None_Some in Hlt. }
  intros x. apply spec_pure. intros Hx. destruct x as [x|]; [|done]. destruct (s_done x); [spec_auto|].
  eapply spec_bind; [by apply spec_currentChannel|]. intros ch.
  eapply spec_bind with (Q := λ _, P); [destruct ch; spec_prim|]. intros err.
  eapply spec_bind; [apply spec_heap_any; [done|]; intros hp; simpl; by rewrite length_alter|]. nxt. spec_auto.
Qed.

Lemma spec_close_subs b P l :
  Stable b P → spec b (λ s, P s ∧ Forall (λ sub, sub < length (g_heap s)) l) (close_subsT lib l) (λ _, P).
Proof.
  intros HS. induction l as [|sub l IH]; cbn [close_subsT]; [apply spec_ret; by intros s [? _]|].
  eapply spec_bind with (Q := λ _ s, P s ∧ Forall (λ sub, sub < length (g_heap s)) l); [|nxt; exact IH].
  eapply spec_pre; [|apply (spec_sub_Close b (λ s, P s ∧ Forall (λ sub, sub < length (g_heap s)) l))].
  - intros s [? [? ?]%Forall_cons]. done.
  - apply stable_and; [done|apply stable_heap].
Qed.

Lemma spec_Close : spec false (λ _, True) (CloseT lib) (λ _ _, True).
Proof.
  unfold CloseT. eapply spec_bind; [by apply spec_lock, stable_true|]. nxt.
  eapply spec_bind; [by apply spec_get_any, stable_true|]. intros t. destruct (closed t).
  { pose proof (stable_true false). spec_auto. }
  eapply spec_bind with (Q := λ _ s, closed (g_tr s) = true).
  { apply spec_act; [apply stable_true|]. intros s (HJ1 & HJ2 & _) _. simpl.
    split; [|by split_and!]. apply neutral_guar. split_and!; [done|done|]. split; [done|by left]. }
  nxt. pose proof (stable_closed false) as HS.
  eapply spec_bind; [spec_prim|]. nxt. eapply spec_bind; [spec_prim|]. nxt.
  eapply spec_bind; [apply (spec_get _ _ (λ t s, closed (g_tr s) = true ∧
    Forall (λ sub, sub < length (g_heap s)) (subs t))); [done|]|].
  { by intros s (_ & ? & _) ?. }
  clear t. intros t. assert (Stable false (λ s, closed (g_tr s) = true ∧
    Forall (λ sub, sub < length (g_heap s)) (subs t))) by by apply stable_and; [|apply stable_heap].
  eapply spec_bind; [apply spec_modify; [done|]|].
  { intros s HJ _. split_and!; try done. by left. }
  nxt. eapply spec_bind; [spec_prim|]. nxt. eapply spec_bind; [by apply spec_close_subs|]. nxt.
  eapply spec_bind; [spec_prim|]. nxt. eapply spec_bind; [spec_prim|]. nxt. eapply spec_bind; [spec_prim|].
  clear dependent t. intros t. eapply spec_bind; [apply spec_modify; [done|]|].
  { intros s HJ Hcl. split_and!; try done. by right. }
  nxt. eapply spec_bind; [spec_prim|]. nxt. eapply spec_bind with (Q := λ _ s, closed (g_tr s) = true).
  { destruct (conn t) as [c|]; [|spec_prim]. apply spec_act; [done|]. intros s HJ Hcl.
    assert (∀ c', isc c' s = true → conn_IsClosed lib c' (conn_Close lib c (g_broker s)).2 = true) as Hst.
    { intros c' Hc'. destruct (decide (c' = c)) as [->|Hne]; [by apply close_stays|].
      destruct (conn_Close lib c (g_broker s)) as [e b'] eqn:E. simpl. by rewrite (close_other lib _ _ _ _ _ E Hne). }
    destruct (conn_Close lib c (g_broker s)) as [e b']. simpl in *. split; [|done]. apply neutral_guar.
    split_and!; [done|by intros ?; simpl in *; congruence|]. split; [done|by left]. }
  intros err. eapply spec_bind; [apply spec_modify; [done|]|nxt; by apply spec_ret].
  intros s HJ _. split_and!; try done. by left.
Qed.

Lemma spec_Consume P e h n : Stable false P → spec false P (ConsumeT lib e h n) (λ _, P).
Proof.
  intros HS. unfold ConsumeT. case_decide; [spec_prim|]. destruct h; [|spec_prim]. cbv zeta.
  eapply spec_bind; [spec_prim|]. intros t. eapply spec_bind; [by apply spec_setupConsumer|].
  intros [err|[ch stream]]; [spec_prim|].
  eapply spec_bind; [apply (spec_heap _ _ _ (λ sub hp, sub < length hp)); [done|..]|].
  { intros hp. simpl. rewrite length_app. lia. }
  { intros hp. simpl. rewrite length_app. simpl. lia. }
  intros sub. assert (Stable false (λ s, P s ∧ sub < length (g_heap s))).
  { apply stable_and; [done|]. intros s s' ((_ & _ & ?) & _) ?. lia. }
  eapply spec_bind; [spec_prim|]. nxt. eapply spec_bind; [apply spec_modify; [done|]|].
  { intros s (_ & HJ & _) [_ Hlt]. split_and!; try done; [by left|]. simpl. intros Hf.
    apply Forall_app. split; [done|]. by constructor. }
  nxt. eapply spec_bind; [spec_prim|]. nxt. apply spec_ret. by intros s [? _].
Qed.

Lemma spec_rebind P sub e n : Stable false P → spec false P (rebindT lib sub e n) (λ _, P).
Proof.
  intros HS. unfold rebindT. eapply spec_bind; [by apply spec_setupConsumer|]. intros [err|[ch stream]]; [spec_prim|].
  unfold swapChannelT. eapply spec_bind with (Q := λ _, P); [|nxt; spec_prim].
  eapply spec_bind; [spec_prim|]. nxt.
  eapply spec_bind; [apply spec_heap_any; [done|]; intros hp; simpl; by rewrite length_alter|]. nxt. spec_prim.
Qed.

Lemma spec_watchdog P b : Stable false P → spec false P (watchdog_iterT lib b) (λ _, P).
Proof.
  intros HS. unfold watchdog_iterT. eapply spec_bind; [spec_prim|]. intros t. destruct (closed t); [spec_prim|].
  eapply spec_bind; [spec_prim|]. nxt. eapply spec_bind; [spec_prim|]. clear t. intros t.
  eapply spec_bind; [spec_prim|]. nxt. destruct (dialFn t) as [d|]; [|spec_prim].
  eapply spec_bind; [spec_prim|]. intros []; [spec_prim|].
  eapply spec_bind; [by apply spec_reconnect|]. intros [e|c]; spec_prim.
Qed.

Lemma spec_SetDialFunc P d : Stable false P → spec false P (SetDialFuncT d) (λ _, P).
Proof.
  intros HS. destruct d as [d|]; cbn [SetDialFuncT]; [|spec_prim].
  eapply spec_bind; [spec_prim|]. nxt. eapply spec_bind; [apply spec_modify; [done|]|].
  { intros s HJ _. split_and!; try done. by left. }
  nxt. eapply spec_bind; [spec_prim|]. nxt. apply spec_modify; [done|]. intros s HJ _.
  split_and!; try done. by left.
Qed.

(** The calls that may start in a state: a subscription to close exists. *)
Definition startable (s : sh B) (c : G answer) : Prop :=
  ∃ q, c = goroutine lib q ∧ match q with CallSubClose sub => sub < length (g_heap s) | _ => True end.

Lemma startable_safe c s : startable s c → wp [] c (λ _ _ _, True) s.
Proof.
  intros (q & -> & Hq). pose proof (stable_true false) as HS.
  assert (∀ P (c : G answer), P s → spec false P c (λ _ _, True) → wp [] c (λ _ _ _, True) s) as Hstart.
  { intros P c HP Hc. eapply wp_mono; [|by apply (Hc [] s)]. done. }
  destruct q; cbn [goroutine].
  8: { apply (Hstart (λ s, True ∧ sub < length (g_heap s))); [done|].
       eapply spec_bind; [by apply spec_sub_Close|]. nxt. by apply spec_ret. }
  all: apply (Hstart (λ _, True)); [done|]; eapply spec_bind with (Q := λ _ _, True); [|nxt; by apply spec_ret].
  - by apply spec_SetDialFunc.
  - unfold ConnectionT. spec_auto.
  - by apply spec_Consume.
  - by apply spec_rebind.
  - by apply spec_watchdog.
  - unfold PublishT. case_decide; [spec_prim|]. eapply spec_bind; [by apply spec_publishChannel|].
    intros [e|ch]; spec_prim.
  - unfold RequestT. case_decide; [spec_prim|]. eapply spec_connected; [done|intros e; spec_prim|done|].
    intros c [e|ch]; [spec_prim|]. eapply spec_bind; [by apply spec_request_on|]. intros r. spec_auto.
  - apply spec_Close.
Qed.
End race.

(** ** Lock order *)

Definition rank (l : gmutex) : nat :=
  match l with
  | Mu pubMu | ChMu _ => 1
  | Mu connMu => 2
  | _ => 0
  end.

Lemma rank_bound l : rank l ≤ 2.
Proof. destruct l as [[]| |]; simpl; lia. Qed.

Section order.
Context `{UnicodeTables} {B : Type} (lib : amqp091 B).

(** What a call may wait for in a [select], whatever it is. *)
Context (aw : ∀ Y, (sh B → option (option Y * sh B)) → Prop).
Abbreviation ord := (ordered (S:=sh B) rank aw).

Ltac low := first [apply Forall_nil_2 | apply Forall_cons; split; [simpl; lia|low]].
Ltac ord_prim :=
  first [ apply ordered_ret | apply ordered_act | (apply ordered_lock; low) | (apply ordered_unlock; low)
        | exact I ].
Ltac ord_auto :=
  intros; cbv zeta;
  repeat first
    [ ord_prim
    | (eapply ordered_bind; [solve [ord_prim]|intros ?; cbv beta])
    | match goal with |- ordered _ _ _ (match ?x with _ => _ end) _ => destruct x end
    | (eapply ordered_bind; [match goal with |- ordered _ _ _ (match ?x with _ => _ end) _ =>
         destruct x; solve [ord_prim] end|intros ?; cbv beta]) ].

Lemma ord_live hs c : ord hs (liveT lib c) hs.
Proof. unfold liveT. ord_auto. Qed.
Lemma ord_reset hs : Forall (λ e, rank e.1 < 1) hs → ord hs (reset_pubChT lib) hs.
Proof.
  intros Hf. unfold reset_pubChT. eapply ordered_bind; [by apply ordered_lock|]. intros _.
  eapply ordered_bind; [apply ordered_act|]. intros t.
  eapply ordered_bind; [destruct (pubCh t); ord_auto|]. intros _. by apply ordered_unlock.
Qed.
Lemma ord_swap hs c : Forall (λ e, rank e.1 < 2) hs → ord hs (swap_connectionT lib c) hs.
Proof.
  intros Hf. unfold swap_connectionT. eapply ordered_bind; [by apply ordered_lock|]. intros _.
  eapply ordered_bind; [apply ordered_act|]. intros t.
  eapply ordered_bind; [destruct (conn t); ord_auto|]. intros _.
  eapply ordered_bind; [apply ordered_act|]. intros _. by apply ordered_unlock.
Qed.
Lemma ord_reconnect d : ord [] (reconnectT lib d) [].
Proof.
  unfold reconnectT, reconnect_lockedT. eapply ordered_bind; [ord_prim|]. intros _.
  eapply (ordered_bind _ _ _ [(Mu dialMu, true)]); [|intros r; ord_auto].
  eapply ordered_bind; [ord_prim|]. intros _. eapply ordered_bind; [ord_prim|]. intros t.
  eapply ordered_bind; [apply ord_live|]. intros ok. eapply ordered_bind; [ord_prim|]. intros _.
  destruct (conn t), ok; [ord_prim|..];
    (eapply ordered_bind; [ord_prim|]; intros t'; destruct (closed t'); [ord_prim|];
     eapply ordered_bind; [ord_prim|]; intros [e|c']; [ord_prim|];
     eapply ordered_bind; [apply ord_swap; low|]; intros _;
     eapply ordered_bind; [apply ord_reset; low|]; intros _; ord_prim).
Qed.
Lemma ord_connectionForUse : ord [] (connectionForUseT lib) [].
Proof.
  unfold connectionForUseT. do 3 (eapply ordered_bind; [ord_prim|]; intros ?).
  eapply ordered_bind; [apply ord_live|]. intros []; [ord_prim|]. eapply ordered_bind; [ord_prim|].
  intros t'. destruct (closed t'); [ord_prim|]. destruct (dialFn _); [|ord_prim].
  eapply ordered_bind; [apply ord_reconnect|]. ord_auto.
Qed.
Lemma ord_open_channel c : ord [] (open_channelT lib c) [].
Proof. unfold open_channelT. ord_auto. Qed.
Lemma ord_request_on ch req :
  (∀ stream t cid, aw _ (receive lib stream t cid)) → ord [] (request_onT lib ch req) [].
Proof.
  intros Haw. unfold request_onT. cbv zeta. eapply ordered_bind; [ord_prim|]. intros [e|q]; [ord_prim|].
  eapply ordered_bind; [ord_prim|]. intros [e|stream]; [ord_prim|].
  eapply (ordered_bind _ _ _ []); [case_decide; ord_prim|]. intros cid.
  eapply ordered_bind; [ord_prim|]. intros [e|]; [ord_prim|]. by apply ordered_select.
Qed.
Lemma ord_setupConsumer q n : ord [] (setupConsumerT lib q n) [].
Proof.
  unfold setupConsumerT. eapply ordered_bind; [apply ord_connectionForUse|]. intros [e|c]; [ord_prim|].
  eapply ordered_bind; [apply ord_open_channel|]. intros [e|ch]; [ord_prim|]. unfold setup_onT. ord_auto.
Qed.
Lemma ord_sub_Close sub : ord [] (sub_CloseT lib sub) [].
Proof.
  unfold sub_CloseT, currentChannelT. eapply ordered_bind; [ord_prim|]. intros _.
  eapply ordered_bind; [ord_prim|]. intros [x|]; [|done]. destruct (s_done x); [ord_auto|].
  eapply (ordered_bind _ _ _ [(CloseOnce sub, true)]); [ord_auto|]. intros [ch|]; ord_auto.
Qed.
Lemma ord_close_subs l : ord [] (close_subsT lib l) [].
Proof.
  induction l as [|sub l IH]; cbn [close_subsT]; [ord_prim|].
  eapply ordered_bind; [apply ord_sub_Close|]. intros _. apply IH.
Qed.
Lemma ord_Close : ord [] (CloseT lib) [].
Proof.
  unfold CloseT. do 2 (eapply ordered_bind; [ord_prim|]; intros ?). destruct (closed _); [ord_auto|].
  do 6 (eapply ordered_bind; [ord_prim|]; intros ?).
  eapply ordered_bind; [apply ord_close_subs|]. intros _. eapply ordered_bind; [by apply ord_reset|]. intros _.
  do 2 (eapply ordered_bind; [ord_prim|]; intros ?). do 2 (eapply ordered_bind; [ord_prim|]; intros ?).
  eapply (ordered_bind _ _ _ []); [destruct (conn _); ord_prim|]. intros err. ord_auto.
Qed.

(** Every call but [Publish] respects the order. *)
Definition is_publish (q : request) : bool := match q with CallPublish _ => true | _ => false end.

(** Only [Request] waits in a [select]. *)
Definition is_request (q : request) : bool := match q with CallRequest _ => true | _ => false end.

Lemma ord_goroutine q :
  is_publish q = false → (is_request q = true → ∀ stream t cid, aw _ (receive lib stream t cid)) →
  ord [] (goroutine lib q) [].
Proof.
  intros Hq Haw. destruct q; try discriminate Hq; cbn [goroutine]; (eapply (ordered_bind _ _ _ []); [|intros r; ord_prim]).
  - unfold SetDialFuncT. ord_auto.
  - unfold ConnectionT. ord_auto.
  - unfold ConsumeT. case_decide; [ord_prim|]. destruct has_handler; [|ord_prim]. cbv zeta.
    eapply ordered_bind; [ord_prim|]. intros t. eapply ordered_bind; [apply ord_setupConsumer|].
    intros [e|[ch stream]]; ord_auto.
  - unfold rebindT, swapChannelT. eapply ordered_bind; [apply ord_setupConsumer|].
    intros [e|[ch stream]]; [ord_prim|]. eapply (ordered_bind _ _ _ []); ord_auto.
  - unfold watchdog_iterT. eapply ordered_bind; [ord_prim|]. intros t. destruct (closed t); [ord_prim|].
    do 3 (eapply ordered_bind; [ord_prim|]; intros ?). destruct (dialFn _); [|ord_prim].
    eapply ordered_bind; [apply ord_live|]. intros []; [ord_prim|].
    eapply ordered_bind; [apply ord_reconnect|]. ord_auto.
  - unfold RequestT. case_decide; [ord_prim|]. eapply ordered_bind; [apply ord_connectionForUse|].
    intros [e|c]; [ord_prim|]. eapply ordered_bind; [apply ord_open_channel|]. intros [e|ch]; [ord_prim|].
    eapply ordered_bind; [by apply ord_request_on, Haw|]. ord_auto.
  - apply ord_sub_Close.
  - apply ord_Close.
Qed.
End order.

(** The next action of a goroutine: an acquisition, a release, any other. *)
Ltac lk i := eapply (run_lock_at i); [reflexivity|vm_compute; reflexivity|]; cbn [insert list_insert].
Ltac ul i := eapply (run_unlock_at i); [reflexivity|]; cbn [insert list_insert].
Ltac ac i := eapply (run_act_at i); [reflexivity|cbn; reflexivity|]; cbn [insert list_insert].
(** The same with an equation for the library call. *)
Ltac acr i H := eapply (run_act_at i); [reflexivity|cbn; rewrite H; reflexivity|]; cbn [insert list_insert].

(** ** Theorems *)

Section theorems.
Context `{UnicodeTables} {B : Type} (lib : amqp091 B) `{!ConnLaws lib}.

(** Goroutines that make the calls [qs] at once, on a transport with a dial
    function. *)
Definition calling (qs : list request) (s : sh B) : cfg gmutex (sh B) answer :=
  Cfg (goroutine lib <$> qs) [] s.

Definition well_formed (s : sh B) : Prop :=
  dialFn (g_tr s) ≠ None ∧ Forall (λ sub, sub < length (g_heap s)) (subs (g_tr s)).

Definition closable (s : sh B) (q : request) : Prop :=
  match q with CallSubClose sub => sub < length (g_heap s) | _ => True end.

(** All that may happen: goroutines move, connections drop (unless [nodrop]),
    and new calls start. *)
Definition happens (nodrop : bool) : cfg gmutex (sh B) answer → cfg gmutex (sh B) answer → Prop :=
  rtc (step (drops lib nodrop) (startable lib)).

Definition conn_liveb (s : sh B) : bool :=
  from_option (λ c, negb (isc lib c s)) false (conn (g_tr s)).
Lemma conn_liveb_spec s : conn_liveb s = true ↔ conn_live lib s.
Proof.
  unfold conn_liveb, conn_live. destruct (conn (g_tr s)) as [c|]; simpl.
  - rewrite negb_true_iff. split; [by exists c|]. by intros (c' & [= <-] & ?).
  - split; [done|]. by intros (c' & ? & _).
Qed.

Abbreviation safe nodrop s := (safe_cfg (rely lib nodrop) (guar lib)
  (LI lib nodrop (g_dialed s) (conn_liveb s)) (J nodrop (g_dialed s) (conn_liveb s))).

Lemma calling_safe nodrop qs s y :
  well_formed s → Forall (closable s) qs → happens nodrop (calling qs s) y → safe nodrop s y.
Proof.
  intros [Hd Hs] Hq. apply (safe_reachable (drops lib nodrop)); [apply _|..].
  - intros c s' Hc _. by apply startable_safe.
  - intros i e He. by apply elem_of_nil in He.
  - split; [|split; [|split]]; simpl.
    + split; [done|]. split; [done|]. intros _ _. lia.
    + intros i c Hi. rewrite list_lookup_fmap in Hi.
      destruct (qs !! i) as [q|] eqn:Ei; [|done]. injection Hi as <-.
      apply startable_safe; [done|]. exists q. split; [done|]. by apply (Forall_lookup_1 _ _ _ _ Hq Ei).
    + intros i j _ l w w' Hin. by apply elem_of_nil in Hin.
    + intros l _. destruct l as [[]| |]; simpl; try done. intros _ _.
      destruct (conn_liveb s) eqn:E; [left; by apply conn_liveb_spec|by right].
Qed.

(** While a transport that is not closed has a live connection, nothing that
    any number of concurrent calls do (the watchdog's included) replaces it,
    closes it or opens another: a dial happens only when there is no live
    connection. *)
Theorem live_connection_is_kept qs s y z :
  well_formed s → Forall (closable s) qs →
  happens false (calling qs s) y → run_step y z →
  closed (g_tr (shared z)) = false → conn_live lib (shared y) →
  conn (g_tr (shared z)) = conn (g_tr (shared y)) ∧ conn_live lib (shared z) ∧
  g_dialed (shared z) = g_dialed (shared y).
Proof.
  intros Hw Hq Hy Hz Hcl Hl. pose proof (calling_safe _ _ _ _ Hw Hq Hy) as Hsafe.
  destruct (safe_run (drops lib false) _ _ _ _ y z Hsafe Hz) as [_ [->|(i & _ & Hc & _)]]; [done|].
  destruct (Hc Hcl) as [_ Hk]. destruct (Hk Hl). split_and!; [done| |done]. by eapply calm_live.
Qed.

(** C2: the reconnect storm is collapsed into one dial. However many goroutines
    find the connection dead at once, and whatever the interleaving, as long as
    no open connection drops and [Close] is not called at most one dial
    succeeds (none when the connection was live); and once [dialMu] is free, a
    connection that was dialed is open and in use. *)
Theorem one_dial_for_all qs s y :
  well_formed s → Forall (closable s) qs →
  happens true (calling qs s) y → closed (g_tr (shared y)) = false →
  length (g_dialed (shared y)) ≤ length (g_dialed s) + (if conn_liveb s then 0 else 1) ∧
  ((∀ i w, (i, (Mu dialMu, w)) ∉ locks y) → g_dialed (shared y) ≠ g_dialed s → conn_live lib (shared y)).
Proof.
  intros Hw Hq Hy Hcl. destruct (calling_safe _ _ _ _ Hw Hq Hy) as ((_ & _ & HJ) & _ & _ & HL).
  split; [by apply HJ|]. intros Hfree Hne. by destruct (HL (Mu dialMu) Hfree eq_refl Hcl) as [|[? _]].
Qed.

#[local] Unset Universe Minimization ToSet.
(** The only thing that a call waits for in a [select] is the reply to a
    [Request]. *)
Inductive awaits_reply : ∀ Y : Type, (sh B → option (option Y * sh B)) → Prop :=
| awaits_reply_at stream timeout cid : awaits_reply _ (receive lib stream timeout cid).

(** A [Request] waits for a reply with the id [cid]. *)
Definition waiting_for (y : cfg gmutex (sh B) answer) (stream : nat) (timeout : Z) (cid : string) : Prop :=
  ∃ i k, pool y !! i = Some (Select _ (receive lib stream timeout cid) k).

(** An event has come that ends one of the waits. *)
Definition some_reply (y : cfg gmutex (sh B) answer) : Prop :=
  ∃ stream timeout cid ev b r, waiting_for y stream timeout cid ∧
    next_reply lib stream timeout (g_broker (shared y)) = Some (ev, b) ∧ examine cid ev = Some r.

Definition reaches (nodrop : bool) : cfg gmutex (sh B) answer → cfg gmutex (sh B) answer → Prop :=
  rtc (λ a b, run_step a b ∨ idle_step (drops lib nodrop) a b).

Lemma reaches_happens nodrop x y : reaches nodrop x y → happens nodrop x y.
Proof. apply rtc_subrel. intros a b [?|?]; [by left|right; by left]. Qed.

Lemma some_reply_moves y : some_reply y → ∃ z, run_step y z.
Proof.
  destruct y as [p h s]. intros (stream & t & cid & ev & b & r & (i & k & Hi) & Hn & Hex). simpl in *.
  eexists. eapply run_at; [exact Hi|]. simpl. unfold receive. by rewrite Hn, Hex.
Qed.

Abbreviation waitable := (∀ Y, (sh B → option (option Y * sh B)) → Prop).

(** What is inevitable for goroutines that respect the lock order, where [Inv]
    holds: they settle, without locks; if they make no [Request] they return; and
    if the waits of the others end, all return. *)
Lemma calls_settle nodrop (Inv : sh B → Prop) qs s :
  well_formed s → Forall (closable s) qs → Inv s → (∀ s s', drops lib nodrop s s' → Inv s → Inv s') →
  (∀ aw : waitable, Forall (λ q, is_request q = true → ∀ stream t cid, aw _ (receive lib stream t cid)) qs →
     Forall (λ q, orderedI rank aw Inv [] (goroutine lib q) [] (λ _, True)) qs) →
  inevitable (idle_step (drops lib nodrop)) run_step
    (λ y, (all_settled y ∧ locks y = []) ∧ Inv (shared y)) (calling qs s) ∧
  (Forall (λ q, is_request q = false) qs ∨
   (∀ y, reaches nodrop (calling qs s) y → all_settled y → all_returned y ∨ some_reply y) →
   inevitable (idle_step (drops lib nodrop)) run_step (λ y, all_returned y ∧ Inv (shared y)) (calling qs s)).
Proof.
  intros Hw Hq Hs Henv Hord.
  assert (∀ aw : waitable, Forall (λ q, is_request q = true → ∀ stream t cid, aw _ (receive lib stream t cid)) qs →
    ordered_cfg rank aw Inv (calling qs s)) as Hcfg.
  { intros aw Haw. split; [done|]. split; simpl; [|by intros i e He; apply elem_of_nil in He].
    intros i c Hi. rewrite list_lookup_fmap in Hi. destruct (qs !! i) as [q|] eqn:Ei; [|done]. injection Hi as <-.
    by apply (Forall_lookup_1 _ _ _ _ (Hord aw Haw) Ei). }
  assert (∀ y, reaches nodrop (calling qs s) y → no_crash y) as Hnc.
  { intros y Hy%reaches_happens. eapply (safe_no_crash (rely lib nodrop)). by apply (calling_safe nodrop qs s y). }
  pose proof (Hcfg (λ _ _, True) ltac:(by apply Forall_true)) as Hany. split; [|intros [Hr|Hr]].
  - apply (orderedI_inevitable rank 2 rank_bound _ _ Inv Henv _ _ Hany). intros y Hy. split; [by apply Hnc|].
    intros Ho Hst. left. split; [done|]. by eapply settled_unlocked.
  - assert (ordered_cfg rank (λ _ _, False) Inv (calling qs s)) as Hnone.
    { apply Hcfg. eapply Forall_impl; [exact Hr|]. simpl. intros q ->. done. }
    apply (orderedI_inevitable rank 2 rank_bound _ _ Inv Henv _ _ Hnone). intros y Hy. split; [by apply Hnc|].
    intros Ho Hst. left. by destruct (settled_returned _ _ _ _ Ho Hst) as [|(? & ? & ? & ? & ? & [])].
  - apply (orderedI_inevitable rank 2 rank_bound _ _ Inv Henv _ _ Hany). intros y Hy. split; [by apply Hnc|].
    intros Ho Hst. destruct (Hr y Hy Hst) as [|Hre]; [by left|right]. by apply some_reply_moves.
Qed.

(** C7: calls return. On a transport with a dial function, whatever the
    interleaving and whenever connections drop, a set of concurrent calls without
    [Publish] never deadlocks and never crashes: after finitely many actions each
    of them has returned or is a [Request] that waits for its reply, and no mutex is
    held. If none of them is a [Request], all have returned. A [Request] may wait
    as long as no event comes, a timeout included; but if, whenever only such waits
    are left, one of them ends, then all calls return. *)
Theorem calls_return qs s :
  well_formed s → Forall (closable s) qs → Forall (λ q, is_publish q = false) qs →
  let inevitably := λ P, inevitable (idle_step (drops lib false)) run_step P (calling qs s) in
  inevitably (λ y, all_settled y ∧ locks y = []) ∧
  (Forall (λ q, is_request q = false) qs → inevitably all_returned) ∧
  ((∀ y, reaches false (calling qs s) y → all_settled y → all_returned y ∨ some_reply y) → inevitably all_returned).
Proof.
  intros Hw Hq Hp inev. destruct (calls_settle false (λ _, True) qs s Hw Hq I ltac:(done)) as [H1 H2].
  { intros aw Haw. rewrite Forall_forall in Hp, Haw |- *. intros q Hin. by apply ord_goroutine; [apply Hp|apply Haw]. }
  split; [|split]; [eapply inevitable_mono; [|exact H1]; by intros y [? _]|intros Hr..];
    (eapply inevitable_mono; [|apply H2]; [by intros y [? _]|]); [by left|by right].
Qed.

(** Calls that have settled have returned, unless a [Request] waits. *)
Lemma settled_waiting nodrop qs s y :
  Forall (λ q, is_publish q = false) qs → reaches nodrop (calling qs s) y → all_settled y →
  all_returned y ∨ ∃ stream timeout cid, waiting_for y stream timeout cid.
Proof.
  intros Hp Hy Hst. assert (ordered_cfg rank awaits_reply (λ _, True) (calling qs s)) as Ho.
  { split; [done|]. split; simpl; [|by intros i e He; apply elem_of_nil in He].
    intros i c Hi. rewrite list_lookup_fmap in Hi. destruct (qs !! i) as [q|] eqn:Ei; [|done]. injection Hi as <-.
    apply ord_goroutine; [by apply (Forall_lookup_1 _ _ _ _ Hp Ei)|]. intros _. constructor. }
  assert (ordered_cfg rank awaits_reply (λ _, True) y) as Hoy
    by (eapply (ordered_reach rank awaits_reply (drops lib nodrop)); [done|exact Ho|exact Hy]).
  destruct (settled_returned _ _ _ _ Hoy Hst) as [|(i & Y & f & k & Hi & Ha)]; [by left|right].
  destruct Ha as [stream t cid]. exists stream, t, cid, i, k. done.
Qed.

(** ** Three interleavings that go wrong *)

(** A transport whose connection [c] is to be replaced. *)
Definition stale (c d : nat) (prefix : string) : Transport :=
  set_endpointPrefix prefix (set_watchdog (set_dialFn (Some d) (New (Some c)))).

(** C32: the watchdog and [Publish] deadlock. When the connection drops, there is
    an interleaving after which the watchdog holds [dialMu] and waits for
    [pubMu] while [Publish] holds [pubMu] and waits for [dialMu]; whatever
    happens next, neither ever moves again. *)
Theorem watchdog_publish_deadlock c d prefix hp b hist c' b' backoff req :
  conn_IsClosed lib c b = true → dial lib d b = (inr c', b') → req_Endpoint req ≠ EmptyString →
  ∃ y, rtc run_step (calling [CallWatchdog backoff; CallPublish req] (Sh (stale c d prefix) hp b hist)) y ∧
    ∀ z, happens false y z →
      (∃ w k, pool z !! 0 = Some (Lock w (Mu pubMu) k)) ∧ (∃ w k, pool z !! 1 = Some (Lock w (Mu dialMu) k)).
Proof.
  intros Hdead Hdial Hreq. destruct (conn_Close lib c b') as [e b''] eqn:Hclose.
  assert (∃ y, rtc run_step (calling [CallWatchdog backoff; CallPublish req] (Sh (stale c d prefix) hp b hist)) y ∧
    waits y 0 1 ∧ waits y 1 0 ∧
    (∃ w k, pool y !! 0 = Some (Lock w (Mu pubMu) k)) ∧ (∃ w k, pool y !! 1 = Some (Lock w (Mu dialMu) k)))
    as (y & Hy & H01 & H10 & H0 & H1).
  { eexists. split.
    - unfold calling. cbn [fmap list_fmap goroutine]. unfold PublishT. rewrite decide_False by done.
      lk 1. ac 1. lk 1. ac 1. ul 1. acr 1 Hdead. ac 1.
      ac 0. lk 0. ac 0. ul 0. acr 0 Hdead. lk 0. lk 0. ac 0. acr 0 Hdead. ul 0. ac 0. acr 0 Hdial.
      lk 0. ac 0. acr 0 Hclose. ac 0. ul 0. apply rtc_refl.
    - split_and!.
      + eexists _, _, _. split; [reflexivity|]. apply (bool_decide_unpack _). vm_compute. exact I.
      + eexists _, _, _. split; [reflexivity|]. apply (bool_decide_unpack _). vm_compute. exact I.
      + by eexists _, _.
      + by eexists _, _. }
  exists y. split; [done|]. intros z Hz.
  destruct (circle_is_permanent _ _ _ _ _ _ H01 H10 Hz) as (_ & _ & -> & ->). done.
Qed.

(** C33: [Close] may leak a connection. When it runs while the watchdog dials,
    there is an interleaving after which both have returned, the transport is
    closed, and it holds the new connection, which is open; calling [Close]
    again changes nothing. *)
Theorem close_leaks_redialed_connection c d prefix hp b hist c' b' backoff :
  conn_IsClosed lib c b = true → dial lib d b = (inr c', b') →
  ∃ y, rtc run_step (calling [CallWatchdog backoff; CallClose] (Sh (stale c d prefix) hp b hist)) y ∧
    all_returned y ∧ closed (g_tr (shared y)) = true ∧
    conn (g_tr (shared y)) = Some c' ∧ conn_IsClosed lib c' (g_broker (shared y)) = false ∧
    let s' := St (g_tr (shared y)) (g_heap (shared y)) (g_broker (shared y)) [] in
    ∃ e, Close lib s' = (Done e, s').
Proof.
  intros Hdead Hdial. destruct (conn_Close lib c b') as [e b''] eqn:Hclose.
  assert (conn_IsClosed lib c' b'' = false) as Hopen.
  { rewrite (close_other lib _ _ _ _ _ Hclose); [exact (dial_open lib _ _ _ _ Hdial)|].
    intros ->. pose proof (closed_stays lib _ _ _ _ _ Hdial Hdead).
    pose proof (dial_open lib _ _ _ _ Hdial). congruence. }
  eexists. split.
  - unfold calling. cbn [fmap list_fmap goroutine].
    ac 0. lk 0. ac 0. ul 0. acr 0 Hdead. lk 0. lk 0. ac 0. acr 0 Hdead. ul 0. ac 0. acr 0 Hdial.
    lk 1. ac 1. ac 1. ul 1. lk 1. ac 1. ac 1. ul 1. lk 1. ac 1. ul 1. lk 1. ac 1. ac 1. ul 1. acr 1 Hclose. ac 1.
    lk 0. ac 0. ac 0. ul 0. lk 0. ac 0. ul 0. ul 0. apply rtc_refl.
  - split_and!; [repeat constructor|done|done|exact Hopen|]. eexists. apply Close_again; [apply not_elem_of_nil|done].
Qed.
(** Closing a subscription may leave it consuming. When it runs while the
    subscription rebinds after a drop, there is an interleaving after which both
    have returned and the subscription is stopped, but its channel is the new
    one, on which a consumer was started and which nothing has closed; calling
    [Close] on the subscription again does nothing. *)
Theorem subscription_close_leaks_consumer c d prefix hp b hist sub x old ch q stream n b1 b2 b3 b4 e b5 :
  conn_IsClosed lib c b = false → hp !! sub = Some x → s_done x = false → s_ch x = Some old →
  conn_Channel lib c b = (inr ch, b1) → ch_QueueDeclare lib ch (s_endpoint x) true false false b1 = (inr q, b2) →
  ch_Qos lib ch n b2 = (None, b3) → ch_Consume lib ch (s_endpoint x) false false b3 = (inr stream, b4) →
  ch_Close lib old b4 = (e, b5) →
  ∃ y, rtc run_step (calling [CallRebind sub (s_endpoint x) n; CallSubClose sub] (Sh (stale c d prefix) hp b hist)) y ∧
    pool y = [Return (AnsStream (Some stream)); Return (AnsErr e)] ∧ g_broker (shared y) = b5 ∧
    g_heap (shared y) !! sub = Some {| s_endpoint := s_endpoint x; s_ch := Some ch; s_done := true |} ∧
    let s' := St (g_tr (shared y)) (g_heap (shared y)) (g_broker (shared y)) [] in
    Amqp.sub_Close lib sub s' = (Done None, s').
Proof.
  intros Hopen Hx Hdone Hch H1 H2 H3 H4 H5.
  eexists. split.
  - unfold calling. cbn [fmap list_fmap goroutine].
    lk 0. ac 0. ul 0. acr 0 Hopen. acr 0 H1. acr 0 H2. acr 0 H3. acr 0 H4.
    lk 1. eapply (run_act_at 1); [reflexivity|cbn; rewrite Hx; reflexivity|]; cbn [insert list_insert].
    cbn. rewrite Hdone. lk 1.
    eapply (run_act_at 1); [reflexivity|cbn; unfold channel_of; rewrite Hx; cbn; rewrite Hch; reflexivity|]; cbn [insert list_insert].
    ul 1. acr 1 H5. ac 1. ul 1.
    match goal with |- rtc _ (Cfg _ ?l _) _ => replace l with (@nil (nat * (gmutex * bool))) end.
    2:{ rewrite decide_False by tauto. by rewrite filter_cons_False, filter_cons_True, filter_cons_False by naive_solver. }
    lk 0. ac 0. ul 0. apply rtc_refl.
  - cbn. split; [done|]. split; [done|].
    assert (alter (λ y, {| s_endpoint := s_endpoint y; s_ch := Some ch; s_done := s_done y |}) sub
      (alter set_done sub hp) !! sub = Some {| s_endpoint := s_endpoint x; s_ch := Some ch; s_done := true |}) as Hsub
      by (by rewrite !list_lookup_alter_eq, Hx).
    split; [done|]. unfold Amqp.sub_Close. cbn. by rewrite Hsub.
Qed.
End theorems.

(** ** A concrete broker *)

#[global] Instance demo_conn_laws : ConnLaws demo_lib.
Proof.
  split; [apply _|..]; cbn.
  - done.
  - intros c b Hc. apply bool_decide_eq_true. by left.
  - intros b b' c Hop. destruct Hop as [| | | | | |stream t b ev b' En|]; try done. cbn in En.
    destruct (replies b); by simplify_eq/=.
Defined.

(** Connection 1 was dropped by the broker. *)
Definition demo_stale : sh demo_broker := Sh (stale 1 0 EmptyString) [] (DB 1 [1] []) [].

#[local] Existing Instance ascii_tables.

Lemma demo_stale_wf : well_formed demo_stale.
Proof. split; [done|constructor]. Qed.

Lemma run_happens `{UnicodeTables} {B} (lib : amqp091 B) nodrop x y : rtc run_step x y → happens lib nodrop x y.
Proof. apply rtc_subrel. intros a b Hab. by left. Qed.

(** Connection 1 is live. *)
Definition demo_live : sh demo_broker := Sh (stale 1 0 EmptyString) [] (DB 1 [] []) [].
Lemma demo_live_wf : well_formed demo_live.
Proof. split; [done|constructor]. Qed.
Lemma demo_live_live : conn_live demo_lib demo_live.
Proof. by exists 1. Qed.

Lemma live_connection_is_kept_witness :
  ∃ z, run_step (calling demo_lib [CallWatchdog 1; CallConnection] demo_live) z ∧
    conn (g_tr (shared z)) = Some 1 ∧ g_dialed (shared z) = [].
Proof.
  eexists. eassert (run_step (calling demo_lib [CallWatchdog 1; CallConnection] demo_live) _) as Hz.
  { eapply (run_at _ _ _ 0); reflexivity. }
  split; [exact Hz|].
  destruct (live_connection_is_kept demo_lib [CallWatchdog 1; CallConnection] demo_live _ _ demo_live_wf
    ltac:(repeat constructor) (run_happens demo_lib false _ _ (rtc_refl _ _)) Hz eq_refl demo_live_live)
    as (H1 & _ & H2). split; [exact H1|exact H2].
Defined.

Lemma one_dial_for_all_witness :
  ∃ y, happens demo_lib true (calling demo_lib [CallWatchdog 1; CallConnection] demo_stale) y ∧
    length (g_dialed (shared y)) ≤ 1 ∧ g_dialed (shared y) ≠ [] ∧ conn_live demo_lib (shared y).
Proof.
  eexists. eassert (happens demo_lib true (calling demo_lib [CallWatchdog 1; CallConnection] demo_stale) _) as Hy.
  { apply run_happens. unfold calling. cbn [fmap list_fmap goroutine].
    ac 0. lk 0. ac 0. ul 0. ac 0. lk 0. lk 0. ac 0. ac 0. ul 0. ac 0. ac 0.
    lk 0. ac 0. ac 0. ac 0. ul 0. lk 0. ac 0. ul 0. ul 0. lk 1. ac 1. ul 1. apply rtc_refl. }
  split; [exact Hy|].
  destruct (one_dial_for_all demo_lib [CallWatchdog 1; CallConnection] demo_stale _ demo_stale_wf
    ltac:(repeat constructor) Hy eq_refl) as [Hn Hl].
  split; [exact Hn|]. split; [done|]. apply Hl; [|done].
  assert (∀ l : list (nat * (gmutex * bool)), l = [] → ∀ i w, (i, (Mu dialMu, w)) ∉ l) as Hnil
    by (intros l -> i w; apply not_elem_of_nil). by apply Hnil.
Defined.

(** A broker that has closed every stream: the wait of a [Request] ends. *)
Definition closing_lib : amqp091 demo_broker :=
  {| dial := dial demo_lib; conn_IsClosed := conn_IsClosed demo_lib; conn_Channel := conn_Channel demo_lib;
     conn_Close := conn_Close demo_lib; ch_IsClosed := ch_IsClosed demo_lib; ch_Close := ch_Close demo_lib;
     ch_QueueDeclare := ch_QueueDeclare demo_lib; ch_Qos := ch_Qos demo_lib; ch_Consume := ch_Consume demo_lib;
     ch_Publish := ch_Publish demo_lib; raw_Ack := raw_Ack demo_lib; raw_Nack := raw_Nack demo_lib;
     next_reply := λ _ _ b, Some (StreamClosed, b); uuid_NewString := uuid_NewString demo_lib |}.

#[global] Instance closing_conn_laws : ConnLaws closing_lib.
Proof.
  split; cbn.
  - split; cbn; [apply (dial_open demo_lib)|apply (closed_stays demo_lib)|apply (close_other demo_lib)|apply (ch_close_conn demo_lib)].
  - done.
  - intros c b Hc. apply bool_decide_eq_true. by left.
  - intros b b' c Hop. destruct Hop; simplify_eq/=; done.
Defined.

Lemma calls_return_witness :
  inevitable (idle_step (drops closing_lib false)) run_step all_returned
    (calling closing_lib [CallWatchdog 1; CallConsume "describe" true 2; CallRequest demo_req; CallClose] demo_stale) ∧
  inevitable (idle_step (drops demo_lib false)) run_step (λ y, all_settled y ∧ locks y = [])
    (calling demo_lib [CallWatchdog 1; CallRequest demo_req; CallClose] demo_stale).
Proof.
  split.
  - apply calls_return; [apply _|exact demo_stale_wf|repeat constructor|repeat constructor|].
    intros y Hy Hst. eapply settled_waiting in Hy as [|(stream & t & cid & Hw)]; [by left| |repeat constructor|done].
    right. exists stream, t, cid, StreamClosed, (g_broker (shared y)). eexists. split; [exact Hw|]. done.
  - apply calls_return; [apply _|exact demo_stale_wf|repeat constructor|repeat constructor].
Defined.

Lemma watchdog_publish_deadlock_witness :
  ∃ y, rtc run_step (calling demo_lib [CallWatchdog 1; CallPublish demo_req] demo_stale) y ∧
    ∀ z, happens demo_lib false y z →
      (∃ w k, pool z !! 0 = Some (Lock w (Mu pubMu) k)) ∧ (∃ w k, pool z !! 1 = Some (Lock w (Mu dialMu) k)).
Proof. by eapply (watchdog_publish_deadlock demo_lib 1 0 EmptyString [] (DB 1 [1] []) []). Defined.

Lemma close_leaks_redialed_connection_witness :
  ∃ y, rtc run_step (calling demo_lib [CallWatchdog 1; CallClose] demo_stale) y ∧
    all_returned y ∧ closed (g_tr (shared y)) = true ∧
    conn (g_tr (shared y)) = Some 3 ∧ conn_IsClosed demo_lib 3 (g_broker (shared y)) = false ∧
    let s' := St (g_tr (shared y)) (g_heap (shared y)) (g_broker (shared y)) [] in
    ∃ e, Close demo_lib s' = (Done e, s').
Proof. by eapply (close_leaks_redialed_connection demo_lib 1 0 EmptyString [] (DB 1 [1] []) []). Defined.

(** A subscription on channel 99 whose stream has ended. *)
Definition demo_rebinding : sh demo_broker :=
  Sh (stale 1 0 EmptyString) [{| s_endpoint := "describe"; s_ch := Some 99; s_done := false |}] (DB 1 [] []) [].

Lemma subscription_close_leaks_consumer_witness :
  ∃ y, rtc run_step (calling demo_lib [CallRebind 0 "describe" 1; CallSubClose 0] demo_rebinding) y ∧
    pool y = [Return (AnsStream (Some 1)); Return (AnsErr None)] ∧
    g_heap (shared y) !! 0 = Some {| s_endpoint := "describe"; s_ch := Some 101; s_done := true |}.
Proof.
  edestruct (subscription_close_leaks_consumer demo_lib 1 0 EmptyString
    [{| s_endpoint := "describe"; s_ch := Some 99; s_done := false |}] (DB 1 [] []) [] 0
    {| s_endpoint := "describe"; s_ch := Some 99; s_done := false |} 99 101 "describe" 1 1%Z)
    as (y & Hy & Hp & _ & Hh & _); try reflexivity. exists y. split; [exact Hy|]. split; [exact Hp|exact Hh].
Defined.
