(* ===== verification/AmqpCalm.v ===== *)
(** * The AMQP transport while its connection is up

    [Publish] takes [pubMu] before [dialMu] and [reconnect] takes them in the other
    order, so that no lock order covers both (AmqpRace has the deadlock). While
    the connection is up and nobody calls [Close], no call gets as far as
    [dialMu]: this invariant restores the lock order, and every call returns. *)
From Stdlib Require Import Ascii ZArith.
From stdpp Require Import prelude gmap strings list relations.
From S2P Require Import Prelude GoStrings GoText Rpc Backoff Threads Amqp AmqpSpec AmqpThreads AmqpRace.

Section calm.
Context `{UnicodeTables} {B : Type} (lib : amqp091 B) `{!ConnLaws lib}.

(** The connection in use. *)
Context (c0 : nat).

Definition up (s : sh B) : Prop :=
  conn (g_tr s) = Some c0 ∧ isc lib c0 s = false ∧ closed (g_tr s) = false.

(** What a call may wait for in a [select], whatever it is. *)
Context (aw : ∀ Y, (sh B → option (option Y * sh B)) → Prop).
Abbreviation cal := (orderedI (S:=sh B) rank aw up).

Lemma up_env s s' : drops lib true s s' → up s → up s'.
Proof.
  intros (Ht & _ & _ & _ & Hc) (H1 & H2 & H3). unfold up. rewrite Ht, Hc by done. done.
Qed.

(** ** Actions *)

Lemma cal_get hs : cal hs getT hs (λ t, conn t = Some c0 ∧ closed t = false).
Proof. apply orderedI_act. intros s Hs. split; [done|]. by destruct Hs as (? & _ & ?). Qed.
Lemma cal_modify hs f :
  (∀ t, conn (f t) = conn t ∧ closed (f t) = closed t) → cal hs (modifyT f) hs (λ _, True).
Proof.
  intros Hf. apply orderedI_act. intros s (H1 & H2 & H3). split; [|done]. destruct (Hf (g_tr s)).
  split; [|split]; [simpl; congruence|exact H2|simpl; congruence].
Qed.
Lemma cal_call {A} hs (m : M B A) : (∀ b, channel_op lib b (m b).2) → cal hs (callT m) hs (λ _, True).
Proof.
  intros Hm. apply orderedI_act. intros s (H1 & H2 & H3). specialize (Hm (g_broker s)).
  destruct (m (g_broker s)) as [a b] eqn:E. split; [|done]. split; [done|]. split; [|done].
  unfold isc in *. simpl in *. by rewrite (channel_frame lib _ _ _ Hm).
Qed.
Lemma cal_query {A} hs (f : B → A) : cal hs (queryT f) hs (λ _, True).
Proof. by apply orderedI_act. Qed.
Lemma cal_heap {A} hs (f : list subscription → A * list subscription) : cal hs (heapT f) hs (λ _, True).
Proof. apply orderedI_act. intros s Hs. destruct (f (g_heap s)). done. Qed.

Ltac low := first [apply Forall_nil_2 | assumption | apply Forall_cons; split; [simpl; lia|low]].
Ltac cal_prim :=
  first [ exact (orderedI_ret _ _ _ _ _ (λ _, True) I) | apply cal_get | (apply cal_modify; done) | (apply cal_call; intros; constructor)
        | apply cal_query | apply cal_heap | (apply orderedI_lock; low) | (apply orderedI_unlock; low) | exact I ].
Ltac cal_next := eapply orderedI_bind; [cal_prim|intros ? ?; cbv beta].
Ltac cal_auto :=
  intros; cbv zeta;
  repeat first
    [ cal_prim | cal_next
    | match goal with |- orderedI _ _ _ _ (match ?x with _ => _ end) _ _ => destruct x end
    | (eapply orderedI_bind; [match goal with |- orderedI _ _ _ _ (match ?x with _ => _ end) _ _ =>
         destruct x; solve [cal_prim] end|intros ? ?; cbv beta]) ].

(** ** Connections *)

Lemma cal_live hs : cal hs (liveT lib (Some c0)) hs (λ ok, ok = true).
Proof.
  unfold liveT. eapply (orderedI_bind _ _ _ _ _ _ _ _ (λ b, b = false)).
  - apply orderedI_act. by intros s (? & ? & ?).
  - intros b ->. by apply orderedI_ret.
Qed.
Lemma cal_connectionForUse hs :
  Forall (λ e, rank e.1 < 2) hs → cal hs (connectionForUseT lib) hs (λ r, r = inr (Some c0)).
Proof.
  intros Hf. unfold connectionForUseT. cal_next. eapply orderedI_bind; [apply cal_get|]. intros t [Hc _].
  cal_next. rewrite Hc. eapply orderedI_bind; [apply cal_live|]. intros ok ->. by apply orderedI_ret.
Qed.
Lemma cal_open_channel hs : cal hs (open_channelT lib (Some c0)) hs (λ _, True).
Proof. unfold open_channelT. cal_prim. Qed.

Lemma cal_publishChannel : cal [] (publishChannelT lib) [] (λ _, True).
Proof.
  unfold publishChannelT. cal_next. eapply orderedI_bind; [apply cal_get|]. intros t _.
  eapply (orderedI_bind _ _ _ _ _ _ _ _ (λ _, True)); [destruct (pubCh t); cal_prim|]. intros b _.
  assert (cal [(Mu pubMu, true)] (r ← connectionForUseT lib;
      match r with
      | inl err => _ ← unlockT pubMu; mret (inl (Wrapf "amqp: get connection for publish: " err EmptyString))
      | inr c =>
          r' ← open_channelT lib c;
          match r' with
          | inl err => _ ← unlockT pubMu; mret (inl (Wrapf "amqp: open publish channel: " err EmptyString))
          | inr ch => _ ← modifyT (set_pubCh (Some ch)); _ ← unlockT pubMu; mret (inr ch)
          end
      end) [] (λ _, True)) as Hopen.
  { eapply orderedI_bind; [apply cal_connectionForUse; low|]. intros r ->.
    eapply orderedI_bind; [apply cal_open_channel|]. cal_auto. }
  destruct (pubCh t), b; try exact Hopen. cal_auto.
Qed.

(** ** Calls *)

Lemma cal_publish req : cal [] (PublishT lib req) [] (λ _, True).
Proof.
  unfold PublishT. case_decide; [cal_prim|]. eapply orderedI_bind; [apply cal_publishChannel|]. intros [e|ch] _; cal_prim.
Qed.
Lemma cal_request_on ch req :
  (∀ stream t cid, aw _ (receive lib stream t cid)) → cal [] (request_onT lib ch req) [] (λ _, True).
Proof.
  intros Haw. unfold request_onT. cbv zeta. eapply orderedI_bind; [cal_prim|]. intros [e|q] _; [cal_prim|].
  eapply orderedI_bind; [cal_prim|]. intros [e|stream] _; [cal_prim|].
  eapply (orderedI_bind _ _ _ _ [] _ _ _ (λ _, True)); [case_decide; cal_prim|]. intros cid _.
  eapply orderedI_bind; [cal_prim|]. intros [e|] _; [cal_prim|].
  apply orderedI_select; [apply Haw|]. intros s (H1 & H2 & H3). unfold receive.
  destruct (next_reply lib stream (req_Timeout req) (g_broker s)) as [[ev b]|] eqn:En; [|done].
  assert (up (Sh (g_tr s) (g_heap s) b (g_dialed s))) as Hup.
  { split; [done|]. split; [|done]. unfold isc in *. simpl. rewrite (channel_frame lib (g_broker s)); [done|].
    by eapply op_next_reply. }
  by destruct (examine cid ev).
Qed.
Lemma cal_setupConsumer q n : cal [] (setupConsumerT lib q n) [] (λ _, True).
Proof.
  unfold setupConsumerT. eapply orderedI_bind; [apply cal_connectionForUse; low|]. intros r ->.
  eapply orderedI_bind; [apply cal_open_channel|]. intros [e|ch] _; [cal_prim|]. unfold setup_onT. cal_auto.
Qed.
Lemma cal_sub_Close sub : cal [] (sub_CloseT lib sub) [] (λ _, True).
Proof.
  unfold sub_CloseT, currentChannelT. cal_next. eapply orderedI_bind; [cal_prim|]. intros [x|] _; [|exact I].
  destruct (s_done x); [cal_auto|].
  eapply (orderedI_bind _ _ _ _ [(CloseOnce sub, true)] _ _ _ (λ _, True)); [cal_auto|]. intros [ch|] _; cal_auto.
Qed.

Definition is_close (q : request) : bool := match q with CallClose => true | _ => false end.

Lemma cal_goroutine q :
  is_close q = false → (is_request q = true → ∀ stream t cid, aw _ (receive lib stream t cid)) →
  cal [] (goroutine lib q) [] (λ _, True).
Proof.
  intros Hq Haw. destruct q; try discriminate Hq; cbn [goroutine];
    (eapply (orderedI_bind _ _ _ _ [] _ _ _ (λ _, True)); [|intros r _; cal_prim]).
  - unfold SetDialFuncT. cal_auto.
  - unfold ConnectionT. cal_auto.
  - unfold ConsumeT. case_decide; [cal_prim|]. destruct has_handler; [|cal_prim]. cbv zeta. cal_next.
    eapply orderedI_bind; [apply cal_setupConsumer|]. intros [e|[ch stream]] _; cal_auto.
  - unfold rebindT, swapChannelT. eapply orderedI_bind; [apply cal_setupConsumer|].
    intros [e|[ch stream]] _; [cal_prim|]. eapply (orderedI_bind _ _ _ _ [] _ _ _ (λ _, True)); cal_auto.
  - unfold watchdog_iterT. eapply orderedI_bind; [apply cal_get|]. intros t [_ ->]. cal_next.
    eapply orderedI_bind; [apply cal_get|]. intros t' [Hc _]. cal_next. destruct (dialFn t'); [|cal_prim].
    rewrite Hc. eapply orderedI_bind; [apply cal_live|]. intros ok ->. cal_prim.
  - apply cal_publish.
  - unfold RequestT. case_decide; [cal_prim|]. eapply orderedI_bind; [apply cal_connectionForUse; low|]. intros r ->.
    eapply orderedI_bind; [apply cal_open_channel|]. intros [e|ch] _; [cal_prim|].
    eapply orderedI_bind; [by apply cal_request_on, Haw|]. cal_auto.
  - apply cal_sub_Close.
Qed.

End calm.

Section theorems.
Context `{UnicodeTables} {B : Type} (lib : amqp091 B) `{!ConnLaws lib} (c0 : nat).

(** C8: calls return while the connection is up, [Publish] included. On a
    transport with a dial function, as long as the broker does not drop the
    connection and nobody calls [Close], any set of concurrent calls, under any
    interleaving, never deadlocks and never crashes: after finitely many actions
    each has returned or is a [Request] that waits for its reply, no mutex is held
    and the connection is still the one in use, open. If none of them is a
    [Request], or if one of the waits ends whenever only waits are left, all calls
    return. *)
Theorem calls_return_while_up qs s :
  well_formed s → Forall (closable s) qs → Forall (λ q, is_close q = false) qs → up lib c0 s →
  let inevitably := λ P, inevitable (idle_step (drops lib true)) run_step (λ y, P y ∧ up lib c0 (shared y)) (calling lib qs s) in
  inevitably (λ y, all_settled y ∧ locks y = []) ∧
  (Forall (λ q, is_request q = false) qs → inevitably all_returned) ∧
  ((∀ y, reaches lib true (calling lib qs s) y → all_settled y → all_returned y ∨ some_reply lib y) →
   inevitably all_returned).
Proof.
  intros Hw Hq Hc Hup inev. destruct (calls_settle lib true (up lib c0) qs s Hw Hq Hup) as [H1 H2].
  { apply up_env. }
  { intros aw Haw. rewrite Forall_forall in Hc, Haw |- *. intros q Hin. by apply cal_goroutine; [|apply Hc|apply Haw]. }
  split; [exact H1|]. split; intros Hr; apply H2; [by left|by right].
Qed.
End theorems.

(** ** Witness *)

#[local] Existing Instance ascii_tables.

Lemma calls_return_while_up_witness :
  inevitable (idle_step (drops demo_lib true)) run_step (λ y, all_returned y ∧ up demo_lib 1 (shared y))
    (calling demo_lib [CallWatchdog 1; CallPublish demo_req; CallPublish demo_req; CallConsume "describe" true 2] demo_live) ∧
  inevitable (idle_step (drops demo_lib true)) run_step (λ y, (all_settled y ∧ locks y = []) ∧ up demo_lib 1 (shared y))
    (calling demo_lib [CallPublish demo_req; CallRequest demo_req] demo_live).
Proof.
  split.
  - refine (proj1 (proj2 (calls_return_while_up demo_lib 1 _ _ demo_live_wf _ _ _)) _); try (repeat constructor; done).
  - refine (proj1 (calls_return_while_up demo_lib 1 _ _ demo_live_wf _ _ _)); repeat constructor.
Defined.
