(* ===== verification/Base64.v ===== *)
(** * Standard base64 and JSON envelopes

    [base64.StdEncoding] as [encoding/json] uses it for byte slices, and the
    texts of objects with many members: what the HTTP transport needs to write
    and read its envelopes. *)
From Stdlib Require Import Ascii ZArith.
From stdpp Require Import prelude gmap strings.
From S2P Require Import Prelude GoStrings GoText GoFloat Json Utf8 JsonText.

Local Open Scope Z_scope.

(** ** Base64 *)

Definition b64_char (n : Z) : ascii :=
  chr (if n <? 26 then 65 + n else if n <? 52 then 71 + n else if n <? 62 then n - 4
       else if n =? 62 then 43 else 47).

Definition b64_val (a : ascii) : option Z :=
  if in_range 65 90 a then Some (code a - 65)
  else if in_range 97 122 a then Some (code a - 71)
  else if in_range 48 57 a then Some (code a + 4)
  else if code a =? 43 then Some 62
  else if code a =? 47 then Some 63
  else None.

(** [StdEncoding.Encode]. *)
Fixpoint b64_encode (l : list ascii) : list ascii :=
  match l with
  | [] => []
  | [a] => [b64_char (code a / 4); b64_char (code a mod 4 * 16); "="%char; "="%char]
  | [a; b] =>
      [b64_char (code a / 4); b64_char (code a mod 4 * 16 + code b / 16);
       b64_char (code b mod 16 * 4); "="%char]
  | a :: b :: c :: l' =>
      b64_char (code a / 4) :: b64_char (code a mod 4 * 16 + code b / 16) ::
      b64_char (code b mod 16 * 4 + code c / 64) :: b64_char (code c mod 64) :: b64_encode l'
  end.

(** The quanta of four digits, once line breaks are dropped. *)
Fixpoint b64_quanta (l : list ascii) : option (list ascii) :=
  match l with
  | [] => Some []
  | a :: b :: c :: d :: l' =>
      x ← b64_val a; y ← b64_val b;
      if decide (c = "="%char) then
        (if decide (d = "="%char ∧ l' = []) then Some [chr (x * 4 + y / 16)] else None)
      else
        z ← b64_val c;
        if decide (d = "="%char) then
          (if decide (l' = []) then Some [chr (x * 4 + y / 16); chr (y mod 16 * 16 + z / 4)] else None)
        else
          w ← b64_val d;
          r ← b64_quanta l';
          Some (chr (x * 4 + y / 16) :: chr (y mod 16 * 16 + z / 4) :: chr (z mod 4 * 64 + w) :: r)
  | _ => None
  end.

(** [StdEncoding.Decode]: carriage returns and newlines are skipped. *)
Definition b64_decode (l : list ascii) : option (list ascii) :=
  b64_quanta (filter (λ a, code a ≠ 10 ∧ code a ≠ 13) l).

(** *** Lemmas *)

Lemma b64_char_cases n : 0 ≤ n < 64 → n ∈ seqZ 0 64.
Proof. intros. apply elem_of_seqZ. lia. Qed.

(** A decidable property of the 64 digits holds of all of them when it holds of
    each. *)
Lemma b64_all (Q : Z → Prop) : Forall Q (seqZ 0 64) → ∀ n, 0 ≤ n < 64 → Q n.
Proof. intros HF n Hn. rewrite Forall_forall in HF. by apply HF, b64_char_cases. Qed.

Lemma b64_val_char n : 0 ≤ n < 64 → b64_val (b64_char n) = Some n.
Proof. revert n. apply b64_all. apply (bool_decide_unpack _). vm_compute. exact I. Qed.

Lemma b64_char_plain n : 0 ≤ n < 64 → plain (b64_char n) ∧ b64_char n ≠ "="%char.
Proof. revert n. apply b64_all. apply (bool_decide_unpack _). vm_compute. exact I. Qed.

Lemma chr_code_eq z a : z = code a → chr z = a.
Proof. intros ->. apply chr_code. Qed.

(** Bounds and quotients of the bytes of a group. *)
Ltac b64_arith :=
  repeat match goal with a : ascii |- _ =>
    lazymatch goal with
    | _ : 0 ≤ code a < 256 |- _ => fail
    | _ => pose proof (code_range a)
    end
  end; Z.to_euclidean_division_equations; lia.

Lemma list_ind3 {A} (Q : list A → Prop) :
  Q [] → (∀ a, Q [a]) → (∀ a b, Q [a; b]) → (∀ a b c l, Q l → Q (a :: b :: c :: l)) → ∀ l, Q l.
Proof.
  intros H0 H1 H2 H3. fix IH 1. intros [|a [|b [|c l]]]; [done..|]. apply H3, IH.
Qed.

Lemma b64_encode_plain l : Forall plain (b64_encode l).
Proof.
  assert (plain "="%char) as He by (apply (bool_decide_unpack _); vm_compute; exact I).
  induction l as [|a|a b|a b c l IH] using list_ind3; cbn [b64_encode];
    repeat first [apply Forall_cons; split|constructor|done|apply b64_char_plain; b64_arith].
Qed.

Lemma b64_quanta_encode l : b64_quanta (b64_encode l) = Some l.
Proof.
  assert (∀ n, 0 ≤ n < 64 → b64_char n ≠ "="%char) as Hne by (intros n Hn; by apply b64_char_plain).
  induction l as [|a|a b|a b c l IH] using list_ind3; cbn [b64_encode b64_quanta]; [done|..];
    repeat (rewrite b64_val_char by b64_arith; cbn [mbind option_bind]).
  - rewrite !decide_True by done. do 2 f_equal. apply chr_code_eq. b64_arith.
  - rewrite decide_False by (apply Hne; b64_arith).
    repeat (rewrite b64_val_char by b64_arith; cbn [mbind option_bind]).
    rewrite !decide_True by done. do 2 f_equal; [|f_equal]; apply chr_code_eq; b64_arith.
  - rewrite !decide_False by (apply Hne; b64_arith).
    repeat (rewrite b64_val_char by b64_arith; cbn [mbind option_bind]).
    rewrite IH. cbn [mbind option_bind].
    do 2 f_equal; [|f_equal; [|f_equal]]; apply chr_code_eq; b64_arith.
Qed.

(** Encoding and decoding a byte slice. *)
Lemma b64_decode_encode l : b64_decode (b64_encode l) = Some l.
Proof.
  unfold b64_decode. enough (filter (λ a, code a ≠ 10 ∧ code a ≠ 13) (b64_encode l) = b64_encode l) as ->
    by apply b64_quanta_encode.
  induction (b64_encode_plain l) as [|a k (Ha & _) _ IH]; [done|].
  rewrite filter_cons_True by lia. by rewrite IH.
Qed.

(** ** Texts of values *)

(** What follows a value: a comma, a closing bracket or brace, or the newline
    at the end of a document. *)
Definition ends_value (a : ascii) : Prop := code a = 44 ∨ code a = 93 ∨ code a = 125 ∨ code a = 10.

(** [tv] is the text of the value [v]. *)
Definition is_value (d : nat) (tv : list ascii) (v : json) : Prop :=
  (∀ r, skip_ws (tv ++ r) = tv ++ r) ∧
  ∀ a rest, ends_value a → parse_value d (tv ++ a :: rest) = Some (v, a :: rest).

(** The text of a string literal. *)
Definition lit (t : list ascii) : list ascii := dquote :: t ++ [dquote].

Lemma value_str d t b : is_lit t b → is_value d (lit t) (JStr (of_l b)).
Proof.
  intros Hu. split; [done|]. intros a rest _. unfold lit. cbn [app]. rewrite <- app_assoc.
  apply (parse_value_str _ _ _ _ Hu).
Qed.

Lemma value_null d : is_value d (to_l "null") JNull.
Proof. split; [done|]. intros a rest _. by destruct d. Qed.

(** Members separated by commas. *)
Fixpoint members_text (ms : list (list ascii * list ascii)) : list ascii :=
  match ms with
  | [] => []
  | [(k, tv)] => member_text k tv
  | (k, tv) :: ms' => member_text k tv ++ ","%char :: members_text ms'
  end.

(** A member with its text and its value. *)
Definition member_ok (d : nat) (m : (list ascii * list ascii) * (string * (string * json))) : Prop :=
  ∃ bk v, is_lit m.1.1 bk ∧ is_value d m.1.2 v ∧ m.2 = (of_l bk, (of_l m.1.2, v)).

Lemma members_text_cons k tv ms :
  ms ≠ [] → members_text ((k, tv) :: ms) = member_text k tv ++ ","%char :: members_text ms.
Proof. by destruct ms. Qed.

Lemma members_text_length ms : (length ms ≤ length (members_text ms))%nat.
Proof.
  induction ms as [|[k tv] ms IH]; [done|]. destruct ms as [|m ms].
  - unfold members_text, member_text. cbn. lia.
  - rewrite members_text_cons by done. rewrite length_app. cbn [length] in *. lia.
Qed.

Lemma parse_members_list d ms : ∀ fuel rest,
  ms ≠ [] → Forall (member_ok d) ms → (length ms ≤ fuel)%nat →
  parse_members (parse_value d) fuel (members_text (ms.*1) ++ "}"%char :: rest) = Some (ms.*2, rest).
Proof.
  induction ms as [|[[tk tv] m2] ms IH]; intros fuel rest Hne Hms Hf; [done|].
  apply Forall_cons in Hms as [(bk & v & Hk & [Hs Hv] & E) Hms]. cbn in Hk, Hs, Hv, E. subst m2.
  destruct fuel as [|fuel]; [cbn in Hf; lia|]. cbn [fmap list_fmap fst snd].
  destruct ms as [|m ms].
  - cbn [members_text fmap list_fmap].
    rewrite (parse_members_step _ _ _ _ _ v "}" rest Hk Hs); [done|by apply Hv; unfold ends_value; auto|by right].
  - rewrite members_text_cons by done. rewrite <- app_assoc. cbn [app].
    rewrite (parse_members_step _ _ _ _ _ v "," _ Hk Hs); [|by apply Hv; left|by left].
    change (code "," =? 44) with true. cbv iota zeta.
    rewrite IH by (done || cbn in *; lia). done.
Qed.

(** An object as a value. *)
Definition object_text (ms : list (list ascii * list ascii)) : list ascii :=
  "{"%char :: members_text ms ++ ["}"%char].

Lemma members_text_head ms rest : ms ≠ [] → ∃ l2, skip_ws (members_text ms ++ rest) = dquote :: l2.
Proof.
  intros Hne. destruct ms as [|[k tv] ms]; [done|]. destruct ms; unfold members_text, member_text; cbn; eauto.
Qed.

Lemma value_object d ms :
  ms ≠ [] → Forall (member_ok d) ms → is_value (S d) (object_text (ms.*1)) (JObj ms.*2).
Proof.
  intros Hne Hms. split; [done|]. intros a rest _. unfold object_text. cbn [app].
  rewrite <- app_assoc. cbn [app].
  destruct (members_text_head (ms.*1) ("}"%char :: a :: rest)) as [l2 Hl2]; [by destruct ms|].
  rewrite (parse_value_obj _ _ _ _ Hl2) by done. rewrite parse_members_list; [done..|].
  rewrite length_app, <- (length_fmap fst). pose proof (members_text_length (ms.*1)). lia.
Qed.

(** An object as a document. *)
Lemma json_parse_object ms :
  ms ≠ [] → Forall (member_ok (N.to_nat 9999)) ms →
  json_parse (of_l (object_text (ms.*1))) = Some (JObj ms.*2).
Proof.
  intros Hne Hms. destruct (members_text_head (ms.*1) ["}"%char]) as [l2 Hl2]; [by destruct ms|].
  eapply json_parse_obj; [exact Hl2|done|]. rewrite parse_members_list; [done..|].
  rewrite length_app, <- (length_fmap fst). pose proof (members_text_length (ms.*1)). lia.
Qed.

(** ** Strings that the encoder writes *)

(** The text between the quotes of [json.Marshal(s)]. *)
Definition enc_text (s : string) : list ascii := enc_loop (String.length s) (to_l s).

Lemma marshal_string_lit s : to_l (marshal_string s) = lit (enc_text s).
Proof. unfold marshal_string, lit, enc_text. apply to_of_l. Qed.

Lemma enc_text_to_valid s : units (enc_text s) (to_valid (String.length s) (to_l s)).
Proof. apply enc_with_units; [apply enc_ascii_escape|]. by rewrite length_to_l. Qed.

Lemma enc_text_units s : valid_utf8 (to_l s) → units (enc_text s) (to_l s).
Proof.
  intros Hs. pose proof (enc_text_to_valid s) as Hu. unfold valid_utf8 in Hs.
  rewrite length_to_l in Hs. by rewrite Hs in Hu.
Qed.
