(* ===== verification/JsonDoc.v ===== *)
(** * JSON documents as [encoding/json] writes them

    A document is a tree whose objects have their members in the order in which
    they are written. [print] is the text of the encoder (without indentation),
    [tree] is what the reader of Json makes of that text; [print_value] says that
    they agree, for every document within the nesting bound. *)
From Stdlib Require Import Ascii ZArith.
From stdpp Require Import prelude gmap strings list.
From S2P Require Import Prelude GoStrings GoText GoFloat Json Utf8 JsonText Base64.

Local Open Scope Z_scope.

Inductive doc : Type :=
| DNull
| DBool (b : bool)
| DNum (lit : list ascii)
| DStr (s : string)
| DArr (l : list doc)
| DObj (ms : list (string * doc)).

(** Induction with the hypothesis for every element and every member. *)
Section doc_ind.
Variable P : doc → Prop.
Hypotheses (Hnull : P DNull) (Hbool : ∀ b, P (DBool b)) (Hnum : ∀ n, P (DNum n)) (Hstr : ∀ s, P (DStr s)).
Hypothesis Harr : ∀ l, Forall P l → P (DArr l).
Hypothesis Hobj : ∀ ms, Forall (λ m, P m.2) ms → P (DObj ms).
Fixpoint doc_nested_ind (v : doc) : P v :=
  match v with
  | DNull => Hnull
  | DBool b => Hbool b
  | DNum n => Hnum n
  | DStr s => Hstr s
  | DArr l => Harr l ((fix go l : Forall P l :=
      match l with [] => Forall_nil_2 _ | x :: l' => Forall_cons_2 _ _ _ (doc_nested_ind x) (go l') end) l)
  | DObj ms => Hobj ms ((fix go ms : Forall (λ m, P m.2) ms :=
      match ms with [] => Forall_nil_2 _ | m :: ms' => Forall_cons_2 _ m _ (doc_nested_ind m.2) (go ms') end) ms)
  end.
End doc_ind.

(** ** Texts *)

(** Elements separated by commas. *)
Fixpoint elems_text (l : list (list ascii)) : list ascii :=
  match l with
  | [] => []
  | [t] => t
  | t :: l' => t ++ ","%char :: elems_text l'
  end.
Definition array_text (l : list (list ascii)) : list ascii := "["%char :: elems_text l ++ ["]"%char].

Section print.
(** The escapes of ASCII bytes: with or without those of HTML. *)
Context (esc : ascii → list ascii).

Definition str_text (s : string) : list ascii := enc_with esc (String.length s) (to_l s).

Fixpoint print (v : doc) : list ascii :=
  match v with
  | DNull => to_l "null"
  | DBool b => to_l (if b then "true" else "false")
  | DNum n => n
  | DStr s => lit (str_text s)
  | DArr l => array_text (map print l)
  | DObj ms => object_text (map (λ m, (str_text m.1, print m.2)) ms)
  end.

(** The text that the reader gives for a string. *)
Definition read_str (s : string) : string := of_l (to_valid (String.length s) (to_l s)).

Fixpoint tree (v : doc) : json :=
  match v with
  | DNull => JNull
  | DBool b => JBool b
  | DNum n => JNum (of_l n)
  | DStr s => JStr (read_str s)
  | DArr l => JArr (map tree l)
  | DObj ms => JObj (map (λ m, (read_str m.1, (of_l (print m.2), tree m.2))) ms)
  end.
End print.

(** How many containers are open at once. *)
Fixpoint depth (v : doc) : nat :=
  match v with
  | DArr l => S (max_list (map depth l))
  | DObj ms => S (max_list (map (λ m, depth m.2) ms))
  | _ => 0
  end.

(** ** Numbers *)

(** A number literal of the JSON grammar. *)
Definition num_ok (l : list ascii) : Prop := parse_num l = Some (of_l l, []).
#[global] Instance num_ok_dec l : Decision (num_ok l).
Proof. unfold num_ok. apply _. Defined.

Section terminator.
Context (a : ascii) (Ha : ends_value a) (rest : list ascii).

Lemma ends_not_digit : in_range 48 57 a = false.
Proof. unfold ends_value in Ha. unfold in_range. lia. Qed.

Lemma take_digits_ext l d r : take_digits l = (d, r) → take_digits (l ++ a :: rest) = (d, r ++ a :: rest).
Proof.
  revert d r. induction l as [|b l IH]; intros d r H; cbn in *.
  - simplify_eq. by rewrite ends_not_digit.
  - destruct (in_range 48 57 b); [|by simplify_eq]. destruct (take_digits l) as [d' r'].
    simplify_eq. by rewrite (IH d' r).
Qed.

Lemma parse_num_ext l n r : parse_num l = Some (n, r) → parse_num (l ++ a :: rest) = Some (n, r ++ a :: rest).
Proof.
  assert (Ha' := Ha). unfold ends_value in Ha'. unfold parse_num.
  destruct (opt_minus l) as [s l1] eqn:Em.
  assert (opt_minus (l ++ a :: rest) = (s, l1 ++ a :: rest)) as ->.
  { destruct l as [|b l]; cbn in *; simplify_eq.
    - rewrite decide_False; [done|]. intros ->. change (code "-") with 45 in Ha'. lia.
    - case_decide; by simplify_eq. }
  destruct (num_int l1) as [[i l2]|] eqn:Ei; [|done]. cbn [mbind option_bind].
  assert (num_int (l1 ++ a :: rest) = Some (i, l2 ++ a :: rest)) as ->.
  { destruct l1 as [|b l1]; [done|]. cbn [num_int app] in *. case_decide; [by simplify_eq|].
    destruct (in_range 49 57 b); [|done].
    change (b :: l1 ++ a :: rest) with ((b :: l1) ++ a :: rest).
    destruct (take_digits (b :: l1)) as [d' r'] eqn:Et. simplify_eq. by rewrite (take_digits_ext _ _ _ Et). }
  cbn [mbind option_bind]. destruct (num_frac l2) as [[f l3]|] eqn:Ef; [|done]. cbn [mbind option_bind].
  assert (num_frac (l2 ++ a :: rest) = Some (f, l3 ++ a :: rest)) as ->.
  { destruct l2 as [|b l2]; cbn [num_frac app] in *.
    - simplify_eq. rewrite decide_False; [done|]. intros ->. change (code ".") with 46 in Ha'. lia.
    - case_decide; [|by simplify_eq]. destruct (take_digits l2) as [d' r'] eqn:Et.
      rewrite (take_digits_ext _ _ _ Et). by destruct d'; simplify_eq. }
  cbn [mbind option_bind]. destruct (num_exp l3) as [[e l4]|] eqn:Ee; [|done]. cbn [mbind option_bind].
  intros [= <- <-].
  assert (num_exp (l3 ++ a :: rest) = Some (e, l4 ++ a :: rest)) as ->; [|done].
  destruct l3 as [|b l3]; cbn [num_exp app] in *.
  - simplify_eq. by replace ((code a =? 101) || (code a =? 69)) with false by lia.
  - destruct ((code b =? 101) || (code b =? 69)); [|by simplify_eq].
    destruct l3 as [|c l3]; [done|]. cbn [app] in *.
    destruct ((code c =? 43) || (code c =? 45)).
    + destruct (take_digits l3) as [d' r'] eqn:Et. rewrite (take_digits_ext _ _ _ Et). by destruct d'; simplify_eq.
    + change (c :: l3 ++ a :: rest) with ((c :: l3) ++ a :: rest).
      destruct (take_digits (c :: l3)) as [d' r'] eqn:Et. rewrite (take_digits_ext _ _ _ Et). by destruct d'; simplify_eq.
Qed.
End terminator.

(** The first byte of a number. *)
Lemma num_head l n r : parse_num l = Some (n, r) →
  ∃ c l', l = c :: l' ∧ (code c = 45 ∨ 48 ≤ code c ≤ 57).
Proof.
  unfold parse_num. destruct l as [|c l]; [done|]. intros H. exists c, l. split; [done|].
  cbn [opt_minus] in H. destruct (decide (c = "-"%char)) as [->|Hc]; [by left|right].
  cbn [num_int] in H. case_decide as H0; [subst; change (code "0") with 48; lia|].
  destruct (in_range 49 57 c) eqn:E; [|done]. unfold in_range in E. lia.
Qed.

Lemma value_num d l : num_ok l → is_value d l (JNum (of_l l)).
Proof.
  intros Hl. destruct (num_head _ _ _ Hl) as (c & l' & -> & Hc). split.
  { intros r. cbn [skip_ws app]. assert (json_ws c = false) as ->; [|done]. unfold json_ws. cbv zeta. lia. }
  intros a rest Ha. pose proof (parse_num_ext a Ha rest _ _ _ Hl) as Hp. cbn [app] in Hp |- *.
  destruct d; cbn [parse_value]; cbv zeta; repeat (rewrite (proj2 (Z.eqb_neq _ _)) by lia); by rewrite Hp.
Qed.

(** Decimal integers are number literals. *)
Lemma num_ok_dec_nat n : 0 ≤ n → parse_num (dec_nat n) = Some (of_l (dec_nat n), []) ∧
  num_int (dec_nat n) = Some (dec_nat n, []).
Proof.
  intros Hn. assert (num_int (dec_nat n) = Some (dec_nat n, []) ∧
    opt_minus (dec_nat n) = ([], dec_nat n)) as [Hi Hm].
  { destruct (decide (n = 0)) as [->|Hne]; [by vm_compute|].
    destruct (dec_nat_head n ltac:(lia)) as (b & l & E & Hb).
    pose proof (take_digits_all _ (dec_nat_digits n)) as Ht. rewrite E in *. cbn [num_int opt_minus].
    rewrite !decide_False; [|intros ->; by destruct Hb..].
    replace (in_range 49 57 b) with true by (unfold in_range; lia). by rewrite Ht. }
  split; [|done]. unfold parse_num. rewrite Hm, Hi. cbn. by rewrite app_nil_r.
Qed.

Lemma num_ok_int z : num_ok (to_l (dec z)).
Proof.
  unfold num_ok. rewrite of_to_l. unfold dec. destruct (Z.ltb_spec z 0) as [Hz|Hz].
  - destruct (num_ok_dec_nat (- z) ltac:(lia)) as [_ Hi]. rewrite to_of_l. unfold parse_num.
    cbn [opt_minus]. rewrite decide_True by done. rewrite Hi. cbn. by rewrite app_nil_r.
  - rewrite to_of_l. by apply num_ok_dec_nat.
Qed.

(** ** Arrays *)

Lemma elems_text_cons t l : l ≠ [] → elems_text (t :: l) = t ++ ","%char :: elems_text l.
Proof. by destruct l. Qed.

Lemma parse_elems_list d tvs : ∀ fuel rest,
  tvs ≠ [] → Forall (λ m, is_value d m.1 m.2) tvs → (length tvs ≤ fuel)%nat →
  parse_elems (parse_value d) fuel (elems_text tvs.*1 ++ "]"%char :: rest) = Some (tvs.*2, rest).
Proof.
  induction tvs as [|[t v] tvs IH]; intros fuel rest Hne Hall Hf; [done|].
  apply Forall_cons in Hall as [[Hs Hv] Hall]. cbn [fst snd] in Hs, Hv.
  destruct fuel as [|fuel]; [cbn in Hf; lia|]. cbn [fmap list_fmap parse_elems].
  destruct tvs as [|m tvs].
  - cbn [elems_text fmap list_fmap fst snd]. rewrite Hs, Hv by (right; left; reflexivity). done.
  - rewrite elems_text_cons by done. rewrite <- app_assoc. cbn [app fst snd].
    rewrite Hs, Hv by (left; reflexivity). cbn [mbind option_bind skip_ws].
    change (json_ws ",") with false. change (code "," =? 44) with true. cbv iota.
    rewrite IH by (done || cbn in *; lia). done.
Qed.

Lemma elems_text_length l : Forall (λ t, t ≠ []) l → (length l ≤ length (elems_text l))%nat.
Proof.
  induction 1 as [|t l Ht Hl IH]; [done|]. destruct l as [|t' l].
  - destruct t; [done|]. cbn. lia.
  - rewrite elems_text_cons, length_app by done. cbn [length] in *. lia.
Qed.

Lemma is_value_ne d t v : is_value d t v → t ≠ [].
Proof. intros [_ Hv] ->. specialize (Hv ","%char [] ltac:(by left)). by destruct d. Qed.

(** The text of a value does not start with a closing bracket. *)
Lemma is_value_head d t v rest :
  is_value d t v → ∃ b l2, skip_ws (t ++ rest) = b :: l2 ∧ code b ≠ 93.
Proof.
  intros Hv. pose proof (is_value_ne _ _ _ Hv). destruct t as [|b t]; [done|]. destruct Hv as [Hs Hv].
  exists b, (t ++ rest). split; [apply Hs|]. intros Hb. specialize (Hv ","%char [] ltac:(by left)).
  assert (b = "]"%char) as -> by (by apply code_inj). by destruct d.
Qed.

Lemma value_array d tvs :
  Forall (λ m, is_value d m.1 m.2) tvs → is_value (S d) (array_text tvs.*1) (JArr tvs.*2).
Proof.
  intros Hall. split; [done|]. intros a rest Ha. unfold array_text. cbn [app]. rewrite <- app_assoc. cbn [app].
  destruct tvs as [|[t v] tvs]; [done|].
  assert (∃ r', elems_text ((t, v) :: tvs).*1 ++ "]"%char :: a :: rest = t ++ r') as [r' Hr'].
  { destruct tvs as [|m tvs]; [eexists; reflexivity|]. cbn [fmap list_fmap fst]. rewrite elems_text_cons by done.
    rewrite <- app_assoc. eexists. reflexivity. }
  pose proof (proj1 (proj1 (Forall_cons _ _ _) Hall)) as Hv. cbn [fst snd] in Hv.
  destruct (is_value_head d t v r' Hv) as (b & l2 & Hb & Hne).
  cbn [parse_value]. change (code "[" =? 34) with false. change (code "[" =? 123) with false.
  change (code "[" =? 91) with true. cbv zeta iota.
  rewrite Hr', Hb, (proj2 (Z.eqb_neq _ _) Hne), <- Hr'.
  rewrite parse_elems_list; [done|done|done|]. rewrite length_app.
  assert (Forall (λ t, t ≠ []) ((t, v) :: tvs).*1) as Hn.
  { apply Forall_fmap. eapply Forall_impl; [exact Hall|]. intros m Hm. exact (is_value_ne _ _ _ Hm). }
  pose proof (elems_text_length _ Hn) as Hl. rewrite length_fmap in Hl. lia.
Qed.

Lemma value_word d w v :
  (w, v) ∈ [("null", JNull); ("true", JBool true); ("false", JBool false)] → is_value d (to_l w) v.
Proof.
  rewrite !elem_of_cons, elem_of_nil. intros [E|[E|[E|[]]]]; simplify_eq; (split; [done|]); intros a rest _;
    by destruct d.
Qed.

Lemma value_empty_object d : is_value (S d) (object_text []) (JObj []).
Proof. by split. Qed.

(** ** Printing and reading *)

(** All number literals are well formed. *)
Fixpoint nums_ok (v : doc) : bool :=
  match v with
  | DNum n => bool_decide (num_ok n)
  | DArr l => forallb nums_ok l
  | DObj ms => forallb (λ m, nums_ok m.2) ms
  | _ => true
  end.

Lemma max_list_le l x n : x ∈ l → (max_list l ≤ n)%nat → (x ≤ n)%nat.
Proof. intros Hx Hn. pose proof (max_list_elem_of_le x l Hx). lia. Qed.

Section read.
Context (esc : ascii → list ascii) (Hesc : ascii_escape esc).

Lemma str_text_units s : units (str_text esc s) (to_l (read_str s)).
Proof. unfold read_str. rewrite to_of_l. apply enc_with_units; [done|]. by rewrite length_to_l. Qed.

(** What is printed is read back, whatever follows. *)
Lemma print_value v : ∀ d, nums_ok v = true → (depth v ≤ d)%nat → is_value d (print esc v) (tree esc v).
Proof.
  induction v as [|b|n|s|l IH|ms IH] using doc_nested_ind; intros d Hn Hd; cbn [print tree].
  - apply value_word. set_solver.
  - apply value_word. destruct b; set_solver.
  - apply value_num. by apply bool_decide_eq_true in Hn.
  - rewrite <- (of_to_l (read_str s)). apply value_str, units_lit, str_text_units.
  - destruct d as [|d]; [cbn in Hd; lia|]. cbn [nums_ok depth] in Hn, Hd.
    pose proof (value_array d ((λ x, (print esc x, tree esc x)) <$> l)) as Hv.
    rewrite <- !list_fmap_compose in Hv. apply Hv. apply Forall_fmap, Forall_forall. intros x Hx.
    rewrite Forall_forall in IH. apply IH; [done| |].
    + apply (proj1 (forallb_forall _ _) Hn). by apply list_elem_of_In.
    + apply (max_list_le (map depth l)); [apply list_elem_of_fmap; eauto|lia].
  - destruct d as [|d]; [cbn in Hd; lia|]. destruct (decide (ms = [])) as [->|Hne]; [apply value_empty_object|].
    cbn [nums_ok depth] in Hn, Hd.
    pose proof (value_object d ((λ m, ((str_text esc m.1, print esc m.2),
      (read_str m.1, (of_l (print esc m.2), tree esc m.2)))) <$> ms)) as Hv.
    rewrite <- !list_fmap_compose in Hv. apply Hv; [by destruct ms|]. apply Forall_fmap, Forall_forall. intros m Hm.
    rewrite Forall_forall in IH. exists (to_l (read_str m.1)), (tree esc m.2). cbn [fst snd].
    split; [apply units_lit, str_text_units|]. split; [|by rewrite of_to_l]. apply IH; [done| |].
    + apply (proj1 (forallb_forall (λ m, nums_ok m.2) _) Hn). by apply list_elem_of_In.
    + apply (max_list_le (map (λ m, depth m.2) ms)); [apply list_elem_of_fmap; eauto|lia].
Qed.

(** A printed value, with the newline of [json.Encoder], is a document. *)
Lemma parse_printed v :
  nums_ok v = true → (depth v ≤ maxNestingDepth)%nat →
  json_parse (of_l (print esc v ++ [newline])) = Some (tree esc v).
Proof.
  intros Hn Hd. destruct (print_value v maxNestingDepth Hn Hd) as [Hs Hv].
  unfold json_parse. rewrite to_of_l, Hs, Hv by (unfold ends_value; auto). done.
Qed.
End read.
