(* ===== verification/JsonCopy.v ===== *)
(** * The encoder's copy of a raw JSON value

    [json.RawMessage] is written by copying its text without blanks and with some
    characters escaped ([compact] of Events). The copy of a text is the text of
    the same value: members keep their names and order, strings their bytes,
    numbers their literals; only the bytes that an object remembers of its
    members change, so values are compared by [erase]. *)
From Stdlib Require Import Ascii ZArith.
From stdpp Require Import prelude gmap strings list.
From S2P Require Import Prelude GoStrings GoText GoFloat Json Utf8 JsonText Backoff GoTime Events Base64 JsonDoc.

Local Open Scope Z_scope.

(** A value without the bytes of its members. *)
Fixpoint erase (v : json) : json :=
  match v with
  | JArr l => JArr (map erase l)
  | JObj ms => JObj (map (λ m, (m.1, (EmptyString, erase m.2.2))) ms)
  | _ => v
  end.

(** ** Bytes *)

Abbreviation copy_out := (compact false false).
Abbreviation copy_str := (compact true false).

Definition html (a : ascii) : bool := (code a =? 60) || (code a =? 62) || (code a =? 38).
Definition u_escape (c : Z) : list ascii := [backslash; "u"%char] ++ hex_fixed 4 c.

(** Characters that the copy keeps, outside strings. *)
Definition ordinary (a : ascii) : Prop :=
  32 < code a < 128 ∧ code a ≠ 34 ∧ html a = false.

Lemma copy_ordinary a l : ordinary a → copy_out (a :: l) = a :: copy_out l.
Proof.
  intros (Hr & Hq & Hh). unfold html in Hh. cbn [compact]. rewrite Hh.
  assert (json_ws a = false) as -> by (unfold json_ws; lia).
  rewrite (proj2 (Z.eqb_neq (code a) 34)) by done. cbn.
  destruct l as [|b [|d l]]; try done. by rewrite (proj2 (Z.eqb_neq (code a) 226)) by lia.
Qed.

Lemma copy_ordinaries t r : Forall ordinary t → copy_out (t ++ r) = t ++ copy_out r.
Proof. induction 1 as [|a t Ha _ IH]; [done|]. cbn [app]. by rewrite copy_ordinary, IH. Qed.

Lemma copy_skip_ws l : copy_out (skip_ws l) = copy_out l.
Proof.
  induction l as [|a l IH]; [done|]. cbn [skip_ws]. destruct (json_ws a) eqn:Ea; [|done]. rewrite IH.
  cbn [compact]. rewrite Ea. unfold json_ws in Ea.
  assert ((code a =? 60) || (code a =? 62) || (code a =? 38) = false) as -> by lia.
  by rewrite (proj2 (Z.eqb_neq (code a) 34)) by lia.
Qed.

Lemma copy_blank l : skip_ws l = [] → copy_out l = [].
Proof. intros Hl. by rewrite <- copy_skip_ws, Hl. Qed.

(** ** Inside strings *)

Lemma copy_quote l : copy_str (dquote :: l) = dquote :: copy_out l.
Proof. by destruct l as [|b [|d l]]. Qed.

Lemma copy_html a l : html a = true → copy_str (a :: l) = u_escape (code a) ++ copy_str l.
Proof.
  intros Ha. cbn [compact]. unfold html in Ha. rewrite Ha.
  rewrite (proj2 (Z.eqb_neq (code a) 34)), (proj2 (Z.eqb_neq (code a) 92)) by lia. done.
Qed.

(** A byte that is kept, and leaves the string open. *)
Lemma copy_keep a l :
  html a = false → code a ≠ 34 → code a ≠ 92 → code a ≠ 226 → copy_str (a :: l) = a :: copy_str l.
Proof.
  intros Hh Hq Hb Hs. unfold html in Hh. cbn [compact]. rewrite Hh.
  rewrite (proj2 (Z.eqb_neq (code a) 34)), (proj2 (Z.eqb_neq (code a) 92)) by lia. cbn.
  destruct l as [|b [|d l]]; try done. by rewrite (proj2 (Z.eqb_neq (code a) 226)) by lia.
Qed.

Lemma copy_escape e l : html e = false → code e ≠ 226 →
  copy_str (backslash :: e :: l) = backslash :: e :: copy_str l.
Proof.
  intros Hh Hs. unfold html in Hh.
  assert (copy_str (backslash :: e :: l) = backslash :: compact true true (e :: l)) as -> by (by destruct l).
  f_equal. cbn [compact]. rewrite Hh. cbn.
  destruct l as [|b [|d l]]; try done. by rewrite (proj2 (Z.eqb_neq (code e) 226)) by lia.
Qed.

Lemma copy_keeps t l : Forall (λ a, html a = false ∧ code a ≠ 34 ∧ code a ≠ 92 ∧ code a ≠ 226) t →
  copy_str (t ++ l) = t ++ copy_str l.
Proof. induction 1 as [|a t (? & ? & ? & ?) _ IH]; [done|]. cbn [app]. by rewrite copy_keep, IH. Qed.

(** The line separators. *)
Definition line_sep (l : list ascii) : bool :=
  match l with
  | a :: b :: d :: _ => (code a =? 226) && (code b =? 128) && ((code d =? 168) || (code d =? 169))
  | _ => false
  end.

Lemma copy_226 a l : code a = 226 → line_sep (a :: l) = false → copy_str (a :: l) = a :: copy_str l.
Proof.
  intros Ha Hs. cbn [compact]. rewrite Ha. cbn.
  destruct l as [|b [|d l]]; try done. unfold line_sep in Hs. rewrite Ha in Hs. cbn in Hs. by rewrite Hs.
Qed.

Lemma copy_sep a b d l : line_sep (a :: b :: d :: l) = true →
  copy_str (a :: b :: d :: l) = u_escape (code d + 8064) ++ copy_str l.
Proof.
  intros Hs. unfold line_sep in Hs. assert (code a = 226) as Ha by lia.
  remember [b; d] as bd eqn:E. cbn [compact]. rewrite Ha in *. cbn in Hs |- *. by rewrite Hs.
Qed.

(** The continuation bytes at the head of a text: all that the decoding of a
    rune looks at after its first byte. *)
Fixpoint conts (l : list ascii) : list ascii :=
  match l with
  | a :: l' => if cont a then a :: conts l' else []
  | [] => []
  end.

Lemma conts_high a l : code a < 128 → conts (a :: l) = [].
Proof. intros Ha. cbn. unfold cont, in_range. by rewrite (proj2 (Z.leb_gt 128 (code a))) by lia. Qed.

Lemma decode_rune_conts a l : decode_rune (a :: l) = decode_rune (a :: conts l).
Proof.
  unfold decode_rune. destruct (code a <? 128); [done|].
  assert (∀ b, second3 a b = true → cont b = true) as H3.
  { intros b. unfold second3, cont, in_range. repeat case_match; lia. }
  assert (∀ b, second4 a b = true → cont b = true) as H4.
  { intros b. unfold second4, cont, in_range. repeat case_match; lia. }
  assert (∀ x : Z * nat, (if in_range 194 223 a then x else if in_range 224 239 a then x
    else if in_range 240 244 a then x else x) = x) as Hsame by (intros x; by repeat case_match).
  destruct l as [|b l]; [done|]. cbn [conts]. specialize (H3 b). specialize (H4 b).
  destruct (cont b) eqn:Eb; rewrite ?Eb; cycle 1.
  { assert (second3 a b = false ∧ second4 a b = false) as [-> ->].
    { split; apply not_true_is_false; intros Hx; [apply H3 in Hx|apply H4 in Hx]; done. }
    cbn. rewrite Hsame. by destruct l as [|? [|? ?]]. }
  destruct l as [|c l]; [by cbn; rewrite ?Eb|]. cbn [conts].
  destruct (cont c) eqn:Ec; rewrite ?Eb, ?Ec; cycle 1.
  { rewrite !andb_false_r. by destruct l. }
  destruct l as [|d l]; [by cbn; rewrite ?Ec|]. cbn [conts].
  destruct (cont d) eqn:Ed; rewrite ?Eb, ?Ec, ?Ed; [done|]. by rewrite !andb_false_r.
Qed.

(** The bytes of a rune after the first one are continuation bytes. *)
Lemma decode_rune_tail a l r w : decode_rune (a :: l) = (r, w) → Forall (λ b, cont b = true) (take (w - 1) l).
Proof.
  rewrite decode_rune_conts. intros Hd. apply decode_rune_width in Hd as [Hw1 Hw]; [|done]. cbn in Hw.
  assert (take (w - 1) l = take (w - 1) (conts l)) as ->.
  { assert (∀ n k, (n ≤ length (conts k))%nat → take n k = take n (conts k)) as H.
    { induction n as [|n IH]; intros [|b k] Hn; [done..|]. cbn [conts] in Hn |- *.
      destruct (cont b); cbn in *; [|lia]. by rewrite IH by lia. }
    apply H. lia. }
  apply Forall_take. clear. induction l as [|b l IH]; cbn; [constructor|].
  destruct (cont b) eqn:E; by constructor.
Qed.

(** The copy of a rune that is not a line separator. *)
Lemma copy_rune a l r w : 128 ≤ code a → line_sep (a :: l) = false → decode_rune (a :: l) = (r, w) →
  copy_str (a :: l) = take w (a :: l) ++ copy_str (drop w (a :: l)).
Proof.
  intros Ha Hs Hd. pose proof (decode_rune_width (a :: l) r w ltac:(done) Hd) as [Hw _].
  destruct w as [|w]; [lia|]. apply decode_rune_tail in Hd. rewrite Nat.sub_succ, Nat.sub_0_r in Hd.
  cbn [take drop app].
  assert (copy_str (a :: l) = a :: copy_str l) as ->.
  { destruct (decide (code a = 226)); [by apply copy_226|apply copy_keep; unfold html; lia]. }
  f_equal. rewrite <- (take_drop w l) at 1. apply copy_keeps. eapply Forall_impl; [exact Hd|].
  intros b. unfold cont, in_range, html. lia.
Qed.

(** *** Units *)

(** [X] may stand for the text [l] after a unit. *)
Definition follows (l X : list ascii) : Prop :=
  conts X = conts l ∧ (low_surrogate l = None → low_surrogate X = None).

(** [u] is a copy of the head of [l], which stands for [bs]. *)
Definition copy_of (l l' u bs : list ascii) : Prop :=
  copy_str l = u ++ copy_str l' ∧ u ≠ [] ∧
  ∀ X, follows l' X → str_unit (u ++ X) = Some (inr (bs, X)) ∧ follows l (u ++ X).

Lemma low_surrogate_head a l : code a ≠ 92 → low_surrogate (a :: l) = None.
Proof. intros Ha. unfold low_surrogate. destruct l; [done|]. by rewrite (proj2 (Z.eqb_neq (code a) 92)). Qed.

(** A unit that starts with a byte other than a backslash, copied as it is. *)
Lemma copy_of_head l l' a u bs :
  copy_str l = (a :: u) ++ copy_str l' → code a ≠ 92 →
  (∀ X, follows l' X → str_unit ((a :: u) ++ X) = Some (inr (bs, X))) →
  (∀ X, follows l' X → conts ((a :: u) ++ X) = conts l) → copy_of l l' (a :: u) bs.
Proof.
  intros Hc Ha Hu Hk. split; [done|]. split; [done|]. intros X HX. split; [by apply Hu|].
  split; [by apply Hk|]. intros _. cbn [app]. by apply low_surrogate_head.
Qed.

(** An escape that replaces a character. *)
Lemma copy_of_u_escape a l l' c :
  copy_str (a :: l) = u_escape c ++ copy_str l' → c ∈ [60; 62; 38; 8232; 8233] → conts (a :: l) = [] →
  copy_of (a :: l) l' (u_escape c) (encode_rune c).
Proof.
  intros Hc Hin Hk. rewrite !elem_of_cons, elem_of_nil in Hin.
  split; [done|]. split; [done|]. intros X _.
  assert (conts (u_escape c ++ X) = conts (a :: l)) as HX by (by rewrite Hk).
  destruct Hin as [-> |[-> |[-> |[-> |[-> |[]]]]]]; (split; [reflexivity|]); by split.
Qed.

(** An escape of the text itself. *)
Lemma hex4_split l r l' : hex4 l = Some (r, l') → ∃ a b c d,
  l = a :: b :: c :: d :: l' ∧ (∀ X, hex4 (a :: b :: c :: d :: X) = Some (r, X)) ∧
  Forall (λ x, html x = false ∧ code x ≠ 34 ∧ code x ≠ 92 ∧ code x ≠ 226) [a; b; c; d].
Proof.
  assert (∀ x v, hex_val_any x = Some v → html x = false ∧ code x ≠ 34 ∧ code x ≠ 92 ∧ code x ≠ 226) as Hx.
  { intros x v. unfold hex_val_any, in_range, html. repeat case_match; intros; simplify_eq; lia. }
  unfold hex4. destruct l as [|a [|b [|c [|d l]]]]; try done. intros H. exists a, b, c, d.
  destruct (hex_val_any a) eqn:Ea, (hex_val_any b) eqn:Eb, (hex_val_any c) eqn:Ec, (hex_val_any d) eqn:Ed;
    try done. cbn in H |- *. simplify_eq. split; [done|]. split; [done|].
  repeat (apply Forall_cons; split; [by eapply Hx|]). constructor.
Qed.

Lemma is_high_low r : is_high r = true → is_low r = false.
Proof. unfold is_high, is_low. lia. Qed.

(** The copy of [\uXXXX]. *)
Lemma copy_hex l2 r l3 : hex4 l2 = Some (r, l3) → ∃ u,
  copy_str (backslash :: "u"%char :: l2) = backslash :: "u"%char :: u ++ copy_str l3 ∧
  ∀ X, hex4 (u ++ X) = Some (r, X).
Proof.
  intros Hh. destruct (hex4_split _ _ _ Hh) as (a & b & c & d & -> & HX & Hall).
  exists [a; b; c; d]. split; [|done]. rewrite copy_escape by done.
  do 2 f_equal. by apply (copy_keeps [a; b; c; d]).
Qed.

Lemma str_unit_hex l2 r l3 : hex4 l2 = Some (r, l3) →
  str_unit (backslash :: "u"%char :: l2) = Some (inr
    (if is_high r then
       match low_surrogate l3 with
       | Some (r2, l4) => (encode_rune ((r - 55296) * 1024 + (r2 - 56320) + 65536), l4)
       | None => (encode_rune RuneError, l3)
       end
     else (encode_rune r, l3))).
Proof.
  intros Hh. unfold str_unit. change (code backslash =? 34) with false. change (code backslash =? 92) with true.
  change (simple_escape "u") with (@None ascii). change (code "u" =? 117) with true. cbv iota. rewrite Hh.
  cbn [mbind option_bind]. by destruct (is_high r), (low_surrogate l3) as [[? ?]|].
Qed.

Lemma copy_of_hex l2 r l3 : hex4 l2 = Some (r, l3) →
  let l := backslash :: "u"%char :: l2 in
  if is_high r then
    match low_surrogate l3 with
    | Some (r2, l4) => ∃ u, copy_of l l4 u (encode_rune ((r - 55296) * 1024 + (r2 - 56320) + 65536))
    | None => ∃ u, copy_of l l3 u (encode_rune RuneError)
    end
  else ∃ u, copy_of l l3 u (encode_rune r).
Proof.
  intros Hh l. destruct (copy_hex _ _ _ Hh) as (u & Hu & HX).
  assert (∀ X, low_surrogate l = None → low_surrogate (backslash :: "u"%char :: u ++ X) = None) as Hlow.
  { intros X. unfold l, low_surrogate. cbn. rewrite Hh, HX. cbn. by destruct (is_low r). }
  destruct (is_high r) eqn:Er; [destruct (low_surrogate l3) as [[r2 l4]|] eqn:El|].
  - destruct l3 as [|b1 [|b2 l3']]; [done..|]. unfold low_surrogate in El.
    destruct ((code b1 =? 92) && (code b2 =? 117)) eqn:Eb; [|done]. apply andb_true_iff in Eb as [E1 E2].
    assert (b1 = backslash) as -> by (by apply code_inj, Z.eqb_eq).
    assert (b2 = "u"%char) as -> by (by apply code_inj, Z.eqb_eq).
    destruct (hex4 l3') as [[r2' l4']|] eqn:Eh; [|done]. cbn in El. destruct (is_low r2') eqn:E2'; [|done].
    simplify_eq. destruct (copy_hex _ _ _ Eh) as (u' & Hu' & HX').
    exists (backslash :: "u"%char :: u ++ backslash :: "u"%char :: u'). split; [|split; [done|]].
    { unfold l. rewrite Hu, Hu'. cbn. by rewrite <- app_assoc. }
    intros X _. cbn [app]. rewrite <- app_assoc. cbn [app]. split; [|split; [done|by intros; apply Hlow]].
    rewrite (str_unit_hex _ _ _ (HX _)), Er. cbn. by rewrite HX'; cbn; rewrite E2'.
  - exists (backslash :: "u"%char :: u). split; [done|]. split; [done|]. intros X [HkX HlX].
    split; [|split; [done|by intros; apply Hlow]]. cbn [app].
    by rewrite (str_unit_hex _ _ _ (HX _)), Er, (HlX El).
  - exists (backslash :: "u"%char :: u). split; [done|]. split; [done|]. intros X _.
    split; [|split; [done|by intros; apply Hlow]]. cbn [app].
    by rewrite (str_unit_hex _ _ _ (HX _)), Er.
Qed.

(** The head of a string's text and its copy. *)
Lemma copy_unit l bs l' : str_unit l = Some (inr (bs, l')) → ∃ u, copy_of l l' u bs.
Proof.
  destruct l as [|a l1]; [done|]. intros H. pose proof H as H0. unfold str_unit in H.
  destruct (code a =? 34) eqn:E34; [done|]. destruct (code a =? 92) eqn:E92.
  { assert (a = backslash) as -> by (by apply code_inj, Z.eqb_eq). destruct l1 as [|e l2]; [done|].
    destruct (simple_escape e) as [c|] eqn:Es.
    - simplify_eq. exists [backslash; e].
      assert (html e = false ∧ code e ≠ 226 ∧ code e ≠ 117) as (Hh & H226 & H117)
        by (unfold simple_escape in Es; cbv zeta in Es; unfold html; repeat (case_match; try lia); done).
      split; [by apply copy_escape|]. split; [done|]. intros X _. split; [by apply escape_unit|].
      split; [done|]. intros _. cbn. by rewrite (proj2 (Z.eqb_neq (code e) 117)).
    - destruct (code e =? 117) eqn:E117; [|done].
      assert (e = "u"%char) as -> by (by apply code_inj, Z.eqb_eq).
      destruct (hex4 l2) as [[r l3]|] eqn:Eh; [|done]. rewrite (str_unit_hex _ _ _ Eh) in H0.
      pose proof (copy_of_hex _ _ _ Eh) as Hc. cbv zeta in Hc.
      destruct (is_high r); [destruct (low_surrogate l3) as [[r2 l4]|]|]; by simplify_eq. }
  destruct (code a <? 32) eqn:E32; [done|]. destruct (decode_rune (a :: l1)) as [r w] eqn:Ed.
  apply (inj Some), (inj inr) in H. simplify_eq.
  destruct (Z.ltb_spec (code a) 128) as [Ha|Ha].
  { unfold decode_rune in Ed. rewrite (proj2 (Z.ltb_lt _ _) Ha) in Ed. simplify_eq. cbn [drop]. rewrite drop_0.
    destruct (html a) eqn:Eh.
    - exists (u_escape (code a)). apply copy_of_u_escape; [by apply copy_html| |by apply conts_high].
      unfold html in Eh. rewrite !elem_of_cons. lia.
    - exists [a]. apply copy_of_head; [apply copy_keep; lia || done|lia| |].
      + intros X _. rewrite encode_rune_ascii by done. apply plain_unit. unfold plain. lia.
      + intros X _. cbn [app]. by rewrite !conts_high. }
  destruct (line_sep (a :: l1)) eqn:Es.
  { destruct l1 as [|b [|d l1]]; [done..|]. pose proof (copy_sep _ _ _ _ Es) as Hc. unfold line_sep in Es.
    assert (code a = 226 ∧ code b = 128 ∧ (code d = 168 ∨ code d = 169)) as (Ea & Eb & Edd) by lia.
    assert (a = chr 226) as -> by (by apply code_inj). assert (b = chr 128) as -> by (by apply code_inj).
    exists (u_escape (code d + 8064)).
    destruct Edd as [Edd|Edd]; rewrite Edd in Hc |- *;
      [assert (d = chr 168) as -> by (by apply code_inj)|assert (d = chr 169) as -> by (by apply code_inj)];
      vm_compute in Ed; simplify_eq; (apply copy_of_u_escape; [exact Hc|by repeat constructor|done]). }
  pose proof (copy_rune _ _ _ _ Ha Es Ed) as Hc.
  pose proof (decode_rune_width (a :: l1) _ _ ltac:(done) Ed) as [Hw _]. destruct w as [|w]; [lia|].
  exists (take (S w) (a :: l1)). cbn [take]. apply copy_of_head; [exact Hc|lia| |].
  - intros X [HkX _]. change (a :: take w l1) with (take (S w) (a :: l1)).
    destruct (decide (r = RuneError ∧ S w = 1%nat)) as [[-> Ew]|Hok].
    + simplify_eq. cbn [take drop app] in *. rewrite drop_0 in HkX. rewrite take_0. cbn [app].
      unfold str_unit. rewrite E34, E92, E32. rewrite decode_rune_conts in Ed |- *. rewrite HkX, Ed. done.
    + apply (rune_unit (a :: l1) r (S w)); [done..|]. by intros ? ? [= <- <-].
  - intros X [HkX _]. cbn [app conts]. destruct (cont a) eqn:Ec; [|done].
    assert (w = 0%nat) as ->.
    { unfold decode_rune in Ed. unfold cont, in_range in *. repeat (case_match; try lia); by simplify_eq. }
    rewrite take_0. cbn [app]. rewrite HkX. cbn [drop]. by rewrite drop_0.
Qed.

(** *** Literals *)

Lemma copy_body n l s r : str_body n l = Some (s, r) → ∃ t,
  copy_str l = t ++ dquote :: copy_out r ∧
  ∀ rest, follows l (t ++ dquote :: rest) ∧
    ∀ m, (length t < m)%nat → str_body m (t ++ dquote :: rest) = Some (s, rest).
Proof.
  revert l s. induction n as [|n IH]; intros l s H; [done|]. cbn [str_body] in H.
  destruct (str_unit l) as [[r'|[bs l']]|] eqn:Eu; [| |done].
  - simplify_eq. destruct l as [|a l1]; [done|]. unfold str_unit in Eu. destruct (code a =? 34) eqn:E34.
    + simplify_eq. assert (a = dquote) as -> by (by apply code_inj, Z.eqb_eq). exists [].
      split; [apply copy_quote|]. intros rest. split; [split; [done|intros _; by apply low_surrogate_head]|]. intros [|m] Hm; [cbn in Hm; lia|done].
    + destruct (code a =? 92); [|by repeat case_match]. destruct l1 as [|e l2]; [done|].
      destruct (simple_escape e); [done|]. destruct (code e =? 117); [|done].
      destruct (hex4 l2) as [[x l3]|]; [|done]. cbn [mbind option_bind] in Eu. by repeat case_match.
  - destruct (str_body n l') as [[s' r']|] eqn:Eb; [|done]. cbn in H. simplify_eq.
    destruct (IH _ _ Eb) as (t & Ht & Hb). destruct (copy_unit _ _ _ Eu) as (u & Hu & Hne & HX).
    exists (u ++ t). rewrite Hu, Ht, app_assoc. split; [done|]. intros rest. destruct (Hb rest) as [Hf Hm].
    rewrite <- app_assoc. destruct (HX _ Hf) as [Hsu Hfl]. split; [done|]. intros m Hlen.
    rewrite length_app in Hlen. destruct u as [|c u]; [done|]. cbn [length] in Hlen. destruct m as [|m]; [lia|].
    cbn [str_body]. rewrite Hsu, Hm by lia. done.
Qed.

Lemma copy_lit l s r : parse_str l = Some (s, r) → ∃ t,
  copy_str l = t ++ dquote :: copy_out r ∧ is_lit t (to_l s).
Proof.
  unfold parse_str. intros H. destruct (str_body (S (length l)) l) as [[b r']|] eqn:Eb; [|done].
  cbn in H. simplify_eq. destruct (copy_body _ _ _ _ Eb) as (t & Ht & Hb). exists t. split; [done|].
  intros rest. unfold parse_str. rewrite to_of_l. rewrite (proj2 (Hb rest)); [done|].
  rewrite length_app. cbn. lia.
Qed.

Lemma copy_open q l : code q = 34 → copy_out (q :: l) = dquote :: copy_str l.
Proof.
  intros Hq. assert (q = dquote) as -> by (by apply code_inj). by destruct l as [|b [|d l]].
Qed.

(** ** Numbers and words *)

Lemma take_digits_split l d r : take_digits l = (d, r) → l = d ++ r ∧ Forall is_digit d ∧ take_digits d = (d, []).
Proof.
  revert d r. induction l as [|a l IH]; intros d r H; cbn in H; [by simplify_eq|].
  destruct (in_range 48 57 a) eqn:Ea; [|by simplify_eq]. destruct (take_digits l) as [d' r'].
  simplify_eq. destruct (IH d' r eq_refl) as (-> & Hd & Ht). split; [done|]. split.
  - constructor; [|done]. unfold is_digit, in_range in *. lia.
  - cbn. by rewrite Ea, Ht.
Qed.

Lemma digits_ordinary d : Forall is_digit d → Forall ordinary d.
Proof. intros Hd. eapply Forall_impl; [exact Hd|]. unfold is_digit, ordinary, html. lia. Qed.

(** What may follow the integer part and the fraction: an exponent or nothing. *)
Definition at_exp (X : list ascii) : Prop :=
  match X with [] => True | a :: _ => code a = 101 ∨ code a = 69 end.
Definition no_digit (X : list ascii) : Prop :=
  match X with [] => True | a :: _ => in_range 48 57 a = false end.

Lemma take_digits_stop d X : Forall is_digit d → no_digit X → take_digits (d ++ X) = (d, X).
Proof.
  intros Hd HX. destruct X as [|a X]; [rewrite app_nil_r; by apply take_digits_all|].
  by apply take_digits_app.
Qed.

Lemma at_exp_stop X : at_exp X → no_digit X.
Proof. destruct X as [|a X]; [done|]. cbn. unfold in_range. lia. Qed.

Lemma num_int_split l i r : num_int l = Some (i, r) →
  l = i ++ r ∧ Forall ordinary i ∧ ∀ X, no_digit X → num_int (i ++ X) = Some (i, X).
Proof.
  destruct l as [|a l]; [done|]. cbn [num_int]. destruct (decide (a = "0"%char)) as [->|H0].
  - intros [= <- <-]. split; [done|]. split; [|done]. apply Forall_singleton. unfold ordinary, html. done.
  - destruct (in_range 49 57 a) eqn:Ea; [|done]. intros H. apply (inj Some) in H.
    pose proof (take_digits_split _ _ _ H) as (El & Hd & _). split; [done|]. split; [by apply digits_ordinary|].
    intros X HX. destruct i as [|b i].
    { cbn in H. unfold in_range in *. case_match; [|lia]. by destruct (take_digits l). }
    cbn in El. simplify_eq. cbn [num_int app]. rewrite decide_False by done. rewrite Ea.
    f_equal. by apply (take_digits_stop (b :: i)).
Qed.

Lemma num_frac_split l f r : num_frac l = Some (f, r) →
  l = f ++ r ∧ Forall ordinary f ∧ ∀ X, at_exp X → num_frac (f ++ X) = Some (f, X) ∧ no_digit (f ++ X).
Proof.
  assert (∀ X, at_exp X → num_frac X = Some ([], X) ∧ no_digit X) as Hnone.
  { intros X HX. split; [|by apply at_exp_stop]. destruct X as [|a X]; [done|]. cbn in HX |- *.
    rewrite decide_False; [done|]. intros ->. change (code ".") with 46 in HX. lia. }
  destruct l as [|a l]; cbn [num_frac]; [intros [= <- <-]; auto|].
  destruct (decide (a = "."%char)) as [->|Hd]; [|intros [= <- <-]; auto].
  destruct (take_digits l) as [d r'] eqn:Et. destruct d as [|b d0] eqn:Ed; [done|]. rewrite <- Ed in *.
  intros [= <- <-]. destruct (take_digits_split _ _ _ Et) as (-> & Hds & _). split; [done|].
  split; [constructor; [done|by apply digits_ordinary]|]. intros X HX. split; [|done].
  cbn [app num_frac]. rewrite decide_True by done. rewrite take_digits_stop by eauto using at_exp_stop.
  by rewrite Ed.
Qed.

Lemma num_exp_split l e r : num_exp l = Some (e, r) →
  l = e ++ r ∧ Forall ordinary e ∧ num_exp e = Some (e, []) ∧ at_exp e.
Proof.
  destruct l as [|a l]; cbn [num_exp]; [by intros [= <- <-]|].
  destruct ((code a =? 101) || (code a =? 69)) eqn:Ea; [|by intros [= <- <-]].
  destruct (match l with b :: l2 => _ | [] => _ end) as [sg l2] eqn:Es.
  destruct (take_digits l2) as [d r'] eqn:Et. destruct d as [|b d0] eqn:Ed; [done|]. rewrite <- Ed in *.
  intros [= <- <-]. destruct (take_digits_split _ _ _ Et) as (-> & Hds & Hall).
  assert (l = sg ++ d ++ r' ∧ (sg = [] ∨ ∃ c, sg = [c] ∧ (code c = 43 ∨ code c = 45))) as [-> Hsg].
  { destruct l as [|c l]; [by simplify_eq|]. destruct ((code c =? 43) || (code c =? 45)) eqn:Ec; simplify_eq/=.
    - split; [done|]. right. eexists. split; [done|lia].
    - auto. }
  assert (ordinary a) as Ha by (unfold ordinary, html; lia). split; [by cbn; rewrite <- app_assoc|]. split.
  { constructor; [done|]. apply Forall_app. split; [|by apply digits_ordinary].
    destruct Hsg as [->|(c & -> & Hc)]; [constructor|]. apply Forall_singleton. unfold ordinary, html. lia. }
  split; [|cbn; lia]. cbn [num_exp]. rewrite Ea. destruct Hsg as [->|(c & -> & Hc)]; cbn [app].
  - rewrite Ed in Hds, Hall |- *. apply Forall_cons in Hds as [Hb Hds].
    assert ((code b =? 43) || (code b =? 45) = false) as -> by (unfold is_digit in Hb; lia). by rewrite Hall.
  - assert ((code c =? 43) || (code c =? 45) = true) as -> by lia. rewrite Hall. by rewrite Ed.
Qed.

Lemma parse_num_split l n r : parse_num l = Some (n, r) →
  l = to_l n ++ r ∧ Forall ordinary (to_l n) ∧ num_ok (to_l n).
Proof.
  unfold parse_num. destruct (opt_minus l) as [s l1] eqn:Em. intros H.
  destruct (num_int l1) as [[i l2]|] eqn:Ei; [|done]. cbn in H.
  destruct (num_frac l2) as [[f l3]|] eqn:Ef; [|done]. cbn in H.
  destruct (num_exp l3) as [[e l4]|] eqn:Ee; [|done]. cbn in H. simplify_eq. rewrite to_of_l.
  destruct (num_int_split _ _ _ Ei) as (-> & Hi & HXi). destruct (num_frac_split _ _ _ Ef) as (-> & Hf & HXf).
  destruct (num_exp_split _ _ _ Ee) as (-> & He & HXe & Hat). destruct (HXf e Hat) as [Hfe Hnd].
  assert (∃ b i', i = b :: i') as (b & i' & Ei').
  { destruct i as [|b i']; [by specialize (HXi [] I)|eauto]. }
  assert (l = s ++ i ++ f ++ e ++ r ∧ Forall ordinary s ∧
    opt_minus (s ++ i ++ f ++ e) = (s, i ++ f ++ e)) as (-> & Hs & Hm).
  { destruct l as [|a l]; cbn in Em; [by simplify_eq|].
    destruct (decide (a = "-"%char)) as [->|Hm]; simplify_eq.
    { split; [done|]. split; [|done]. apply Forall_singleton. by unfold ordinary, html. }
    split; [done|]. split; [done|].
    cbn in *. simplify_eq. by rewrite decide_False. }
  split; [by rewrite <- !app_assoc|]. split; [by repeat (apply Forall_app; split)|].
  unfold num_ok, parse_num. rewrite Hm, HXi by done. cbn. rewrite Hfe. cbn. rewrite HXe. done.
Qed.

(** ** Values *)

(** The copy of a value at the head of [l] is a text of the same value. *)
Definition copies (d : nat) (l : list ascii) (v : json) (r : list ascii) : Prop :=
  ∃ t v', copy_out l = t ++ copy_out r ∧ is_value d t v' ∧ erase v' = erase v.

(** A punctuation byte. *)
Lemma copy_punct a c l : code a = c → c ∈ [44; 58; 91; 93; 123; 125] → copy_out (a :: l) = chr c :: copy_out l.
Proof.
  intros Ha Hc. assert (a = chr c) as ->. { apply code_inj. rewrite code_chr; [done|]. subst c. apply code_range. }
  rewrite !elem_of_cons, elem_of_nil in Hc. apply copy_ordinary.
  destruct Hc as [->|[->|[->|[->|[->|[->|[]]]]]]]; by unfold ordinary, html.
Qed.

Lemma copy_after l a l' c :
  skip_ws l = a :: l' → (code a =? c) = true → c ∈ [44; 58; 91; 93; 123; 125] → copy_out l = chr c :: copy_out l'.
Proof. intros Hs Ha%Z.eqb_eq Hc. rewrite <- copy_skip_ws, Hs. by apply copy_punct. Qed.

Section compound.
Context (d : nat) (IH : ∀ l v r, parse_value d l = Some (v, r) → copies d l v r).

Lemma copy_elems fuel l vs r : parse_elems (parse_value d) fuel l = Some (vs, r) → ∃ tvs,
  tvs ≠ [] ∧ copy_out l = elems_text tvs.*1 ++ "]"%char :: copy_out r ∧
  Forall (λ m, is_value d m.1 m.2) tvs ∧ erase <$> tvs.*2 = erase <$> vs.
Proof.
  revert l vs. induction fuel as [|f IHf]; intros l vs H; [done|]. cbn [parse_elems] in H.
  destruct (parse_value d (skip_ws l)) as [[v l1]|] eqn:Ev; [|done]. cbn [mbind option_bind] in H.
  destruct (IH _ _ _ Ev) as (t & v' & Ht & Hv & He). rewrite copy_skip_ws in Ht.
  destruct (skip_ws l1) as [|a l2] eqn:Es; [done|]. destruct (code a =? 44) eqn:E44.
  - destruct (parse_elems _ f l2) as [[vs' r']|] eqn:Ep; [|done]. cbn in H. simplify_eq.
    destruct (IHf _ _ Ep) as (tvs & Hne & Hc & Hall & Her). exists ((t, v') :: tvs). split; [done|].
    rewrite Ht, (copy_after _ _ _ 44 Es E44) by (by repeat constructor). rewrite Hc. split.
    { cbn [fmap list_fmap fst]. rewrite elems_text_cons by (by destruct tvs). by rewrite <- app_assoc. }
    split; [by constructor|]. cbn. by rewrite He, Her.
  - destruct (code a =? 93) eqn:E93; [|done]. simplify_eq. exists [(t, v')]. split; [done|].
    rewrite Ht, (copy_after _ _ _ 93 Es E93) by (by repeat constructor). split; [done|].
    split; [by apply Forall_singleton|]. cbn. by rewrite He.
Qed.

Definition erase_member (m : string * (string * json)) : string * (string * json) :=
  (m.1, (EmptyString, erase m.2.2)).

Lemma copy_member l q l1 k l2 c l3 v l4 :
  skip_ws l = q :: l1 → (code q =? 34) = true → parse_str l1 = Some (k, l2) →
  skip_ws l2 = c :: l3 → (code c =? 58) = true → parse_value d (skip_ws l3) = Some (v, l4) →
  ∃ tk tv v', copy_out l = member_text tk tv ++ copy_out l4 ∧
    is_lit tk (to_l k) ∧ is_value d tv v' ∧ erase v' = erase v.
Proof.
  intros Hl Hq Hk H2 Hc Hv. destruct (copy_lit _ _ _ Hk) as (tk & Htk & Hlit).
  destruct (IH _ _ _ Hv) as (tv & v' & Htv & Hval & He). rewrite copy_skip_ws in Htv.
  exists tk, tv, v'. split; [|done]. rewrite <- copy_skip_ws, Hl, copy_open by (by apply Z.eqb_eq).
  rewrite Htk, (copy_after _ _ _ 58 H2 Hc) by (by repeat constructor).
  rewrite Htv. unfold member_text. cbn. by rewrite <- app_assoc.
Qed.

Lemma copy_members fuel l ms r : parse_members (parse_value d) fuel l = Some (ms, r) → ∃ tms,
  tms ≠ [] ∧ copy_out l = members_text tms.*1 ++ "}"%char :: copy_out r ∧
  Forall (member_ok d) tms ∧ erase_member <$> tms.*2 = erase_member <$> ms.
Proof.
  revert l ms. induction fuel as [|f IHf]; intros l ms H; [done|]. cbn [parse_members] in H.
  destruct (skip_ws l) as [|q l1] eqn:Hl; [done|]. destruct (code q =? 34) eqn:Hq; [|done].
  destruct (parse_str l1) as [[k l2]|] eqn:Hk; [|done]. cbn [mbind option_bind] in H.
  destruct (skip_ws l2) as [|c l3] eqn:H2; [done|]. destruct (code c =? 58) eqn:Hc; [|done]. cbv zeta in H.
  destruct (parse_value d (skip_ws l3)) as [[v l4]|] eqn:Hv; [|done]. cbn [mbind option_bind] in H.
  destruct (copy_member _ _ _ _ _ _ _ _ _ Hl Hq Hk H2 Hc Hv) as (tk & tv & v' & Ht & Hlit & Hval & He).
  assert (member_ok d ((tk, tv), (k, (of_l tv, v')))) as Hok
    by (exists (to_l k), v'; cbn; by rewrite of_to_l).
  destruct (skip_ws l4) as [|a l5] eqn:Es; [done|]. destruct (code a =? 44) eqn:E44.
  - destruct (parse_members _ f l5) as [[ms' r']|] eqn:Ep; [|done]. cbn in H. simplify_eq.
    destruct (IHf _ _ Ep) as (tms & Hne & Hcp & Hall & Her).
    exists (((tk, tv), (k, (of_l tv, v'))) :: tms). split; [done|].
    rewrite Ht, (copy_after _ _ _ 44 Es E44) by (by repeat constructor). rewrite Hcp. split.
    { cbn [fmap list_fmap fst]. rewrite members_text_cons by (by destruct tms). by rewrite <- app_assoc. }
    split; [by constructor|]. cbn. unfold erase_member at 1 3. cbn. by rewrite He, Her.
  - destruct (code a =? 125) eqn:E125; [|done]. simplify_eq.
    exists [((tk, tv), (k, (of_l tv, v')))]. split; [done|].
    rewrite Ht, (copy_after _ _ _ 125 Es E125) by (by repeat constructor). split; [done|].
    split; [by apply Forall_singleton|]. cbn. unfold erase_member. cbn. by rewrite He.
Qed.
End compound.

Lemma copy_word d w v l r : parse_word w v l = Some (v, r) →
  (w, v) ∈ [("null", JNull); ("true", JBool true); ("false", JBool false)] → copies d l v r.
Proof.
  unfold parse_word. case_decide as E; [|done]. intros [= <-] Hin. exists (to_l w), v.
  split; [|split; [by apply value_word|done]].
  rewrite <- (take_drop (String.length w) l) at 1. rewrite E. apply copy_ordinaries.
  rewrite !elem_of_cons, elem_of_nil in Hin. unfold ordinary, html.
  destruct Hin as [Hin|[Hin|[Hin|[]]]]; simplify_eq; repeat (apply Forall_cons; split; [done|]); constructor.
Qed.

Lemma copy_number d l n r : parse_num l = Some (n, r) → copies d l (JNum n) r.
Proof.
  intros H. destruct (parse_num_split _ _ _ H) as (-> & Ho & Hn). exists (to_l n), (JNum n).
  split; [by apply copy_ordinaries|]. split; [|done]. rewrite <- (of_to_l n) at 2. by apply value_num.
Qed.

(** The values that are not containers. *)
Lemma copy_scalar d a l1 v r : code a ≠ 123 → code a ≠ 91 →
  parse_value d (a :: l1) = Some (v, r) → copies d (a :: l1) v r.
Proof.
  intros H123 H91 H.
  assert ((if code a =? 34 then '(s, r0) ← parse_str l1; Some (JStr s, r0)
    else if code a =? 116 then parse_word "true" (JBool true) (a :: l1)
    else if code a =? 102 then parse_word "false" (JBool false) (a :: l1)
    else if code a =? 110 then parse_word "null" JNull (a :: l1)
    else '(n, r0) ← parse_num (a :: l1); Some (JNum n, r0)) = Some (v, r)) as H'.
  { destruct d; cbn [parse_value] in H; cbv zeta in H;
      rewrite (proj2 (Z.eqb_neq _ _) H123), (proj2 (Z.eqb_neq _ _) H91) in H; exact H. }
  clear H. destruct (code a =? 34) eqn:E34.
  { destruct (parse_str l1) as [[s r0]|] eqn:Es; [|done]. cbn in H'. simplify_eq.
    destruct (copy_lit _ _ _ Es) as (t & Ht & Hlit). exists (lit t), (JStr s). split; [|split; [|done]].
    - rewrite copy_open by (by apply Z.eqb_eq). rewrite Ht. unfold lit. cbn. by rewrite <- app_assoc.
    - rewrite <- (of_to_l s). by apply value_str. }
  assert (∀ w v0, parse_word w v0 (a :: l1) = Some (v, r) → parse_word w v (a :: l1) = Some (v, r) ∧ v0 = v) as Hw.
  { intros w v0. unfold parse_word. case_decide; [|done]. by intros [= -> <-]. }
  destruct (code a =? 116); [apply Hw in H' as [Hp E]; subst; eapply copy_word; [exact Hp|set_solver]|].
  destruct (code a =? 102); [apply Hw in H' as [Hp E]; subst; eapply copy_word; [exact Hp|set_solver]|].
  destruct (code a =? 110); [apply Hw in H' as [Hp E]; subst; eapply copy_word; [exact Hp|set_solver]|].
  destruct (parse_num (a :: l1)) as [[n r0]|] eqn:En; [|done]. cbn in H'. simplify_eq. by apply copy_number.
Qed.

Lemma copy_value d l v r : parse_value d l = Some (v, r) → copies d l v r.
Proof.
  revert l v r. induction d as [|d IH]; intros l v r H; (destruct l as [|a l1]; [done|]).
  { destruct (decide (code a = 123)) as [E|]; [|destruct (decide (code a = 91)) as [E|]; [|by apply copy_scalar]];
      cbn [parse_value] in H; by rewrite E in H. }
  destruct (decide (code a = 123)) as [E|]; [|destruct (decide (code a = 91)) as [E|]; [|by apply copy_scalar]];
    cbn [parse_value] in H; rewrite E in H; cbn in H; (destruct (skip_ws l1) as [|b l2] eqn:Es; [done|]).
  - destruct (code b =? 125) eqn:Eb.
    { simplify_eq. exists (object_text []), (JObj []).
      rewrite (copy_punct _ 123 _ E), (copy_after _ _ _ 125 Es Eb) by (by repeat constructor).
      split; [done|]. split; [apply value_empty_object|done]. }
    destruct (parse_members (parse_value d) (length l1) l1) as [[ms r']|] eqn:Ep; [|done]. cbn in H. simplify_eq.
    destruct (copy_members d IH _ _ _ _ Ep) as (tms & Hne & Hc & Hall & He).
    exists (object_text tms.*1), (JObj tms.*2). split.
    { rewrite (copy_punct _ 123 _ E) by (by repeat constructor). rewrite Hc. unfold object_text. cbn.
      by rewrite <- app_assoc. }
    split; [by apply value_object|]. cbn. f_equal. exact He.
  - destruct (code b =? 93) eqn:Eb.
    { simplify_eq. exists (array_text []), (JArr []).
      rewrite (copy_punct _ 91 _ E), (copy_after _ _ _ 93 Es Eb) by (by repeat constructor).
      split; [done|]. split; [apply (value_array d []); constructor|done]. }
    destruct (parse_elems (parse_value d) (length l1) l1) as [[vs r']|] eqn:Ep; [|done]. cbn in H. simplify_eq.
    destruct (copy_elems d IH _ _ _ _ Ep) as (tvs & Hne & Hc & Hall & He).
    exists (array_text tvs.*1), (JArr tvs.*2). split.
    { rewrite (copy_punct _ 91 _ E) by (by repeat constructor). rewrite Hc. unfold array_text. cbn.
      by rewrite <- app_assoc. }
    split; [by apply value_array|]. cbn. f_equal. exact He.
Qed.

(** ** Documents *)

(** A document with at most [d] containers open at once. *)
Definition parse_at (d : nat) (s : string) : option json :=
  '(v, r) ← parse_value d (skip_ws (to_l s));
  match skip_ws r with [] => Some v | _ => None end.

(** The copy of a raw message is a text of its value. *)
Lemma copy_document d raw v : parse_at d raw = Some v →
  ∃ v', is_value d (copy_out (to_l raw)) v' ∧ erase v' = erase v.
Proof.
  unfold parse_at. destruct (parse_value d (skip_ws (to_l raw))) as [[v0 r]|] eqn:Ev; [|done]. cbn [mbind option_bind].
  destruct (skip_ws r) eqn:Er; [|done]. intros [= <-].
  destruct (copy_value _ _ _ _ Ev) as (t & v' & Ht & Hv & He). exists v'. split; [|done].
  rewrite copy_skip_ws, (copy_blank r Er), app_nil_r in Ht. by rewrite Ht.
Qed.
