(* ===== verification/FloatText.v ===== *)
(** * Floats are written as JSON numbers

    The shortest digits of a nonzero [float64] start with a nonzero digit, and the
    formats [f] and [e] of them are number literals of the JSON grammar. *)
From Stdlib Require Import Ascii ZArith.
From stdpp Require Import prelude gmap strings list.
From S2P Require Import Prelude GoStrings GoText GoFloat Json Utf8 JsonText.
From S2P Require Import Backoff GoTime Events Base64 JsonDoc JsonCopy.

Local Open Scope Z_scope.

(** ** Literals from their parts *)

Definition lead_digit (a : ascii) : Prop := 49 ≤ code a ≤ 57.
Definition int_part (i : list ascii) : Prop :=
  i = ["0"%char] ∨ ∃ a l, i = a :: l ∧ lead_digit a ∧ Forall is_digit l.
Definition frac_part (f : list ascii) : Prop :=
  f = [] ∨ ∃ l, f = "."%char :: l ∧ l ≠ [] ∧ Forall is_digit l.
Definition exp_part (e : list ascii) : Prop :=
  e = [] ∨ ∃ sg l, e = "e"%char :: sg :: l ∧ (sg = "+"%char ∨ sg = "-"%char) ∧ l ≠ [] ∧ Forall is_digit l.

Lemma lead_is_digit a : lead_digit a → is_digit a.
Proof. unfold lead_digit, is_digit. lia. Qed.

Lemma num_int_part i X : int_part i → no_digit X → num_int (i ++ X) = Some (i, X).
Proof.
  intros [->|(a & l & -> & Ha & Hl)] HX; [done|]. cbn [num_int app].
  rewrite decide_False by (intros ->; by destruct Ha).
  replace (in_range 49 57 a) with true by (unfold lead_digit, in_range in *; lia).
  f_equal. apply (take_digits_stop (a :: l)); [|done]. constructor; [by apply lead_is_digit|done].
Qed.

Lemma num_frac_part f e : frac_part f → exp_part e → num_frac (f ++ e) = Some (f, e) ∧ no_digit (f ++ e).
Proof.
  intros Hf He. assert (at_exp e) as Hat.
  { destruct He as [->|(sg & l & -> & _)]; [done|]. by left. }
  destruct Hf as [->|(l & -> & Hne & Hl)].
  - destruct He as [->|(sg & l & -> & _)]; done.
  - split; [|done]. cbn [num_frac app]. rewrite decide_True by done.
    rewrite take_digits_stop by eauto using at_exp_stop. by destruct l.
Qed.

Lemma num_exp_part e : exp_part e → num_exp e = Some (e, []).
Proof.
  intros [->|(sg & l & -> & Hsg & Hne & Hl)]; [done|]. cbn [num_exp].
  assert ((code sg =? 43) || (code sg =? 45) = true) as Hs by (by destruct Hsg as [-> | ->]).
  change ((code "e" =? 101) || (code "e" =? 69)) with true. cbv iota. rewrite Hs.
  rewrite take_digits_all by done. by destruct l.
Qed.

Lemma num_ok_parts (neg : bool) i f e : int_part i → frac_part f → exp_part e →
  num_ok ((if neg then ["-"%char] else []) ++ i ++ f ++ e).
Proof.
  intros Hi Hf He. destruct (num_frac_part f e Hf He) as [Hnf Hnd].
  unfold num_ok, parse_num.
  assert (opt_minus ((if neg then ["-"%char] else []) ++ i ++ f ++ e) =
    ((if neg then ["-"%char] else []), i ++ f ++ e)) as ->.
  { destruct neg; [done|]. destruct Hi as [->|(a & l & -> & Ha & _)]; [done|]. cbn.
    rewrite decide_False; [done|]. intros ->. by destruct Ha. }
  rewrite (num_int_part _ _ Hi Hnd). cbn [mbind option_bind]. rewrite Hnf. cbn [mbind option_bind].
  by rewrite (num_exp_part _ He).
Qed.

(** ** Digits *)

Lemma dp_up_ok fuel p q dp : 0 < q ≤ p → 0 ≤ dp → (dp = 0 ∨ q * 10 ^ (dp - 1) ≤ p) →
  let r := dp_up fuel p (q * 10 ^ dp) dp in 0 ≤ r ∧ (r = 0 ∨ q * 10 ^ (r - 1) ≤ p).
Proof.
  intros Hq. revert dp. induction fuel as [|fuel IH]; intros dp Hdp Hinv; cbn; [done|].
  destruct (Z.ltb_spec p (q * 10 ^ dp)); [done|].
  replace (q * 10 ^ dp * 10) with (q * 10 ^ (dp + 1)) by (rewrite Z.pow_add_r by lia; lia).
  apply IH; [lia|]. right. by replace (dp + 1 - 1) with dp by lia.
Qed.

Lemma dp_down_ok fuel p q j : 0 < p → 0 ≤ j → q ≤ p * 10 ^ (j + Z.of_nat fuel + 1) →
  let r := dp_down fuel (p * 10 ^ j) q (- j) in r ≤ 0 ∧ q ≤ p * 10 ^ (1 - r).
Proof.
  intros Hp. revert j. induction fuel as [|fuel IH]; intros j Hj Hq; cbn.
  { split; [lia|]. by replace (1 - - j) with (j + Z.of_nat 0 + 1) by lia. }
  replace (p * 10 ^ j * 10) with (p * 10 ^ (j + 1)) by (rewrite Z.pow_add_r by lia; lia).
  destruct (Z.leb_spec q (p * 10 ^ (j + 1))).
  { split; [lia|]. by replace (1 - - j) with (j + 1) by lia. }
  replace (- j - 1) with (- (j + 1)) by lia. apply IH; [lia|].
  by replace (j + 1 + Z.of_nat fuel + 1) with (j + Z.of_nat (S fuel) + 1) by lia.
Qed.

(** Scaled to [n] digits, a positive number is at least one. *)
Lemma scaled_ge_1 p q n : 0 < p → 0 < q → 1 ≤ n →
  let '(a, b) := scale10 p q (n - dec_point p q) in 0 < b ≤ a.
Proof.
  intros Hp Hq Hn. unfold dec_point, scale10. destruct (Z.ltb_spec p q) as [Hpq|Hpq].
  - pose proof (dp_down_ok (S (Z.to_nat (Z.log2 q))) p q 0 Hp ltac:(lia)) as H.
    rewrite Z.pow_0_r, Z.mul_1_r in H. change (- 0) with 0 in H. destruct H as [Hr Hb].
    { pose proof (Z.log2_spec q Hq) as [_ Hl]. pose proof (Z.log2_nonneg q).
      assert (2 ^ Z.succ (Z.log2 q) ≤ 10 ^ (0 + Z.of_nat (S (Z.to_nat (Z.log2 q))) + 1)); [|nia].
      transitivity (10 ^ Z.succ (Z.log2 q)); [apply Z.pow_le_mono_l; lia|apply Z.pow_le_mono_r; lia]. }
    set (r := dp_down _ _ _ _) in *. rewrite (proj2 (Z.leb_le 0 (n - r))) by lia. split; [done|].
    assert (10 ^ (1 - r) ≤ 10 ^ (n - r)) by (apply Z.pow_le_mono_r; lia). nia.
  - pose proof (dp_up_ok (S (Z.to_nat (Z.log2 p))) p q 0 ltac:(lia) ltac:(lia) ltac:(by left)) as H.
    rewrite Z.pow_0_r, Z.mul_1_r in H. set (r := dp_up _ _ _ _) in *. destruct H as [Hr Hb].
    destruct (Z.leb_spec 0 (n - r)) as [Hk|Hk].
    + assert (1 ≤ 10 ^ (n - r)) by (pose proof (Z.pow_pos_nonneg 10 (n - r)); lia). nia.
    + destruct Hb as [->|Hb]; [lia|]. assert (0 < 10 ^ (- (n - r))) by (apply Z.pow_pos_nonneg; lia).
      assert (10 ^ (- (n - r)) ≤ 10 ^ (r - 1)) by (apply Z.pow_le_mono_r; lia). nia.
Qed.

Lemma round_half_even_pos a b : 0 < b ≤ a → 1 ≤ round_half_even a b.
Proof.
  intros Hb. unfold round_half_even. assert (1 ≤ a / b) by (apply Z.div_le_lower_bound; lia).
  case_match; lia.
Qed.

Lemma mag_pos x : float_is_zero x = false → 0 < (mag x).1 ∧ 0 < (mag x).2.
Proof.
  unfold float_is_zero, mag, scale2. intros H%N.eqb_neq.
  destruct (Z.leb_spec 0 (- fe x)); cbn [fst snd].
  - assert (0 < 2 ^ (- fe x)) by (apply Z.pow_pos_nonneg; lia). lia.
  - assert (0 < 2 ^ (- - fe x)) by (apply Z.pow_pos_nonneg; lia). nia.
Qed.

Lemma shortest_pos fuel n x : float_is_zero x = false → 1 ≤ n → 1 ≤ (shortest fuel n x).1.
Proof.
  intros Hx. destruct (mag_pos x Hx) as [Hp Hq]. revert n.
  induction fuel as [|fuel IH]; intros n Hn; cbn [shortest]; destruct (mag x) as [p q]; cbn [fst snd] in *;
    pose proof (scaled_ge_1 p q n Hp Hq Hn) as Hs; destruct (scale10 p q _) as [a b];
    pose proof (round_half_even_pos a b Hs); [done|].
  destruct (scale10 (round_half_even a b) 1 _) as [p' q']. destruct (float_of_frac _ _ _) as [y|]; [|apply IH; lia].
  destruct (float_eqb x y); [done|apply IH; lia].
Qed.

(** The digits of a nonzero value. *)
Lemma digits_point_lead x : float_is_zero x = false →
  ∃ a l, (digits_point x).1 = a :: l ∧ lead_digit a ∧ Forall is_digit l.
Proof.
  intros Hx. pose proof (shortest_pos 16 1 x Hx ltac:(lia)) as Hd. unfold digits_point.
  destruct (shortest 16 1 x) as [d ex]. cbn [fst] in *.
  destruct (dec_nat_head d ltac:(lia)) as (b & l & E & Hb). destruct (strip_zeros_split (dec_nat d)) as [k Hk].
  pose proof (dec_nat_digits d) as Hall. rewrite Hk in Hall. apply Forall_app in Hall as [Hall _].
  destruct (strip_zeros (dec_nat d)) as [|a s].
  - rewrite E in Hk. destruct k; [done|]. cbn in Hk. simplify_eq. by destruct Hb.
  - rewrite E in Hk. cbn in Hk. simplify_eq. exists a, s. apply Forall_cons in Hall as [_ Hall]. done.
Qed.

Lemma zeros_digits k : Forall is_digit (replicate k "0"%char).
Proof. apply Forall_replicate. by unfold is_digit. Qed.

(** ** Formats *)

Section formats.
Context (neg : bool) (a : ascii) (l : list ascii) (Ha : lead_digit a) (Hl : Forall is_digit l).

Lemma fixed_text_ok dp : num_ok ((if neg then ["-"%char] else []) ++ fixed_text (a :: l) dp).
Proof.
  unfold fixed_text. destruct (Z.leb_spec dp 0) as [Hdp|Hdp].
  - pose proof (num_ok_parts neg ["0"%char] ("."%char :: replicate (Z.to_nat (- dp)) "0"%char ++ a :: l) []) as H.
    rewrite app_nil_r in H. apply H; [by left| |by left]. right. eexists. split; [done|].
    split; [by destruct (Z.to_nat (- dp))|]. apply Forall_app. split; [apply zeros_digits|].
    constructor; [by apply lead_is_digit|done].
  - destruct (Z.to_nat dp) as [|n] eqn:En; [lia|]. cbn [take drop length].
    set (f := if (S n <? S (length l))%nat then "."%char :: drop n l else []).
    pose proof (num_ok_parts neg (a :: take n l ++ replicate (S n - S (length l)) "0"%char) f []) as H.
    rewrite app_nil_r in H. cbn [app] in H |- *. rewrite <- app_assoc in H. apply H; [| |by left].
    + right. eexists _, _. split; [done|]. split; [done|]. apply Forall_app. split; [by apply Forall_take|apply zeros_digits].
    + unfold f. destruct (Nat.ltb_spec (S n) (S (length l))); [|by left]. right. eexists. split; [done|].
      split; [|by apply Forall_drop]. intros E%(f_equal length). rewrite length_drop in E. cbn in E. lia.
Qed.

Lemma exp_text_ok e : num_ok ((if neg then ["-"%char] else []) ++ exp_text dec_nat (a :: l) e).
Proof.
  unfold exp_text. cbn [take drop length]. rewrite take_0.
  pose proof (num_ok_parts neg [a] (if (1 <? S (length l))%nat then "."%char :: drop 0 l else [])
    (["e"]%char ++ (if e <? 0 then ["-"]%char else ["+"]%char) ++ dec_nat (Z.abs e))) as H.
  apply H.
  - right. by eexists _, _.
  - rewrite drop_0. destruct l as [|b l']; [by left|]. right. by eexists.
  - right. eexists (if e <? 0 then "-"%char else "+"%char), (dec_nat (Z.abs e)).
    split; [by destruct (e <? 0)|]. split; [destruct (e <? 0); auto|]. split; [|apply dec_nat_digits].
    unfold dec_nat. apply dec_loop_ne.
Qed.
End formats.
