(* ===== verification/EventWire.v ===== *)
(** * Mutation events on the wire

    What the consumer of an event reads: the body of every POST is a JSON object
    with the nine members of [MutationEvent], in order and of their types. *)
From Stdlib Require Import Ascii ZArith.
From stdpp Require Import prelude gmap strings list.
From S2P Require Import Prelude GoStrings GoText GoFloat Json Utf8 JsonText.
From S2P Require Import Backoff GoTime Events Base64 JsonDoc JsonCopy.

Local Open Scope Z_scope.

(** ** The text of an event *)

Lemma member_to_l name value : to_l (member name value) = member_text (enc_text name) (to_l value).
Proof.
  unfold member. rewrite !to_l_app, marshal_string_lit. unfold lit, member_text. cbn. by rewrite <- app_assoc.
Qed.

Lemma Join_cons sep x y l : Join sep (x :: y :: l) = x +:+ sep +:+ Join sep (y :: l).
Proof. done. Qed.

Lemma join_members (ms : list (string * (string * json))) :
  to_l (Join "," ((λ m, member m.1 m.2.1) <$> ms)) = members_text ((λ m, (enc_text m.1, to_l m.2.1)) <$> ms).
Proof.
  induction ms as [|[k v] ms IH]; [done|]. destruct ms as [|m ms]; [apply member_to_l|].
  do 2 rewrite fmap_cons in IH. do 4 rewrite fmap_cons.
  rewrite Join_cons, !to_l_app, IH, member_to_l. rewrite (members_text_cons (enc_text k)) by done. reflexivity.
Qed.

(** A member with the text and the value that it is read as. *)
Definition written (m : string * (string * json)) : Prop :=
  member_ok (N.to_nat 9999) ((enc_text m.1, to_l m.2.1), m).

(** Reading an object that was written member by member. *)
Lemma object_read ms : ms ≠ [] → Forall written ms →
  json_parse ("{" +:+ Join "," ((λ m, member m.1 m.2.1) <$> ms) +:+ "}") = Some (JObj ms).
Proof.
  intros Hne Hall.
  pose proof (json_parse_object ((λ m, ((enc_text m.1, to_l m.2.1), m)) <$> ms)) as Hp.
  rewrite <- !list_fmap_compose in Hp. unfold compose in Hp. cbn [fst snd] in Hp. rewrite list_fmap_id in Hp.
  rewrite <- Hp; [|by destruct ms|by apply Forall_fmap].
  f_equal. rewrite <- (of_to_l ("{" +:+ _)). f_equal. by rewrite !to_l_app, join_members.
Qed.

(** The members and their values; the last argument is the observed state. *)
Definition event_values (e : MutationEvent) (obs : json) (t : list ascii) : list (string * json) :=
  [("event_type", JStr (read_str (EventType e))); ("provider", JStr (read_str (ev_Provider e)));
   ("resource", JStr (read_str (ev_Resource e))); ("verb", JStr (read_str (ev_Verb e)));
   ("resource_id", JStr (read_str (ResourceID e))); ("instance_id", JStr (read_str (ev_InstanceID e)));
   ("idempotency", JStr (read_str (Idempotency e))); ("observed", obs); ("emitted_at", JStr (of_l t))].

(** An object with these members in this order, whatever their bytes. *)
Definition is_object (ms : list (string * json)) (v : json) : Prop :=
  erase v = JObj ((λ m, (m.1, (EmptyString, erase m.2))) <$> ms).

(** The value of the observed state: [null] for none. Inside an event it has one
    level of nesting less than a document of its own. *)
Definition observed_value (raw : string) : option json :=
  if decide (raw = EmptyString) then Some JNull else parse_at (N.to_nat 9999) raw.

Lemma string_written name s : valid_utf8 (to_l name) → written (name, (marshal_string s, JStr (read_str s))).
Proof.
  intros Hn. exists (to_l name), (JStr (read_str s)). cbn [fst snd].
  split; [by apply units_lit, enc_text_units|]. rewrite marshal_string_lit. split.
  - rewrite <- (of_to_l (read_str s)). apply value_str, units_lit. unfold read_str. rewrite to_of_l.
    apply enc_text_to_valid.
  - by rewrite <- marshal_string_lit, !of_to_l.
Qed.

Lemma raw_written name s v : valid_utf8 (to_l name) → is_value (N.to_nat 9999) (to_l s) v → written (name, (s, v)).
Proof.
  intros Hn Hv. exists (to_l name), v. cbn [fst snd]. split; [by apply units_lit, enc_text_units|].
  split; [done|]. by rewrite !of_to_l.
Qed.

Lemma marshal_raw_value raw v s : observed_value raw = Some v → marshal_raw raw = Some s →
  ∃ v', is_value (N.to_nat 9999) (to_l s) v' ∧ erase v' = erase v.
Proof.
  unfold observed_value, marshal_raw. case_decide as E.
  { intros [= <-] [= <-]. exists JNull. split; [apply value_null|done]. }
  destruct (json_parse raw); [|done]. intros Hp [= <-]. rewrite to_of_l. by apply copy_document.
Qed.

(** Reading the body of an event. *)
Lemma event_read e at_ v body :
  observed_value (Observed e) = Some v → marshal_event e at_ = Some body →
  ∃ doc t, json_parse body = Some doc ∧ MarshalTime at_ = Some t ∧ is_object (event_values e v t) doc.
Proof.
  intros Hobs Hm. unfold marshal_event in Hm.
  destruct (marshal_raw (Observed e)) as [s|] eqn:Er; [|done]. cbn [mbind option_bind] in Hm.
  destruct (MarshalTime at_) as [t|] eqn:Et; [|done]. cbn [mbind option_bind] in Hm. apply (inj Some) in Hm.
  destruct (marshal_raw_value _ _ _ Hobs Er) as (v' & Hv & He). pose proof (time_text_plain _ _ Et) as Hplain.
  set (str := λ (k f : string), (k, (marshal_string f, JStr (read_str f)))).
  set (ms := [str "event_type" (EventType e); str "provider" (ev_Provider e); str "resource" (ev_Resource e);
    str "verb" (ev_Verb e); str "resource_id" (ResourceID e); str "instance_id" (ev_InstanceID e);
    str "idempotency" (Idempotency e); ("observed", (s, v')); ("emitted_at", (of_l (lit t), JStr (of_l t)))]).
  assert (Forall written ms) as Hw.
  { unfold ms. do 7 (apply Forall_cons; split; [by apply string_written, (bool_decide_unpack _)|]).
    apply Forall_cons; split; [|apply Forall_singleton].
    - apply raw_written; [by apply (bool_decide_unpack _)|done].
    - apply raw_written; [by apply (bool_decide_unpack _)|]. rewrite to_of_l. by apply value_str, units_lit, units_plain. }
  exists (JObj ms), t. split; [|split; [done|]].
  - rewrite <- Hm. apply (object_read ms); [discriminate|exact Hw].
  - unfold is_object, ms, str. cbn [erase event_values fmap list_fmap map fst snd]. by rewrite He.
Qed.

(** ** The POSTs of an emission *)

(** Every attempt sends the same request, and there are at most as many attempts
    as the budget says. *)
Lemma emit_loop_posts clk out ctx wait h body n attempt lastErr w :
  let url := TrimRight1 "/" (coreURL h) +:+ eventsPath h in
  ∃ k, (k ≤ n)%nat ∧ (emit_loop (traced_env clk out ctx wait) h url body n attempt lastErr w).2 =
    w ++ replicate k (emission_post h body).
Proof.
  intros url. revert attempt lastErr w. induction n as [|n IH]; intros attempt lastErr w.
  { exists 0%nat. split; [done|]. cbn. by rewrite app_nil_r. }
  assert (∀ w', (∃ k, (k ≤ n)%nat ∧ w' = (w ++ [emission_post h body]) ++ replicate k (emission_post h body)) →
    ∃ k, (k ≤ S n)%nat ∧ w' = w ++ replicate k (emission_post h body)) as Hone.
  { intros w' (k & Hk & ->). exists (S k). split; [lia|]. by rewrite <- app_assoc. }
  assert (∃ k, (k ≤ n)%nat ∧ w ++ [emission_post h body] =
    (w ++ [emission_post h body]) ++ replicate k (emission_post h body)) as Hlast.
  { exists 0%nat. split; [lia|]. by rewrite app_nil_r. }
  cbn [emit_loop]. unfold mbind, M_bind, mret, M_ret.
  assert ((if 0 <? attempt then wait_backoff (traced_env clk out ctx wait) (retryBackoff h) else λ w, (None, w)) w =
    (if 0 <? attempt then wait (length w) else None, w)) as -> by (by destruct (0 <? attempt)).
  destruct (if 0 <? attempt then wait (length w) else None) as [c|].
  { exists 0%nat. split; [lia|]. cbn. by rewrite app_nil_r. }
  cbn [new_request traced_env client_do ctx_Err]. destruct (out (length w)) as [err|st rb].
  - destruct (ctx _); apply Hone; [exact Hlast|apply IH].
  - apply Hone. destruct ((200 <=? st) && (st <? 300)); [exact Hlast|].
    destruct ((400 <=? st) && (st <? 500)); [exact Hlast|apply IH].
Qed.

(** C13: the type of what is posted. Whatever the network, the context and the
    budget do, every POST of an emission carries a JSON document that is an
    object with exactly the nine members of [MutationEvent] in order: the texts
    are JSON strings that read back as the fields (with U+FFFD for invalid
    UTF-8), the observed state is the same JSON value as the raw message, [null]
    if there is none, and the time is a string that reads back as the instant of
    the emission when it is in UTC. If the observed state is not JSON nothing is
    posted and [Emit] fails. *)
Theorem posted_events_typed clk out ctx wait h e :
  let '(r, posts) := httpEmit (traced_env clk out ctx wait) h e [] in
  let at_ := default (UTC clk) (EmittedAt e) in
  (Observed e ≠ EmptyString → json_parse (Observed e) = None → posts = [] ∧ is_Some r) ∧
  (∀ v p, observed_value (Observed e) = Some v → p ∈ posts →
     ∃ doc t, json_parse (p_body p) = Some doc ∧ is_object (event_values e v t) doc ∧
       MarshalTime at_ = Some t ∧ (zone at_ = 0 → read_UTC t = UnixNano at_)).
Proof.
  destruct (httpEmit _ h e []) as [r posts] eqn:Eh. cbv zeta.
  set (at_ := default (UTC clk) (EmittedAt e)).
  assert (httpEmit (traced_env clk out ctx wait) h e [] =
    match marshal_event e at_ with
    | None => (Some (Wrapf "events: marshal mutation event: " (Errorf "json: error calling MarshalJSON") EmptyString), [])
    | Some body => emit_loop (traced_env clk out ctx wait) h (TrimRight1 "/" (coreURL h) +:+ eventsPath h) body
        (Z.to_nat (maxRetries h)) 0 None []
    end) as E.
  { unfold httpEmit, mbind, M_bind, at_. destruct (EmittedAt e); cbn; by destruct (marshal_event e _). }
  rewrite Eh in E. split.
  { intros Hne Hp. unfold marshal_event, marshal_raw in E. rewrite decide_False, Hp in E by done. cbn in E.
    by simplify_eq. }
  intros v p Hobs Hin. destruct (marshal_event e at_) as [body|] eqn:Em; [|simplify_eq; by apply elem_of_nil in Hin].
  destruct (emit_loop_posts clk out ctx wait h body (Z.to_nat (maxRetries h)) 0 None []) as (k & _ & Hk).
  rewrite <- E in Hk. cbn in Hk. subst posts. apply elem_of_replicate_inv in Hin as ->. cbn [p_body emission_post].
  destruct (event_read _ _ _ _ Hobs Em) as (doc & t & Hd & Ht & Ho). exists doc, t. split_and!; [done..|].
  intros Hz. apply time_text_read. rewrite <- Ht. f_equal. destruct at_ as [ns z]. cbn in Hz. by subst z.
Qed.

(** An event with characters that are escaped, blanks in the observed state and a
    first attempt that fails. *)
Definition typed_event : MutationEvent := {|
  EventType := "gh.repo.ensured"; ev_Provider := "gh"; ev_Resource := "repo"; ev_Verb := VerbEnsured;
  ResourceID := "a<b>/c"; ev_InstanceID := of_l [chr 195; chr 169]; Idempotency := "k";
  Observed := of_l ("{"%char :: dquote :: to_l "n" ++ dquote :: to_l " : [1, true] }"); EmittedAt := None |}.

Lemma posted_events_typed_witness :
  ∃ p doc t, (httpEmit (traced_env (1785283200 * Second) demo_out (λ _, None) (λ _, None)) demo_emitter
      typed_event []).2 = [p; p] ∧
    json_parse (p_body p) = Some doc ∧ read_UTC t = 1785283200 * Second ∧
    is_object (event_values typed_event (JObj [("n", (EmptyString, JArr [JNum "1"; JBool true]))]) t) doc.
Proof.
  pose proof (posted_events_typed (1785283200 * Second) demo_out (λ _, None) (λ _, None) demo_emitter typed_event)
    as H.
  destruct (httpEmit _ demo_emitter typed_event []) as [r posts] eqn:E. cbv zeta in H.
  assert (posts = replicate 2 (emission_post demo_emitter
    (default EmptyString (marshal_event typed_event (UTC (1785283200 * Second)))))) as ->.
  { apply (f_equal snd) in E. cbn [snd] in E. rewrite <- E. vm_compute. reflexivity. }
  destruct H as [_ H]. edestruct H as (doc & t & Hp & Ho & _ & Ht); [|left|].
  { vm_compute. reflexivity. }
  exists (emission_post demo_emitter (default EmptyString (marshal_event typed_event (UTC (1785283200 * Second))))), doc, t.
  split; [done|]. split; [exact Hp|]. split; [by apply Ht|]. exact Ho.
Defined.
