(* ===== verification/ReconcileWire.v ===== *)
(** * The responses of reconcilers on the wire

    Every successful dispatch answers with a JSON document: the observed state of
    an ensure request, the page of an observe request, the constant of a destroy
    request. The adapter's own types are assumed to marshal to JSON. *)
From Stdlib Require Import Ascii ZArith.
From stdpp Require Import prelude gmap strings list.
From S2P Require Import Prelude GoStrings GoText GoFloat GoCrypto Json Utf8 JsonText Backoff.
From S2P Require Import GoTime Events Reconcile ReconcileSpec Base64 JsonDoc JsonCopy EventWire.

Local Open Scope Z_scope.

(** What [json.Marshal] writes for an [O] is a document, and the text of a value
    inside another one; at most two levels are left below the nesting bound. *)
Definition marshals_json {D O} (c : codec D O) : Prop := ∀ o s, marshalO c o = inr s →
  ∃ v, json_parse s = Some v ∧ is_value (N.to_nat 9998) (to_l s) v.

Section responses.
Context `{UnicodeTables} {P : Type}.

(** ** Pages *)

Lemma join_elems (ss : list string) : to_l (Join "," ss) = elems_text (to_l <$> ss).
Proof.
  induction ss as [|s ss IH]; [done|]. destruct ss as [|s' ss]; [done|].
  rewrite Join_cons, !to_l_app, IH. rewrite (fmap_cons _ s), (elems_text_cons (to_l s)) by done. reflexivity.
Qed.

(** The value of an item. *)
Definition item_value {D O} (c : codec D O) (o : O) (v : json) : Prop :=
  ∃ s, marshalO c o = inr s ∧ json_parse s = Some v.

Lemma marshal_items_values {D O} (c : codec D O) l ss : marshals_json c → marshal_items c l = inr ss →
  ∃ tvs, tvs.*1 = to_l <$> ss ∧ Forall (λ m, is_value (N.to_nat 9998) m.1 m.2) tvs ∧ Forall2 (item_value c) l tvs.*2.
Proof.
  intros Hc. revert ss. induction l as [|o l IH]; intros ss Hm; cbn in Hm; [simplify_eq; by exists []|].
  destruct (marshalO c o) as [e|s] eqn:Eo; [done|]. destruct (marshal_items c l) as [e|ss'] eqn:El; [done|].
  simplify_eq. destruct (IH ss' eq_refl) as (tvs & Ht & Hall & Hv2). destruct (Hc o s Eo) as (v & Hp & Hv).
  exists ((to_l s, v) :: tvs). cbn. split; [by rewrite Ht|]. split; [by constructor|]. constructor; [by exists s|done].
Qed.

(** The page of the items and the cursor that [Observe] returned: an object with
    the cursor and the values of the items, in order; [null] for a nil slice. *)
Definition is_page {D O} (c : codec D O) (items : option (list O)) (cursor : string) (doc : json) : Prop :=
  ∃ raw1 raw2 v, doc = JObj [("cursor", (raw1, JStr (read_str cursor))); ("items", (raw2, v))] ∧
    match items with
    | None => v = JNull
    | Some l => ∃ vs, v = JArr vs ∧ Forall2 (item_value c) l vs
    end.

Lemma page_read {D O} (c : codec D O) items cursor body : marshals_json c →
  marshal_page c items cursor = inr body → ∃ doc, json_parse body = Some doc ∧ is_page c items cursor doc.
Proof.
  intros Hc Hm.
  assert (∃ its v, body = "{" +:+ member "cursor" (marshal_string cursor) +:+ "," +:+ member "items" its +:+ "}" ∧
    is_value (N.to_nat 9999) (to_l its) v ∧
    match items with None => v = JNull | Some l => ∃ vs, v = JArr vs ∧ Forall2 (item_value c) l vs end)
    as (its & v & -> & Hv & Hk).
  { unfold marshal_page in Hm. destruct items as [l|].
    - destruct (marshal_items c l) as [e|ss] eqn:El; [done|]. apply (inj inr) in Hm. subst body.
      destruct (marshal_items_values c l ss Hc El) as (tvs & Ht & Hall & Hv2).
      exists ("[" +:+ Join "," ss +:+ "]"), (JArr tvs.*2). split; [done|]. split; [|by exists tvs.*2].
      replace (N.to_nat 9999) with (S (N.to_nat 9998)) by lia.
      rewrite !to_l_app, join_elems, <- Ht. by apply value_array.
    - apply (inj inr) in Hm. subst body. exists "null", JNull. split; [done|]. split; [apply value_null|done]. }
  assert ("{" +:+ member "cursor" (marshal_string cursor) +:+ "," +:+ member "items" its +:+ "}" =
    "{" +:+ Join "," [member "cursor" (marshal_string cursor); member "items" its] +:+ "}") as ->.
  { rewrite Join_cons. apply to_l_inj. rewrite !to_l_app. by rewrite <- !app_assoc. }
  eexists. split.
  - apply (object_read [("cursor", (marshal_string cursor, JStr (read_str cursor))); ("items", (its, v))]); [done|].
    apply Forall_cons; split; [|apply Forall_singleton].
    + apply string_written, (bool_decide_unpack _). exact I.
    + apply raw_written; [|done]. apply (bool_decide_unpack _). exact I.
  - by exists (marshal_string cursor), its, v.
Qed.

(** ** Entries *)

(** What a response says: the state that [Ensure] returned, the page that
    [Observe] returned, or that the resource is deleted. *)
Inductive response_of {D O} (c : codec D O) (r : Reconciler P D O) (env : executeRequest) (p : P) (body : string) : Prop :=
| ensure_response d o v : parse_desired c "reconcile.Ensure: parse desired: " (Input env) = inr d →
    (Ensure r d p).1 = inr o → item_value c o v → json_parse body = Some v → response_of c r env p body
| observe_response f items cursor doc :
    (if decide (Input env = EmptyString) then Some [] else unmarshal_map (Input env)) = Some f → (Observe r f p).1 = inr (items, cursor) →
    json_parse body = Some doc → is_page c items cursor doc → response_of c r env p body
| destroy_response ref called p' raw : destroy_by c r (Input env) ref p called None p' →
    json_parse body = Some (JObj [("deleted", (raw, JBool true))]) → response_of c r env p body.

(** A success of the handler answers so. *)
Definition answers_typed (x : registration P) (fn : entry P) : Prop := ∀ env w body w',
  fn env w = (inr body, w') → response_of (reg_codec x) (reg_reconciler x) env (prov w) body.

Section entries.
Context (x : registration P) (Hc : marshals_json (reg_codec x)).
Abbreviation c := (reg_codec x).
Abbreviation r := (reg_reconciler x).

Lemma ensure_typed ec : answers_typed x (makeEnsureFn c r ec).
Proof.
  intros env w body w'. rewrite ensure_run. destruct (parse_desired _ _ _) as [e|d] eqn:Ed; [done|].
  destruct (Ensure r d (prov w)) as [[e|o] p] eqn:EE; [done|]. destruct (marshalO c o) as [e|s] eqn:Em; [done|].
  intros [= <- _]. destruct (Hc o s Em) as (v & Hv & _).
  eapply ensure_response; [exact Ed|by rewrite EE|by exists s|exact Hv].
Qed.

Lemma observe_typed : answers_typed x (makeObserveFn c r).
Proof.
  intros env w body w'. unfold makeObserveFn. destruct (if decide _ then _ else _) as [f|] eqn:Ef; [|done]. run_m.
  destruct (Observe r f (prov w)) as [[e|[items cursor]] p] eqn:EO; [done|]. cbn. intros Hm.
  destruct (marshal_page c items cursor) as [e|b] eqn:Ep; simplify_eq.
  destruct (page_read c items cursor body Hc Ep) as (doc & Hd & Hp).
  eapply observe_response; [exact Ef|by rewrite EO|exact Hd|exact Hp].
Qed.

Lemma destroy_typed ec : answers_typed x (makeDestroyFn c r ec).
Proof.
  intros env w body w'. rewrite destroy_run. destruct (destroy_ref _ _) as [e|ref]; [done|]. unfold destroy_call.
  destruct (DestroyWithDesired r) as [dwd|] eqn:Ed.
  - destruct (parse_desired _ _ _) as [e|d] eqn:Ep; [done|].
    destruct (dwd ref d (prov w)) as [[e|] p] eqn:Ec; [done|]. intros [= <- _].
    eapply destroy_response; [by eapply destroy_desired|]. vm_compute. reflexivity.
  - destruct (Destroy r ref (prov w)) as [[e|] p] eqn:Ec; [done|]. intros [= <- _].
    eapply destroy_response; [by apply destroy_plain|]. vm_compute. reflexivity.
Qed.

Lemma shim_typed legacy canonical fn logger : answers_typed x fn → answers_typed x (warnShim legacy canonical fn logger).
Proof. intros Hfn env w body w'. unfold warnShim. run_m. intros Hm. exact (Hfn _ _ _ _ Hm). Qed.

Lemma declared_typed names op fn : declared x names op = Some fn → answers_typed x fn.
Proof.
  revert op fn. induction names as [|n names IH]; intros op fn; cbn.
  - unfold canonical_entry. repeat case_decide; intros [= <-]; auto using ensure_typed, observe_typed, destroy_typed.
  - case_decide; [|by apply IH]. intros (fn' & Hd & ->)%fmap_Some. eapply shim_typed, IH, Hd.
Qed.
End entries.

Lemma route_typed log a op fn : Forall (λ x, marshals_json (reg_codec x)) log →
  route log a op = Some fn → ∃ x, x ∈ log ∧ reg_adapter x = a ∧ answers_typed x fn.
Proof.
  induction 1 as [|x log Hx _ IH]; cbn; [done|]. intros Hr.
  assert (∃ y, y ∈ x :: log ∧ reg_adapter y = a ∧ answers_typed y fn) as Hy; [|done].
  case_decide as Ha; cycle 1.
  { destruct (IH Hr) as (y & Hin & ? & ?). exists y. split; [by right|done]. }
  destruct (declared x _ op) eqn:Hd; simplify_eq.
  - exists x. split; [by left|]. split; [done|]. by eapply declared_typed.
  - destruct (IH Hr) as (y & Hin & ? & ?). exists y. split; [by right|done].
Qed.

(** C18: the type and the content of responses. In the registry built by any
    registrations whose types marshal to JSON, every dispatch that succeeds, of
    any bytes, under canonical and legacy names, has the content type
    [application/json] and answers for one of the registrations of its adapter
    with a document that says what the reconciler did: the value of the state that
    its [Ensure] returned; or an object with the cursor and, in order, the values
    of the items that its [Observe] returned ([null] for a nil slice); or, after
    its destroy call succeeded, the object [{"deleted":true}]. *)
Theorem responses_typed l w0 g w1 :
  register_all l zero_registry w0 = (Some g, w1) → Forall (λ x, marshals_json (reg_codec x)) l →
  ∀ a body w out ct w', Dispatch g a body w = (inr (out, ct), w') →
    ct = "application/json" ∧
    ∃ x env, x ∈ l ∧ reg_adapter x = a ∧ response_of (reg_codec x) (reg_reconciler x) env (prov w) out ∧
      (if decide (body = EmptyString) then env = zero_request else unmarshal_request body = Some env).
Proof.
  intros Hreg Hl. intros a body w out ct w' Hd. destruct (dispatchTables g !! a) as [t|] eqn:Et; cycle 1.
  { unfold Dispatch in Hd. by rewrite Et in Hd. }
  rewrite dispatch_bound in Hd by (by rewrite Et).
  destruct (if decide _ then _ else _) as [req|] eqn:Er0; [|done]. case_decide; [done|].
  destruct (bound g a _) as [fn|] eqn:Eb; [|done].
  rewrite (register_all_bound _ _ _ _ _ Hreg), bound_zero in Eb.
  destruct (route _ _ _) as [fn'|] eqn:Er; simplify_eq.
  destruct (fn req w) as [[e|b] w2] eqn:Ef; simplify_eq. split; [done|].
  destruct (route_typed (reverse l) a _ fn ltac:(by apply Forall_reverse) Er) as (x & Hin & Ha & Hty).
  exists x, req. split; [by apply elem_of_reverse|]. split; [done|]. split; [by eapply Hty|].
  revert Er0. case_decide; by intros [=].
Qed.
End responses.

(** ** Witness *)

(** A provider of texts. *)
Definition text_codec : codec string string := {|
  zeroD := EmptyString; unmarshalD := inr; marshalO := λ s, inr (marshal_string s); reflectO := λ _, ROther |}.
Definition text_registration : registration (list string) := {|
  reg_codec := text_codec; reg_adapter := 7; reg_resource := "user"; reg_resourceType := "users";
  reg_reconciler := demo_reconciler; reg_opts := [WithLegacyNames ["list_users"]] |}.

Lemma text_marshals : marshals_json text_codec.
Proof.
  intros o s [= <-]. exists (JStr (read_str o)).
  assert (is_lit (enc_text o) (to_l (read_str o))) as Hl.
  { apply units_lit. unfold read_str. rewrite to_of_l. apply enc_text_to_valid. }
  split.
  - unfold json_parse. rewrite marshal_string_lit. unfold lit. cbn [skip_ws]. change (json_ws dquote) with false. cbv iota.
    rewrite (parse_value_str _ _ _ [] Hl). cbn. by rewrite of_to_l.
  - rewrite marshal_string_lit. rewrite <- (of_to_l (read_str o)). by apply value_str.
Defined.

Lemma responses_typed_witness :
  let w := World ["a"] 0 [] in
  match register_all (H := ascii_tables) [text_registration] zero_registry w with
  | (Some g, _) => ∃ out w' x env, Dispatch (H := ascii_tables) g 7 (q "{'operation':'list_users'}") w =
      (inr (out, "application/json"), w') ∧ x ∈ [text_registration] ∧
      response_of (reg_codec x) (reg_reconciler x) env ["a"] out
  | _ => False
  end.
Proof.
  intros w.
  assert (match register_all (H := ascii_tables) [text_registration] zero_registry w with
    | (Some g, _) => (Dispatch (H := ascii_tables) g 7 (q "{'operation':'list_users'}") w).1
    | _ => inl (Errorf "panic")
    end = inr (q "{'cursor':'','items':['a']}", "application/json")) as He by (vm_compute; reflexivity).
  destruct (register_all (H := ascii_tables) [text_registration] zero_registry w) as [[g|] w1] eqn:Eg; [|discriminate He].
  destruct (Dispatch (H := ascii_tables) g 7 (q "{'operation':'list_users'}") w) as [r w'] eqn:Ew. cbn in He. subst r.
  destruct (responses_typed (H := ascii_tables) [text_registration] w g w1 Eg
    ltac:(apply Forall_singleton; exact text_marshals) _ _ _ _ _ _ Ew) as (_ & x & env & Hin & _ & Hx & _).
  exists (q "{'cursor':'','items':['a']}"), w', x, env. split; [reflexivity|]. split; [exact Hin|exact Hx].
Defined.
