(* ===== verification/Http.v ===== *)
(** * The HTTP transport (package [rpc/http])

    Models src/rpc/http/http.go: the JSON envelopes, the server side (the
    handler registered on the mux for each subscription, as an interpreter of
    handler computations on the response) and the client side ([Request],
    [Publish]). The client's [http.Client] and the requests that reach the mux
    are parameters; endpoints are literal paths. *)
From Stdlib Require Import Ascii ZArith.
From stdpp Require Import prelude gmap strings.
From S2P Require Import Prelude GoStrings GoText GoFloat Json JsonText Base64 Rpc Backoff.

Local Open Scope Z_scope.

(** ** Envelopes *)

(** Byte-wise order of keys, as [encoding/json] sorts the members of a map. *)
Fixpoint str_leb (s t : string) : bool :=
  match s, t with
  | EmptyString, _ => true
  | _, EmptyString => false
  | String a s', String b t' =>
      if code a <? code b then true else if code b <? code a then false else str_leb s' t'
  end.

(** Insertion of a member into a sorted list. *)
Fixpoint insert_sorted (m : string * string) (l : list (string * string)) : list (string * string) :=
  match l with
  | [] => [m]
  | m' :: l' => if str_leb m.1 m'.1 then m :: l else m' :: insert_sorted m l'
  end.
Definition sorted_members (h : gmap string string) : list (string * string) :=
  foldr insert_sorted [] (map_to_list h).

(** A string member, by its name and its value. *)
Definition string_member (m : string * string) : list ascii * list ascii :=
  (enc_text m.1, lit (enc_text m.2)).

(** A member that is omitted when it is empty. *)
Definition omitempty (name value : string) : list (list ascii * list ascii) :=
  if decide (value = EmptyString) then [] else [string_member (name, value)].

(** [json.Marshal] of an envelope. *)
Definition envelope_members (e : Envelope) : list (list ascii * list ascii) :=
  omitempty "correlation_id" (env_CorrelationID e) ++
  omitempty "reply_to" (env_ReplyTo e) ++
  (if decide (env_Headers e = ∅) then []
   else [(enc_text "headers", object_text (string_member <$> sorted_members (env_Headers e)))]) ++
  omitempty "content_type" (env_ContentType e) ++
  [(enc_text "body", match env_Body e with
                     | None => to_l "null"
                     | Some b => lit (b64_encode (to_l b))
                     end)].
Definition marshal_envelope (e : Envelope) : string := of_l (object_text (envelope_members e)).

(** A field of type [map[string]string]: members are merged into the map;
    [null] empties it, and a [null] value is the empty string. *)
Definition assign_header (cur : option (gmap string string)) (m : string * (string * json))
    : option (gmap string string) :=
  h ← cur;
  match m.2.2 with
  | JStr s => Some (<[m.1 := s]> h)
  | JNull => Some (<[m.1 := EmptyString]> h)
  | _ => None
  end.
Definition assign_headers (cur : option (gmap string string)) (v : json) : option (gmap string string) :=
  h ← cur;
  match v with
  | JNull => Some ∅
  | JObj ms => foldl assign_header (Some h) ms
  | _ => None
  end.
Definition headers_field (field : string) (ms : list (string * (string * json)))
    : option (gmap string string) :=
  foldl assign_headers (Some ∅) (field_members field ms).*2.

(** A field of type [[]byte]: a base64 string, [null], or an array of numbers. *)
Definition byte_of_json (v : json) : option ascii :=
  match v with
  | JNum lit => z ← digits_val (to_l lit) 0; if z <? 256 then Some (chr z) else None
  | JNull => Some (chr 0)
  | _ => None
  end.
Definition assign_bytes (cur : option (option string)) (v : json) : option (option string) :=
  _ ← cur;
  match v with
  | JNull => Some None
  | JStr s => b ← b64_decode (to_l s); Some (Some (of_l b))
  | JArr l => b ← mapM byte_of_json l; Some (Some (of_l b))
  | _ => None
  end.
Definition bytes_field (field : string) (ms : list (string * (string * json))) : option (option string) :=
  foldl assign_bytes (Some None) (field_members field ms).*2.

Definition zero_envelope : Envelope :=
  {| env_CorrelationID := EmptyString; env_ReplyTo := EmptyString; env_Headers := ∅;
     env_ContentType := EmptyString; env_Body := None |}.

(** [json.Unmarshal(data, &envelope)]; [None] is any error. *)
Definition unmarshal_envelope (data : string) : option Envelope :=
  v ← json_parse data;
  match v with
  | JNull => Some zero_envelope
  | JObj ms =>
      cid ← string_field "correlation_id" ms;
      rt ← string_field "reply_to" ms;
      hs ← headers_field "headers" ms;
      ct ← string_field "content_type" ms;
      body ← bytes_field "body" ms;
      Some {| env_CorrelationID := cid; env_ReplyTo := rt; env_Headers := hs;
              env_ContentType := ct; env_Body := body |}
  | _ => None
  end.

(** ** The server side *)

(** The response writer: the status once the header is written, the content
    type and the body. *)
Record writer := {
  w_status : option Z;
  w_ContentType : string;
  w_body : string;
}.
Definition no_response : writer := {| w_status := None; w_ContentType := EmptyString; w_body := EmptyString |}.

(** [w.WriteHeader]: only the first call counts. *)
Definition WriteHeader (status : Z) (w : writer) : writer :=
  {| w_status := Some (default status (w_status w)); w_ContentType := w_ContentType w; w_body := w_body w |}.
(** [w.Write]: the status is 200 if no header was written. *)
Definition Write (b : string) (w : writer) : writer :=
  {| w_status := Some (default 200 (w_status w)); w_ContentType := w_ContentType w; w_body := w_body w +:+ b |}.
Definition SetContentType (ct : string) (w : writer) : writer :=
  {| w_status := w_status w; w_ContentType := ct; w_body := w_body w |}.
Definition http_Error (msg : string) (status : Z) (w : writer) : writer :=
  Write (msg +:+ str1 newline) (WriteHeader status (SetContentType "text/plain; charset=utf-8" w)).

Definition json_type : string := "application/json".

(** A request that reaches the handler: whether its context ends before a slot
    is free, its body or the error of reading it, and the error of writing the
    response. *)
Record inbound := {
  in_cancelled : bool;
  in_body : result string;
  in_write_error : option error;
}.

(** [subscription]; the semaphore only orders the handlers. *)
Record subscription (W : Type) := {
  hs_endpoint : string;
  hs_timeout : Z;
  hs_concurrency : Z;
  hs_handler : Handler W;
  hs_closed : bool;
}.
Arguments hs_endpoint {W} _.
Arguments hs_timeout {W} _.
Arguments hs_concurrency {W} _.
Arguments hs_handler {W} _.
Arguments hs_closed {W} _.

(** The envelope of a body: an object that sets none of the identifying fields
    and carries no body is taken as the body itself. *)
Definition decode_inbound (raw : string) : Envelope :=
  if decide (raw = EmptyString) then zero_envelope
  else
    let fallback := {| env_CorrelationID := EmptyString; env_ReplyTo := EmptyString; env_Headers := ∅;
                       env_ContentType := EmptyString; env_Body := Some raw |} in
    match unmarshal_envelope raw with
    | None => fallback
    | Some e =>
        if decide (default EmptyString (env_Body e) = EmptyString ∧ env_CorrelationID e = EmptyString ∧
                   env_Headers e = ∅ ∧ env_ReplyTo e = EmptyString)
        then fallback else e
    end.

Definition mk_delivery (endpoint : string) (e : Envelope) : Delivery :=
  {| Endpoint := endpoint; Body := default EmptyString (env_Body e); ContentType := env_ContentType e;
     Headers := env_Headers e; CorrelationID := env_CorrelationID e; ReplyTo := "http-response";
     AckFn := true; NackFn := true; ReplyFn := true |}.

Definition reply_envelope (correlationID body contentType : string) : Envelope :=
  {| env_CorrelationID := correlationID; env_ReplyTo := EmptyString; env_Headers := ∅;
     env_ContentType := contentType; env_Body := Some body |}.

(** The closures [reply] and [nack]; the flag is [replied]. *)
Definition reply_fn (req : inbound) (correlationID body contentType : string) (replied : bool) (w : writer)
    : option error * bool * writer :=
  if replied then (None, true, w)
  else (in_write_error req, true,
        Write (marshal_envelope (reply_envelope correlationID body contentType)) (SetContentType json_type w)).
Definition nack_fn (requeue : bool) (replied : bool) (w : writer) : option error * bool * writer :=
  if replied then (None, true, w)
  else (None, true, WriteHeader (if requeue then 503 else 500) w).

(** The handler's computation. *)
Fixpoint run_handler {W A} (req : inbound) (cid : string) (p : prog W A) (replied : bool) (w : writer) (s : W)
    : A * bool * writer * W :=
  match p with
  | Ret a => (a, replied, w, s)
  | Eff X f k => let '(x, s') := f s in run_handler req cid (k x) replied w s'
  | AckOp k => run_handler req cid (k None) replied w s
  | NackOp requeue k =>
      let '(err, replied', w') := nack_fn requeue replied w in run_handler req cid (k err) replied' w' s
  | ReplyOp body ct k =>
      let '(err, replied', w') := reply_fn req cid body ct replied w in
      run_handler req cid (k err) replied' w' s
  end.

Definition serveHTTP {W} (sub : subscription W) (req : inbound) : M W writer := λ s,
  if hs_closed sub then (http_Error "subscription closed" 503 no_response, s)
  else if in_cancelled req then (http_Error "request canceled" 503 no_response, s)
  else match in_body req with
  | inl err => (http_Error ("read body: " +:+ error_text err) 400 no_response, s)
  | inr raw =>
      let envelope := decode_inbound raw in
      let cid := env_CorrelationID envelope in
      let '(err, replied, w, s') :=
        run_handler req cid (hs_handler sub (mk_delivery (hs_endpoint sub) envelope)) false no_response s in
      match err with
      | Some e =>
          (if replied then w else Write ("handler error: " +:+ error_text e) (WriteHeader 500 w), s')
      | None =>
          (if replied then w
           else Write (marshal_envelope {| env_CorrelationID := cid; env_ReplyTo := EmptyString;
                  env_Headers := ∅; env_ContentType := EmptyString; env_Body := None |})
                  (SetContentType json_type w), s')
      end
  end.

(** ** The transport *)

Definition DefaultPathPrefix : string := "/rpc/".

(** [Client] is the timeout of the default client, or [None] for the caller's
    own; the mux maps the paths registered for POST to the subscriptions, which
    are known by their position. *)
Record Transport (W : Type) := {
  BaseURL : string;
  Mux : option (gmap string nat);
  Client : option Z;
  PathPrefix : string;
  h_subs : list nat;
  h_heap : list (subscription W);
  h_closed : bool;
}.
Arguments BaseURL {W} _.
Arguments Mux {W} _.
Arguments Client {W} _.
Arguments PathPrefix {W} _.
Arguments h_subs {W} _.
Arguments h_heap {W} _.
Arguments h_closed {W} _.

Section transport.
Context {W : Type}.

(** The configuration fields of the argument of [New]. *)
Definition New (base : string) (mux client : bool) (prefix : string) : Transport W :=
  {| BaseURL := base; Mux := if mux then Some ∅ else None;
     Client := if client then None else Some (30 * Second);
     PathPrefix := if decide (prefix = EmptyString) then DefaultPathPrefix else prefix;
     h_subs := []; h_heap := []; h_closed := false |}.

(** [None] is the panic of [Mux.HandleFunc] on a path that is taken. *)
Definition Consume (cfg : ConsumerConfig W) (t : Transport W) : option (result nat * Transport W) :=
  if decide (cc_Endpoint cfg = EmptyString) then Some (inl (Errorf "http consume: endpoint is required"), t)
  else match cc_Handler cfg with
  | None => Some (inl (Errorf "http consume: handler is required"), t)
  | Some h =>
      match Mux t with
      | None => Some (inl (Errorf "http consume: Mux is required"), t)
      | Some mux =>
          let path := PathPrefix t +:+ cc_Endpoint cfg in
          match mux !! path with
          | Some _ => None
          | None =>
              let sub := length (h_heap t) in
              Some (inr sub,
                {| BaseURL := BaseURL t; Mux := Some (<[path := sub]> mux); Client := Client t;
                   PathPrefix := PathPrefix t; h_subs := h_subs t ++ [sub];
                   h_heap := h_heap t ++ [{| hs_endpoint := cc_Endpoint cfg;
                     hs_timeout := if cc_Timeout cfg <=? 0 then 30 * Second else cc_Timeout cfg;
                     hs_concurrency := if cc_Concurrency cfg <=? 0 then 1 else cc_Concurrency cfg;
                     hs_handler := h; hs_closed := false |}];
                   h_closed := h_closed t |})
          end
      end
  end.

Definition set_closed (sub : subscription W) : subscription W :=
  {| hs_endpoint := hs_endpoint sub; hs_timeout := hs_timeout sub; hs_concurrency := hs_concurrency sub;
     hs_handler := hs_handler sub; hs_closed := true |}.

(** The method [Close] of a subscription. *)
Definition sub_Close (sub : nat) (heap : list (subscription W)) : list (subscription W) :=
  alter set_closed sub heap.

Definition Close (t : Transport W) : Transport W :=
  if h_closed t then t
  else {| BaseURL := BaseURL t; Mux := Mux t; Client := Client t; PathPrefix := PathPrefix t;
          h_subs := []; h_heap := foldl (λ heap sub, sub_Close sub heap) (h_heap t) (h_subs t);
          h_closed := true |}.

(** The mux: a POST to a path. *)
Definition serve_mux (t : Transport W) (path : string) (req : inbound) : M W writer := λ s,
  match Mux t ≫= λ mux, mux !! path ≫= λ i, h_heap t !! i with
  | Some sub => serveHTTP sub req s
  | None => (http_Error "404 page not found" 404 no_response, s)
  end.
End transport.

(** ** The client side *)

(** What [t.Client.Do] and reading the response give. *)
Inductive do_result :=
| DoErr (err : error)
| DoResp (status : Z) (contentType : string) (body : result string).

Section client.
(** The network: building a request, and sending a POST with a body and extra
    headers under the caller's context, with a deadline added where there is
    one. *)
Context {N : Type} (new_request : string → option error)
  (client_do : option Z → string → string → gmap string string → M N do_result).

Definition request_envelope (req : Request) : Envelope :=
  {| env_CorrelationID := req_CorrelationID req; env_ReplyTo := EmptyString;
     env_Headers := req_Headers req; env_ContentType := req_ContentType req;
     env_Body := Some (req_Body req) |}.

(** What the caller gets for a response. *)
Definition reply_of_response (req : Request) (r : do_result) : result Reply :=
  match r with
  | DoErr err =>
      if errors_is "context.DeadlineExceeded" err then inl ErrTimeout
      else inl (Wrapf "http request: do: " err EmptyString)
  | DoResp _ _ (inl err) => inl (Wrapf "http request: read response: " err EmptyString)
  | DoResp status contentType (inr respBody) =>
      if status =? 404 then inl ErrEndpointUnknown
      else if 400 <=? status then
        inl (Errorf ("http request: remote returned HTTP " +:+ dec status +:+ ": " +:+ respBody))
      else match unmarshal_envelope respBody with
           | None => inr {| rep_Body := respBody; rep_ContentType := contentType;
                            rep_Headers := ∅; rep_CorrelationID := req_CorrelationID req |}
           | Some e => inr {| rep_Body := default EmptyString (env_Body e);
                              rep_ContentType := env_ContentType e;
                              rep_Headers := env_Headers e; rep_CorrelationID := env_CorrelationID e |}
           end
  end.

(** The method [Request]. *)
Definition TRequest {W} (t : Transport W) (req : Request) : M N (result Reply) :=
  if decide (req_Endpoint req = EmptyString) then mret (inl (Errorf "http request: endpoint is required"))
  else if decide (BaseURL t = EmptyString) then mret (inl (Errorf "http request: BaseURL is required"))
  else
    let body := marshal_envelope (request_envelope req) in
    let url := TrimRight1 "/" (BaseURL t) +:+ PathPrefix t +:+ req_Endpoint req in
    match new_request url with
    | Some err => mret (inl (Wrapf "http request: build: " err EmptyString))
    | None =>
        let deadline := if 0 <? req_Timeout req then Some (req_Timeout req) else None in
        r ← client_do deadline url body (req_Headers req);
        mret (reply_of_response req r)
    end.

Definition Publish {W} (t : Transport W) (req : Request) : M N (option error) :=
  r ← TRequest t req;
  match r with
  | inl err => mret (Some err)
  | inr _ => mret None
  end.
End client.

(** The network that delivers a POST to the mux of a server in the same
    process, at once: no deadline passes. *)
Definition loopback {W} (base : string) (server : Transport W) (deadline : option Z) (url body : string)
    (hdr : gmap string string) : M W do_result := λ s,
  match strip_prefix base url with
  | None => (DoErr (Errorf "connection refused"), s)
  | Some path =>
      let '(w, s') := serve_mux server path
        {| in_cancelled := false; in_body := inr body; in_write_error := None |} s in
      (DoResp (default 200 (w_status w)) (w_ContentType w) (inr (w_body w)), s')
  end.
