(* ===== verification/HttpSpec.v ===== *)
(** * Theorems about the HTTP transport

    Envelopes survive the wire, an adapter's handlers over HTTP, the round trip
    of a request through client, mux and adapter, requests whose envelope is
    mistaken for a bare body, and [Close]. *)
From Stdlib Require Import Ascii ZArith.
From stdpp Require Import prelude gmap strings.
From S2P Require Import Prelude GoStrings GoText GoFloat Json Utf8 JsonText Base64 Rpc Backoff Adapter Http.

Local Open Scope Z_scope.

(** ** Envelopes *)

(** The headers, in the order in which they are written. *)
Lemma insert_sorted_perm m l : insert_sorted m l ≡ₚ m :: l.
Proof.
  induction l as [|m' l IH]; [done|]. cbn [insert_sorted]. case_match; [done|].
  rewrite IH. apply Permutation_swap.
Qed.

Lemma sorted_members_perm h : sorted_members h ≡ₚ map_to_list h.
Proof.
  unfold sorted_members. induction (map_to_list h) as [|m l IH]; [done|]. cbn.
  by rewrite insert_sorted_perm, IH.
Qed.

(** What the decoder makes of a member. *)
Definition parsed_member (m : string * string) : string * (string * json) :=
  (m.1, (of_l (lit (enc_text m.2)), JStr m.2)).

Definition utf8_member (m : string * string) : Prop := valid_utf8 (to_l m.1) ∧ valid_utf8 (to_l m.2).

Lemma string_member_ok d m : utf8_member m → member_ok d (string_member m, parsed_member m).
Proof.
  intros [Hk Hv]. exists (to_l m.1), (JStr m.2). cbn. split; [by apply units_lit, enc_text_units|]. split.
  - rewrite <- (of_to_l m.2) at 2. apply value_str, units_lit. by apply enc_text_units.
  - by rewrite of_to_l.
Qed.

Definition merge_headers (h : gmap string string) (m : string * string) : gmap string string :=
  <[m.1 := m.2]> h.

Lemma assign_header_members ms h :
  foldl assign_header (Some h) (parsed_member <$> ms) = Some (foldl merge_headers h ms).
Proof. revert h. induction ms as [|m ms IH]; intros h; [done|]. cbn. apply IH. Qed.

Lemma merge_headers_all ms : foldl merge_headers ∅ ms = list_to_map (reverse ms).
Proof.
  induction ms as [|ms m IH] using rev_ind; [done|].
  rewrite foldl_app, reverse_app. cbn. rewrite IH. by destruct m.
Qed.

Lemma headers_rebuilt h : foldl merge_headers ∅ (sorted_members h) = h.
Proof.
  rewrite merge_headers_all.
  assert (reverse (sorted_members h) ≡ₚ map_to_list h) as Hp.
  { rewrite reverse_Permutation. apply sorted_members_perm. }
  etrans; [apply list_to_map_proper; [|exact Hp]|apply list_to_map_to_list].
  rewrite Hp. apply NoDup_fst_map_to_list.
Qed.

(** The texts of an envelope are valid UTF-8; its body is any bytes. *)
Definition utf8_envelope (e : Envelope) : Prop :=
  valid_utf8 (to_l (env_CorrelationID e)) ∧ valid_utf8 (to_l (env_ReplyTo e)) ∧
  valid_utf8 (to_l (env_ContentType e)) ∧
  map_Forall (λ k v, valid_utf8 (to_l k) ∧ valid_utf8 (to_l v)) (env_Headers e).

Lemma sorted_members_utf8 h :
  map_Forall (λ k v, valid_utf8 (to_l k) ∧ valid_utf8 (to_l v)) h → Forall utf8_member (sorted_members h).
Proof.
  intros Hh. rewrite sorted_members_perm. apply map_Forall_to_list in Hh.
  eapply Forall_impl; [exact Hh|]. by intros [k v].
Qed.

(** *** The members of an envelope, as text and as values *)

Definition opt_member (name value : string) : list ((list ascii * list ascii) * (string * (string * json))) :=
  if decide (value = EmptyString) then []
  else [(string_member (name, value), parsed_member (name, value))].

Definition headers_member (h : gmap string string)
    : list ((list ascii * list ascii) * (string * (string * json))) :=
  if decide (h = ∅) then []
  else let t := object_text (string_member <$> sorted_members h) in
       [((enc_text "headers", t), ("headers", (of_l t, JObj (parsed_member <$> sorted_members h))))].

Definition body_member (b : option string) : (list ascii * list ascii) * (string * (string * json)) :=
  match b with
  | None => ((enc_text "body", to_l "null"), ("body", (of_l (to_l "null"), JNull)))
  | Some b => let t := lit (b64_encode (to_l b)) in
              ((enc_text "body", t), ("body", (of_l t, JStr (of_l (b64_encode (to_l b))))))
  end.

Definition all_members (e : Envelope) : list ((list ascii * list ascii) * (string * (string * json))) :=
  opt_member "correlation_id" (env_CorrelationID e) ++ opt_member "reply_to" (env_ReplyTo e) ++
  headers_member (env_Headers e) ++ opt_member "content_type" (env_ContentType e) ++ [body_member (env_Body e)].

Lemma opt_member_fst name value : (opt_member name value).*1 = omitempty name value.
Proof. unfold opt_member, omitempty. by case_decide. Qed.

Lemma envelope_members_fst e : (all_members e).*1 = envelope_members e.
Proof.
  unfold all_members, envelope_members, headers_member. rewrite !fmap_app, !opt_member_fst.
  repeat f_equal; [by case_decide|]. cbn. by destruct (env_Body e).
Qed.

Lemma literal_utf8 s : forallb (λ a, code a <? 128) (to_l s) = true → valid_utf8 (to_l s).
Proof.
  intros H. apply ascii_valid, Forall_forall. intros a Ha. apply list_elem_of_In in Ha.
  apply (proj1 (forallb_forall _ _) H) in Ha. lia.
Qed.

Lemma opt_member_ok d name value :
  valid_utf8 (to_l name) → valid_utf8 (to_l value) → Forall (member_ok d) (opt_member name value).
Proof.
  intros Hn Hv. unfold opt_member. case_decide; [constructor|]. apply Forall_singleton.
  by apply string_member_ok.
Qed.

Lemma zip_members_ok d l :
  Forall utf8_member l →
  Forall (member_ok d) (zip (string_member <$> l) (parsed_member <$> l)).
Proof.
  induction 1 as [|m l Hm _ IH]; [constructor|]. cbn. constructor; [by apply string_member_ok|done].
Qed.

Lemma headers_member_ok d h :
  map_Forall (λ k v, valid_utf8 (to_l k) ∧ valid_utf8 (to_l v)) h →
  Forall (member_ok (S d)) (headers_member h).
Proof.
  intros Hh. unfold headers_member. case_decide as E; [constructor|]. apply Forall_singleton.
  pose proof (zip_members_ok d _ (sorted_members_utf8 h Hh)) as Hz.
  eexists (to_l "headers"), _. cbn [fst snd]. split; [by apply units_lit, enc_text_units, literal_utf8|].
  split; [|reflexivity].
  assert (zip (string_member <$> sorted_members h) (parsed_member <$> sorted_members h) ≠ []) as Hne.
  { intros Hnil. apply E, map_to_list_empty_iff, Permutation_nil_r.
    rewrite <- sorted_members_perm. by destruct (sorted_members h). }
  pose proof (value_object d _ Hne Hz) as Hv.
  rewrite fst_zip, snd_zip in Hv by (by rewrite !length_fmap). exact Hv.
Qed.

Lemma body_member_ok d b : member_ok d (body_member b).
Proof.
  destruct b as [b|]; eexists (to_l "body"), _; cbn [fst snd body_member];
    (split; [by apply units_lit, enc_text_units, literal_utf8|]);
    (split; [|reflexivity]); [|apply value_null].
  apply value_str, units_lit, units_plain, b64_encode_plain.
Qed.

Lemma all_members_ok d e : utf8_envelope e → Forall (member_ok (S d)) (all_members e).
Proof.
  intros (Hc & Hr & Ht & Hh). unfold all_members.
  repeat (apply Forall_app; split); try (apply opt_member_ok; [by apply literal_utf8|done]).
  - by apply headers_member_ok.
  - apply Forall_singleton, body_member_ok.
Qed.

Lemma json_parse_envelope e :
  utf8_envelope e → json_parse (marshal_envelope e) = Some (JObj (all_members e).*2).
Proof.
  intros He. unfold marshal_envelope. rewrite <- envelope_members_fst. apply json_parse_object.
  - unfold all_members. intros E. apply (f_equal length) in E. rewrite !length_app in E. cbn in E. lia.
  - replace (N.to_nat 9999) with (S (N.to_nat 9998)) by lia. by apply all_members_ok.
Qed.

(** *** Fields *)

Lemma field_members_app f l1 l2 : field_members f (l1 ++ l2) = field_members f l1 ++ field_members f l2.
Proof. unfold field_members. by rewrite filter_app, fmap_app. Qed.

Lemma field_members_one f k x : field_members f [(k, x)] = if names_field f k then [x] else [].
Proof. unfold field_members. cbn [filter list_filter fst]. by destruct (names_field f k). Qed.

Lemma field_opt f name value :
  (field_members f (opt_member name value).*2).*2 =
  if names_field f name then (if decide (value = EmptyString) then [] else [JStr value]) else [].
Proof.
  unfold opt_member. destruct (decide (value = EmptyString)); cbn [fmap list_fmap];
    [by destruct (names_field f name)|].
  unfold parsed_member. cbn [fst snd]. rewrite field_members_one. by destruct (names_field f name).
Qed.

Lemma field_headers f h :
  (field_members f (headers_member h).*2).*2 =
  if names_field f "headers" then (if decide (h = ∅) then [] else [JObj (parsed_member <$> sorted_members h)])
  else [].
Proof.
  unfold headers_member. destruct (decide (h = ∅)); cbn [fmap list_fmap];
    [by destruct (names_field f "headers")|].
  cbn [snd]. rewrite field_members_one. by destruct (names_field f "headers").
Qed.

Lemma field_body f b :
  (field_members f [(body_member b).2]).*2 =
  if names_field f "body" then [match b with None => JNull | Some b => JStr (of_l (b64_encode (to_l b))) end]
  else [].
Proof. destruct b; cbn [body_member snd]; rewrite field_members_one; by destruct (names_field f "body"). Qed.

(** The values that reach a field of the envelope. *)
Lemma field_values f e :
  (field_members f (all_members e).*2).*2 =
  (if names_field f "correlation_id" then
     (if decide (env_CorrelationID e = EmptyString) then [] else [JStr (env_CorrelationID e)]) else []) ++
  (if names_field f "reply_to" then
     (if decide (env_ReplyTo e = EmptyString) then [] else [JStr (env_ReplyTo e)]) else []) ++
  (if names_field f "headers" then
     (if decide (env_Headers e = ∅) then [] else [JObj (parsed_member <$> sorted_members (env_Headers e))])
   else []) ++
  (if names_field f "content_type" then
     (if decide (env_ContentType e = EmptyString) then [] else [JStr (env_ContentType e)]) else []) ++
  (if names_field f "body" then
     [match env_Body e with None => JNull | Some b => JStr (of_l (b64_encode (to_l b))) end] else []).
Proof.
  unfold all_members. rewrite !fmap_app, !field_members_app, !fmap_app, !field_opt, field_headers.
  cbn [fmap list_fmap]. by rewrite field_body.
Qed.

(** Decides the names of fields. *)
Ltac field_names :=
  repeat match goal with |- context [names_field ?a ?b] =>
    let v := eval vm_compute in (names_field a b) in change (names_field a b) with v
  end; cbv iota; rewrite ?app_nil_r; cbn [app].

(** An envelope survives the wire: decoding the JSON of any envelope whose
    texts are valid UTF-8, with any headers and any bytes as body, gives the envelope
    back. *)
Lemma envelope_decodes e :
  utf8_envelope e → unmarshal_envelope (marshal_envelope e) = Some e.
Proof.
  intros He. unfold unmarshal_envelope. rewrite json_parse_envelope by done. cbn [mbind option_bind].
  unfold string_field, headers_field, bytes_field. rewrite !field_values. field_names.
  destruct e as [cid rt hs ct b]. cbn [env_CorrelationID env_ReplyTo env_Headers env_ContentType env_Body].
  assert (∀ s, foldl assign_string (Some EmptyString) (if decide (s = EmptyString) then [] else [JStr s]) = Some s)
    as Hstr by (intros s; by case_decide; subst).
  rewrite !Hstr. cbn [mbind option_bind].
  assert (foldl assign_headers (Some ∅)
    (if decide (hs = ∅) then [] else [JObj (parsed_member <$> sorted_members hs)]) = Some hs) as ->.
  { case_decide as Eh; [by subst|]. cbn. by rewrite assign_header_members, headers_rebuilt. }
  cbn [mbind option_bind]. destruct b as [b|]; [|done]. cbn [foldl]. unfold assign_bytes.
  cbn [mbind option_bind]. rewrite to_of_l, b64_decode_encode. cbn [mbind option_bind]. by rewrite of_to_l.
Qed.

(** ** Adapter handlers over HTTP *)

Lemma http_handler_bind {W A C} req cid (p : prog W A) (k : A → prog W C) : ∀ replied w s,
  run_handler req cid (p ≫= k) replied w s =
  let '(a, replied', w', s') := run_handler req cid p replied w s in
  run_handler req cid (k a) replied' w' s'.
Proof.
  unfold mbind, prog_mbind.
  induction p as [a|X f k' IH|k' IH|requeue k' IH|body ct k' IH]; intros replied w s; cbn [prog_bind run_handler].
  - done.
  - destruct (f s) as [x s']. apply IH.
  - apply IH.
  - destruct (nack_fn _ _ _) as [[err replied'] w']. apply IH.
  - destruct (reply_fn _ _ _ _ _ _) as [[err replied'] w']. apply IH.
Qed.

Lemma http_handler_quiet {W A} req cid (p : prog W A) r s' : ∀ replied w s,
  run_quiet p s = Some (r, s') → run_handler req cid p replied w s = (r, replied, w, s').
Proof.
  induction p as [a|X f k IH| | |]; intros replied w s; cbn; try done.
  - by intros [= -> ->].
  - destruct (f s) as [x s1]. apply IH.
Qed.

(** What an adapter's handler puts in the reply. *)
Definition wrapped_body (r : result (string * string)) : string * string :=
  match r with
  | inl err => (errorEnvelope err, "application/json")
  | inr (body, ct) => (body, if decide (ct = EmptyString) then "application/json" else ct)
  end.

(** The response that an adapter's handler writes. *)
Definition reply_writer (cid : string) (r : result (string * string)) : writer :=
  let '(body, ct) := wrapped_body r in
  {| w_status := Some 200; w_ContentType := json_type; w_body := marshal_envelope (reply_envelope cid body ct) |}.

Lemma run_wrap {W} (h : AHandler W) req cid endpoint envelope s r s' :
  run_quiet (h (mk_delivery endpoint envelope)) s = Some (r, s') →
  run_handler req cid (wrap h (mk_delivery endpoint envelope)) false no_response s =
  (None, true, reply_writer cid r, s').
Proof.
  intros Hq. unfold wrap. rewrite http_handler_bind, (http_handler_quiet _ _ _ _ _ _ _ _ Hq).
  unfold reply_writer. destruct r as [err|[body ct]]; cbn [wrapped_body].
  - cbn [Delivery_Reply Delivery_Nack mk_delivery ReplyFn NackFn run_handler mbind prog_mbind prog_bind
         reply_fn nack_fn]. by rewrite decide_False by done.
  - cbn [Delivery_Reply mk_delivery ReplyFn mbind prog_mbind prog_bind run_handler reply_fn].
    by destruct (in_write_error req).
Qed.

Lemma serve_adapter {W} (h : AHandler W) sub req raw s r s' :
  hs_handler sub = wrap h → hs_closed sub = false → in_cancelled req = false → in_body req = inr raw →
  run_quiet (h (mk_delivery (hs_endpoint sub) (decode_inbound raw))) s = Some (r, s') →
  serveHTTP sub req s = (reply_writer (env_CorrelationID (decode_inbound raw)) r, s').
Proof.
  intros Hh Hc Hca Hb Hq. unfold serveHTTP. rewrite Hc, Hca, Hb, Hh. cbv zeta. by rewrite (run_wrap h _ _ _ _ _ _ _ Hq).
Qed.

(** An adapter's handler over HTTP always answers 200 with an envelope that
    carries the request's correlation id: its body and content type on success,
    and the error envelope on an error, since the reply comes before the
    [Nack]. *)
Theorem adapter_handler_over_http {W} (h : AHandler W) sub req raw s r s' :
  hs_handler sub = wrap h → hs_closed sub = false → in_cancelled req = false → in_body req = inr raw →
  run_quiet (h (mk_delivery (hs_endpoint sub) (decode_inbound raw))) s = Some (r, s') →
  ∃ w, serveHTTP sub req s = (w, s') ∧ w_status w = Some 200 ∧ w_ContentType w = "application/json" ∧
    let cid := env_CorrelationID (decode_inbound raw) in
    w_body w = marshal_envelope
      match r with
      | inl err => reply_envelope cid (errorEnvelope err) "application/json"
      | inr (body, ct) => reply_envelope cid body (if decide (ct = EmptyString) then "application/json" else ct)
      end.
Proof.
  intros Hh Hc Hca Hb Hq. pose proof (serve_adapter h sub req raw s r s' Hh Hc Hca Hb Hq) as E.
  rewrite E. by destruct r as [err|[body ct]]; eexists.
Qed.

(** ** Requests *)

(** The texts of a request are valid UTF-8. *)
Definition utf8_request (req : Request) : Prop := utf8_envelope (request_envelope req).

Lemma marshal_envelope_ne e : marshal_envelope e ≠ EmptyString.
Proof. done. Qed.

(** What the server makes of a request: a request with an empty body, no
    correlation id and no headers is taken for a bare body, the JSON text of its
    envelope; any other is the envelope of its fields. *)
Definition received (req : Request) : Envelope :=
  if decide (req_Body req = EmptyString ∧ req_CorrelationID req = EmptyString ∧ req_Headers req = ∅)
  then {| env_CorrelationID := EmptyString; env_ReplyTo := EmptyString; env_Headers := ∅;
          env_ContentType := EmptyString; env_Body := Some (marshal_envelope (request_envelope req)) |}
  else request_envelope req.

Lemma decode_request req :
  utf8_request req → decode_inbound (marshal_envelope (request_envelope req)) = received req.
Proof.
  intros Ha. unfold decode_inbound, received. rewrite decide_False by apply marshal_envelope_ne. cbv zeta.
  rewrite envelope_decodes by done. cbn [request_envelope env_Body env_CorrelationID env_Headers env_ReplyTo default from_option].
  do 2 case_decide; naive_solver.
Qed.

(** C3: remote procedure call over HTTP, for texts in UTF-8. A request sent by the
    client to an adapter's endpoint that has a body, a correlation id or a header
    reaches the adapter's handler with its body, content type, headers and
    correlation id; a request with none of the three reaches it with the JSON text
    of its own envelope as the body, and without its content type. Either way the
    caller receives the handler's body and content type under the correlation id of
    the request; a handler's error arrives as the body of a successful reply. *)
Theorem http_rpc_roundtrip {W} (h : AHandler W) (server client : Transport W) base req sub i mux s r s' :
  BaseURL client = base → base ≠ EmptyString → TrimRight1 "/" base = base →
  PathPrefix client = PathPrefix server → req_Endpoint req ≠ EmptyString →
  Mux server = Some mux → mux !! (PathPrefix server +:+ req_Endpoint req) = Some i →
  h_heap server !! i = Some sub → hs_handler sub = wrap h → hs_closed sub = false →
  utf8_request req →
  run_quiet (h (mk_delivery (hs_endpoint sub) (received req))) s = Some (r, s') →
  match r with inl _ => True | inr (_, ct) => valid_utf8 (to_l ct) end →
  TRequest (λ _, None) (loopback base server) client req s =
  (inr {| rep_Body := (wrapped_body r).1; rep_ContentType := (wrapped_body r).2; rep_Headers := ∅;
          rep_CorrelationID := req_CorrelationID req |}, s').
Proof.
  intros Hb Hne Htrim Hpre Hep Hmux Hi Hsub Hh Hcl Ha Hq Hct.
  unfold TRequest. rewrite Hb, Htrim, !decide_False by done. cbv zeta.
  unfold mbind, M_bind, loopback. rewrite Hpre, strip_prefix_app. unfold serve_mux.
  rewrite Hmux. cbn [mbind option_bind]. rewrite Hi. cbn [mbind option_bind]. rewrite Hsub.
  pose proof (serve_adapter h sub {| in_cancelled := false;
    in_body := inr (marshal_envelope (request_envelope req)); in_write_error := None |}
    (marshal_envelope (request_envelope req)) s r s' Hh Hcl eq_refl eq_refl) as Hserve.
  rewrite decode_request in Hserve by done. specialize (Hserve Hq).
  assert (env_CorrelationID (received req) = req_CorrelationID req) as Hcid
    by (unfold received; case_decide; naive_solver).
  rewrite Hcid in Hserve. rewrite Hserve. unfold reply_writer.
  destruct (wrapped_body r) as [body ct] eqn:Ew. cbn [w_status w_ContentType w_body default from_option].
  cbn [reply_of_response]. change (200 =? 404) with false. change (400 <=? 200) with false. cbv iota.
  rewrite envelope_decodes; [done|]. destruct Ha as (Hc & _).
  unfold reply_envelope. split_and!; cbn; [done|constructor| |apply map_Forall_empty].
  destruct r as [err|[b c]]; cbn in Ew; simplify_eq; [by apply literal_utf8|].
  case_decide; [by apply literal_utf8|done].
Qed.

(** A request with an empty body, no correlation id and no headers is not
    recognised as an envelope: the handler receives the JSON text of the
    envelope as the body, instead of an empty body. *)
Theorem empty_request_is_misread req :
  utf8_request req → req_Body req = EmptyString → req_CorrelationID req = EmptyString →
  req_Headers req = ∅ →
  let raw := marshal_envelope (request_envelope req) in
  ∀ endpoint, Body (mk_delivery endpoint (decode_inbound raw)) = raw ∧ raw ≠ EmptyString.
Proof.
  intros Ha Hb Hc Hh raw endpoint. split; [|apply marshal_envelope_ne].
  unfold decode_inbound, raw. rewrite decide_False by apply marshal_envelope_ne. cbv zeta.
  rewrite envelope_decodes by done. cbn [request_envelope env_Body env_CorrelationID env_Headers env_ReplyTo].
  by rewrite Hb, Hc, Hh, decide_True.
Qed.

(** ** [Consume] and [Close] *)

(** Every path of an open transport leads to one of its subscriptions. *)
Definition wf_transport {W} (t : Transport W) : Prop :=
  ∀ mux path i, Mux t = Some mux → mux !! path = Some i → i ∈ h_subs t ∧ (i < length (h_heap t))%nat.

Lemma close_all_length {W} l (heap : list (subscription W)) :
  length (foldl (λ heap sub, sub_Close sub heap) heap l) = length heap.
Proof. revert heap. induction l as [|j l IH]; intros heap; cbn; [done|]. by rewrite IH; apply length_alter. Qed.

Lemma close_all_closed {W} l : ∀ heap : list (subscription W), ∀ i x,
  foldl (λ heap sub, sub_Close sub heap) heap l !! i = Some x →
  (i ∈ l → hs_closed x = true) ∧ ((∃ y, heap !! i = Some y ∧ hs_closed y = true) → hs_closed x = true).
Proof.
  induction l as [|j l IH]; intros heap i x Hx; cbn in Hx.
  - split; [set_solver|]. intros (y & Hy & ?). congruence.
  - destruct (IH _ _ _ Hx) as [Hin Hkeep]. split.
    + intros [-> |?]%elem_of_cons; [|by apply Hin]. destruct (heap !! j) as [y|] eqn:Ey.
      * apply Hkeep. exists (set_closed y). unfold sub_Close. by rewrite list_lookup_alter_eq, Ey.
      * exfalso. apply lookup_ge_None in Ey. apply lookup_lt_Some in Hx.
        rewrite close_all_length in Hx. unfold sub_Close in Hx. rewrite length_alter in Hx. lia.
    + intros (y & Hy & Hc). apply Hkeep. destruct (decide (i = j)) as [->|].
      * exists (set_closed y). unfold sub_Close. by rewrite list_lookup_alter_eq, Hy.
      * exists y. unfold sub_Close. by rewrite list_lookup_alter_ne.
Qed.

Lemma Consume_run {W} (t : Transport W) cfg mux h :
  Mux t = Some mux → cc_Handler cfg = Some h → cc_Endpoint cfg ≠ EmptyString →
  mux !! (PathPrefix t +:+ cc_Endpoint cfg) = None →
  ∃ t' x, Consume cfg t = Some (inr (length (h_heap t)), t') ∧
    Mux t' = Some (<[PathPrefix t +:+ cc_Endpoint cfg := length (h_heap t)]> mux) ∧
    h_subs t' = h_subs t ++ [length (h_heap t)] ∧ h_heap t' = h_heap t ++ [x] ∧ h_closed t' = h_closed t.
Proof.
  intros Hm Hh He Hn. unfold Consume. rewrite decide_False, Hh, Hm by done. cbv zeta. rewrite Hn.
  by eexists _, _.
Qed.

Lemma Consume_wf {W} (t t' : Transport W) mux p x :
  wf_transport t → Mux t = Some mux → Mux t' = Some (<[p := length (h_heap t)]> mux) →
  h_subs t' = h_subs t ++ [length (h_heap t)] → h_heap t' = h_heap t ++ [x] → wf_transport t'.
Proof.
  intros Hwf Hm Hm' Hs Hh mux' p' i E Hi. rewrite Hm' in E. simplify_eq. rewrite Hs, Hh, length_app. cbn.
  destruct (decide (p' = p)) as [->|Hne].
  - rewrite lookup_insert_eq in Hi. simplify_eq. split; [set_solver|lia].
  - rewrite lookup_insert_ne in Hi by done. destruct (Hwf _ _ _ Hm Hi). split; [set_solver|lia].
Qed.

(** [Consume] on an open transport panics exactly when its path is taken;
    otherwise it adds a subscription there and no other path changes. [Close] is
    idempotent, and after it every registered path answers 503 without running
    its handler. *)
Theorem http_consume_and_close {W} (t : Transport W) cfg mux h :
  wf_transport t → h_closed t = false → Mux t = Some mux → cc_Handler cfg = Some h →
  cc_Endpoint cfg ≠ EmptyString →
  let path := PathPrefix t +:+ cc_Endpoint cfg in
  match Consume cfg t with
  | None => is_Some (mux !! path)
  | Some (r, t') =>
      mux !! path = None ∧ r = inr (length (h_heap t)) ∧ wf_transport t' ∧
      (∀ p req s, p ≠ path → serve_mux t' p req s = serve_mux t p req s) ∧
      Close (Close t') = Close t' ∧
      ∀ p req s mux', Mux t' = Some mux' → is_Some (mux' !! p) →
        serve_mux (Close t') p req s = (http_Error "subscription closed" 503 no_response, s)
  end.
Proof.
  intros Hwf Hcl Hm Hh He path. destruct (mux !! path) as [i|] eqn:Ep.
  { unfold Consume. rewrite decide_False, Hh, Hm by done. cbv zeta. fold path. by rewrite Ep. }
  destruct (Consume_run t cfg mux h Hm Hh He Ep) as (t' & x & -> & Hm' & Hs & Hheap & Hc').
  pose proof (Consume_wf _ _ _ _ _ Hwf Hm Hm' Hs Hheap) as Hwf'.
  split_and!; [done|done|done| | |].
  - intros p req s Hp. unfold serve_mux. rewrite Hm', Hm, Hheap. cbn [mbind option_bind].
    rewrite lookup_insert_ne by done. destruct (mux !! p) as [i|] eqn:Ei; [|done]. cbn [mbind option_bind].
    destruct (Hwf _ _ _ Hm Ei). by rewrite lookup_app_l.
  - unfold Close. rewrite Hc', Hcl. done.
  - intros p req s mux' E [i Hi]. destruct (Hwf' _ _ _ E Hi) as [Hin Hlt].
    unfold serve_mux, Close. rewrite Hc', Hcl. cbn [Mux h_heap]. rewrite E. cbn [mbind option_bind].
    rewrite Hi. cbn [mbind option_bind].
    destruct (foldl _ (h_heap t') (h_subs t') !! i) as [y|] eqn:Ey.
    + destruct (close_all_closed _ _ _ _ Ey) as [Hdone _]. unfold serveHTTP. by rewrite Hdone.
    + apply lookup_ge_None in Ey. rewrite close_all_length in Ey. lia.
Qed.

(** ** A concrete pair of transports *)

Definition echo : AHandler nat := λ d, Eff unit (λ n, (tt, S n)) (λ _, Ret (inr (Body d, EmptyString))).
Definition echo_cfg : ConsumerConfig nat :=
  {| cc_Endpoint := "echo"; cc_Handler := Some (wrap echo); cc_Timeout := 0; cc_Concurrency := 0 |}.
Definition demo_server : Transport nat :=
  match Consume echo_cfg (Http.New EmptyString true false EmptyString) with
  | Some (_, t) => t
  | None => Http.New EmptyString true false EmptyString
  end.
Definition demo_client : Transport nat := Http.New "http://core" false false EmptyString.
Definition demo_req (body cid : string) : Request :=
  {| req_Endpoint := "echo"; req_Body := body; req_ContentType := "text/plain"; req_Headers := ∅;
     req_CorrelationID := cid; req_Timeout := 0 |}.

Definition demo_sub : subscription nat :=
  {| hs_endpoint := "echo"; hs_timeout := 30 * Second; hs_concurrency := 1; hs_handler := wrap echo; hs_closed := false |}.

Lemma http_rpc_roundtrip_witness :
  TRequest (λ _, None) (loopback "http://core" demo_server) demo_client (demo_req "ping" "c1") 0%nat =
  (inr {| rep_Body := "ping"; rep_ContentType := "application/json"; rep_Headers := ∅;
          rep_CorrelationID := "c1" |}, 1%nat) ∧
  TRequest (λ _, None) (loopback "http://core" demo_server) demo_client (demo_req EmptyString EmptyString) 0%nat =
  (inr {| rep_Body := marshal_envelope (request_envelope (demo_req EmptyString EmptyString));
          rep_ContentType := "application/json"; rep_Headers := ∅; rep_CorrelationID := EmptyString |}, 1%nat).
Proof.
  split.
  - apply (http_rpc_roundtrip echo demo_server demo_client "http://core" (demo_req "ping" "c1") demo_sub 0
      {["/rpc/echo" := 0%nat]} 0%nat (inr ("ping", EmptyString)) 1%nat).
    1-10: first [reflexivity|done].
    + split_and!; [by apply literal_utf8|constructor|by apply literal_utf8|apply map_Forall_empty].
    + reflexivity.
    + constructor.
  - apply (http_rpc_roundtrip echo demo_server demo_client "http://core" (demo_req EmptyString EmptyString) demo_sub 0
      {["/rpc/echo" := 0%nat]} 0%nat
      (inr (marshal_envelope (request_envelope (demo_req EmptyString EmptyString)), EmptyString)) 1%nat).
    1-10: first [reflexivity|done].
    + split_and!; [constructor|constructor|by apply literal_utf8|apply map_Forall_empty].
    + vm_compute. reflexivity.
    + constructor.
Defined.

Lemma adapter_handler_over_http_witness :
  ∃ w, serveHTTP demo_sub {| in_cancelled := false; in_body := inr "raw text"; in_write_error := None |} 0%nat
         = (w, 1%nat) ∧ w_status w = Some 200 ∧ w_ContentType w = "application/json" ∧
       w_body w = marshal_envelope (reply_envelope EmptyString "raw text" "application/json").
Proof.
  apply (adapter_handler_over_http echo demo_sub {| in_cancelled := false; in_body := inr "raw text"; in_write_error := None |}
    "raw text" 0%nat (inr ("raw text", EmptyString)) 1%nat); reflexivity.
Defined.

Lemma empty_request_is_misread_witness :
  let raw := marshal_envelope (request_envelope (demo_req EmptyString EmptyString)) in
  Body (mk_delivery "echo" (decode_inbound raw)) = raw ∧ raw ≠ EmptyString.
Proof.
  apply (empty_request_is_misread (demo_req EmptyString EmptyString)); [|reflexivity..].
  split_and!; [constructor|constructor|by apply literal_utf8|apply map_Forall_empty].
Defined.

Lemma http_consume_and_close_witness :
  match Consume echo_cfg (Http.New EmptyString true false EmptyString) with
  | None => False
  | Some (r, t') => r = inr 0%nat ∧ Close (Close t') = Close t'
  end.
Proof.
  destruct (http_consume_and_close (Http.New (W:=nat) EmptyString true false EmptyString) echo_cfg ∅ (wrap echo))
    as (_ & H1 & _ & _ & H2 & _).
  - intros mux p i [= <-] Hi. by rewrite lookup_empty in Hi.
  - reflexivity.
  - reflexivity.
  - reflexivity.
  - done.
  - split; [exact H1|exact H2].
Defined.
