(* ===== verification/HandlerContext.v ===== *)
(** * The context of a handler

    Both transports give a handler a context of its own: over AMQP a timeout on
    [context.Background()], over HTTP one on the request's context; it is
    cancelled when the handler has returned. The state of the world is [timed]
    here, so that reconcilers, emitters and transports share a clock and the
    context of the call in progress, and the life of one delivery can be followed
    through all layers: the AMQP goroutine, the adapter, the dispatch, the
    reconciler and the emission of its event. *)
From Stdlib Require Import Ascii ZArith.
From stdpp Require Import prelude gmap strings list.
From S2P Require Import Prelude GoStrings GoText GoFloat GoCrypto Json JsonText Rpc Backoff GoTime Adapter.
From S2P Require Import Base64 Http HttpSpec Events Deadline Reconcile ReconcileSpec Amqp AmqpSpec.

Local Open Scope Z_scope.

Section context.
Context {Q : Type}.
Abbreviation W := (world (timed Q)).

(** A call with the context [c]. *)
Definition set_ctx (c : Ctx) (p : timed Q) : timed Q := Timed (tclock p) c (tposts p) (trest p).
Definition on_prov (f : timed Q → timed Q) (w : W) : W := World (f (prov w)) (clock w) (trace w).

(** [ctx, cancel := context.WithTimeout(parent, timeout)], and [cancel()]. *)
Definition begin_ctx (parent : Ctx) (timeout : Z) (p : timed Q) : timed Q :=
  set_ctx (WithTimeout parent (tclock p) timeout) p.
Definition end_ctx (p : timed Q) : timed Q := set_ctx (cancel (tctx p) (tclock p)) p.

(** The goroutine of an AMQP delivery with the context of its handler. *)
Definition deliver_in_context {B} (lib : amqp091 B) (sub : nat) (endpoint : string) (timeout : Z)
    (h : Handler W) (raw : raw_delivery) (w : W) : Go B W :=
  w' ← handle_delivery lib sub endpoint h raw (on_prov (begin_ctx Background timeout) w);
  mret (on_prov end_ctx w').

(** The handler of an HTTP request, in a context that ends with the request's. *)
Definition in_request_context (parent : Ctx) (timeout : Z) (h : Handler W) : Handler W := λ d,
  Eff unit (λ w, (tt, on_prov (begin_ctx parent timeout) w)) (λ _,
    r ← h d; Eff unit (λ w, (tt, on_prov end_ctx w)) (λ _, Ret r)).

(** A handler that dispatches to the reconcilers of the adapter [a]. *)
Definition execute_handler `{UnicodeTables} (g : registry (timed Q)) (a : nat) : AHandler W := λ d,
  lift (Dispatch g a (Body d)).

(** ** Emission in a context *)

Context `{UnicodeTables}.
Context (net : nat → Z * do_result) (hh : httpEmitter) (ct : Z).
Context (Hretries : 0 < maxRetries hh) (Hclient : client hh = Some ct) (Hct : 0 < ct).
Abbreviation bus := (HTTPEmitter (timed_env (Q := Q) net (client hh)) hh).

Lemma emit_prov ec env verb id observed (w : W) : emitter ec = Some bus →
  prov (emit ec env verb id observed w).2 =
  (httpEmit (timed_env net (client hh)) hh (mk_event ec env verb id observed (clock w)) (prov w)).2.
Proof.
  intros Hem. unfold emit. rewrite Hem. run_m. cbn [Emit HTTPEmitter].
  destruct (httpEmit _ _ _ _) as [[e|] p]; by run_m.
Qed.

Lemma emit_late ec env verb id observed (w : W) e : emitter ec = Some bus →
  Err (tctx (prov w)) (tclock (prov w)) = Some e → prov (emit ec env verb id observed w).2 = prov w.
Proof.
  intros Hem He. rewrite emit_prov, timed_emit by done. destruct (marshal_event _ _); [|done].
  destruct (Z.to_nat (maxRetries hh)) as [|n] eqn:En; [lia|]. by rewrite (loop_ended net hh _ n None _ e He).
Qed.

Lemma emit_timely ec env verb id observed (w : W) dur st rb eb : emitter ec = Some bus →
  net (length (tposts (prov w))) = (dur, DoResp st rb) → 0 ≤ dur < ct → 200 ≤ st < 300 →
  Err (tctx (prov w)) (tclock (prov w) + dur) = None →
  marshal_event (mk_event ec env verb id observed (clock w)) (UTC (tclock (prov w))) = Some eb →
  tposts (prov (emit ec env verb id observed w).2) = tposts (prov w) ++ [emission_post hh eb].
Proof.
  intros Hem Hnet Hdur Hst He Heb. rewrite emit_prov, timed_emit by done. cbn [EmittedAt mk_event default from_option].
  rewrite Heb. destruct (Z.to_nat (maxRetries hh)) as [|n] eqn:En; [lia|].
  by rewrite (loop_accepted net hh eb ct Hclient Hct n None _ _ _ _ Hnet Hdur Hst He).
Qed.

(** ** A delivery of an ensure request *)

Context {D O : Type} (c : codec D O) (r : Reconciler (timed Q) D O) (ec : emitContext (timed Q)).
Context (g : registry (timed Q)) (a : nat) (req : executeRequest) (d : D) (o : O) (body : string).
Context (Hop : requested_op req ≠ EmptyString) (Hentry : bound g a (requested_op req) = Some (makeEnsureFn c r ec)).
Context (Hem : emitter ec = Some bus).
Context (Hparse : parse_desired c "reconcile.Ensure: parse desired: " (Input req) = inr d).
Context (Hbody : marshalO c o = inr body).

(** The event of the mutation. *)
Definition ensured_event (w : W) : MutationEvent :=
  mk_event ec req VerbEnsured (inferResourceID (reflectO c o) body (resource ec)) body (clock w).

(** What became of the event of a mutation in the context [fin]: nothing was sent
    if the mutation ended after its context, and it was posted if there was time
    for a request that the core accepts. *)
Definition event_fate (w : W) (fin : Ctx) (p1 p2 : timed Q) : Prop :=
  (is_Some (Err fin (tclock p1)) → tposts p2 = tposts p1) ∧
  (∀ dur st rb eb, net (length (tposts p1)) = (dur, DoResp st rb) → 0 ≤ dur < ct → 200 ≤ st < 300 →
     Err fin (tclock p1 + dur) = None → marshal_event (ensured_event w) (UTC (tclock p1)) = Some eb →
     tposts p2 = tposts p1 ++ [emission_post hh eb]).

Lemma execute_ensure (dl : Delivery) (w : W) p1 :
  Body dl ≠ EmptyString → unmarshal_request (Body dl) = Some req →
  Ensure r d (prov w) = (inr o, p1) →
  ∃ w', run_quiet (execute_handler g a dl) w = Some (inr (body, "application/json"), w') ∧
    event_fate w (tctx p1) p1 (prov w').
Proof.
  intros Hne Hreq HE. set (w1 := World p1 (clock w) (trace w ++ [CEnsure])).
  set (w2 := (emit ec req VerbEnsured (inferResourceID (reflectO c o) body (resource ec)) body w1).2).
  exists w2. split.
  - unfold execute_handler, lift. cbn [run_quiet]. rewrite dispatch_bound, decide_False, Hreq.
    + rewrite decide_False, Hentry, ensure_run, Hparse, HE by done. cbv zeta. by rewrite Hbody.
    + done.
    + unfold bound in Hentry. by destruct (dispatchTables g !! a).
  - split.
    + intros [e He]. unfold w2. by rewrite (emit_late ec req VerbEnsured _ body w1 e Hem He).
    + intros dur st rb eb Hnet Hdur Hst He Heb. unfold w2. by eapply (emit_timely ec req VerbEnsured _ body w1).
Qed.

(** C12: the event of a mutation that outlives its context is lost. An ensure
    request that takes [Ensure] to a success is answered as such by both
    transports, with the observed state: over AMQP it is replied to and
    acknowledged, over HTTP it is answered with 200, also when [Ensure] returned
    only after the context of the handler had ended. But in that case nothing is
    sent to the event bus, whatever the bus would have answered; over AMQP this is
    when [Ensure] returns [Timeout] or more after the delivery arrived, over HTTP
    also when the client has gone away. If the first request to the bus is
    accepted before the end of the context, the event is posted. *)
Theorem late_mutation_loses_event {B} (lib : amqp091 B) timeout :
  (∀ sub endpoint raw x ch s (w : W) p1,
     heap s !! sub = Some x → s_ch x = Some ch → raw_ReplyTo raw ≠ EmptyString →
     raw_Body raw ≠ EmptyString → unmarshal_request (raw_Body raw) = Some req →
     (ch_Publish lib ch (raw_ReplyTo raw)
        {| pub_ContentType := "application/json"; pub_CorrelationId := raw_CorrelationId raw;
           pub_ReplyTo := EmptyString; pub_Headers := ∅; pub_Body := body |} (broker s).1).1 = None →
     let fin : Ctx := Some (tclock (prov w) + timeout, DeadlineExceeded) in
     Ensure r d (set_ctx fin (prov w)) = (inr o, p1) → tctx p1 = fin →
     ∃ s' w', deliver_in_context (logged lib) sub endpoint timeout (wrap (execute_handler g a)) raw w s = (Done w', s') ∧
       calls s' = calls s ++ [reply_op ch raw body "application/json"; OpAck raw] ∧ event_fate w fin p1 (prov w')) ∧
  (∀ sub rq raw (w : W) p1 gone,
     Http.hs_handler sub = in_request_context gone (Http.hs_timeout sub) (wrap (execute_handler g a)) →
     Http.hs_closed sub = false → Http.in_cancelled rq = false → Http.in_body rq = inr raw →
     let envelope := Http.decode_inbound raw in
     Body (Http.mk_delivery (Http.hs_endpoint sub) envelope) ≠ EmptyString →
     unmarshal_request (Body (Http.mk_delivery (Http.hs_endpoint sub) envelope)) = Some req →
     let fin := WithTimeout gone (tclock (prov w)) (Http.hs_timeout sub) in
     Ensure r d (set_ctx fin (prov w)) = (inr o, p1) → tctx p1 = fin →
     ∃ w', Http.serveHTTP sub rq w =
         (reply_writer (env_CorrelationID envelope) (inr (body, "application/json")), w') ∧
       event_fate w fin p1 (prov w')).
Proof.
  split.
  - intros sub endpoint raw x ch s w p1 Hx Hch Hrt Hne Hreq Hpub fin HE Hfin.
    set (w0 := on_prov (begin_ctx Background timeout) w).
    destruct (execute_ensure (mk_delivery endpoint raw) w0 p1 Hne Hreq HE) as (w1 & Hq & Hfate).
    destruct (handle_adapter lib (execute_handler g a) sub endpoint raw x ch w0 s _ w1 Hx Hch Hq) as (s' & Hd & Hcalls).
    rewrite decide_False in Hcalls by done. cbv zeta in Hcalls.
    change (json_default (json_default "application/json")) with "application/json" in Hcalls. rewrite Hpub in Hcalls.
    exists s', (on_prov end_ctx w1). unfold deliver_in_context, mbind, Go_bind. fold w0. rewrite Hd.
    rewrite Hfin in Hfate. done.
  - intros sub rq raw w p1 gone Hh Hcl Hca Hb envelope Hne Hreq fin HE Hfin.
    set (w0 := on_prov (begin_ctx gone (Http.hs_timeout sub)) w).
    destruct (execute_ensure _ w0 p1 Hne Hreq HE) as (w1 & Hq & Hfate).
    exists (on_prov end_ctx w1). rewrite Hfin in Hfate. split; [|done].
    unfold Http.serveHTTP. rewrite Hcl, Hca, Hb, Hh. cbv zeta. unfold in_request_context.
    cbn [Http.run_handler]. fold w0. rewrite http_handler_bind, (run_wrap _ _ _ _ _ _ _ _ Hq). done.
Qed.
End context.

(** ** A slow provider *)

(** It takes 40 seconds for every document. *)
Definition slow_reconciler : Reconciler (timed unit) string string := {|
  Ensure := λ d p, (inr d, Timed (tclock p + 40 * Second) (tctx p) (tposts p) (trest p));
  Observe := λ _ p, (inr (None, EmptyString), p);
  Destroy := λ _ p, (None, p);
  DestroyWithDesired := None |}.
Definition slow_ec : emitContext (timed unit) :=
  {| emitter := Some (HTTPEmitter (timed_env (λ _, (Second, DoResp 202 EmptyString)) (client demo_emitter)) demo_emitter);
     provider := "github"; resource := "user"; instanceID := "acme"; warn := Stdout |}.
Definition slow_registry : registry (timed unit) :=
  {| dispatchTables := {[ 7%nat := {[ "ensure_user" := makeEnsureFn (H := ascii_tables) demo_codec slow_reconciler slow_ec ]} ]};
     missingEmitterWarned := ∅; executeInstalls := [7%nat] |}.
Lemma slow_bound : bound slow_registry 7 "ensure_user" =
  Some (makeEnsureFn (H := ascii_tables) demo_codec slow_reconciler slow_ec).
Proof.
  unfold bound, slow_registry. cbn [dispatchTables]. rewrite lookup_singleton_eq. cbn [mbind option_bind].
  apply lookup_singleton_eq.
Defined.
Definition slow_raw : raw_delivery :=
  {| raw_Body := q "{'operation':'ensure_user','input':{'id':'u1'}}"; raw_ContentType := "application/json";
     raw_Headers := ∅; raw_CorrelationId := "c1"; raw_ReplyTo := "replies"; raw_tag := 1 |}.
Definition slow_st : st (demo_broker * list op) :=
  St (New (Some 1%nat)) [{| s_endpoint := "q"; s_ch := Some 101%nat; s_done := false |}] (DB 1 [] [], []) [].

Lemma late_mutation_loses_event_witness :
  let w : world (timed unit) := World (Timed 0 Background [] tt) 0 [] in
  ∃ s' w', deliver_in_context (logged demo_lib) 0 "q" (30 * Second) (wrap (execute_handler (H := ascii_tables)
      slow_registry 7)) slow_raw w slow_st = (Done w', s') ∧
    calls s' = [reply_op 101 slow_raw (q "{'id':'u1'}") "application/json"; OpAck slow_raw] ∧
    tposts (prov w') = [].
Proof.
  intros w.
  destruct (late_mutation_loses_event (H := ascii_tables) (λ _, (Second, DoResp 202 EmptyString)) demo_emitter
    (5 * Second) ltac:(vm_compute; reflexivity) ltac:(reflexivity) ltac:(vm_compute; reflexivity)
    demo_codec slow_reconciler slow_ec slow_registry 7
    {| Operation := "ensure_user"; Capability := EmptyString; Idempotency_ := EmptyString;
       InstanceID := EmptyString; Input := q "{'id':'u1'}" |}
    (q "{'id':'u1'}") (q "{'id':'u1'}") (q "{'id':'u1'}")
    ltac:(vm_compute; discriminate) slow_bound ltac:(reflexivity)
    ltac:(reflexivity) ltac:(reflexivity) demo_lib (30 * Second)) as [Hamqp _].
  destruct (Hamqp 0%nat "q" slow_raw {| s_endpoint := "q"; s_ch := Some 101%nat; s_done := false |} 101%nat slow_st w
    (Timed (40 * Second) (Some (30 * Second, DeadlineExceeded)) [] tt)) as (s' & w' & Hd & Hc & Hlost & _).
  - reflexivity.
  - reflexivity.
  - discriminate.
  - discriminate.
  - vm_compute. reflexivity.
  - reflexivity.
  - reflexivity.
  - reflexivity.
  - exists s', w'. split; [exact Hd|]. split; [exact Hc|]. apply Hlost. exists DeadlineExceeded. vm_compute. reflexivity.
Defined.
