(* ===== verification/Listen.v ===== *)
(** * Adapters on their transports

    [ListenAMQP] and [ListenHTTP] of src/adapter/transport.go: the adapter's
    life cycle ([Adapter.Run]) composed with the AMQP transport (Amqp) and with
    the HTTP transport (Http). *)
From Stdlib Require Import Ascii ZArith.
From stdpp Require Import prelude gmap strings list.
From S2P Require Import Prelude GoStrings GoText Rpc Backoff Adapter Amqp AmqpSpec Base64 Http HttpSpec.

Local Open Scope Z_scope.

(** ** AMQP *)

Section amqp.
Context `{UnicodeTables} {W B : Type} (lib : amqp091 B).

(** The wait of the dial loop: [None] when the timer fires, the context's error
    when it is cancelled first. *)
Context (pause : Z → M B (option error)).

(** [dialAMQPWithRetry] on the broker; [d] stands for [amqp.Dial(url)]. *)
Fixpoint dial_loopS (url : string) (d : nat) (left_ attempt : nat) (backoff : Z) : M B (result nat) :=
  r ← dial lib d;
  match r with
  | inr c => mret (inr c)
  | inl err =>
      match left_ with
      | O => mret (inl (Wrapf ("adapter: dial AMQP " +:+ Quote url +:+ " failed after " +:+
               dec (Z.of_nat maxAttempts) +:+ " attempts: ") err EmptyString))
      | S l =>
          c ← pause backoff;
          match c with
          | Some cerr => mret (inl (Wrapf ("adapter: dial AMQP " +:+ Quote url +:+ " cancelled after " +:+
                 dec (Z.of_nat attempt) +:+ " attempts: ") cerr EmptyString))
          | None => dial_loopS url d l (S attempt) (next_backoff backoff)
          end
      end
  end.
Definition dialS (url : string) (d : nat) : M B (result nat) :=
  dial_loopS url d (maxAttempts - 1) 1 initialBackoff.

(** The transport of a running adapter; [a_stuck] records that a call blocked
    for ever or panicked. *)
Record asys := ASys { a_st : st B; a_stuck : bool }.

Definition lift_go {A} (failed : A) (m : Go B A) : M asys A := λ y,
  match m (a_st y) with
  | (Done a, s) => (a, ASys s (a_stuck y))
  | (_, s) => (failed, ASys s true)
  end.

(** The AMQP transport as the adapter sees it. *)
Definition amqp_transport : Adapter.Transport W asys := {|
  Adapter.Consume := λ cfg,
    r ← lift_go (inl (Errorf EmptyString)) (Amqp.Consume lib cfg);
    match r with
    | inl err => mret (inl err)
    | inr (sub, _, _) => mret (inr sub)
    end;
  CloseSub := λ sub, lift_go None (Amqp.sub_Close lib sub);
|}.

(** The hook that [ListenAMQP] installs. *)
Definition amqp_before (cfg : Config) (url : string) (d : nat) : BeforeHook (W:=W) (T:=asys) := λ y,
  let '(r, b) := dialS url d (broker (a_st y)) in
  match r with
  | inl err => (inl err, ASys (St (tr (a_st y)) (heap (a_st y)) b (held (a_st y))) (a_stuck y))
  | inr c =>
      (_ ← lift_go tt (SetDialFunc (Some d));
       _ ← match queue_prefix cfg with
           | Some p => lift_go tt (SetEndpointPrefix p)
           | None => mret tt
           end;
       mret (inr (Some (amqp_transport, _ ← lift_go None (Amqp.Close lib); mret tt))))
        (ASys (St (Amqp.New (Some c)) [] b []) (a_stuck y))
  end.

Definition ListenAMQP (url : string) (d : nat) (a : Adapter W asys) : Adapter W asys :=
  {| config := config a; transport := transport a; handlers := handlers a;
     beforeRun := Some (amqp_before (config a) url d); afterRun := afterRun a |}.

(** *** The dial *)

Lemma dial_loop_ext dial dial' cancelled cancelled' url l n backoff waited :
  (∀ i, (n ≤ i)%nat → dial i = dial' i ∧ cancelled i = cancelled' i) →
  dial_loop dial cancelled url l n backoff waited = dial_loop dial' cancelled' url l n backoff waited.
Proof.
  revert n backoff waited. induction l as [|l IH]; intros n backoff waited He; cbn [dial_loop];
    destruct (He n (le_n n)) as [-> Hc]; [done|]. rewrite Hc.
  destruct (dial' n); [|done]. destruct (cancelled' n); [done|]. apply IH. intros i Hi. apply He. lia.
Qed.

(** The dial on the broker is the dial loop for the outcomes that it meets. *)
Lemma dial_loopS_refines url d l : ∀ n backoff waited b,
  ∃ outcome cancelled,
    match (dial_loopS url d l n backoff b).1 with
    | inr _ => ∃ k ws, dial_loop outcome cancelled url l n backoff waited = (Dialed k, ws)
    | inl err => ∃ ws, dial_loop outcome cancelled url l n backoff waited = (DialFailed err, ws)
    end.
Proof.
  induction l as [|l IH]; intros n backoff waited b; cbn [dial_loopS]; unfold mbind, M_bind;
    destruct (dial lib d b) as [[err|c] b1].
  - exists (λ _, Some err), (λ _, None). cbn. eauto.
  - exists (λ _, None), (λ _, None). cbn. eauto.
  - destruct (pause backoff b1) as [[cerr|] b2].
    { exists (λ _, Some err), (λ _, Some cerr). cbn. eauto. }
    destruct (IH (S n) (next_backoff backoff) (waited ++ [backoff]) b2) as (o & c & Hr).
    exists (λ i, if decide (i = n) then Some err else o i), (λ i, if decide (i = n) then None else c i).
    cbn [dial_loop]. rewrite !decide_True by done.
    rewrite (dial_loop_ext _ o _ c) by (intros i Hi; by rewrite !decide_False by lia). exact Hr.
  - exists (λ _, None), (λ _, None). cbn. eauto.
Qed.

(** *** Subscriptions *)

(** The transport is in working order: nothing is locked or stuck, it can
    redial, it is not closed, and it lists exactly the subscriptions there are. *)
Definition working (y : asys) : Prop :=
  a_stuck y = false ∧ held (a_st y) = [] ∧ dialFn (tr (a_st y)) ≠ None ∧ closed (tr (a_st y)) = false ∧
  ∀ i, i ∈ subs (tr (a_st y)) ↔ (i < length (heap (a_st y)))%nat.

(** What [setupConsumer] leaves alone. *)
Definition same_subs (s s' : st B) : Prop :=
  held s' = held s ∧ heap s' = heap s ∧ subs (tr s') = subs (tr s) ∧ dialFn (tr s') = dialFn (tr s) ∧
  closed (tr s') = closed (tr s) ∧ endpointPrefix (tr s') = endpointPrefix (tr s).

Lemma setupConsumer_total q n s :
  held s = [] → dialFn (tr s) ≠ None → ∃ r s', setupConsumer lib q n s = (Done r, s') ∧ same_subs s s'.
Proof.
  intros Hh Hd. unfold setupConsumer. unfold mbind at 1, Go_bind at 1.
  rewrite connectionForUse_run by (rewrite Hh; apply not_elem_of_nil).
  assert (∀ c s1, same_subs s s1 → ∃ r s',
    (r' ← open_channel lib (Some c);
     match r' with
     | inl err => mret (inl (Wrapf "amqp consume: open channel: " err EmptyString))
     | inr ch => call (setup_on lib ch q n)
     end) s1 = (Done r, s') ∧ same_subs s s') as Hopen.
  { intros c s1 Hs1. unfold mbind, Go_bind, open_channel, call.
    destruct (conn_Channel lib c (broker s1)) as [[err|ch] b]; [by eexists _, _|].
    destruct (setup_on lib ch q n _) as [r b']. by eexists _, _. }
  destruct (is_live lib s) eqn:El.
  { unfold is_live in El. destruct (conn (tr s)) as [c|]; [|done]. by apply Hopen. }
  destruct (closed (tr s)) eqn:Ec; [by eexists _, _|].
  destruct (dialFn (tr s)) as [d|] eqn:Ed; [|done].
  destruct (dial lib d (broker s)) as [[err|c] b]; [eexists _, _; split; [reflexivity|]|apply Hopen];
    unfold same_subs; cbn; rewrite ?Ec, ?Ed; done.
Qed.

(** A subscription of the adapter is a queue of its own, under the prefix. *)
Lemma consume_working cfg (y : asys) :
  working y → is_Some (cc_Handler cfg) →
  ∃ r y', Adapter.Consume amqp_transport cfg y = (r, y') ∧ working y' ∧
    endpointPrefix (tr (a_st y')) = endpointPrefix (tr (a_st y)) ∧
    match r with
    | inl _ => heap (a_st y') = heap (a_st y)
    | inr sub => sub = length (heap (a_st y)) ∧ ∃ ch,
        heap (a_st y') = heap (a_st y) ++
          [{| s_endpoint := endpointPrefix (tr (a_st y)) +:+ cc_Endpoint cfg; s_ch := Some ch; s_done := false |}]
    end.
Proof.
  intros (Hst & Hh & Hd & Hc & Hs) [hd Hhd]. destruct y as [s stk]. simpl in *. subst stk.
  unfold lift_go, mbind at 1, M_bind at 1. cbn [a_st]. unfold Amqp.Consume.
  case_decide; [eexists _, _; split; [reflexivity|]; done|]. rewrite Hhd. cbv zeta.
  cbn [cc_Endpoint cc_Concurrency]. unfold mbind at 1, Go_bind at 1, get at 1.
  set (n := if cc_Concurrency cfg <=? 0 then 1 else cc_Concurrency cfg).
  unfold mbind at 1, Go_bind at 1.
  destruct (setupConsumer_total (endpointPrefix (tr s) +:+ cc_Endpoint cfg) n s Hh Hd)
    as (r & s' & -> & Hh' & Hp & Hsb & Hd' & Hc' & Hpre).
  destruct r as [err|[ch stream]].
  - eexists _, _. split; [reflexivity|]. unfold working. simpl.
    rewrite Hh', Hp, Hsb, Hd', Hc', Hpre. done.
  - unfold mbind at 1, Go_bind at 1, alloc. unfold mbind at 1, Go_bind at 1.
    rewrite lock_free by (cbn; rewrite Hh', Hh; apply not_elem_of_nil).
    unfold mbind at 1, Go_bind at 1, modify. cbn [tr heap broker held].
    unfold mbind at 1, Go_bind at 1. rewrite unlock_top by (rewrite Hh', Hh; apply not_elem_of_nil).
    eexists _, _. split; [reflexivity|]. unfold working. simpl.
    rewrite Hh', Hp, Hsb, Hd', Hc', Hpre. split_and!; try done; [|by exists ch].
    intros i. rewrite length_app, elem_of_app, Hs, list_elem_of_singleton. simpl. lia.
Qed.

(** The queues of the subscriptions. *)
Definition queues (y : asys) : list string := s_endpoint <$> heap (a_st y).

Lemma consume_all_working a order : ∀ subs (y : asys),
  working y →
  ∃ k err y', consume_all a amqp_transport order subs y = ((subs ++ seq (length (heap (a_st y))) k, err), y') ∧
    working y' ∧ endpointPrefix (tr (a_st y')) = endpointPrefix (tr (a_st y)) ∧
    queues y' = queues y ++ ((λ p, endpointPrefix (tr (a_st y)) +:+ p.1) <$> take k order) ∧
    (k ≤ length order)%nat ∧ (err = None ↔ k = length order).
Proof.
  induction order as [|[cap h] order IH]; intros subs y Hw.
  - exists 0%nat, None, y. cbn. rewrite !app_nil_r. split_and!; done || lia.
  - cbn [consume_all]. unfold mbind at 1, M_bind at 1.
    edestruct (consume_working {| cc_Endpoint := cap; cc_Handler := Some (wrap h);
        cc_Timeout := DefaultTimeout (config a); cc_Concurrency := Concurrency (config a) |} y Hw)
      as (r & y1 & Hr & Hw1 & Hp1 & Hq1); [done|]. rewrite Hr. destruct r as [e|sub].
    + exists 0%nat, (Some (Wrapf ("adapter: consume " +:+ Quote cap +:+ ": ") e EmptyString)), y1.
      cbn. unfold queues. rewrite Hq1, !app_nil_r. split_and!; done || lia.
    + destruct Hq1 as (-> & ch & Hq1).
      destruct (IH (subs ++ [length (heap (a_st y))]) y1 Hw1) as (k & err & y' & Hrun & Hw' & Hp' & Hq' & Hk & Herr).
      exists (S k), err, y'. rewrite Hrun. rewrite Hq1, length_app, Nat.add_comm, <- app_assoc. simpl.
      split_and!; [done|done|congruence| |lia|by rewrite Herr; split; lia].
      rewrite Hq'. unfold queues. rewrite Hq1, fmap_app, <- app_assoc. simpl. by rewrite Hp1.
Qed.

Lemma close_all_working l : ∀ y : asys,
  working y → Forall (λ i, (i < length (heap (a_st y)))%nat) l →
  ∃ y', close_all amqp_transport l y = (tt, y') ∧ working y' ∧ queues y' = queues y.
Proof.
  induction l as [|i l IH]; intros y Hw Hl; [by exists y|]. apply Forall_cons in Hl as [Hi Hl].
  destruct Hw as (Hst & Hh & Hd & Hc & Hs). destruct y as [s stk]. simpl in *. subst stk.
  apply lookup_lt_is_Some in Hi as [x Hx]. cbn [close_all CloseSub amqp_transport]. unfold mbind, M_bind, lift_go. cbn [a_st].
  destruct (sub_Close_run lib i x s Hx) as (err & b & ->).
  edestruct (IH (ASys (St (tr s) (<[i:={| s_endpoint := s_endpoint x; s_ch := s_ch x; s_done := true |}]> (heap s))
    b (held s)) false)) as (y' & Hrun & Hw' & Hq).
  { unfold working. simpl. rewrite length_insert. done. }
  { simpl. by rewrite length_insert. }
  exists y'. split; [exact Hrun|]. split; [done|]. rewrite Hq. unfold queues. simpl.
  rewrite list_fmap_insert. simpl. apply list_insert_id. by rewrite list_lookup_fmap, Hx.
Qed.

(** After [Close]: nothing is left open. *)
Definition shut (y : asys) : Prop :=
  a_stuck y = false ∧ held (a_st y) = [] ∧ closed (tr (a_st y)) = true ∧ conn (tr (a_st y)) = None ∧
  pubCh (tr (a_st y)) = None ∧ Forall (λ x, s_done x = true) (heap (a_st y)).

Lemma close_working y : working y → ∃ e y', lift_go None (Amqp.Close lib) y = (e, y') ∧ shut y'.
Proof.
  intros (Hst & Hh & Hd & Hc & Hs). destruct y as [s stk]. simpl in *. subst stk.
  destruct (Close_run lib s Hh Hc) as (err & h & b & Hrun & Hlen & Hdone).
  { apply Forall_forall. intros i Hi. by apply lookup_lt_is_Some, Hs. }
  unfold lift_go. cbn [a_st]. rewrite Hrun. eexists _, _. split; [reflexivity|]. split_and!; try done.
  simpl. apply Forall_lookup. intros i x Hx. apply (Hdone i x); [|done]. apply Hs. rewrite <- Hlen.
  by eapply lookup_lt_Some.
Qed.

(** The transport that the hook builds on the connection [c]. *)
Definition listening (cfg : Config) (d c : nat) : Amqp.Transport :=
  let t := set_watchdog (set_dialFn (Some d) (Amqp.New (Some c))) in
  match queue_prefix cfg with Some p => set_endpointPrefix p t | None => t end.

Lemma amqp_before_run cfg url d y :
  a_stuck y = false →
  amqp_before cfg url d y =
  match dialS url d (broker (a_st y)) with
  | (inl err, b) => (inl err, ASys (St (tr (a_st y)) (heap (a_st y)) b (held (a_st y))) false)
  | (inr c, b) => (inr (Some (amqp_transport, _ ← lift_go None (Amqp.Close lib); mret tt)),
                   ASys (St (listening cfg d c) [] b []) false)
  end.
Proof.
  intros Hs. unfold amqp_before. rewrite Hs. destruct (dialS url d _) as [[e|c] b]; [done|].
  unfold listening, mbind, M_bind, lift_go. cbn. by destruct (queue_prefix cfg).
Qed.

Lemma listening_working cfg d c b : working (ASys (St (listening cfg d c) [] b []) false).
Proof.
  unfold working, listening. simpl. destruct (queue_prefix cfg); simpl; split_and!; try done;
    intros i; split; [intros Hi; by apply elem_of_nil in Hi|lia|intros Hi; by apply elem_of_nil in Hi|lia].
Qed.

Lemma listening_prefix cfg d c : endpointPrefix (listening cfg d c) = default EmptyString (queue_prefix cfg).
Proof. unfold listening. by destruct (queue_prefix cfg). Qed.

(** C9: the life of an adapter on AMQP. When the broker cannot be dialed [Run]
    returns the error of the dial and touches nothing. Otherwise every handler
    in turn gets a subscription to the queue named after its capability under
    the prefix of the integration type; [Run] waits for the context exactly when
    all of them have one, and returns the first error otherwise; and in both
    cases it leaves the transport closed, the connection dropped and every
    subscription stopped. *)
Theorem listen_amqp_lifecycle wait order (a : Adapter W asys) url d y :
  order ≠ [] → a_stuck y = false →
  (∀ y, working y → working (wait y).2 ∧ (length (heap (a_st y)) ≤ length (heap (a_st (wait y).2)))%nat) →
  ∃ err y', Run wait order (ListenAMQP url d a) y = (err, y') ∧
    match (dialS url d (broker (a_st y))).1 with
    | inl e => err = Some e ∧ tr (a_st y') = tr (a_st y) ∧ heap (a_st y') = heap (a_st y)
    | inr c => shut y' ∧ ∃ k served, working served ∧
        queues served = (λ p, default EmptyString (queue_prefix (config a)) +:+ p.1) <$> take k order ∧
        (err = None ↔ k = length order) ∧
        y' = ((_ ← (match err with None => wait | Some _ => mret tt end);
               _ ← close_all amqp_transport (seq 0 k);
               lift_go None (Amqp.Close lib)) served).2
    end.
Proof.
  intros Hne Hstk Hwait. unfold Run. rewrite decide_False by done. cbn [beforeRun ListenAMQP].
  unfold mbind at 1, M_bind at 1. rewrite amqp_before_run by done.
  destruct (dialS url d (broker (a_st y))) as [[e|c] b]; [by eexists _, _|]. cbn [fst].
  unfold mbind at 1, M_bind at 1.
  set (y1 := ASys (St (listening (config a) d c) [] b []) false).
  destruct (consume_all_working (ListenAMQP url d a) order [] y1 (listening_working _ _ _ _))
    as (k & err & y2 & Hrun & Hw2 & _ & Hq & Hk & Herr).
  rewrite Hrun. set (m := match err with None => wait | Some _ => mret tt end).
  assert (working (m y2).2 ∧ (length (heap (a_st y2)) ≤ length (heap (a_st (m y2).2)))%nat) as [Hw3 Hlen].
  { subst m. destruct err; [done|by apply Hwait]. }
  assert (length (heap (a_st y2)) = k) as Hk2.
  { apply (f_equal length) in Hq. unfold queues in Hq. rewrite length_app, !length_fmap, length_take in Hq.
    simpl in Hq. lia. }
  destruct (m y2) as [u y3] eqn:Em. simpl in Hw3, Hlen.
  destruct (close_all_working (seq 0 k) y3 Hw3) as (y4 & Hclose & Hw4 & _).
  { apply Forall_seq. intros i Hi. lia. }
  destruct (close_working y4 Hw4) as (e & y5 & Hc & Hshut).
  exists err, y5. simpl app. unfold mbind, M_bind. rewrite Em. simpl length. rewrite Hclose, Hc. split; [done|].
  split; [done|]. exists k, y2. split; [done|]. split; [|split; [done|]].
  - rewrite Hq. unfold y1. simpl. by rewrite listening_prefix.
  - fold m. by rewrite Em, Hclose, Hc.
Qed.
End amqp.

(** ** HTTP *)

(** The [http.Server] that the adapter owns; it cannot be used again after
    [Shutdown]. *)
Inductive server := Idle | Serving | ShutDown.
#[global] Instance server_eq_dec : EqDecision server.
Proof. solve_decision. Defined.

Section http.
Context `{UnicodeTables} {W : Type}.

(** The transport and the server; [h_panicked] records a panic of the mux. *)
Record hsys := HSys { h_tr : Http.Transport W; h_server : server; h_panicked : bool }.

(** [server.ListenAndServe] during the 25 milliseconds that the hook waits:
    [bind] is an error to listen that it meets in that time. *)
Definition listen_and_serve (bind : option error) (v : server) : option error * server :=
  match v with
  | ShutDown => (Some ErrServerClosed, ShutDown)
  | _ => match bind with Some err => (Some err, v) | None => (None, Serving) end
  end.

(** The goroutine sends an error other than [ErrServerClosed] and closes the
    channel; a closed channel gives a nil error, which [%w] prints as such. *)
Definition http_before (addr : string) (bind : option error) : BeforeHook (W:=W) (T:=hsys) := λ y,
  let '(r, v) := listen_and_serve bind (h_server y) in
  let pre := "adapter: http listen on " +:+ Quote addr +:+ ": " in
  (match r with
   | None => inr None
   | Some err =>
       if errors_is "http.ErrServerClosed" err then inl (Errorf (pre +:+ "%!w(<nil>)"))
       else inl (Wrapf pre err EmptyString)
   end, HSys (h_tr y) v (h_panicked y)).

Definition http_after : M hsys unit := λ y, (tt, HSys (h_tr y) ShutDown (h_panicked y)).

Definition set_heap (hp : list (Http.subscription W)) (t : Http.Transport W) : Http.Transport W :=
  {| BaseURL := BaseURL t; Mux := Mux t; Client := Client t; PathPrefix := PathPrefix t;
     h_subs := h_subs t; h_heap := hp; h_closed := h_closed t |}.

(** The HTTP transport as the adapter sees it. *)
Definition http_transport : Adapter.Transport W hsys := {|
  Adapter.Consume := λ cfg y,
    match Http.Consume cfg (h_tr y) with
    | Some (r, t) => (r, HSys t (h_server y) (h_panicked y))
    | None => (inl (Errorf EmptyString), HSys (h_tr y) (h_server y) true)
    end;
  CloseSub := λ sub y,
    (None, HSys (set_heap (Http.sub_Close sub (h_heap (h_tr y))) (h_tr y)) (h_server y) (h_panicked y));
|}.

(** The transport and the server are made when [ListenHTTP] is called. *)
Definition http_start : hsys := HSys (Http.New EmptyString true false EmptyString) Idle false.
Definition ListenHTTP (addr : string) (bind : option error) (a : Adapter W hsys) : Adapter W hsys :=
  {| config := config a; transport := Some http_transport; handlers := handlers a;
     beforeRun := Some (http_before addr bind); afterRun := Some http_after |}.

(** *** Registration *)

Lemma append_inj (p s t : string) : p +:+ s = p +:+ t → s = t.
Proof. intros He. pose proof (strip_prefix_app p s) as Hs. rewrite He, strip_prefix_app in Hs. by injection Hs. Qed.

(** The subscription that [Run] makes for a handler. *)
Definition subscribed (c : Config) (cap : string) (h : AHandler W) : Http.subscription W :=
  {| hs_endpoint := cap;
     hs_timeout := if DefaultTimeout c <=? 0 then 30 * Second else DefaultTimeout c;
     hs_concurrency := if Concurrency c <=? 0 then 1 else Concurrency c;
     hs_handler := wrap h; hs_closed := false |}.

Lemma http_consume_all (a : Adapter W hsys) order : ∀ subs y mux,
  NoDup order.*1 → Forall (λ p, p.1 ≠ EmptyString) order →
  Mux (h_tr y) = Some mux → (∀ cap, cap ∈ order.*1 → mux !! (PathPrefix (h_tr y) +:+ cap) = None) →
  ∃ y' mux', consume_all a http_transport order subs y =
      ((subs ++ seq (length (h_heap (h_tr y))) (length order), None), y') ∧
    h_server y' = h_server y ∧ h_panicked y' = h_panicked y ∧ PathPrefix (h_tr y') = PathPrefix (h_tr y) ∧
    Mux (h_tr y') = Some mux' ∧
    h_heap (h_tr y') = h_heap (h_tr y) ++ ((λ p, subscribed (config a) p.1 p.2) <$> order) ∧
    (∀ p, is_Some (mux !! p) → mux' !! p = mux !! p) ∧
    (∀ j cap h, order !! j = Some (cap, h) →
      mux' !! (PathPrefix (h_tr y) +:+ cap) = Some (length (h_heap (h_tr y)) + j)%nat).
Proof.
  induction order as [|[cap h] order IH]; intros subs y mux Hnd Hne Hm Hfree.
  - exists y, mux. cbn. rewrite !app_nil_r. done.
  - apply NoDup_cons in Hnd as [Hcap Hnd]. apply Forall_cons in Hne as [Hc Hne]. simpl in Hcap, Hc.
    cbn [consume_all Adapter.Consume http_transport]. unfold mbind at 1, M_bind at 1. unfold Http.Consume.
    rewrite decide_False by done. cbn [cc_Handler cc_Endpoint cc_Timeout cc_Concurrency]. rewrite Hm. cbv zeta.
    rewrite (Hfree cap) by (by left). fold (subscribed (config a) cap h).
    set (i := length (h_heap (h_tr y))). set (path := PathPrefix (h_tr y) +:+ cap).
    edestruct (IH (subs ++ [i]) (HSys {| BaseURL := BaseURL (h_tr y); Mux := Some (<[path := i]> mux);
      Client := Client (h_tr y); PathPrefix := PathPrefix (h_tr y); h_subs := h_subs (h_tr y) ++ [i];
      h_heap := h_heap (h_tr y) ++ [subscribed (config a) cap h]; h_closed := h_closed (h_tr y) |}
      (h_server y) (h_panicked y)) (<[path := i]> mux) Hnd Hne eq_refl)
      as (y' & mux' & Hrun & Hsv & Hp & Hpre & Hm' & Hheap & Hold & Hnew); cbn [h_tr PathPrefix h_heap] in *.
    { intros cap' Hin. rewrite lookup_insert_ne; [apply Hfree; by right|].
      unfold path. intros He%append_inj. by subst. }
    exists y', mux'. rewrite Hrun, length_app. fold i. simpl length. rewrite Nat.add_1_r, <- app_assoc. simpl.
    split_and!; try done.
    + rewrite Hheap, <- app_assoc. done.
    + intros p [i' Hi']. rewrite Hold; [|rewrite lookup_insert_is_Some; destruct (decide (path = p)); eauto].
      apply lookup_insert_ne. intros <-. unfold path in Hi'. rewrite Hfree in Hi' by (by left). done.
    + intros [|j] cap' h' Hj; simplify_eq/=.
      * rewrite Hold by (rewrite lookup_insert_eq; eauto). rewrite lookup_insert_eq, Nat.add_0_r. done.
      * rewrite (Hnew j cap' h' Hj), length_app. simpl. f_equal. lia.
Qed.

Lemma http_close_all l : ∀ y : hsys,
  close_all http_transport l y =
  (tt, HSys (set_heap (foldl (λ hp sub, Http.sub_Close sub hp) (h_heap (h_tr y)) l) (h_tr y))
         (h_server y) (h_panicked y)).
Proof.
  induction l as [|sub l IH]; intros y; cbn.
  - destruct y as [[] ? ?]. done.
  - unfold mbind, M_bind. by rewrite IH.
Qed.

(** Closing the subscriptions closes the paths that lead to them. *)
Lemma closed_paths (hp : list (Http.subscription W)) t path req s mux i x :
  Mux t = Some mux → mux !! path = Some i → hp !! i = Some x →
  serve_mux (set_heap (foldl (λ hp sub, Http.sub_Close sub hp) hp (seq 0 (length hp))) t) path req s =
    (http_Error "subscription closed" 503 no_response, s).
Proof.
  intros Hm Hi Hx. unfold serve_mux. cbn [Mux set_heap h_heap]. rewrite Hm. cbn [mbind option_bind].
  rewrite Hi. cbn [mbind option_bind]. apply lookup_lt_Some in Hx.
  destruct (foldl _ _ _ !! i) as [z|] eqn:Ez.
  - destruct (close_all_closed _ _ _ _ Ez) as [Hdone _]. unfold serveHTTP.
    rewrite Hdone by (apply elem_of_seq; lia). done.
  - apply lookup_ge_None in Ez. rewrite close_all_length in Ez. lia.
Qed.

(** A server that was shut down does not start again. *)
Lemma run_shut_down wait order (a : Adapter W hsys) addr bind y :
  order ≠ [] → h_server y = ShutDown →
  Run wait order (ListenHTTP addr bind a) y =
    (Some (Errorf ("adapter: http listen on " +:+ Quote addr +:+ ": " +:+ "%!w(<nil>)")), y).
Proof.
  intros Hne Hs. unfold Run. rewrite decide_False by done. cbn [beforeRun ListenHTTP].
  unfold mbind, M_bind, http_before. rewrite Hs. destruct y; simpl in *; subst.
  by rewrite !str_app_assoc.
Qed.

(** C34: the life of an adapter on HTTP. If the address cannot be bound [Run]
    returns the error. Otherwise, while it waits for the context, a POST to
    [/rpc/] and a capability is served by the handler registered for it; when it
    returns, the server is shut down and those paths answer 503. The adapter
    cannot be run again: [Run] fails at once, with an error that wraps nil. *)
Theorem listen_http_lifecycle (a : Adapter W hsys) addr bind order :
  order ≠ [] → NoDup order.*1 → Forall (λ p, p.1 ≠ EmptyString) order →
  ∃ err y', Run (mret tt) order (ListenHTTP addr bind a) http_start = (err, y') ∧ h_panicked y' = false ∧
    match bind with
    | Some e => errors_is "http.ErrServerClosed" e = false →
        err = Some (Wrapf ("adapter: http listen on " +:+ Quote addr +:+ ": ") e EmptyString) ∧ h_tr y' = h_tr http_start
    | None => err = None ∧ h_server y' = ShutDown ∧
        (∃ served, h_server served = Serving ∧
          (∀ cap h req s, (cap, h) ∈ order →
            serve_mux (h_tr served) ("/rpc/" +:+ cap) req s = serveHTTP (subscribed (config a) cap h) req s) ∧
          y' = ((_ ← close_all http_transport (seq 0 (length order)); http_after) served).2) ∧
        (∀ cap h req s, (cap, h) ∈ order →
          serve_mux (h_tr y') ("/rpc/" +:+ cap) req s = (http_Error "subscription closed" 503 no_response, s)) ∧
        Run (mret tt) order (ListenHTTP addr bind a) y' =
          (Some (Errorf ("adapter: http listen on " +:+ Quote addr +:+ ": " +:+ "%!w(<nil>)")), y')
    end.
Proof.
  intros Hne Hnd Hcap. destruct bind as [e|].
  { unfold Run. rewrite decide_False by done. cbn [beforeRun ListenHTTP]. unfold mbind, M_bind, http_before.
    simpl. destruct (errors_is _ e); eexists _, _; done. }
  edestruct (http_consume_all (ListenHTTP addr None a) order [] (HSys (h_tr http_start) Serving false) ∅ Hnd Hcap)
    as (y1 & mux & Hrun & Hsv & Hp & Hpre & Hm & Hheap & _ & Hnew); [done|intros; apply lookup_empty|].
  change (∀ j cap h, order !! j = Some (cap, h) → mux !! ("/rpc/" +:+ cap) = Some j) in Hnew.
  cbn in Hheap, Hrun, Hsv, Hp.
  set (y2 := ((_ ← close_all http_transport (seq 0 (length order)); http_after) y1).2).
  assert (length (h_heap (h_tr y1)) = length order) as Hlen by (by rewrite Hheap, length_fmap).
  assert (y2 = HSys (set_heap (foldl (λ hp sub, Http.sub_Close sub hp) (h_heap (h_tr y1))
    (seq 0 (length (h_heap (h_tr y1))))) (h_tr y1)) ShutDown false) as Hy2.
  { subst y2. unfold mbind, M_bind. rewrite http_close_all, Hlen. cbn. by rewrite Hp. }
  exists None, y2. split; [|split; [by rewrite Hy2|]].
  { unfold Run. rewrite decide_False by done. cbn [beforeRun ListenHTTP transport afterRun].
    unfold mbind at 1, M_bind at 1, http_before. cbn [h_server http_start listen_and_serve h_panicked h_tr].
    unfold mbind at 1, M_bind at 1. rewrite Hrun. unfold y2, mbind, M_bind. unfold mret at 1, M_ret at 1.
    rewrite !http_close_all. done. }
  split; [done|]. split; [by rewrite Hy2|]. split_and!.
  - exists y1. split_and!; [done| |done]. intros cap h req s Hin.
    apply list_elem_of_lookup in Hin as [j Hj]. unfold serve_mux. rewrite Hm. cbn [mbind option_bind].
    rewrite (Hnew j cap h Hj). cbn [mbind option_bind]. by rewrite Hheap, list_lookup_fmap, Hj.
  - intros cap h req s Hin. apply list_elem_of_lookup in Hin as [j Hj]. rewrite Hy2. cbn [h_tr].
    eapply closed_paths; [done|by eapply Hnew|by rewrite Hheap, list_lookup_fmap, Hj].
  - apply run_shut_down; [done|by rewrite Hy2].
Qed.
End http.

(** ** Witnesses *)

#[local] Existing Instance ascii_tables.

Definition demo_config : Config :=
  {| Provider := "aws"; IntegrationType := "aws-ec2"; Version := "1"; DefaultTimeout := 0; Concurrency := 2 |}.
Definition demo_handlers : list (string * AHandler nat) := [("describe", echo); ("execute", echo)].
Definition demo_adapter T : Adapter nat T :=
  {| config := demo_config; transport := None; handlers := ∅; beforeRun := None; afterRun := None |}.
Definition demo_asys : asys := ASys (St (Amqp.New None) [] (DB 0 [] []) []) false.
Definition never {B} : Z → M B (option error) := λ _, mret None.

Lemma listen_amqp_lifecycle_witness :
  ∃ y' (served : asys (B:=demo_broker)), (Run (λ y, (tt, y)) demo_handlers (ListenAMQP demo_lib never "amqp://mq" 0 (demo_adapter (asys (B:=demo_broker)))) demo_asys).2 = y' ∧
    shut y' ∧ queues served = ["yggdrasil.adapter.aws-ec2.describe"; "yggdrasil.adapter.aws-ec2.execute"].
Proof.
  destruct (listen_amqp_lifecycle demo_lib never (λ y, (tt, y)) demo_handlers (demo_adapter (asys (B:=demo_broker))) "amqp://mq" 0 demo_asys)
    as (err & y' & Hrun & Hshut & k & served & _ & Hq & Hk & _); [done|done|by intros y Hy|].
  exists y'. rewrite Hrun. assert (err = None) as He.
  { apply (f_equal fst) in Hrun. vm_compute in Hrun. done. }
  apply Hk in He. subst k. exists served. split; [reflexivity|].
  split; [exact Hshut|]. rewrite Hq. reflexivity.
Defined.

Lemma listen_http_lifecycle_witness :
  (∃ y', Run (mret tt) demo_handlers (ListenHTTP ":8080" None (demo_adapter hsys)) http_start = (None, y') ∧
    h_server y' = ShutDown) ∧
  (Run (mret tt) demo_handlers (ListenHTTP ":8080" (Some (Errorf "address already in use")) (demo_adapter hsys)) http_start).1
    = Some (Wrapf ("adapter: http listen on " +:+ Quote ":8080" +:+ ": ") (Errorf "address already in use") EmptyString).
Proof.
  split.
  - destruct (listen_http_lifecycle (demo_adapter hsys) ":8080" None demo_handlers) as (err & y' & Hrun & _ & -> & Hs & _);
      [done| |repeat constructor; done|by exists y']. repeat constructor; set_solver.
  - destruct (listen_http_lifecycle (demo_adapter hsys) ":8080" (Some (Errorf "address already in use")) demo_handlers)
      as (err & y' & Hrun & _ & Hr); [done| |repeat constructor; done|]. { repeat constructor; set_solver. }
    rewrite Hrun. destruct (Hr eq_refl) as [-> _]. done.
Defined.
