(* ===== verification/Contract.v ===== *)
(** * The transport interface

    The interfaces [Transport] and [Subscription] of src/rpc/transport.go, as what
    their documentation promises to an adapter: a class over the operations that
    [Adapter.Run] calls, with an abstract state that lists every subscription, by
    its [Endpoint()] and whether it takes deliveries. The AMQP and the HTTP
    transport are instances, and [Run] is proved against the class. The promise
    of [ErrClosed] is not part of it: AMQP keeps it, HTTP does not. *)
From Stdlib Require Import Ascii ZArith.
From stdpp Require Import prelude gmap strings list.
From S2P Require Import Prelude GoStrings GoText Rpc Backoff Adapter Amqp AmqpSpec Base64 Http HttpSpec Listen.

Local Open Scope Z_scope.

(** ** The class *)

(** A subscription: its endpoint, and whether it is open. *)
Definition close_entry (e : string * bool) : string * bool := (e.1, false).

(** [transport_ok] is the condition under which the promises hold; [path_of]
    gives the [Endpoint()] of a subscription to a configured endpoint. *)
Class TransportContract {W T : Type} (t : Adapter.Transport W T) (close : M T unit) := {
  transport_ok : T → Prop;
  subs_of : T → list (string * bool);
  path_of : T → string → string;
  (** Both fields of the configuration are required. *)
  consume_requires cfg y :
    cc_Endpoint cfg = EmptyString ∨ cc_Handler cfg = None →
    transport_ok y → ∃ err, Adapter.Consume t cfg y = (inl err, y);
  (** A new subscription, or an error and none. *)
  consume_subscribes cfg y :
    transport_ok y → cc_Endpoint cfg ≠ EmptyString → is_Some (cc_Handler cfg) →
    path_of y (cc_Endpoint cfg) ∉ (subs_of y).*1 →
    ∃ r y', Adapter.Consume t cfg y = (r, y') ∧ transport_ok y' ∧ path_of y' = path_of y ∧
      match r with
      | inl _ => subs_of y' = subs_of y
      | inr sub => sub = length (subs_of y) ∧
          subs_of y' = subs_of y ++ [(path_of y (cc_Endpoint cfg), true)]
      end;
  (** Closing a subscription closes that one. *)
  close_sub_closes sub y :
    transport_ok y → (sub < length (subs_of y))%nat →
    ∃ err y', Adapter.CloseSub t sub y = (err, y') ∧ transport_ok y' ∧ path_of y' = path_of y ∧
      subs_of y' = alter close_entry sub (subs_of y);
  (** [Close] closes them all, and may be called again. *)
  close_closes y :
    transport_ok y → ∃ y', close y = (tt, y') ∧ close y' = (tt, y') ∧
      Forall (λ e, e.2 = false) (subs_of y');
  path_of_inj y e e' : path_of y e = path_of y e' → e = e';
}.

(** ** The client: [Adapter.Run] *)

Section client.
Context `{UnicodeTables} {W T : Type} (t : Adapter.Transport W T) (close : M T unit)
  `{!TransportContract t close}.

(** What [Run] asks of the transport for a capability. *)
Definition run_config (a : Adapter W T) (cap : string) (h : AHandler W) : ConsumerConfig W :=
  {| cc_Endpoint := cap; cc_Handler := Some (wrap h); cc_Timeout := DefaultTimeout (config a);
     cc_Concurrency := Concurrency (config a) |}.

(** The error of [Run] when the transport, in the state [before], refuses the
    capability at position [k], which leads to [served]. *)
Definition refused (a : Adapter W T) (order : list (string * AHandler W)) (k : nat) (e : error) (served : T) : Prop :=
  ∃ cap h e0 before, order !! k = Some (cap, h) ∧ subs_of before = subs_of served ∧
    Adapter.Consume t (run_config a cap h) before = (inl e0, served) ∧
    e = Wrapf ("adapter: consume " +:+ Quote cap +:+ ": ") e0 EmptyString.

Lemma consume_all_contract (a : Adapter W T) order : ∀ acc y,
  transport_ok y → NoDup order.*1 → Forall (λ p, p.1 ≠ EmptyString) order →
  Forall (λ p, path_of y p.1 ∉ (subs_of y).*1) order →
  ∃ k err y', consume_all a t order acc y = ((acc ++ seq (length (subs_of y)) k, err), y') ∧
    transport_ok y' ∧ path_of y' = path_of y ∧ (k <= length order)%nat ∧ (err = None ↔ k = length order) ∧
    (∀ e, err = Some e → refused a order k e y') ∧
    subs_of y' = subs_of y ++ ((λ p, (path_of y p.1, true)) <$> take k order).
Proof.
  induction order as [|[cap h] order IH]; intros acc y Hok Hnd Hne Hfree.
  - exists 0%nat, None, y. cbn. rewrite !app_nil_r. split_and!; done || lia.
  - apply NoDup_cons in Hnd as [Hcap Hnd]. apply Forall_cons in Hne as [Hc Hne]. apply Forall_cons in Hfree as [Hf Hfree].
    cbn [fst] in *. cbn [consume_all]. unfold mbind at 1, M_bind at 1.
    edestruct (consume_subscribes (run_config a cap h) y) as (r & y1 & Hcons & Hok1 & Hp1 & Hr); [done..|].
    fold (run_config a cap h). rewrite Hcons. cbn [run_config cc_Endpoint] in Hr. destruct r as [e|sub].
    + eexists 0%nat, _, y1. cbn. rewrite !app_nil_r. split; [reflexivity|]. split_and!; try (done || lia).
      intros ? [= <-]. exists cap, h, e, y. by rewrite Hr.
    + destruct Hr as [-> Hs1]. destruct (IH (acc ++ [length (subs_of y)]) y1) as (k & err & y' & -> & Hok' & Hp' & Hk & Herr & Href & Hs');
        [done|done|done| |].
      { apply Forall_forall. intros p Hin. rewrite Forall_forall in Hfree. rewrite Hp1, Hs1, fmap_app, elem_of_app. cbn.
        intros [Hin'|Heq%list_elem_of_singleton]; [by apply (Hfree p Hin)|]. apply path_of_inj in Heq.
        apply Hcap. rewrite <- Heq. apply list_elem_of_fmap. eauto. }
      exists (S k), err, y'. rewrite <- app_assoc, Hs1, length_app, Nat.add_1_r. cbn [app seq].
      split; [reflexivity|]. split_and!; [done|congruence|cbn; lia|by rewrite Herr; cbn; split; lia|exact Href|].
      rewrite Hs', Hs1, Hp1, <- app_assoc. done.
Qed.

Lemma close_all_contract l : ∀ y,
  transport_ok y → Forall (λ i, (i < length (subs_of y))%nat) l →
  ∃ y', close_all t l y = (tt, y') ∧ transport_ok y' ∧ subs_of y' = foldl (λ s i, alter close_entry i s) (subs_of y) l.
Proof.
  induction l as [|i l IH]; intros y Hok Hl; [by exists y|]. apply Forall_cons in Hl as [Hi Hl].
  cbn [close_all foldl]. unfold mbind, M_bind. destruct (close_sub_closes i y Hok Hi) as (err & y1 & -> & Hok1 & _ & Hs1).
  destruct (IH y1) as (y' & Hrun & Hok' & Hs'); [done|by rewrite Hs1, length_alter|].
  exists y'. rewrite Hrun. split_and!; [done|done|]. by rewrite Hs', Hs1.
Qed.

Lemma fold_close_entries (l : list nat) : ∀ (s : list (string * bool)) (i : nat) e,
  foldl (λ s i, alter close_entry i s) s l !! i = Some e →
  (i ∈ l → e.2 = false) ∧ ∃ e0, s !! i = Some e0 ∧ e.1 = e0.1 ∧ (e0.2 = false → e.2 = false).
Proof.
  induction l as [|j l IH]; intros s i e He; cbn in He.
  - split; [set_solver|]. by exists e.
  - destruct (IH _ _ _ He) as (Hin & e0 & H0 & H1 & H2). destruct (decide (i = j)) as [->|Hne].
    + rewrite list_lookup_alter_eq in H0. destruct (s !! j) as [e1|] eqn:E1; [|done]. injection H0 as <-.
      cbn in H1, H2. split; [intros _; by apply H2|]. exists e1. split_and!; [done|done|by intros _; apply H2].
    + rewrite list_lookup_alter_ne in H0 by done. split; [intros [->|?]%elem_of_cons; [done|by apply Hin]|].
      by exists e0.
Qed.

Lemma fold_close_other (l : list nat) : ∀ (s : list (string * bool)) (i : nat),
  i ∉ l → foldl (λ s i, alter close_entry i s) s l !! i = s !! i.
Proof.
  induction l as [|j l IH]; intros s i Hi; cbn; [done|]. apply not_elem_of_cons in Hi as [Hne Hi].
  rewrite IH by done. by rewrite list_lookup_alter_ne.
Qed.

(** C10: an adapter over any transport that keeps the contract. [Run]
    subscribes the registered capabilities in turn, each under its own endpoint. If
    all of them are subscribed it waits for the context, closes its subscriptions
    and returns no error; at the first one that is refused it does not wait, but
    closes those before it and returns the transport's error with the name of the
    capability. Either way every subscription that it made is closed in the end,
    and no other. *)
Theorem run_over_contract wait (order : list (string * AHandler W)) (a : Adapter W T) y :
  transport a = Some t → beforeRun a = None → afterRun a = None →
  order ≠ [] → NoDup order.*1 → Forall (λ p, p.1 ≠ EmptyString) order →
  transport_ok y → Forall (λ p, path_of y p.1 ∉ (subs_of y).*1) order →
  (∀ y, transport_ok y → transport_ok (wait y).2 ∧ (length (subs_of y) <= length (subs_of (wait y).2))%nat) →
  ∃ err y' k served, Run wait order a y = (err, y') ∧ transport_ok y' ∧
    subs_of served = subs_of y ++ ((λ p, (path_of y p.1, true)) <$> take k order) ∧
    (err = None ↔ k = length order) ∧ (∀ e, err = Some e → refused a order k e served) ∧
    let stopped := match err with None => (wait served).2 | Some _ => served end in
    close_all t (seq (length (subs_of y)) k) stopped = (tt, y') ∧
    (∀ i, ¬ (length (subs_of y) <= i < length (subs_of y) + k)%nat → subs_of y' !! i = subs_of stopped !! i) ∧
    ∀ i e, (length (subs_of y) <= i < length (subs_of y) + k)%nat → subs_of y' !! i = Some e → e.2 = false.
Proof.
  intros Ht Hb Ha Hne Hnd Hcap Hok Hfree Hwait. unfold Run. rewrite decide_False by done. rewrite Hb, Ha, Ht.
  unfold mbind at 1, M_bind at 1, mret at 1, M_ret at 1. cbv iota. unfold mbind at 1, M_bind at 1.
  destruct (consume_all_contract a order [] y) as (k & err & y1 & -> & Hok1 & Hp1 & Hk & Herr & Href & Hs1); [done..|].
  cbn [app]. set (m := match err with None => wait | Some _ => mret tt end).
  assert (transport_ok (m y1).2 ∧ (length (subs_of y1) <= length (subs_of (m y1).2))%nat) as [Hok2 Hlen].
  { subst m. destruct err; [done|by apply Hwait]. }
  unfold mbind at 1, M_bind at 1. destruct (m y1) as [u y2] eqn:Em. cbn [snd] in Hok2, Hlen.
  assert (length (subs_of y1) = length (subs_of y) + k)%nat as Hl1
    by (rewrite Hs1, length_app, length_fmap, length_take; lia).
  destruct (close_all_contract (seq (length (subs_of y)) k) y2) as (y3 & Hc & Hok3 & Hs3); [done| |].
  { apply Forall_seq. intros i Hi. lia. }
  assert (match err with None => (wait y1).2 | Some _ => y1 end = y2) as Hstop.
  { subst m. destruct err; [by injection Em as _ <-|by rewrite Em]. }
  unfold mbind, M_bind. rewrite Hc. exists err, y3, k, y1. split; [reflexivity|]. cbv zeta. split_and!; try done.
  - rewrite Hstop. exact Hc.
  - intros i Hi. rewrite Hstop, Hs3. apply fold_close_other. rewrite elem_of_seq. lia.
  - intros i e Hi He. rewrite Hs3 in He. destruct (fold_close_entries _ _ _ _ He) as [Hin _].
    apply Hin, elem_of_seq. lia.
Qed.
End client.

(** ** The AMQP transport *)

Section amqp_instance.
Context `{UnicodeTables} {W B : Type} (lib : amqp091 B).

Definition amqp_entry (x : Amqp.subscription) : string * bool := (s_endpoint x, negb (s_done x)).
Definition amqp_close : M (asys (B:=B)) unit := _ ← lift_go None (Amqp.Close lib); mret tt.

#[global, refine] Instance amqp_contract : TransportContract (amqp_transport (W:=W) lib) amqp_close := {|
  transport_ok := working;
  subs_of y := amqp_entry <$> heap (a_st y);
  path_of y e := endpointPrefix (tr (a_st y)) +:+ e;
|}.
Proof.
  - intros cfg [s stk] Hreq Hw. unfold working in Hw. destruct Hw as (Hst & _). cbn in Hst. subst.
    cbn. unfold mbind, M_bind, lift_go, Amqp.Consume. cbn.
    destruct Hreq as [-> |Hh]; [rewrite decide_True by done; eauto|]. case_decide; [eauto|]. rewrite Hh. eauto.
  - intros cfg y Hw Hne Hh Hfree.
    destruct (consume_working lib cfg y Hw Hh) as (r & y' & -> & Hw' & Hp & Hr). exists r, y'.
    split; [done|]. split; [done|]. split; [by rewrite Hp|]. destruct r as [e|sub]; [by rewrite Hr|].
    destruct Hr as (-> & ch & ->). rewrite length_fmap, fmap_app. done.
  - intros sub y Hw Hs. rewrite length_fmap in Hs.
    destruct (close_all_working (W:=W) lib [sub] y Hw ltac:(by constructor)) as (y' & Hc & Hw' & _).
    revert Hc. cbn [close_all]. unfold mbind, M_bind.
    destruct (Adapter.CloseSub (amqp_transport lib) sub y) as [err y1] eqn:E. unfold mret, M_ret. intros [= ->].
    exists err, y'. split; [done|]. split; [done|]. revert E. cbn. unfold lift_go.
    apply lookup_lt_is_Some in Hs as [x Hx]. destruct (sub_Close_run lib sub x (a_st y) Hx) as (err' & b & ->).
    intros [= _ <-]. cbn. split; [done|]. rewrite list_fmap_insert. apply list_eq. intros j.
    destruct (decide (j = sub)) as [->|Hne].
    + rewrite list_lookup_insert_eq by (rewrite length_fmap; by eapply lookup_lt_Some).
      by rewrite list_lookup_alter_eq, list_lookup_fmap, Hx.
    + by rewrite list_lookup_insert_ne, list_lookup_alter_ne by done.
  - intros y Hw. destruct (close_working lib y Hw) as (e & y' & Hc & Hshut). exists y'. unfold amqp_close, mbind, M_bind.
    rewrite Hc. split; [done|]. destruct Hshut as (Hst & Hh & Hcl & _ & _ & Hd). split.
    + unfold lift_go. rewrite Close_again by (rewrite ?Hh; apply not_elem_of_nil || done).
      destruct y' as [s stk]. cbn in *. by subst.
    + apply Forall_fmap. eapply Forall_impl; [exact Hd|]. intros x Hx. cbn. by rewrite Hx.
  - intros y e e' Heq. by apply append_inj in Heq.
Defined.
End amqp_instance.

(** ** The HTTP transport *)

Section http_instance.
Context `{UnicodeTables} {W : Type}.

Definition http_entry (x : Http.subscription W) : string * bool := (hs_endpoint x, negb (hs_closed x)).
Definition http_close : M (Listen.hsys (W:=W)) unit := λ y,
  (tt, HSys (Http.Close (h_tr y)) (h_server y) (h_panicked y)).

(** The transport is open, nothing panicked, and the paths of the mux are those
    of the subscriptions, which it lists. *)
Definition http_ok (y : Listen.hsys (W:=W)) : Prop :=
  h_panicked y = false ∧ h_closed (h_tr y) = false ∧
  (∀ i, (i < length (h_heap (h_tr y)))%nat → i ∈ h_subs (h_tr y)) ∧
  ∃ mux, Mux (h_tr y) = Some mux ∧
    ∀ p i, mux !! p = Some i → ∃ x, h_heap (h_tr y) !! i = Some x ∧ p = PathPrefix (h_tr y) +:+ hs_endpoint x.

Lemma http_consume_ok cfg y h :
  http_ok y → cc_Handler cfg = Some h → cc_Endpoint cfg ≠ EmptyString →
  cc_Endpoint cfg ∉ hs_endpoint <$> h_heap (h_tr y) →
  ∃ y' x, Adapter.Consume http_transport cfg y = (inr (length (h_heap (h_tr y))), y') ∧ http_ok y' ∧
    h_heap (h_tr y') = h_heap (h_tr y) ++ [x] ∧ http_entry x = (cc_Endpoint cfg, true).
Proof.
  intros (Hp & Hc & Hs & mux & Hm & Hpaths) Hh Hne Hfree. destruct y as [t v p]. cbn in *. unfold Http.Consume.
  rewrite decide_False, Hh, Hm by done. cbv zeta.
  assert (mux !! (PathPrefix t +:+ cc_Endpoint cfg) = None) as ->.
  { destruct (mux !! _) as [i|] eqn:Ei; [|done]. exfalso. destruct (Hpaths _ _ Ei) as (x & Hx & Heq%append_inj).
    apply Hfree. rewrite Heq. apply list_elem_of_fmap. exists x. split; [done|]. by eapply list_elem_of_lookup_2. }
  eexists _, _. split; [reflexivity|]. split; [|split; reflexivity]. unfold http_ok. cbn.
  split_and!; [done|done| |].
  - intros i. rewrite length_app, elem_of_app, list_elem_of_singleton. cbn. intros Hi.
    destruct (decide (i = length (h_heap t))); [by right|left; apply Hs; lia].
  - eexists. split; [reflexivity|]. intros p' i [[<- <-]|[Hn Hi]]%lookup_insert_Some.
    + rewrite lookup_app_r, Nat.sub_diag by lia. by eexists.
    + destruct (Hpaths _ _ Hi) as (x & Hx & ->). exists x. split; [by apply lookup_app_l_Some|done].
Qed.

#[global, refine] Instance http_contract : TransportContract (http_transport (W:=W)) http_close := {|
  transport_ok := http_ok;
  subs_of y := http_entry <$> h_heap (h_tr y);
  path_of _ e := e;
|}.
Proof.
  - intros cfg [t v p] Hreq _. cbn. unfold Http.Consume.
    destruct Hreq as [-> |Hh]; [rewrite decide_True by done; eauto|]. case_decide; [eauto|]. rewrite Hh. eauto.
  - intros cfg y Hok Hne [h Hh] Hfree.
    destruct (http_consume_ok cfg y h) as (y' & x & -> & Hok' & Hheap & Hx); [done..| |].
    { rewrite <- list_fmap_compose in Hfree. exact Hfree. }
    eexists _, y'. split; [reflexivity|]. split_and!; [done|done|by rewrite length_fmap|].
    by rewrite Hheap, fmap_app, <- Hx.
  - intros sub [t v p] (Hp & Hc & Hs & mux & Hm & Hpaths) Hsub. cbn in *. eexists _, _. split; [reflexivity|].
    unfold http_ok. cbn. unfold Http.sub_Close. split_and!; [done|done|by rewrite length_alter| |done|].
    + exists mux. split; [done|]. intros p' i Hi. destruct (Hpaths _ _ Hi) as (x & Hx & ->).
      destruct (decide (i = sub)) as [->|Hne].
      * exists (Http.set_closed x). by rewrite list_lookup_alter_eq, Hx.
      * exists x. by rewrite list_lookup_alter_ne.
    + apply list_eq. intros i. rewrite list_lookup_fmap. destruct (decide (i = sub)) as [->|Hne].
      * rewrite !list_lookup_alter_eq, list_lookup_fmap. by destruct (h_heap t !! sub).
      * by rewrite !list_lookup_alter_ne, list_lookup_fmap by done.
  - intros [t v p] (Hp & Hc & Hs & _). cbn in *. eexists. split; [reflexivity|]. split.
    + unfold http_close. cbn. unfold Http.Close. by rewrite Hc.
    + unfold Http.Close. cbn. rewrite Hc. cbn. apply Forall_fmap, Forall_lookup. intros i x Hx. cbn.
      destruct (close_all_closed _ _ _ _ Hx) as [Hin _]. rewrite Hin; [done|]. apply Hs.
      apply lookup_lt_Some in Hx. by rewrite close_all_length in Hx.
  - by intros.
Defined.

(** HTTP and [ErrClosed]. The contract says that operations after
    [Close] return [ErrClosed]. The HTTP transport does not check: [Consume] on a
    closed transport still subscribes, requests to the new path run its handler,
    and [Request] and [Publish] go out as before. *)
Theorem http_use_after_close (t : Http.Transport W) cfg mux h :
  Mux t = Some mux → cc_Handler cfg = Some h → cc_Endpoint cfg ≠ EmptyString →
  mux !! (PathPrefix t +:+ cc_Endpoint cfg) = None →
  (∃ sub t' x, Http.Consume cfg (Http.Close t) = Some (inr sub, t') ∧ h_closed t' = true ∧ hs_handler x = h ∧
     hs_closed x = false ∧
     ∀ req s, serve_mux t' (PathPrefix t +:+ cc_Endpoint cfg) req s = serveHTTP x req s) ∧
  ∀ N (new_request : string → option error) (client_do : option Z → string → string → gmap string string → M N do_result) req n,
    TRequest new_request client_do (Http.Close t) req n = TRequest new_request client_do t req n ∧
    Http.Publish new_request client_do (Http.Close t) req n = Http.Publish new_request client_do t req n.
Proof.
  intros Hm Hh Hne Hfree.
  assert (Mux (Http.Close t) = Mux t ∧ PathPrefix (Http.Close t) = PathPrefix t ∧ BaseURL (Http.Close t) = BaseURL t ∧
    h_closed (Http.Close t) = true) as (Hmx & Hpre & Hbase & Hcl).
  { unfold Http.Close. destruct (h_closed t) eqn:E; done. }
  split.
  - unfold Http.Consume. rewrite decide_False, Hh, Hmx, Hm, Hpre by done. cbv zeta. rewrite Hfree.
    eexists _, _, {| hs_endpoint := cc_Endpoint cfg;
      hs_timeout := if cc_Timeout cfg <=? 0 then 30 * Second else cc_Timeout cfg;
      hs_concurrency := if cc_Concurrency cfg <=? 0 then 1 else cc_Concurrency cfg; hs_handler := h; hs_closed := false |}.
    do 4 (split; [done|]).
    intros req s. unfold serve_mux. cbn [Mux h_heap]. cbn [mbind option_bind]. rewrite lookup_insert_eq. cbn [mbind option_bind].
    by rewrite lookup_app_r, Nat.sub_diag by lia.
  - intros N nr cd req n. unfold Http.Publish, TRequest. by rewrite Hpre, Hbase.
Qed.
End http_instance.

(** ** Witnesses *)

#[local] Existing Instance ascii_tables.

Definition custom_adapter {T} (t : Adapter.Transport nat T) : Adapter nat T := SetTransport t (demo_adapter T).

Lemma http_start_ok : http_ok (W:=nat) http_start.
Proof. unfold http_ok. cbn. split_and!; [done|done|lia|]. exists ∅. split; [done|]. intros p i Hi. by rewrite lookup_empty in Hi. Qed.

Lemma run_over_contract_witness :
  ∃ err y' k (served : Listen.hsys (W:=nat)),
    Run (λ y, (tt, y)) demo_handlers (custom_adapter http_transport) http_start = (err, y') ∧ http_ok y' ∧
    http_entry <$> h_heap (h_tr served) = (λ p, (p.1, true)) <$> take k demo_handlers.
Proof.
  destruct (run_over_contract http_transport http_close (λ y, (tt, y)) demo_handlers (custom_adapter http_transport) http_start)
    as (err & y' & k & served & Hrun & Hok & Hs & _); try reflexivity.
  - discriminate.
  - apply (bool_decide_unpack _). vm_compute. exact I.
  - repeat constructor; discriminate.
  - exact http_start_ok.
  - repeat constructor; cbn; apply not_elem_of_nil.
  - intros y Hy. split; [exact Hy|apply Nat.le_refl].
  - exists err, y', k, served. split; [exact Hrun|]. split; [exact Hok|exact Hs].
Defined.

Lemma http_use_after_close_witness :
  ∃ sub t' x, Http.Consume {| cc_Endpoint := "e"; cc_Handler := Some (wrap echo); cc_Timeout := 0; cc_Concurrency := 0 |}
      (Http.Close (Http.New (W:=nat) EmptyString true false EmptyString)) = Some (inr sub, t') ∧
    h_closed t' = true ∧ hs_handler x = wrap echo ∧ hs_closed x = false ∧
    ∀ req s, serve_mux t' ("/rpc/" +:+ "e") req s = serveHTTP x req s.
Proof.
  refine (proj1 (http_use_after_close (Http.New (W:=nat) EmptyString true false EmptyString) _ ∅ (wrap echo) _ _ _ _));
    try reflexivity. discriminate.
Defined.
