(* ===== verification/Lifecycle.v ===== *)
(** * Servers that run until they are cancelled

    The concurrent part of [Server.ListenAndServe] (src/webhookhttp/server.go):
    the goroutine that serves, those that handle the requests, which interleave
    step by step, the one that waits for the context, the channel
    between them and the two deadlines of the shutdown; and the goroutine of
    [WithSignalHandler] (src/adapter/adapter.go). Each is a machine whose actions
    are partial functions on its state, in any order; what [net/http] and
    [os/signal] do is in the actions that stand for them. *)
From Stdlib Require Import Ascii ZArith.
From stdpp Require Import prelude gmap strings list.
From S2P Require Import Prelude GoStrings GoMux Webhook.

Local Open Scope Z_scope.

(** ** Machines *)

Section machine.
Context {A S : Type} (apply_act : A → S → option S).

(** The state after a sequence of actions, if each is possible in its turn. *)
Fixpoint runs (acts : list A) (x : S) : option S :=
  match acts with
  | [] => Some x
  | a :: acts => apply_act a x ≫= runs acts
  end.

Lemma runs_app acts acts' x : runs (acts ++ acts') x = runs acts x ≫= runs acts'.
Proof. revert x. induction acts as [|a acts IH]; intros x; [done|]. simpl. destruct (apply_act a x); simpl; [apply IH|done]. Qed.

(** What the actions preserve holds after every sequence of them. *)
Lemma runs_invariant (P : S → Prop) acts x y :
  (∀ a x y, P x → apply_act a x = Some y → P y) → P x → runs acts x = Some y → P y.
Proof.
  intros Hstep. revert x. induction acts as [|a acts IH]; intros x Hx Hr; simplify_eq/=; [done|].
  destruct (apply_act a x) as [z|] eqn:E; [|done]. eauto.
Qed.
End machine.

(** ** [Server.ListenAndServe] *)

(** Where the calling goroutine is: in the first [select], in [Shutdown] or in
    the second [select], the last two until a deadline. *)
Inductive caller := Selecting | ShuttingDown (deadline : Z) | Draining (deadline : Z) | Returned (r : option error).

(** Where the serving goroutine is: before its listener is open, accepting, with
    a result to send, or done. *)
Inductive serving := Binding | Accepting | Sending (err : error) | Finished.

Section webhook.
Context {W : Type}.

Record lsys := LSys {
  srv : Server W;                     (** the server, which [Handle] may still change *)
  mux : Server W;                     (** what the mux was filled from *)
  world : W;                          (** the state of the handlers *)
  now : Z;                            (** the clock, in nanoseconds *)
  cancelled_at : option Z;            (** when the context was cancelled *)
  main : caller;
  goro : serving;
  serveErr : option error;            (** the channel, of capacity one *)
  stopping : bool;                    (** [httpSrv.Shutdown] was called *)
  in_flight : list (request * task W answer); (** requests, with what is left of their handling *)
  answered : list (request * answer);
  faults : list error;                (** errors of the listener so far *)
}.

(** The state in which the call selects for the first time. *)
Definition lstart (s : Server W) (w : W) (t : Z) : lsys :=
  LSys s s w t None Selecting Binding None false [] [] [].

Definition serve_error (err : error) : option error :=
  if errors_is "http.ErrServerClosed" err then None else Some (Wrapf "webhookhttp: serve: " err EmptyString).

Definition shutdown_timeout : Z := 5 * second.
Definition drain_timeout : Z := 6 * second.

Definition set_main (m : caller) (x : lsys) : lsys :=
  LSys (srv x) (mux x) (world x) (now x) (cancelled_at x) m (goro x) (serveErr x) (stopping x)
    (in_flight x) (answered x) (faults x).
Definition set_chan (m : caller) (g : serving) (c : option error) (x : lsys) : lsys :=
  LSys (srv x) (mux x) (world x) (now x) (cancelled_at x) m g c (stopping x)
    (in_flight x) (answered x) (faults x).

Inductive act :=
(* the environment *)
| Cancel                              (** the context is cancelled *)
| Register (r : registration W)       (** a [Handle] call on the running server *)
| Delay (d : Z)                       (** time passes *)
(* [net/http] *)
| Bound                               (** the listener is open *)
| Fault (err : error)                 (** [Listen] or [Accept] fails *)
| Stopped                             (** the server notices the shutdown *)
| Arrive (req : request)
| Advance (i : nat)                   (** the goroutine of a request takes its next step *)
(* the two goroutines *)
| Send
| SelectDone | SelectErr | ShutdownReturns | DrainErr | DrainTimeout.

(** Time may pass unless a [select] can proceed, and not beyond a deadline. *)
Definition may_wait (d : Z) (x : lsys) : bool :=
  (0 <? d) &&
  match main x with
  | Selecting => bool_decide (cancelled_at x = None) && bool_decide (serveErr x = None)
  | ShuttingDown dl => now x + d <=? dl
  | Draining dl => bool_decide (serveErr x = None) && (now x + d <=? dl)
  | Returned _ => true
  end.

Definition lact (a : act) (x : lsys) : option lsys :=
  match a with
  | Cancel =>
      guard (cancelled_at x = None);;
      Some (LSys (srv x) (mux x) (world x) (now x) (Some (now x)) (main x) (goro x) (serveErr x) (stopping x)
        (in_flight x) (answered x) (faults x))
  | Register r =>
      Some (LSys (Handle (reg_method r) (reg_path r) (reg_handler r) (reg_opts r) (srv x)) (mux x) (world x) (now x)
        (cancelled_at x) (main x) (goro x) (serveErr x) (stopping x) (in_flight x) (answered x) (faults x))
  | Delay d =>
      guard (may_wait d x = true);;
      Some (LSys (srv x) (mux x) (world x) (now x + d) (cancelled_at x) (main x) (goro x) (serveErr x) (stopping x)
        (in_flight x) (answered x) (faults x))
  | Bound =>
      match goro x, stopping x with
      | Binding, false => Some (set_chan (main x) Accepting (serveErr x) x)
      | _, _ => None
      end
  | Fault err =>
      if errors_is "http.ErrServerClosed" err then None
      else match goro x, stopping x with
      | Binding, _ | Accepting, false =>
          Some (LSys (srv x) (mux x) (world x) (now x) (cancelled_at x) (main x) (Sending err) (serveErr x) (stopping x)
            (in_flight x) (answered x) (faults x ++ [err]))
      | _, _ => None
      end
  | Stopped =>
      match goro x, stopping x with
      | (Binding | Accepting), true => Some (set_chan (main x) (Sending ErrServerClosed) (serveErr x) x)
      | _, _ => None
      end
  | Arrive req =>
      match goro x, stopping x with
      | Accepting, false =>
          Some (LSys (srv x) (mux x) (world x) (now x) (cancelled_at x) (main x) (goro x) (serveErr x) (stopping x)
            (in_flight x ++ [(req, serve (mux x) req)]) (answered x) (faults x))
      | _, _ => None
      end
  | Advance i =>
      match in_flight x !! i with
      | None => None
      | Some (req, TRet resp) =>
          Some (LSys (srv x) (mux x) (world x) (now x) (cancelled_at x) (main x) (goro x) (serveErr x) (stopping x)
            (delete i (in_flight x)) (answered x ++ [(req, resp)]) (faults x))
      | Some (req, TAct X f k) =>
          let '(r, w) := f (world x) in
          Some (LSys (srv x) (mux x) w (now x) (cancelled_at x) (main x) (goro x) (serveErr x) (stopping x)
            (<[i := (req, k r)]> (in_flight x)) (answered x) (faults x))
      end
  | Send =>
      match goro x, serveErr x with
      | Sending err, None => Some (set_chan (main x) Finished (Some err) x)
      | _, _ => None
      end
  | SelectDone =>
      match main x, cancelled_at x with
      | Selecting, Some _ =>
          Some (LSys (srv x) (mux x) (world x) (now x) (cancelled_at x) (ShuttingDown (now x + shutdown_timeout)) (goro x)
            (serveErr x) true (in_flight x) (answered x) (faults x))
      | _, _ => None
      end
  | SelectErr =>
      match main x, serveErr x with
      | Selecting, Some err => Some (set_chan (Returned (serve_error err)) (goro x) None x)
      | _, _ => None
      end
  | ShutdownReturns =>
      match main x with
      | ShuttingDown dl =>
          if bool_decide (in_flight x = []) || (dl <=? now x)
          then Some (set_main (Draining (now x + drain_timeout)) x) else None
      | _ => None
      end
  | DrainErr =>
      match main x, serveErr x with
      | Draining _, Some _ => Some (set_chan (Returned None) (goro x) None x)
      | _, _ => None
      end
  | DrainTimeout =>
      match main x with
      | Draining dl => if dl <=? now x then Some (set_main (Returned None) x) else None
      | _ => None
      end
  end.

(** A result that a computation can have while others change the state between
    its steps. *)
Inductive may_return {A} : task W A → A → Prop :=
| may_ret a : may_return (TRet a) a
| may_act X (f : W → X * W) k w a : may_return (k (f w).1) a → may_return (TAct X f k) a.

(** The requests handled one after the other. *)
Fixpoint replay (s : Server W) (reqs : list request) (w : W) : list answer * W :=
  match reqs with
  | [] => ([], w)
  | req :: reqs =>
      let '(resp, w1) := run_task (serve s req) w in
      let '(resps, w2) := replay s reqs w1 in (resp :: resps, w2)
  end.

Lemma replay_snoc s reqs req w :
  replay s (reqs ++ [req]) w =
  let '(resps, w1) := replay s reqs w in
  let '(resp, w2) := run_task (serve s req) w1 in (resps ++ [resp], w2).
Proof.
  revert w. induction reqs as [|r reqs IH]; intros w; cbn.
  - by destruct (run_task (serve s req) w).
  - destruct (run_task (serve s r) w) as [resp w1]. rewrite IH. destruct (replay s reqs w1) as [resps w2].
    by destruct (run_task (serve s req) w2).
Qed.

(** Where an error on its way to the caller comes from. *)
Definition explained (stop : bool) (fs : list error) (err : error) : Prop :=
  err = ErrServerClosed ∧ stop = true ∨ err ∈ fs ∧ errors_is "http.ErrServerClosed" err = false.

(** What the call may return. *)
Definition outcome_ok (stop : bool) (fs : list error) (r : option error) : Prop :=
  r = None ∧ stop = true ∨
  stop = false ∧ ∃ err, err ∈ fs ∧ errors_is "http.ErrServerClosed" err = false ∧
    r = Some (Wrapf "webhookhttp: serve: " err EmptyString).

(** Where the caller can be. *)
Definition caller_ok (stop : bool) (fs : list error) (m : caller) : Prop :=
  match m with
  | Selecting => stop = false
  | ShuttingDown _ | Draining _ => stop = true
  | Returned r => outcome_ok stop fs r
  end.

(** The goroutines agree about the shutdown, and the channel has room for the
    only message that is ever sent. *)
Record control (m : caller) (g : serving) (ch : option error) (stop : bool) (at_ : option Z) (fs : list error) : Prop := {
  c_room : g ≠ Finished → ch = None;
  c_sending : ∀ err, g = Sending err → explained stop fs err;
  c_sent : ∀ err, ch = Some err → explained stop fs err;
  c_stop : stop = true → is_Some at_;
  c_caller : caller_ok stop fs m;
}.

(** The caller is on time: [t] is when the context was cancelled. *)
Definition on_time (m : caller) (clock t : Z) : Prop :=
  t ≤ clock ∧
  match m with
  | Selecting => clock = t
  | ShuttingDown dl => clock ≤ dl ∧ dl = t + shutdown_timeout
  | Draining dl => clock ≤ dl ∧ dl ≤ t + shutdown_timeout + drain_timeout
  | Returned _ => True
  end.

(** What is left of a request has no other results than the whole. *)
Definition from_mux (s : Server W) (x : lsys) : Prop :=
  mux x = s ∧
  Forall (λ p : request * task W answer, ∀ a, may_return p.2 a → may_return (serve s p.1) a) (in_flight x) ∧
  Forall (λ p : request * answer, may_return (serve s p.1) p.2) (answered x).

Record linv (s : Server W) (x : lsys) : Prop := {
  linv_answers : from_mux s x;
  linv_control : control (main x) (goro x) (serveErr x) (stopping x) (cancelled_at x) (faults x);
  linv_time : ∀ t, cancelled_at x = Some t → on_time (main x) (now x) t;
}.

Lemma linv_start s w t : linv s (lstart s w t).
Proof. by repeat split. Qed.

Lemma more_faults stop fs err fs' :
  (∀ e, explained stop fs e → explained stop (fs ++ fs') e) ∧
  (∀ m, caller_ok stop fs m → caller_ok stop (fs ++ fs') m) ∧
  (errors_is "http.ErrServerClosed" err = false → explained stop (fs ++ [err]) err).
Proof.
  split_and!.
  - intros e [?|[??]]; [by left|right]. by rewrite elem_of_app; auto.
  - intros [| | |r]; try done. intros [?|(? & e & ? & ? & ?)]; [by left|right].
    split; [done|]. exists e. rewrite elem_of_app. auto.
  - intros He. right. by rewrite elem_of_app, list_elem_of_singleton; auto.
Qed.

Lemma explained_stop stop fs e : explained stop fs e → explained true fs e.
Proof. intros [[??]|?]; [left|right]; done. Qed.

(** What the caller returns is explained by what it received. *)
Lemma received_ok fs err : explained false fs err → outcome_ok false fs (serve_error err).
Proof. intros [[? [=]]|[Hin He]]. unfold serve_error. rewrite He. right. eauto. Qed.

Lemma lact_control a x y :
  control (main x) (goro x) (serveErr x) (stopping x) (cancelled_at x) (faults x) → lact a x = Some y →
  control (main y) (goro y) (serveErr y) (stopping y) (cancelled_at y) (faults y).
Proof.
  intros [Hroom Hsending Hsent Hstop Hcaller] Ha. destruct x as [sv mx w clock at_ m g ch stop fl an fs].
  destruct a as [| |d| |err| |req|i| | | | | |]; cbn in *.
  - case_guard; simplify_eq/=. split; try done.
  - simplify_eq/=. by split.
  - case_guard; simplify_eq/=. by split.
  - cases_in Ha. split; try done. intros _. by apply Hroom.
  - destruct (more_faults stop fs err [err]) as (Hm & Hc & He).
    cases_in Ha; split; try done; try (by apply Hc); try (by eauto); intros e; try (intros _; by apply Hroom);
      intros [=]; subst; auto.
  - cases_in Ha; split; try done; try (intros _; by apply Hroom); intros e [= <-]; by left.
  - cases_in Ha; by split.
  - cases_in Ha; by split.
  - cases_in Ha. split; try done. intros e [= <-]. by apply Hsending.
  - cases_in Ha. split; try done; eauto using explained_stop.
  - cases_in Ha. split; try done. apply received_ok. auto.
  - cases_in Ha. by split.
  - cases_in Ha. split; try done. by left.
  - cases_in Ha. split; try done. by left.
Qed.

(** Time passes within the deadlines. *)
Lemma may_wait_on_time d x t :
  may_wait d x = true → cancelled_at x = Some t → on_time (main x) (now x) t → on_time (main x) (now x + d) t.
Proof.
  unfold may_wait, on_time. intros [Hd Hm]%andb_prop Hc [Hle Ht]. apply Z.ltb_lt in Hd.
  destruct (main x) as [|dl|dl|r]; [by rewrite Hc in Hm|lia| |split; [lia|done]].
  apply andb_prop in Hm as [_ Hm]. lia.
Qed.

Lemma lact_time a x y :
  control (main x) (goro x) (serveErr x) (stopping x) (cancelled_at x) (faults x) →
  (∀ t, cancelled_at x = Some t → on_time (main x) (now x) t) → lact a x = Some y →
  ∀ t, cancelled_at y = Some t → on_time (main y) (now y) t.
Proof.
  intros [_ _ _ Hstop Hcaller] Ht Ha.
  destruct a as [| |d| |err| |req|i| | | | | |]; cbn [lact] in Ha; try (by cases_in Ha; eauto).
  - case_guard as Hc; simplify_eq/=. intros t [= <-]. unfold on_time. split; [lia|].
    destruct (main x) as [|dl|dl|r]; try done; cbn in Hcaller; destruct (Hstop Hcaller); congruence.
  - case_guard; simplify_eq/=. intros t Et. by apply may_wait_on_time; auto.
  - cases_in Ha. intros t [= <-]. destruct (Ht z eq_refl) as [? ?]. unfold on_time, shutdown_timeout, second. lia.
  - cases_in Ha. intros t Et. by destruct (Ht t Et).
  - cases_in Ha. intros t Et. destruct (Ht t Et) as (? & ? & ->). unfold on_time, drain_timeout, second. lia.
  - cases_in Ha. intros t Et. by destruct (Ht t Et).
  - cases_in Ha. intros t Et. by destruct (Ht t Et).
Qed.

Lemma lact_answers s a x y : from_mux s x → lact a x = Some y → from_mux s y.
Proof.
  intros (Hm & Hf & Hr) Ha. unfold from_mux. destruct a as [| |d| |err| |req|i| | | | | |]; cbn [lact] in Ha;
    try (case_guard; by simplify_eq/=); try (by cases_in Ha).
  - destruct (goro x), (stopping x); simplify_eq/=. split_and!; try done. apply Forall_app. split; [done|].
    by constructor.
  - destruct (in_flight x !! i) as [[req [resp|X f k]]|] eqn:Ei; [| |done];
      pose proof (Forall_lookup_1 _ _ _ _ Hf Ei) as Hi; cbn in Hi.
    + simplify_eq/=. split_and!; [done|by apply Forall_delete|]. apply Forall_app. split; [done|].
      constructor; [|done]. apply Hi. constructor.
    + destruct (f (world x)) as [r w] eqn:Ef. simplify_eq/=. split_and!; [done| |done].
      apply Forall_insert; [done|]. cbn. intros a Ha. apply Hi. apply (may_act X f k (world x)). by rewrite Ef.
Qed.

Lemma linv_run s w t acts x : runs lact acts (lstart s w t) = Some x → linv s x.
Proof.
  apply runs_invariant; [|apply linv_start]. clear. intros a x y [Hm Hc Ht] Ha.
  split; [by eapply lact_answers|by eapply lact_control|by eapply lact_time].
Qed.

(** *** Requests that do not overlap *)

(** At no time there are two requests in flight. *)
Definition one_by_one (acts : list act) (x0 : lsys) : Prop :=
  ∀ n y, runs lact (take n acts) x0 = Some y → (length (in_flight y) ≤ 1)%nat.

(** The answers are those of the requests in turn, and the one in flight is
    somewhere on its way. *)
Definition in_turn (s : Server W) (w0 : W) (x : lsys) : Prop :=
  ∃ w1, replay s (answered x).*1 w0 = ((answered x).*2, w1) ∧
    match in_flight x with
    | [] => world x = w1
    | [(req, t)] => run_task t (world x) = run_task (serve s req) w1
    | _ => False
    end.

Lemma lact_in_turn s w0 a x y :
  mux x = s → in_turn s w0 x → lact a x = Some y → (length (in_flight y) ≤ 1)%nat → in_turn s w0 y.
Proof.
  intros Hm (w1 & Hr & Hf) Ha Hl. destruct a as [| |d| |err| |req|i| | | | | |]; cbn [lact] in Ha;
    try (case_guard; simplify_eq/=; by exists w1); try (by cases_in Ha; exists w1).
  - destruct (goro x), (stopping x); simplify_eq/=. exists w1. split; [done|]. cbn.
    destruct (in_flight x) as [|[req' t] l]; cbn in *; [by rewrite Hf|].
    rewrite length_app in Hl. cbn in Hl. lia.
  - destruct (in_flight x) as [|[req t] [|p l]] eqn:Ex; [done| |done]. destruct i as [|i]; [|done]. cbn in Ha.
    destruct t as [resp|X f k].
    + simplify_eq/=. exists (world x). cbn [answered in_flight world]. rewrite !fmap_app. cbn [fmap list_fmap fst snd].
      rewrite replay_snoc, Hr. by rewrite <- Hf.
    + cbn in Hf. destruct (f (world x)) as [r w]. simplify_eq/=. by exists w1.
Qed.

Lemma in_turn_run s w t acts x :
  runs lact acts (lstart s w t) = Some x → one_by_one acts (lstart s w t) → in_turn s w x.
Proof.
  revert x. induction acts as [|a acts IH] using rev_ind; intros x Hr Ho.
  { simplify_eq/=. by exists w. }
  rewrite runs_app in Hr. destruct (runs lact acts (lstart s w t)) as [y|] eqn:Ey; [|done]. cbn in Hr.
  destruct (lact a y) as [z|] eqn:Ea; simplify_eq/=.
  apply (lact_in_turn s w a y); [by apply linv_run in Ey as [[? _] _ _]| |done|].
  - apply IH; [done|]. intros n y' Hy. destruct (decide (n ≤ length acts)%nat) as [Hn|Hn].
    + apply (Ho n). by rewrite take_app_le.
    + rewrite take_ge in Hy by lia. apply (Ho (length acts)). by rewrite take_app_length.
  - apply (Ho (S (length acts))). rewrite take_ge by (rewrite length_app; cbn; lia).
    rewrite runs_app, Ey. cbn. by rewrite Ea.
Qed.

(** *** Properties *)

(** C35: what the call serves and returns. In any interleaving of the steps of
    concurrent requests, [Handle] calls, listener failures, cancellation and time,
    each answer is one that [serve] can give for its request with the routes
    registered before the call, so that a later [Handle] changes nothing; as long
    as the requests do not overlap, the answers and the state of the handlers are
    those of [serve] on one request after the other. The call returns nil only if
    the context was cancelled, and an error only if it wraps a failure of the
    listener. *)
Theorem webhook_outcome (s : Server W) w t acts x :
  runs lact acts (lstart s w t) = Some x →
  (∀ req a, (req, a) ∈ answered x → may_return (serve s req) a) ∧
  (one_by_one acts (lstart s w t) → in_flight x = [] →
     replay s (answered x).*1 w = ((answered x).*2, world x)) ∧
  (∀ r, main x = Returned r →
    r = None ∧ is_Some (cancelled_at x) ∨
    ∃ err, err ∈ faults x ∧ r = Some (Wrapf "webhookhttp: serve: " err EmptyString)).
Proof.
  intros Hrun. pose proof (linv_run _ _ _ _ _ Hrun) as [(_ & _ & Ha) [_ _ _ Hstop Hcaller] _]. split_and!.
  - intros req a Hin. by apply (proj1 (Forall_forall _ _) Ha (req, a)).
  - intros Ho Hf. destruct (in_turn_run s w t acts x Hrun Ho) as (w1 & Hr & Hw). rewrite Hf in Hw. by rewrite Hw.
  - intros r Er. rewrite Er in Hcaller. destruct Hcaller as [[? ?]|(_ & err & ? & _ & ?)]; eauto.
Qed.

(** The caller's own actions, and time. *)
Definition by_caller (a : act) : Prop :=
  match a with
  | Delay _ | SelectDone | SelectErr | ShutdownReturns | DrainErr | DrainTimeout => True
  | _ => False
  end.

(** Alone, the caller gets from [x] to a return that is not later than [t]. *)
Definition returns_by (t : Z) (x : lsys) : Prop :=
  ∃ acts y r, Forall by_caller acts ∧ runs lact acts x = Some y ∧ main y = Returned r ∧ now y ≤ t.

Lemma returns_act a t x y : by_caller a → lact a x = Some y → returns_by t y → returns_by t x.
Proof.
  intros Ha Hy (acts & z & r & Hf & Hr & Hm & Hn). exists (a :: acts), z, r.
  split; [by constructor|]. cbn [runs]. rewrite Hy. done.
Qed.

(** It can wait for a deadline. *)
Lemma returns_wait dl t x :
  now x ≤ dl → (now x < dl → may_wait (dl - now x) x = true) →
  (∀ y, now y = dl → main y = main x → serveErr y = serveErr x → returns_by t y) → returns_by t x.
Proof.
  intros Hle Hw Hk. destruct (decide (now x = dl)) as [He|Hne]; [by apply Hk|].
  eapply (returns_act (Delay (dl - now x))); [done| |apply Hk].
  { cbn [lact]. rewrite option_guard_True by (apply Hw; lia). reflexivity. }
  all: cbn; done || lia.
Qed.

Lemma draining_returns dl x : main x = Draining dl → now x ≤ dl → returns_by dl x.
Proof.
  intros Hm Hle. destruct (serveErr x) as [err|] eqn:Ee.
  { eapply (returns_act DrainErr); [done|by cbn; rewrite Hm, Ee|]. by eexists [], _, _. }
  apply (returns_wait dl); [done| |].
  { intros Hlt. unfold may_wait. rewrite Hm, Ee, bool_decide_true by done.
    apply andb_true_intro. split; [apply Z.ltb_lt|apply Z.leb_le]; lia. }
  intros y Hn Hm' _. eapply (returns_act DrainTimeout); [done| |].
  { cbn. rewrite Hm', Hm, Hn, Z.leb_refl. reflexivity. }
  eexists [], _, _. cbn. split_and!; try done. change (now y ≤ dl). lia.
Qed.

Lemma shutting_down_returns dl x : main x = ShuttingDown dl → now x ≤ dl → returns_by (dl + drain_timeout) x.
Proof.
  intros Hm Hle. apply (returns_wait dl); [done| |].
  { intros Hlt. unfold may_wait. rewrite Hm. apply andb_true_intro. split; [apply Z.ltb_lt|apply Z.leb_le]; lia. }
  intros y Hn Hm' _. eapply (returns_act ShutdownReturns); [done| |].
  { cbn. rewrite Hm', Hm, Hn, Z.leb_refl, orb_true_r. reflexivity. }
  apply draining_returns; [done|]. change (now y ≤ dl + drain_timeout). unfold drain_timeout, second. lia.
Qed.

(** C36: the shutdown is bounded. In every state the call can reach after the
    context was cancelled: eleven seconds later the call has returned, whatever
    its handlers do; if it has not returned yet, it gets there by itself in that
    time; and the serving goroutine never waits to send its result, so that it
    ends even when nobody receives. *)
Theorem webhook_shutdown_bounded (s : Server W) w t acts x t0 :
  runs lact acts (lstart s w t) = Some x → cancelled_at x = Some t0 →
  (t0 + 11 * second < now x → ∃ r, main x = Returned r) ∧
  ((∃ r, main x = Returned r) ∨ returns_by (t0 + 11 * second) x) ∧
  (∀ err, goro x = Sending err → is_Some (lact Send x)).
Proof.
  intros [_ [Hroom _ _ Hstop Hcaller] Ht]%linv_run Hc. destruct (Ht t0 Hc) as [Hle Hon].
  assert (t0 + 11 * second = t0 + shutdown_timeout + drain_timeout) as Hsum
    by (unfold shutdown_timeout, drain_timeout, second; lia).
  rewrite !Hsum. split_and!.
  - intros Hlate. unfold shutdown_timeout, drain_timeout, second in *. destruct (main x); [lia|lia|lia|eauto].
  - destruct (main x) as [|dl|dl|r] eqn:Em; [right|right|right|by eauto].
    + eapply (returns_act SelectDone); [done|by cbn; rewrite Em, Hc|]. rewrite <- Hon.
      apply shutting_down_returns; cbn; [done|]. unfold shutdown_timeout, second. lia.
    + destruct Hon as [? ->]. by apply shutting_down_returns.
    + destruct Hon as [Hdl Hb]. destruct (draining_returns dl x Em Hdl) as (acts' & y & r & ? & ? & ? & ?).
      exists acts', y, r. split_and!; try done. lia.
  - intros err Hg. cbn. rewrite Hg, Hroom by (by rewrite Hg). done.
Qed.
End webhook.
Arguments lsys : clear implicits.
Arguments act : clear implicits.

(** *** Witnesses *)

(** A request in flight that outlives the shutdown. *)
Definition demo_server : Server nat := Handle "POST" "/hook" demo_handler [] (New demo_config).
Definition demo_acts : list (act nat) :=
  [Bound; Arrive demo_request; Advance 0; Advance 0; Arrive demo_request; Cancel; SelectDone; Delay (5 * second);
   ShutdownReturns; Delay second; Stopped; Send; DrainErr; Advance 0; Advance 0].
(** Two requests that overlap. *)
Definition demo_overlap : list (act nat) :=
  [Bound; Arrive demo_request; Arrive demo_request; Advance 1; Advance 0; Advance 1; Advance 0].

Lemma demo_one_by_one : one_by_one demo_acts (lstart demo_server 0%nat 0).
Proof.
  assert (∀ n, (n ≤ 15)%nat → match runs lact (take n demo_acts) (lstart demo_server 0%nat 0) with
    | Some y => (length (in_flight y) <=? 1)%nat | None => true end = true) as H.
  { intros n Hn. do 16 (destruct n as [|n]; [vm_compute; reflexivity|]). lia. }
  intros n y Hy. destruct (decide (n ≤ 15)%nat) as [Hn|Hn].
  - specialize (H n Hn). rewrite Hy in H. by apply Nat.leb_le.
  - rewrite take_ge in Hy by (cbn; lia). specialize (H 15%nat ltac:(lia)). rewrite take_ge, Hy in H by (cbn; lia).
    by apply Nat.leb_le.
Qed.

Lemma webhook_outcome_witness :
  (∃ x, runs lact demo_acts (lstart demo_server 0%nat 0) = Some x ∧
    main x = Returned None ∧ length (answered x) = 2%nat ∧ world x = 2%nat ∧
    replay demo_server (answered x).*1 0%nat = ((answered x).*2, 2%nat)) ∧
  (∃ x, runs lact demo_overlap (lstart demo_server 0%nat 0) = Some x ∧
    length (answered x) = 2%nat ∧ ∀ req a, (req, a) ∈ answered x → may_return (serve demo_server req) a).
Proof.
  split.
  - eexists. split; [vm_compute; reflexivity|]. split; [reflexivity|]. split; [reflexivity|]. split; [reflexivity|].
    exact (proj1 (proj2 (webhook_outcome demo_server 0%nat 0 demo_acts _ ltac:(vm_compute; reflexivity)))
      demo_one_by_one eq_refl).
  - eexists. split; [vm_compute; reflexivity|]. split; [reflexivity|].
    exact (proj1 (webhook_outcome demo_server 0%nat 0 demo_overlap _ ltac:(vm_compute; reflexivity))).
Defined.

Lemma webhook_shutdown_bounded_witness :
  ∃ x, runs lact (take 8 demo_acts) (lstart demo_server 0%nat 0) = Some x ∧
    ((∃ r, main x = Returned r) ∨ returns_by (0 + 11 * second) x).
Proof.
  eexists. split; [vm_compute; reflexivity|].
  exact (proj1 (proj2 (webhook_shutdown_bounded demo_server 0%nat 0 (take 8 demo_acts) _ 0
    ltac:(vm_compute; reflexivity) eq_refl))).
Defined.

(** ** [WithSignalHandler] *)

Module Signals.

(** The relay goroutine: in its [select], at [signal.Stop], or gone. *)
Inductive relay := Waiting | Stopping | Gone.

Record ssys := SSys {
  parent_done : bool;                 (** the parent context is cancelled *)
  ctx_done : bool;                    (** the context that was returned is cancelled *)
  sig : bool;                         (** the channel, of capacity one, holds a signal *)
  relaying : relay;
  notified : bool;                    (** [signal.Notify] is in force *)
  killed : bool;                      (** the default action of a signal has ended the process *)
  signals : nat;                      (** SIGINT and SIGTERM received *)
}.

(** What the call returns with. *)
Definition WithSignalHandler (parent : bool) : ssys := SSys parent parent false Waiting true false 0.

(** The runtime drops a signal for which the channel has no room; without
    [signal.Notify] a signal ends the process. *)
Inductive sig_act := ParentCancel | Signal | Receive | Done | Stop.
Definition sact (a : sig_act) (x : ssys) : option ssys :=
  if killed x then None else
  match a with
  | ParentCancel => Some (SSys true true (sig x) (relaying x) (notified x) false (signals x))
  | Signal =>
      if notified x
      then Some (SSys (parent_done x) (ctx_done x) true (relaying x) true false (S (signals x)))
      else Some (SSys (parent_done x) (ctx_done x) (sig x) (relaying x) false true (S (signals x)))
  | Receive =>
      match relaying x, sig x with
      | Waiting, true => Some (SSys (parent_done x) true false Stopping (notified x) false (signals x))
      | _, _ => None
      end
  | Done =>
      match relaying x, ctx_done x with
      | Waiting, true => Some (SSys (parent_done x) true (sig x) Stopping (notified x) false (signals x))
      | _, _ => None
      end
  | Stop =>
      match relaying x with
      | Stopping => Some (SSys (parent_done x) (ctx_done x) (sig x) Gone false false (signals x))
      | _ => None
      end
  end.

Record sinv (x : ssys) : Prop := {
  si_cause : ctx_done x = true → parent_done x = true ∨ (0 < signals x)%nat;
  si_sig : sig x = true → (0 < signals x)%nat;
  si_relay : relaying x ≠ Waiting → ctx_done x = true;
  si_notified : notified x = true ↔ relaying x ≠ Gone;
  si_kept : (0 < signals x)%nat → ctx_done x = true ∨ sig x = true;
  si_killed : killed x = true → relaying x = Gone ∧ (parent_done x = true ∨ (2 ≤ signals x)%nat);
}.

Lemma sact_inv a x y : sinv x → sact a x = Some y → sinv y.
Proof.
  intros [H1 H2 H3 H4 H5 H6] Ha. unfold sact in Ha. destruct x as [p c s r n k g], a; cbn in *;
    destruct k; try done; cases_in Ha; try destruct r; split; cbn in *; intuition (congruence || lia).
Qed.

(** Signals. In every interleaving, the context is cancelled only if the
    parent was or a signal arrived; a signal is never lost: the context is
    cancelled or the relay can receive it, which cancels it; a signal ends the
    process only after the relay has left, hence not the first one unless the
    parent was cancelled before; and once the relay has left the next one does. *)
Theorem signal_cancels_the_context parent acts x :
  runs sact acts (WithSignalHandler parent) = Some x →
  (ctx_done x = true → parent_done x = true ∨ (0 < signals x)%nat) ∧
  ((0 < signals x)%nat → ctx_done x = true ∨
     ∃ y, sact Receive x = Some y ∧ ctx_done y = true) ∧
  (killed x = true → relaying x = Gone ∧ (parent_done x = true ∨ (2 ≤ signals x)%nat)) ∧
  (killed x = false → relaying x = Gone → ∃ y, sact Signal x = Some y ∧ killed y = true).
Proof.
  intros Hr. assert (sinv x) as [Hcause _ Hrelay Hnot Hkept Hkilled].
  { revert Hr. apply runs_invariant; [apply sact_inv|]. destruct parent; split; cbn; auto with lia; done. }
  split_and!; [done| |done|].
  - intros Hs. destruct (Hkept Hs) as [?|Hsig]; [by left|]. destruct (ctx_done x); [by left|right].
    assert (relaying x = Waiting) as Ew by (destruct (relaying x); [done|by specialize (Hrelay ltac:(done))..]).
    unfold sact. destruct (killed x); [by destruct (Hkilled eq_refl); congruence|]. rewrite Ew, Hsig. eauto.
  - intros Hk Hg. unfold sact. rewrite Hk. destruct (notified x); [|eauto]. by apply Hnot in Hg.
Qed.

Lemma signal_cancels_the_context_witness :
  ∃ x, runs sact [Signal; Receive; Stop] (WithSignalHandler false) = Some x ∧ ctx_done x = true ∧
    ∃ y, sact Signal x = Some y ∧ killed y = true.
Proof.
  eexists. split; [reflexivity|]. split; [reflexivity|].
  apply (signal_cancels_the_context false [Signal; Receive; Stop]); reflexivity.
Defined.
End Signals.
