(* ===== verification/HttpThreads.v ===== *)
(** * Concurrent requests to an HTTP subscription

    [serveHTTP] of src/rpc/http/http.go as net/http runs it: a goroutine for each
    request, which all share the subscription's [closed] flag, its semaphore
    [sem] and the state of the handler. A request moves through the phases of the
    code; the machine takes one step of one request at a time, and in between
    bodies arrive, clients go away and the subscription is closed. *)
From Stdlib Require Import Ascii ZArith.
From stdpp Require Import prelude gmap strings list relations.
From S2P Require Import Prelude GoStrings GoText Json Base64 Rpc Threads Http Lifecycle.

Local Open Scope Z_scope.

Section machine.
Context {W : Type}.

(** Where the goroutine of a request is: before the check of [closed], in the
    [select], in [io.ReadAll], in the handler (what is left of it, the flag
    [replied], the response so far and the correlation id), before the deferred
    release of its slot, or done. *)
Inductive phase :=
| Arrived
| Waiting
| Reading
| Running (p : prog W (option error)) (replied : bool) (w : writer) (cid : string)
| Returning (w : writer)
| Answered (w : writer).

(** A request: what its body and its response will be, whether its context is
    done, whether its body has arrived (or failed to), and its phase. *)
Record call := Call { c_in : inbound; c_done : bool; c_body : bool; c_phase : phase }.

(** [x_sem] is the number of tokens in the channel [sem]. *)
Record hsys := HSys { x_sub : subscription W; x_calls : list call; x_sem : Z; x_world : W }.

(** The end of [serveHTTP], by what the handler returned. *)
Definition finish_response (err : option error) (replied : bool) (w : writer) (cid : string) : writer :=
  if replied then w
  else match err with
  | Some e => Write ("handler error: " +:+ error_text e) (WriteHeader 500 w)
  | None =>
      Write (marshal_envelope {| env_CorrelationID := cid; env_ReplyTo := EmptyString; env_Headers := ∅;
               env_ContentType := EmptyString; env_Body := None |}) (SetContentType json_type w)
  end.

(** The steps of the code, each by the request that makes it. *)
Inductive hstep := HCheck | HAcquire | HGiveUp | HRead | HRun | HRelease.

Definition closed_answer : writer := http_Error "subscription closed" 503 no_response.
Definition canceled_answer : writer := http_Error "request canceled" 503 no_response.

(** One step of one request: its next phase, the semaphore and the state of the
    handlers. A send to [sem] waits while the channel is full, [io.ReadAll] until
    the body is there, a receive from [sem] while it is empty. *)
Definition call_step (sub : subscription W) (sem : Z) (a : hstep) (c : call) (s : W) : option (phase * Z * W) :=
  match a, c_phase c with
  | HCheck, Arrived => Some (if hs_closed sub then Answered closed_answer else Waiting, sem, s)
  | HAcquire, Waiting => if sem <? hs_concurrency sub then Some (Reading, sem + 1, s) else None
  | HGiveUp, Waiting => if c_done c then Some (Answered canceled_answer, sem, s) else None
  | HRead, Reading =>
      if c_body c then
        match in_body (c_in c) with
        | inl err => Some (Returning (http_Error ("read body: " +:+ error_text err) 400 no_response), sem, s)
        | inr raw =>
            let envelope := decode_inbound raw in
            Some (Running (hs_handler sub (mk_delivery (hs_endpoint sub) envelope)) false no_response
                    (env_CorrelationID envelope), sem, s)
        end
      else None
  | HRun, Running p replied w cid =>
      match p with
      | Ret err => Some (Returning (finish_response err replied w cid), sem, s)
      | Eff X f k => let '(x, s') := f s in Some (Running (k x) replied w cid, sem, s')
      | AckOp k => Some (Running (k None) replied w cid, sem, s)
      | NackOp requeue k =>
          let '(err, replied', w') := nack_fn requeue replied w in Some (Running (k err) replied' w' cid, sem, s)
      | ReplyOp body ct k =>
          let '(err, replied', w') := reply_fn (c_in c) cid body ct replied w in
          Some (Running (k err) replied' w' cid, sem, s)
      end
  | HRelease, Returning w => if 0 <? sem then Some (Answered w, sem - 1, s) else None
  | _, _ => None
  end.

Inductive hact :=
| HArrive (req : inbound)      (** net/http starts a goroutine *)
| HBody (i : nat)              (** the body of a request has come in, or failed to *)
| HDone (i : nat)              (** the context of a request ends *)
| HClose                       (** the subscription or its transport is closed *)
| HMove (i : nat) (a : hstep). (** a step of the code *)

Definition set_phase (ph : phase) (c : call) : call := Call (c_in c) (c_done c) (c_body c) ph.
Definition set_calls (l : list call) (x : hsys) : hsys := HSys (x_sub x) l (x_sem x) (x_world x).

Definition hact_step (a : hact) (x : hsys) : option hsys :=
  match a with
  | HArrive req => Some (set_calls (x_calls x ++ [Call req false false Arrived]) x)
  | HBody i =>
      c ← x_calls x !! i;
      Some (set_calls (<[i := Call (c_in c) (c_done c) true (c_phase c)]> (x_calls x)) x)
  | HDone i =>
      c ← x_calls x !! i;
      Some (set_calls (<[i := Call (c_in c) true (c_body c) (c_phase c)]> (x_calls x)) x)
  | HClose => Some (HSys (set_closed (x_sub x)) (x_calls x) (x_sem x) (x_world x))
  | HMove i a =>
      c ← x_calls x !! i;
      '(ph, sem, s) ← call_step (x_sub x) (x_sem x) a c (x_world x);
      Some (HSys (x_sub x) (<[i := set_phase ph c]> (x_calls x)) sem s)
  end.

(** A subscription before its first request. *)
Definition idle (sub : subscription W) (s : W) : hsys := HSys sub [] 0 s.
End machine.
Arguments phase : clear implicits.
Arguments call : clear implicits.
Arguments hsys : clear implicits.

Section proofs.
Context {W : Type}.
Implicit Types (x y : hsys W) (c : call W).

(** ** Counting requests *)

Definition count (f : call W → bool) x : Z := Z.of_nat (length (filter (λ c, f c = true) (x_calls x))).

(** Requests that are being read or handled, those that have taken a slot and
    not given it back, and those that wait for their client's body. *)
Definition working c : bool := match c_phase c with Reading | Running _ _ _ _ => true | _ => false end.
Definition inside c : bool := match c_phase c with Reading | Running _ _ _ _ | Returning _ => true | _ => false end.
Definition stalled c : bool := match c_phase c with Reading => negb (c_body c) | _ => false end.

Lemma filter_snoc (f : call W → bool) l c :
  length (filter (λ c, f c = true) (l ++ [c])) =
  (length (filter (λ c, f c = true) l) + (if f c then 1 else 0))%nat.
Proof. rewrite filter_app, length_app. f_equal. rewrite filter_cons. destruct (f c); by case_decide. Qed.

Lemma filter_insert (f : call W → bool) l i c c' :
  l !! i = Some c →
  (length (filter (λ c, f c = true) (<[i := c']> l)) + (if f c then 1 else 0) =
   length (filter (λ c, f c = true) l) + (if f c' then 1 else 0))%nat.
Proof.
  revert i. induction l as [|d l IH]; intros [|i] Hi; simplify_eq/=.
  - rewrite !filter_cons. destruct (f c) eqn:E, (f c') eqn:E'; repeat case_decide; cbn; lia || congruence.
  - rewrite !filter_cons. specialize (IH i Hi). case_decide; cbn; lia.
Qed.

Lemma filter_le (f g : call W → bool) l :
  (∀ c, f c = true → g c = true) → (length (filter (λ c, f c = true) l) <= length (filter (λ c, g c = true) l))%nat.
Proof.
  intros Hfg. induction l as [|c l IH]; [done|]. rewrite !filter_cons.
  destruct (decide (f c = true)) as [Hf|Hf]; [rewrite decide_True by auto; cbn; lia|]. case_decide; cbn; lia.
Qed.

Lemma count_le f g x : (∀ c, f c = true → g c = true) → count f x ≤ count g x.
Proof. intros Hfg. unfold count. pose proof (filter_le f g (x_calls x) Hfg). lia. Qed.

Lemma count_zero f x : Forall (λ c, f c = false) (x_calls x) → count f x = 0.
Proof.
  unfold count. intros Hf. cut (filter (λ c, f c = true) (x_calls x) = []); [by intros ->|].
  induction Hf as [|c l Hc _ IH]; [done|]. rewrite filter_cons_False; [done|]. by rewrite Hc.
Qed.

(** ** Steps *)

(** What a step of the code does: the phase of one request, the semaphore and
    the state of the handlers. *)
Lemma move_inv i a x y :
  hact_step (HMove i a) x = Some y →
  ∃ c ph sem s, x_calls x !! i = Some c ∧ call_step (x_sub x) (x_sem x) a c (x_world x) = Some (ph, sem, s) ∧
    y = HSys (x_sub x) (<[i := set_phase ph c]> (x_calls x)) sem s.
Proof.
  cbn. destruct (x_calls x !! i) as [c|] eqn:Hi; [|done]. cbn.
  destruct (call_step _ _ _ _ _) as [[[ph sem] s]|] eqn:E; [|done]. cbn. intros [= <-]. eauto 10.
Qed.

Lemma move_at i a x c ph sem s :
  x_calls x !! i = Some c → call_step (x_sub x) (x_sem x) a c (x_world x) = Some (ph, sem, s) →
  hact_step (HMove i a) x = Some (HSys (x_sub x) (<[i := set_phase ph c]> (x_calls x)) sem s).
Proof. intros Hi Hc. cbn. rewrite Hi. cbn. by rewrite Hc. Qed.

(** The phases follow each other. *)
Definition is_answered (ph : phase W) : Prop := ∃ w, ph = Answered w.
Definition is_returning (ph : phase W) : Prop := ∃ w, ph = Returning w.
Definition next_phase (ph' ph : phase W) : Prop :=
  match ph with
  | Arrived => ph' = Waiting ∨ is_answered ph'
  | Waiting => ph' = Reading ∨ is_answered ph'
  | Reading => is_returning ph' ∨ ∃ p b w cid, ph' = Running p b w cid
  | Running (Ret _) _ _ _ => is_returning ph'
  | Running (Eff X f k) _ _ _ => ∃ a b w cid, ph' = Running (k a) b w cid
  | Running (AckOp k) _ _ _ | Running (NackOp _ k) _ _ _ | Running (ReplyOp _ _ k) _ _ _ =>
      ∃ e b w cid, ph' = Running (k e) b w cid
  | Returning w => ph' = Answered w
  | Answered _ => False
  end.

Lemma call_step_next sub sem a c s ph sem' s' :
  call_step sub sem a c s = Some (ph, sem', s') → next_phase ph (c_phase c).
Proof.
  unfold call_step, next_phase, is_answered, is_returning. destruct a, (c_phase c) as [| | |p b w cid|w|w]; try done.
  - intros [= <- _ _]. case_match; eauto.
  - case_match; [|done]. intros [= <- _ _]. eauto.
  - case_match; [|done]. intros [= <- _ _]. eauto.
  - case_match; [|done]. case_match; intros [= <- _ _]; eauto 10.
  - destruct p as [err|X f k|k|r k|body ct k].
    + intros [= <- _ _]. eauto.
    + destruct (f s) as [x s1]. intros [= <- _ _]. eauto.
    + intros [= <- _ _]. eauto.
    + unfold nack_fn. destruct b; intros [= <- _ _]; eauto.
    + unfold reply_fn. destruct b; intros [= <- _ _]; eauto.
  - case_match; [|done]. by intros [= <- _ _].
Qed.

Lemma next_phase_wf ph : Acc next_phase ph.
Proof.
  assert (∀ w, Acc next_phase (Answered w)) as Ha by (intros w; constructor; by intros ph').
  assert (∀ w, Acc next_phase (Returning w)) as Hrt by (intros w; constructor; by intros ph' ->).
  assert (∀ p b w cid, Acc next_phase (Running p b w cid)) as Hr.
  { induction p as [err|X f k IH|k IH|r k IH|body ct k IH]; intros b w cid; constructor; intros ph';
      [by intros [? ->]|by intros (? & ? & ? & ? & ->)..]. }
  assert (Acc next_phase Reading) as Hrd
    by (constructor; intros ph' [[? ->]|(? & ? & ? & ? & ->)]; auto).
  assert (Acc next_phase Waiting) as Hw by (constructor; intros ph' [->|[? ->]]; auto).
  destruct ph; auto. constructor. intros ph' [->|[? ->]]; auto.
Qed.

(** *** The semaphore *)

(** A token is in [sem] for each request that has taken a slot and not given it
    back. *)
Definition sem_ok x : Prop := x_sem x = count inside x ∧ x_sem x ≤ hs_concurrency (x_sub x).

Lemma call_step_sem sub sem a c s ph sem' s' :
  call_step sub sem a c s = Some (ph, sem', s') → sem ≤ hs_concurrency sub →
  sem' ≤ hs_concurrency sub ∧
  sem' + (if inside c then 1 else 0) = sem + (if inside (set_phase ph c) then 1 else 0).
Proof.
  unfold call_step, inside. destruct a, (c_phase c) as [| | |p b w cid|w|w] eqn:Hp; try done; cbn [set_phase c_phase].
  - intros [= <- <- _]. destruct (hs_closed sub); lia.
  - case_match eqn:Hl; [|done]. apply Z.ltb_lt in Hl. intros [= <- <- _]. lia.
  - case_match; [|done]. intros [= <- <- _]. lia.
  - case_match; [|done]. case_match; intros [= <- <- _]; lia.
  - destruct p as [err|X f k|k|r k|body ct k]; repeat case_match; intros [= <- <- _]; lia.
  - case_match; [|done]. intros [= <- <- _]. lia.
Qed.

Lemma sem_step a x y : sem_ok x → hact_step a x = Some y →
  sem_ok y ∧ hs_concurrency (x_sub y) = hs_concurrency (x_sub x).
Proof.
  intros [Hx Hle]. unfold sem_ok, count in *. destruct a as [req|i|i| |i a].
  - intros [= <-]. cbn. rewrite filter_snoc. cbn. lia.
  - cbn. destruct (x_calls x !! i) as [c|] eqn:Hi; [|done]. intros [= <-]. cbn.
    pose proof (filter_insert inside _ _ _ (Call (c_in c) (c_done c) true (c_phase c)) Hi) as Hs. unfold inside in *. cbn in Hs. lia.
  - cbn. destruct (x_calls x !! i) as [c|] eqn:Hi; [|done]. intros [= <-]. cbn.
    pose proof (filter_insert inside _ _ _ (Call (c_in c) true (c_body c) (c_phase c)) Hi) as Hs. unfold inside in *. cbn in Hs. lia.
  - by intros [= <-].
  - intros (c & ph & sem & s & Hi & Hc & ->)%move_inv. cbn.
    pose proof (filter_insert inside _ _ _ (set_phase ph c) Hi) as Hs.
    destruct (call_step_sem _ _ _ _ _ _ _ _ Hc Hle) as [Hle' Hsem].
    destruct (inside c), (inside (set_phase ph c)); lia.
Qed.

Lemma sem_reachable sub s acts x :
  0 ≤ hs_concurrency sub → runs hact_step acts (idle sub s) = Some x →
  sem_ok x ∧ hs_concurrency (x_sub x) = hs_concurrency sub.
Proof.
  intros Hc. apply (runs_invariant hact_step (λ y, sem_ok y ∧ hs_concurrency (x_sub y) = hs_concurrency sub)).
  - intros a y z [H1 H2] Hz. destruct (sem_step _ _ _ H1 Hz). split; [done|congruence].
  - split; [|done]. split; done.
Qed.

(** An answer is final. *)
Lemma answered_step a x y i c w :
  x_calls x !! i = Some c → c_phase c = Answered w → hact_step a x = Some y →
  ∃ c', x_calls y !! i = Some c' ∧ c_phase c' = Answered w.
Proof.
  intros Hi Hw. destruct a as [req|j|j| |j a].
  - intros [= <-]. exists c. split; [by apply lookup_app_l_Some|done].
  - cbn. destruct (x_calls x !! j) as [d|] eqn:Hj; [|done]. intros [= <-]. cbn.
    destruct (decide (i = j)) as [->|Hne]; [|rewrite list_lookup_insert_ne by done; eauto].
    rewrite list_lookup_insert_eq by (by eapply lookup_lt_Some). simplify_eq. eauto.
  - cbn. destruct (x_calls x !! j) as [d|] eqn:Hj; [|done]. intros [= <-]. cbn.
    destruct (decide (i = j)) as [->|Hne]; [|rewrite list_lookup_insert_ne by done; eauto].
    rewrite list_lookup_insert_eq by (by eapply lookup_lt_Some). simplify_eq. eauto.
  - intros [= <-]. eauto.
  - intros (d & ph & sem & s & Hj & Hc & ->)%move_inv. cbn.
    destruct (decide (i = j)) as [->|Hne]; [|rewrite list_lookup_insert_ne by done; eauto].
    simplify_eq. apply call_step_next in Hc. rewrite Hw in Hc. done.
Qed.

(** C15: the concurrency of an HTTP subscription. Whatever requests arrive
    and however their goroutines interleave with each other, with bodies that come
    in, with clients that go away and with [Close], at most [Concurrency] requests
    are being read or handled at any time; no slot is lost: the semaphore holds
    one token for each request between its acquisition and its deferred release,
    so none when all are answered; and an answer, once given, is final: the
    request never runs again. *)
Theorem http_concurrency_bound sub s acts x :
  0 < hs_concurrency sub → runs hact_step acts (idle sub s) = Some x →
  count working x ≤ hs_concurrency sub ∧
  x_sem x = count inside x ∧
  (Forall (λ c, is_answered (c_phase c)) (x_calls x) → x_sem x = 0) ∧
  ∀ i c w more y, x_calls x !! i = Some c → c_phase c = Answered w → runs hact_step more x = Some y →
    ∃ c', x_calls y !! i = Some c' ∧ c_phase c' = Answered w.
Proof.
  intros Hc Hr. destruct (sem_reachable sub s acts x ltac:(lia) Hr) as [[Hs Hle] Hcc]. split_and!.
  - assert (count working x ≤ count inside x); [|lia]. apply count_le. intros c. unfold working, inside. by case_match.
  - done.
  - intros Ha. rewrite Hs. apply count_zero. eapply Forall_impl; [exact Ha|]. intros c [w Hw]. unfold inside. by rewrite Hw.
  - intros i c w more y Hi Hw Hm.
    apply (runs_invariant hact_step (λ y, ∃ c', x_calls y !! i = Some c' ∧ c_phase c' = Answered w)) in Hm; [done| |by eauto].
    intros a z z' (c' & Hi' & Hw') Hz. by eapply answered_step.
Qed.

(** *** Closing *)

(** A step after [Close], seen from one request: it is new, or its phase is
    unchanged, or it was not checked and is refused, or it had passed the
    check. *)
Lemma closed_step a x y i c' :
  hs_closed (x_sub x) = true → hact_step a x = Some y → x_calls y !! i = Some c' →
  hs_closed (x_sub y) = true ∧
  match x_calls x !! i with
  | None => c_phase c' = Arrived
  | Some c => c_phase c' = c_phase c ∨ (c_phase c = Arrived ∧ c_phase c' = Answered closed_answer) ∨
              (c_phase c ≠ Arrived ∧ next_phase (c_phase c') (c_phase c))
  end.
Proof.
  intros Hcl.
  assert (∀ j d d', x_calls x !! j = Some d → c_phase d' = c_phase d → <[j := d']> (x_calls x) !! i = Some c' →
    match x_calls x !! i with Some c => c_phase c' = c_phase c | None => False end) as Hsame.
  { intros j d d' Hj Hp Hc. destruct (decide (i = j)) as [->|Hne].
    - rewrite list_lookup_insert_eq in Hc by (by eapply lookup_lt_Some). rewrite Hj. by simplify_eq.
    - rewrite list_lookup_insert_ne in Hc by done. by rewrite Hc. }
  destruct a as [req|j|j| |j a].
  - intros [= <-]. cbn. intros Hc. split; [done|]. apply lookup_app_Some in Hc as [Hc|[Hn Hc]].
    + rewrite Hc. by left.
    + rewrite lookup_ge_None_2 by done. apply list_lookup_singleton_Some in Hc as [_ <-]. done.
  - cbn. destruct (x_calls x !! j) as [d|] eqn:Hj; [|done]. intros [= <-]. cbn. intros Hc. split; [done|].
    apply (Hsame _ _ _ Hj) in Hc; [|done]. case_match; [by left|done].
  - cbn. destruct (x_calls x !! j) as [d|] eqn:Hj; [|done]. intros [= <-]. cbn. intros Hc. split; [done|].
    apply (Hsame _ _ _ Hj) in Hc; [|done]. case_match; [by left|done].
  - intros [= <-]. cbn. intros Hc. split; [done|]. rewrite Hc. by left.
  - intros (d & ph & sem & s & Hj & Hst & ->)%move_inv. cbn. intros Hc. split; [done|].
    destruct (decide (i = j)) as [->|Hne].
    + rewrite list_lookup_insert_eq in Hc by (by eapply lookup_lt_Some). rewrite Hj. simplify_eq. cbn. right.
      pose proof (call_step_next _ _ _ _ _ _ _ _ Hst) as Hn.
      destruct (c_phase d) as [| | |p b w cid|w|w] eqn:Hd; [left|right; by split..]. split; [done|].
      unfold call_step in Hst. rewrite Hd, Hcl in Hst. destruct a; by simplify_eq.
    + rewrite list_lookup_insert_ne in Hc by done. rewrite Hc. by left.
Qed.

(** What [Close] stops, and what it does not. Once the subscription is
    closed, a request that had not passed the check is never run: its only answer
    is 503. But a request that waits for a slot is not stopped: when a slot is
    free it goes on to its handler, so the handler may start after [Close] has
    returned. *)
Theorem http_close_stops x acts y i :
  hs_closed (x_sub x) = true → runs hact_step acts x = Some y →
  ((∀ c, x_calls x !! i = Some c → c_phase c = Arrived) →
   ∀ c, x_calls y !! i = Some c → c_phase c = Arrived ∨ c_phase c = Answered closed_answer) ∧
  (∀ c raw, x_calls x !! i = Some c → c_phase c = Waiting → c_body c = true → in_body (c_in c) = inr raw →
   x_sem x < hs_concurrency (x_sub x) →
   ∃ z c' p w cid, runs hact_step [HMove i HAcquire; HMove i HRead] x = Some z ∧
     x_calls z !! i = Some c' ∧ c_phase c' = Running p false w cid ∧
     p = hs_handler (x_sub x) (mk_delivery (hs_endpoint (x_sub x)) (decode_inbound raw))).
Proof.
  intros Hcl Hr. split.
  - intros Ha. revert Hr. apply (runs_invariant hact_step (λ y, hs_closed (x_sub y) = true ∧
      ∀ c, x_calls y !! i = Some c → c_phase c = Arrived ∨ c_phase c = Answered closed_answer)); [|by eauto].
    intros a z z' [Hz Hi] Hs. split.
    { destruct a; cbn in Hs; repeat (case_match || simplify_option_eq); done. }
    intros c' Hc'. destruct (closed_step _ _ _ _ _ Hz Hs Hc') as [_ Hp].
    destruct (x_calls z !! i) as [d|]; [|by left]. specialize (Hi _ eq_refl).
    destruct Hp as [-> |[[_ ->]|[Hn Hnext]]]; [done|by right|].
    destruct Hi as [Hi|Hi]; rewrite Hi in *; done.
  - intros c raw Hi Hw Hbd Hb Hs. cbn [runs].
    rewrite (move_at i HAcquire x c Reading (x_sem x + 1) (x_world x) Hi)
      by (unfold call_step; by rewrite Hw, (proj2 (Z.ltb_lt _ _) Hs)). cbn [mbind option_bind].
    assert (<[i := set_phase Reading c]> (x_calls x) !! i = Some (set_phase Reading c)) as Hi'
      by (apply list_lookup_insert_eq; by eapply lookup_lt_Some).
    erewrite move_at; [|exact Hi'|unfold call_step; cbn; by rewrite Hbd, Hb].
    cbn [mbind option_bind x_sub x_calls x_world].
    eexists _, _, _, _, _. split; [reflexivity|]. cbn [x_calls].
    rewrite list_lookup_insert_eq by (rewrite length_insert; by eapply lookup_lt_Some). split; [reflexivity|].
    by split.
Qed.

(** *** One request at a time *)

(** The state with request [i] in another phase. *)
Definition at_phase (i : nat) x c (ph : phase W) (sem : Z) (s : W) : hsys W :=
  HSys (x_sub x) (<[i := set_phase ph c]> (x_calls x)) sem s.

Lemma at_phase_lookup i x c c' ph sem s :
  x_calls x !! i = Some c' → x_calls (at_phase i x c ph sem s) !! i = Some (set_phase ph c).
Proof. intros Hi. apply list_lookup_insert_eq. by eapply lookup_lt_Some. Qed.

Lemma at_phase_move i x c c' ph sem s a ph' sem' s' :
  x_calls x !! i = Some c' → call_step (x_sub x) sem a (set_phase ph c) s = Some (ph', sem', s') →
  hact_step (HMove i a) (at_phase i x c ph sem s) = Some (at_phase i x c ph' sem' s').
Proof.
  intros Hi Hc. rewrite (move_at i a _ (set_phase ph c) ph' sem' s' (at_phase_lookup _ _ _ _ _ _ _ Hi) Hc).
  unfold at_phase. cbn. by rewrite list_insert_insert_eq.
Qed.

(** The goroutine of request [i], in the handler [p], can run to its end with
    the result of the handler's computation. *)
Definition reaches_by (i : nat) (x y : hsys W) : Prop :=
  ∃ acts, Forall (λ a, ∃ m, a = HMove i m) acts ∧ runs hact_step acts x = Some y.

Lemma reaches_by_refl i x : reaches_by i x x.
Proof. exists []. by split; [constructor|]. Qed.
Lemma reaches_by_step i m x y z : hact_step (HMove i m) x = Some y → reaches_by i y z → reaches_by i x z.
Proof.
  intros Hm (acts & Hall & Hr). exists (HMove i m :: acts). split; [constructor; eauto|]. cbn [runs]. by rewrite Hm.
Qed.

Lemma run_alone i x c c' sem p : x_calls x !! i = Some c' → ∀ b w cid s,
  let '(err, b', w', s') := run_handler (c_in c) cid p b w s in
  reaches_by i (at_phase i x c (Running p b w cid) sem s)
    (at_phase i x c (Returning (finish_response err b' w' cid)) sem s').
Proof.
  intros Hi. induction p as [err|X f k IH|k IH|r k IH|body ct k IH]; intros b w cid s; cbn [run_handler].
  - eapply reaches_by_step; [|apply reaches_by_refl]. by apply (at_phase_move _ _ _ _ _ _ _ HRun _ _ _ Hi).
  - destruct (f s) as [v s'] eqn:Ef. specialize (IH v b w cid s'). destruct (run_handler _ _ _ _ _ _) as [[[??]?]?].
    eapply reaches_by_step; [|exact IH]. apply (at_phase_move _ _ _ _ _ _ _ HRun _ _ _ Hi). cbn. by rewrite Ef.
  - specialize (IH None b w cid s). destruct (run_handler _ _ _ _ _ _) as [[[??]?]?].
    eapply reaches_by_step; [|exact IH]. by apply (at_phase_move _ _ _ _ _ _ _ HRun _ _ _ Hi).
  - destruct (nack_fn r b w) as [[e b'] w'] eqn:Ef. specialize (IH e b' w' cid s).
    destruct (run_handler _ _ _ _ _ _) as [[[??]?]?].
    eapply reaches_by_step; [|exact IH]. apply (at_phase_move _ _ _ _ _ _ _ HRun _ _ _ Hi). cbn. by rewrite Ef.
  - destruct (reply_fn (c_in c) cid body ct b w) as [[e b'] w'] eqn:Ef. specialize (IH e b' w' cid s).
    destruct (run_handler _ _ _ _ _ _) as [[[??]?]?].
    eapply reaches_by_step; [|exact IH]. apply (at_phase_move _ _ _ _ _ _ _ HRun _ _ _ Hi). cbn. by rewrite Ef.
Qed.

(** A request whose body is there can run to its answer while the others stand
    still, provided a slot is free; the answer and the state of the handlers are
    those of [serveHTTP], the slot is given back, and no other request changes. *)
Theorem http_machine_refines_serveHTTP x i req :
  x_calls x !! i = Some (Call req false true Arrived) → 0 ≤ x_sem x < hs_concurrency (x_sub x) →
  in_cancelled req = false →
  let '(w, s) := serveHTTP (x_sub x) req (x_world x) in
  reaches_by i x (at_phase i x (Call req false true Arrived) (Answered w) (x_sem x) s).
Proof.
  intros Hi Hs Hca. set (c := Call req false true Arrived : call W).
  assert (x = at_phase i x c Arrived (x_sem x) (x_world x)) as Hx.
  { destruct x. unfold at_phase, c in *. cbn in *. by rewrite list_insert_id. }
  assert (reaches_by i (at_phase i x c Arrived (x_sem x) (x_world x))
    (let '(w, s) := serveHTTP (x_sub x) req (x_world x) in at_phase i x c (Answered w) (x_sem x) s)) as Hgoal;
    [|rewrite <- Hx in Hgoal; by destruct (serveHTTP _ _ _)].
  unfold serveHTTP. rewrite Hca.
  assert (∀ w s y, y = at_phase i x c (Answered w) (x_sem x) s →
    reaches_by i (at_phase i x c (Returning w) (x_sem x + 1) s) y) as Hrel.
  { intros w s y ->. eapply reaches_by_step; [|apply reaches_by_refl].
    apply (at_phase_move _ _ _ _ _ _ _ HRelease _ _ _ Hi). cbn. rewrite (proj2 (Z.ltb_lt _ _)) by lia.
    by rewrite Z.add_simpl_r. }
  destruct (hs_closed (x_sub x)) eqn:Hcl.
  { eapply reaches_by_step; [|apply reaches_by_refl]. apply (at_phase_move _ _ _ _ _ _ _ HCheck _ _ _ Hi).
    cbn. by rewrite Hcl. }
  eapply (reaches_by_step i HCheck); [eapply at_phase_move; [exact Hi|cbn; rewrite Hcl; reflexivity]|].
  eapply (reaches_by_step i HAcquire);
    [eapply at_phase_move; [exact Hi|cbn; rewrite (proj2 (Z.ltb_lt _ _)) by lia; reflexivity]|].
  destruct (in_body req) as [err|raw] eqn:Hb.
  { eapply (reaches_by_step i HRead); [eapply at_phase_move; [exact Hi|cbn; rewrite Hb; reflexivity]|].
    by apply Hrel. }
  eapply (reaches_by_step i HRead); [eapply at_phase_move; [exact Hi|cbn; rewrite Hb; reflexivity]|].
  cbv zeta. set (e := decode_inbound raw). set (p := hs_handler _ _).
  pose proof (run_alone i x c _ (x_sem x + 1) p Hi false no_response (env_CorrelationID e) (x_world x)) as Hrun.
  cbn [c_in c] in Hrun. destruct (run_handler _ _ _ _ _ _) as [[[err b] w] s'].
  destruct Hrun as (acts & Hall & Hr).
  destruct (Hrel (finish_response err b w (env_CorrelationID e)) s' _ eq_refl) as (acts' & Hall' & Hr').
  assert (∀ y, y = at_phase i x c (Answered (finish_response err b w (env_CorrelationID e))) (x_sem x) s' →
    reaches_by i (at_phase i x c (Running p false no_response (env_CorrelationID e)) (x_sem x + 1) (x_world x)) y) as Hend.
  { intros y ->. exists (acts ++ acts'). split; [by apply Forall_app|]. rewrite runs_app, Hr. exact Hr'. }
  unfold finish_response in Hend. destruct err, b; by apply Hend.
Qed.

(** *** Every request is answered *)

Definition run_one x y : Prop := ∃ i a, hact_step (HMove i a) x = Some y.
(** Bodies come in, clients go away, the subscription is closed. *)
Definition env_one x y : Prop := ∃ a, (a = HClose ∨ ∃ i, a = HDone i ∨ a = HBody i) ∧ hact_step a x = Some y.
Definition all_answered x : Prop := Forall (λ c, is_answered (c_phase c)) (x_calls x).

(** Nobody waits for the code any more: a request is answered, or its body has
    not come in, or it waits for a slot while such requests hold all of them. *)
Definition only_clients x : Prop :=
  Forall (λ c, is_answered (c_phase c) ∨ stalled c = true ∨
    (c_phase c = Waiting ∧ count stalled x = hs_concurrency (x_sub x))) (x_calls x).

(** Whether the next step of a request needs no slot. *)
Definition movable c : bool :=
  match c_phase c with
  | Arrived | Running _ _ _ _ | Returning _ => true
  | Reading => c_body c
  | Waiting | Answered _ => false
  end.

Lemma movable_step c sub sem s :
  movable c = true → (inside c = true → 0 < sem) → ∃ a ph sem' s', call_step sub sem a c s = Some (ph, sem', s').
Proof.
  unfold movable, inside. destruct (c_phase c) as [| | |p b w cid|w|w] eqn:Hp; intros Hm Hs; try done.
  - exists HCheck. unfold call_step. rewrite Hp. eauto.
  - exists HRead. unfold call_step. rewrite Hp, Hm. case_match; eauto.
  - exists HRun. unfold call_step. rewrite Hp. destruct p; repeat case_match; eauto.
  - exists HRelease. unfold call_step. rewrite Hp, (proj2 (Z.ltb_lt _ _) (Hs eq_refl)). eauto.
Qed.

Lemma inside_pos x i c : x_calls x !! i = Some c → inside c = true → 0 < count inside x.
Proof.
  intros Hi Hc. unfold count. assert (c ∈ filter (λ c, inside c = true) (x_calls x)) as Hin.
  { apply list_elem_of_filter. split; [done|]. by eapply list_elem_of_lookup_2. }
  destruct (filter _ (x_calls x)); [by apply elem_of_nil in Hin|]. cbn. lia.
Qed.

Lemma clients_or_moves x : sem_ok x → only_clients x ∨ ∃ y, run_one x y.
Proof.
  intros [Hs Hle]. assert (∀ i c a r, x_calls x !! i = Some c →
    call_step (x_sub x) (x_sem x) a c (x_world x) = Some r → ∃ y, run_one x y) as Hmv.
  { intros i c a [[ph sem] s] Hi Hst. eexists _, i, a. by eapply move_at. }
  destruct (decide (Exists (λ c, movable c = true) (x_calls x))) as [He|He].
  { right. apply Exists_exists in He as (c & Hin & Hm). apply list_elem_of_lookup_1 in Hin as [i Hi].
    destruct (movable_step c (x_sub x) (x_sem x) (x_world x) Hm) as (a & ph & sem & s & Hst); [|eauto].
    intros Hc. rewrite Hs. by eapply inside_pos. }
  apply not_Exists_Forall in He; [|apply _].
  destruct (decide (x_sem x < hs_concurrency (x_sub x))) as [Hlt|Hge].
  - destruct (decide (Exists (λ c, match c_phase c with Waiting => true | _ => false end = true) (x_calls x))) as [Hw|Hw].
    { right. apply Exists_exists in Hw as (c & Hin & Hw). apply list_elem_of_lookup_1 in Hin as [i Hi].
      eapply (Hmv i c HAcquire); [done|]. unfold call_step. destruct (c_phase c) eqn:Hp; try done.
      by rewrite (proj2 (Z.ltb_lt _ _) Hlt). }
    left. apply not_Exists_Forall in Hw; [|apply _]. unfold only_clients. rewrite Forall_forall in He, Hw |- *.
    intros c Hin. specialize (He c Hin). specialize (Hw c Hin). unfold movable, stalled, is_answered in *. cbn in *.
    destruct (c_phase c) eqn:Hp; try done; [|by eauto]. right. left. by destruct (c_body c).
  - left. assert (count inside x = count stalled x) as Heq.
    { unfold count. do 2 f_equal. clear -He. induction He as [|c l Hc _ IH]; [done|]. rewrite !filter_cons, IH.
      assert (inside c = stalled c) as ->; [|done]. unfold compose, movable in Hc. revert Hc.
      unfold inside, stalled. destruct (c_phase c); try done. by destruct (c_body c). }
    unfold only_clients. rewrite Forall_forall in He |- *. intros c Hin. specialize (He c Hin).
    unfold movable in He. cbn in He. destruct (c_phase c) eqn:Hp; try done.
    + right. right. split; [done|]. lia.
    + right. left. unfold stalled. rewrite Hp. by destruct (c_body c).
    + left. by eexists.
Qed.

Lemma run_one_phases x y :
  run_one x y → list_step next_phase (c_phase <$> x_calls y) (c_phase <$> x_calls x).
Proof.
  intros (i & a & (c & ph & sem & s & Hi & Hs & ->)%move_inv). exists i, (c_phase c), ph.
  split; [by rewrite list_lookup_fmap, Hi|]. split; [by eapply call_step_next|]. cbn. by rewrite list_fmap_insert.
Qed.

Lemma env_one_phases x y : rtc env_one x y → c_phase <$> x_calls y = c_phase <$> x_calls x.
Proof.
  induction 1 as [|x y z (a & Ha & Hs) _ IH]; [done|]. rewrite IH. clear IH.
  destruct Ha as [-> |[i [-> | ->]]]; [by injection Hs as <-|..]; cbn in Hs;
    (destruct (x_calls x !! i) as [c|] eqn:Hi; [|done]; injection Hs as <-; cbn;
     rewrite list_fmap_insert; cbn; apply list_insert_id; by rewrite list_lookup_fmap, Hi).
Qed.

(** What the steps of the code and of the environment lead to. *)
Lemma clients_inevitable (Q P : hsys W → Prop) x :
  (∀ x y a, Q x → hact_step a x = Some y → (∀ req, a ≠ HArrive req) → Q y) →
  (∀ y, Q y → sem_ok y → only_clients y → P y) →
  Q x → sem_ok x → inevitable env_one run_one P x.
Proof.
  intros Hkeep HP. remember (c_phase <$> x_calls x) as ps eqn:Ep. revert x Ep.
  induction (list_step_wf next_phase next_phase_wf ps) as [ps _ IH]. intros x -> HQ Hs.
  destruct (clients_or_moves x Hs) as [Hd|Hm]; [by left; apply HP|]. right; [done|]. intros x' y Henv Hrun.
  assert (Q x' ∧ sem_ok x') as [HQ' Hs'].
  { clear -Hkeep HQ Hs Henv. induction Henv as [|x y z (a & Ha & Hst) _ IH]; [done|]. apply IH.
    - eapply Hkeep; [done..|]. intros req ->. destruct Ha as [|[i [|]]]; done.
    - by eapply sem_step. }
  eapply IH; [rewrite <- (env_one_phases _ _ Henv); by apply run_one_phases|reflexivity|..];
    destruct Hrun as (i & a & Hst); [by eapply Hkeep|by eapply sem_step].
Qed.

(** A stalled request stays so until its body comes in. *)
Lemma stalled_kept a x y :
  hact_step a x = Some y → (∀ i, a ≠ HBody i) → count stalled x ≤ count stalled y.
Proof.
  unfold count. destruct a as [req|i|i| |i a]; intros Hst Hb; [| |..].
  - injection Hst as <-. cbn. rewrite filter_snoc. lia.
  - by destruct (Hb i).
  - cbn in Hst. destruct (x_calls x !! i) as [c|] eqn:Hi; [|done]. injection Hst as <-. cbn.
    pose proof (filter_insert stalled _ _ _ (Call (c_in c) true (c_body c) (c_phase c)) Hi) as Hs. unfold stalled in *. cbn in Hs. lia.
  - by injection Hst as <-.
  - apply move_inv in Hst as (c & ph & sem & s & Hi & Hst & ->). cbn.
    pose proof (filter_insert stalled _ _ _ (set_phase ph c) Hi) as Hs.
    assert (stalled c = false) as Hc.
    { unfold stalled. destruct (c_phase c) eqn:Hp; try done. unfold call_step in Hst. rewrite Hp in Hst.
      destruct a; try done. by destruct (c_body c). }
    rewrite Hc in Hs. lia.
Qed.

(** While they hold all slots, a request that waits for one goes nowhere. *)
Lemma waiting_kept a x y i c :
  sem_ok x → hs_concurrency (x_sub x) ≤ count stalled x → hact_step a x = Some y →
  x_calls x !! i = Some c → c_phase c = Waiting →
  ∃ c', x_calls y !! i = Some c' ∧ (c_phase c' = Waiting ∨ c_phase c' = Answered canceled_answer).
Proof.
  intros [Hs Hle] Hfull Hst Hi Hw.
  assert (count stalled x ≤ count inside x) by (apply count_le; intros d; unfold stalled, inside; by case_match).
  assert (∀ j d d', x_calls x !! j = Some d → c_phase d' = c_phase d →
    ∃ c', <[j := d']> (x_calls x) !! i = Some c' ∧ (c_phase c' = Waiting ∨ c_phase c' = Answered canceled_answer)) as Hsame.
  { intros j d d' Hj Hp. destruct (decide (i = j)) as [->|Hne].
    - rewrite list_lookup_insert_eq by (by eapply lookup_lt_Some). simplify_eq. eexists. split; [done|]. left. congruence.
    - rewrite list_lookup_insert_ne by done. eauto. }
  destruct a as [req|j|j| |j a].
  - injection Hst as <-. exists c. split; [by apply lookup_app_l_Some|by left].
  - cbn in Hst. destruct (x_calls x !! j) as [d|] eqn:Hj; [|done]. injection Hst as <-. by eapply Hsame.
  - cbn in Hst. destruct (x_calls x !! j) as [d|] eqn:Hj; [|done]. injection Hst as <-. by eapply Hsame.
  - injection Hst as <-. eauto.
  - apply move_inv in Hst as (d & ph & sem & s & Hj & Hst & ->). cbn.
    destruct (decide (i = j)) as [->|Hne]; [|rewrite list_lookup_insert_ne by done; eauto].
    rewrite list_lookup_insert_eq by (by eapply lookup_lt_Some). simplify_eq. eexists. split; [done|]. cbn. right.
    unfold call_step in Hst. rewrite Hw in Hst. destruct a; try done.
    + by rewrite (proj2 (Z.ltb_ge _ _)) in Hst by lia.
    + case_match; by simplify_eq.
Qed.

(** C4: who waits for whom. Handlers that return never keep each other from
    being answered: from any state that the subscription can be in, while bodies
    come in, clients go away and it is closed at any moment, the steps of the
    requests lead inevitably to a state in which each is answered, or waits for
    the body of its own client, or waits for a slot while as many requests as the
    [Concurrency] wait for the bodies of theirs. If every body has come in, all
    requests are answered. But the body is read with the slot taken: requests
    whose bodies do not come in can hold all slots, and then a request that waits
    for one waits until a body comes in or its own client gives up. *)
Theorem http_requests_answered sub s acts x :
  0 < hs_concurrency sub → runs hact_step acts (idle sub s) = Some x →
  inevitable env_one run_one only_clients x ∧
  (Forall (λ c, c_body c = true) (x_calls x) → inevitable env_one run_one all_answered x) ∧
  (hs_concurrency sub ≤ count stalled x → ∀ more y i c,
     runs hact_step more x = Some y → Forall (λ a, ∀ j, a ≠ HBody j) more →
     x_calls x !! i = Some c → c_phase c = Waiting →
     ∃ c', x_calls y !! i = Some c' ∧ (c_phase c' = Waiting ∨ c_phase c' = Answered canceled_answer)).
Proof.
  intros Hc Hr. destruct (sem_reachable sub s acts x ltac:(lia) Hr) as [Hs Hcc]. split_and!.
  - by apply (clients_inevitable (λ _, True)).
  - intros Hb. apply (clients_inevitable (λ y, 0 < hs_concurrency (x_sub y) ∧ Forall (λ c, c_body c = true) (x_calls y)));
      [| |split; [lia|done]|done].
    + clear. intros x y a [Hc Hb] Hst Ha. destruct a as [req|i|i| |i a]; [by destruct (Ha req)|..].
      * cbn in Hst. destruct (x_calls x !! i) as [d|] eqn:Hi; [|done]. injection Hst as <-. split; [done|]. by apply Forall_insert.
      * cbn in Hst. destruct (x_calls x !! i) as [d|] eqn:Hi; [|done]. injection Hst as <-. split; [done|].
        apply Forall_insert; [done|]. cbn. by apply (Forall_lookup_1 _ _ _ _ Hb Hi).
      * by injection Hst as <-.
      * apply move_inv in Hst as (d & ph & sem & s & Hi & Hst & ->). split; [done|]. apply Forall_insert; [done|].
        cbn. by apply (Forall_lookup_1 _ _ _ _ Hb Hi).
    + intros y [Hcy Hby] _ Ho. assert (∀ c, c ∈ x_calls y → stalled c = false) as Hns.
      { intros c Hin. rewrite Forall_forall in Hby. unfold stalled. case_match; try done. by rewrite Hby. }
      assert (count stalled y = 0) as H0 by (apply count_zero, Forall_forall; exact Hns).
      unfold only_clients, all_answered in *. rewrite Forall_forall in Ho |- *. intros c Hin.
      destruct (Ho c Hin) as [|[Hst|[_ ?]]]; [done|by rewrite Hns in Hst|lia].
  - rewrite <- Hcc. clear Hr Hcc Hc. intros Hfull more y i c Hr Hmore Hi Hw.
    assert (∃ c, x_calls x !! i = Some c ∧ (c_phase c = Waiting ∨ c_phase c = Answered canceled_answer)) as Hci by eauto.
    clear c Hi Hw. revert x Hs Hfull Hr Hci.
    induction Hmore as [|a more Ha _ IH]; intros x Hs Hfull Hr Hci; [by injection Hr as <-|].
    cbn [runs] in Hr. destruct (hact_step a x) as [z|] eqn:Ez; [|done]. cbn in Hr.
    destruct (sem_step _ _ _ Hs Ez) as [Hsz Hcz]. apply (IH z); [done| |done|].
    + rewrite Hcz. pose proof (stalled_kept _ _ _ Ez Ha). lia.
    + destruct Hci as (c & Hi & [Hw|Hw]); [exact (waiting_kept _ _ _ _ _ Hs Hfull Ez Hi Hw)|].
      destruct (answered_step _ _ _ _ _ _ Hi Hw Ez) as (c' & ? & ?). eauto.
Qed.
End proofs.

(** ** Witnesses *)

Section examples.
(** A handler that counts its calls, one at a time. *)
Definition counting_sub : subscription nat :=
  {| hs_endpoint := "e"; hs_timeout := 1; hs_concurrency := 1;
     hs_handler := λ d, Eff unit (λ n, (tt, S n)) (λ _, Ret None); hs_closed := false |}.
Definition empty_request : inbound := {| in_cancelled := false; in_body := inr EmptyString; in_write_error := None |}.

(** Two requests have passed the check when the subscription is closed, and a
    third arrives later. *)
Definition closing_acts : list hact :=
  [HArrive empty_request; HArrive empty_request; HBody 0; HBody 1; HMove 0 HCheck; HMove 1 HCheck; HMove 0 HAcquire;
   HMove 0 HRead; HMove 0 HRun; HClose; HMove 0 HRun; HMove 0 HRelease; HArrive empty_request; HBody 2].
Definition closing_state : hsys nat := default (idle counting_sub 0%nat) (runs hact_step closing_acts (idle counting_sub 0%nat)).

Lemma http_concurrency_bound_witness : count working closing_state ≤ 1 ∧ x_sem closing_state = count inside closing_state.
Proof.
  destruct (http_concurrency_bound counting_sub 0%nat closing_acts closing_state ltac:(reflexivity) ltac:(reflexivity))
    as (H1 & H2 & _). split; [exact H1|exact H2].
Defined.

Lemma http_close_stops_witness :
  (∃ z c' p w cid, runs hact_step [HMove 1 HAcquire; HMove 1 HRead] closing_state = Some z ∧
     x_calls z !! 1%nat = Some c' ∧ c_phase c' = Running p false w cid ∧
     p = hs_handler counting_sub (mk_delivery "e" (decode_inbound EmptyString))) ∧
  ∀ c, x_calls closing_state !! 2%nat = Some c → c_phase c = Arrived ∨ c_phase c = Answered closed_answer.
Proof.
  split.
  - refine (proj2 (http_close_stops closing_state [] closing_state 1%nat eq_refl eq_refl)
      {| c_in := empty_request; c_done := false; c_body := true; c_phase := Waiting |} EmptyString _ _ _ _ _); reflexivity.
  - refine (proj1 (http_close_stops closing_state [] closing_state 2%nat eq_refl eq_refl) _).
    intros c Hc. vm_compute in Hc. injection Hc as <-. reflexivity.
Defined.

(** The first request has the only slot and its body does not come in; the second
    waits. *)
Definition stalled_acts : list hact :=
  [HArrive empty_request; HArrive empty_request; HBody 1; HMove 0 HCheck; HMove 1 HCheck; HMove 0 HAcquire].
Definition stalled_state : hsys nat := default (idle counting_sub 0%nat) (runs hact_step stalled_acts (idle counting_sub 0%nat)).

Lemma http_requests_answered_witness :
  inevitable env_one run_one all_answered closing_state ∧
  ∀ more y, runs hact_step more stalled_state = Some y → Forall (λ a, ∀ j, a ≠ HBody j) more →
    ∃ c', x_calls y !! 1%nat = Some c' ∧ (c_phase c' = Waiting ∨ c_phase c' = Answered canceled_answer).
Proof.
  split.
  - refine (proj1 (proj2 (http_requests_answered counting_sub 0%nat closing_acts closing_state eq_refl eq_refl)) _).
    vm_compute. repeat constructor.
  - intros more y Hr Hb.
    refine (proj2 (proj2 (http_requests_answered counting_sub 0%nat stalled_acts stalled_state eq_refl eq_refl)) _
      more y 1%nat {| c_in := empty_request; c_done := false; c_body := true; c_phase := Waiting |} Hr Hb _ _);
      vm_compute; done.
Defined.
End examples.
