(* ===== verification/Surface.v ===== *)
(** * Surfaces (package [surface])

    Models src/surface: the manifest types (types.go), the kinds (views.go),
    [Validate] (validate.go), the caller identity (caller.go) and the loaders
    (loader.go, with the YAML decoder and the file system as parameters). The
    three endpoints are in SurfaceHttp. *)
From Stdlib Require Import Ascii ZArith.
From stdpp Require Import prelude gmap strings.
From S2P Require Import Prelude GoStrings GoText GoFloat Json Backoff GoTime.

Local Open Scope Z_scope.

(** ** Types *)

(** A value of type [any] in a manifest: what the YAML decoder can put there, or
    a literal [json.Number] of a manifest written in Go. YAML has the floats that
    JSON lacks, timestamps, and maps with keys that are not strings, which are
    decoded as [map[any]any]. *)
Inductive dyn : Type :=
| DynNil
| DynBool (b : bool)
| DynInt (z : Z)                          (** [int], [int64] or [uint64] *)
| DynFloat64 (x : float64)                (** a finite [float64] *)
| DynNaN
| DynInf (negative : bool)
| DynNumber (lit : string)
| DynString (s : string)
| DynTime (t : Time)
| DynSlice (l : list dyn)
| DynMap (m : list (string * dyn))        (** members in order; the last one wins *)
| DynAnyMap (m : list (dyn * dyn)).

Record Permission := { perm_ID : string; perm_Label : string }.
Record Empty := { empty_Title : string; empty_Body : string }.
Record DataSource := { ds_Endpoint : string; RefreshIntervalS : Z }.
Record Column := { col_Field : string; col_Label : string; col_Format : string; col_Suffix : string }.
Record Filter := {
  filter_ID : string; filter_Kind : string; filter_Field : string; filter_Label : string;
  filter_Placeholder : string; filter_Options : list string; Applies : list (string * dyn) }.
Record FormField := {
  ff_Field : string; ff_Label : string; ff_Kind : string; Required : bool;
  ff_Options : list string; Default : dyn }.
Record Confirm := { confirm_Title : string; confirm_Body : string }.
Record Action := {
  act_ID : string; act_Label : string; act_Endpoint : string; act_Requires : list string;
  act_Confirm : option Confirm; OnSuccess : list (string * dyn); ShowWhen : string }.
Record TimelineItem := {
  TimestampField : string; TitleField : string; BodyField : string; Badges : list Column;
  Click : list (string * dyn) }.
Record Field := { field_Field : string; field_Label : string; field_Format : string }.
(** A slice whose member is not omitted when empty is written [null] when nil. *)
Record DetailSection := { section_Title : string; section_Fields : option (list Field) }.
Record Metric := { metric_Label : string; metric_Field : string; AlertWhen : string }.

(** A view holds drawers, which hold views. *)
Inductive View := MkView
  (Kind Component : string) (Source : option DataSource) (Columns : list Column)
  (Filters : list Filter) (RowActions : list Action) (Item : option TimelineItem)
  (Drawers : list Drawer) (Sections : list DetailSection) (Metrics : list Metric)
  (Endpoint Method : string) (Fields : list FormField)
  (SubmitLabel Title Link URLField : string) (VFilter : option Filter) (Extras : list (string * dyn))
with Drawer := MkDrawer (ID Fetch : string) (v : View).

Definition Kind (v : View) : string := let '(MkView k _ _ _ _ _ _ _ _ _ _ _ _ _ _ _ _ _ _) := v in k.
Definition Component (v : View) : string := let '(MkView _ c _ _ _ _ _ _ _ _ _ _ _ _ _ _ _ _ _) := v in c.
Definition Fields (v : View) : list FormField := let '(MkView _ _ _ _ _ _ _ _ _ _ _ _ f _ _ _ _ _ _) := v in f.

Record Page := {
  page_ID : string; Path : string; page_Title : string; page_Requires : list string;
  page_View : View; EmptyState : option Empty }.
Record Widget := {
  widget_ID : string; Target : string; Section_ : string; Priority : Z; widget_View : View }.
Record Manifest := {
  Surface_ : string; SurfaceVersion : string; SchemaVersion : Z; DisplayName : string;
  Icon : string; Description : string; Permissions : list Permission; Pages_ : option (list Page);
  Widgets : list Widget }.
(** Reading a nil slice is reading an empty one. *)
Definition Pages (m : Manifest) : list Page := default [] (Pages_ m).

(** ** Kinds *)

Definition ViewKindTable : string := "table".
Definition ViewKindDetail : string := "detail".
Definition ViewKindForm : string := "form".
Definition ViewKindTimeline : string := "timeline".
Definition ViewKindStatusGrid : string := "status-grid".
Definition ViewKindJSONInspector : string := "json-inspector".
Definition ViewKindChart : string := "chart".
Definition ViewKindEmbed : string := "embed".
Definition ViewKindCustom : string := "custom".
Definition ViewKindStatCard : string := "stat-card".
Definition ViewKindFilterContrib : string := "filter-contribution".

Definition FormFieldKindString : string := "string".
Definition FormFieldKindSecret : string := "secret".
Definition FormFieldKindNumber : string := "number".
Definition FormFieldKindBoolean : string := "boolean".
Definition FormFieldKindSelect : string := "select".
Definition FormFieldKindJSON : string := "json".

(** The slots that widgets may target, and the kinds of filters and formats:
    values of the contract that [Validate] does not check. *)
Definition SlotOpsHome : string := "ops_home".
Definition SlotOpsWorkflowsFilters : string := "ops_workflows.filters".
Definition SlotOpsIntegrationsTabs : string := "ops_integrations.detail.tabs".
Definition SlotOpsAuditFilters : string := "ops_audit.filters".
Definition SlotOpsCatalogTabs : string := "ops_catalog.tabs".

Definition FilterKindSearch : string := "search".
Definition FilterKindChipMulti : string := "chip-multi".
Definition FilterKindChipToggle : string := "chip-toggle".
Definition FilterKindSelect : string := "select".
Definition FilterKindDateRange : string := "date-range".
Definition FilterKindNumberRange : string := "number-range".
Definition FilterKindContribution : string := "filter-contribution".

Definition FormatText : string := "text".
Definition FormatCode : string := "code".
Definition FormatCodeBlockMD : string := "code-block-md".
Definition FormatTimeago : string := "timeago".
Definition FormatDatetime : string := "datetime".
Definition FormatCurrency : string := "currency".
Definition FormatNumber : string := "number".
Definition FormatPercent : string := "percent".
Definition FormatBadge : string := "badge".
Definition FormatLink : string := "link".
Definition FormatJSON : string := "json".
Definition FormatBytes : string := "bytes".
Definition FormatDuration : string := "duration".

Definition SchemaVersionCurrent : Z := 1.

Definition SupportedViewKinds : gset string :=
  list_to_set [ViewKindTable; ViewKindDetail; ViewKindForm; ViewKindTimeline; ViewKindStatusGrid;
               ViewKindJSONInspector; ViewKindChart; ViewKindEmbed; ViewKindCustom; ViewKindStatCard;
               ViewKindFilterContrib].
Definition SupportedFormFieldKinds : gset string :=
  list_to_set [FormFieldKindString; FormFieldKindSecret; FormFieldKindNumber; FormFieldKindBoolean;
               FormFieldKindSelect; FormFieldKindJSON].

(** ** [Validate] *)

Section validate.
Context `{UnicodeTables}.

(** [strings.TrimSpace(s) == ""]. *)
Definition blank (s : string) : bool := bool_decide (TrimSpace s = EmptyString).

(** The guards of a function, in order: the first that fires. *)
Fixpoint guards (l : list (bool * string)) : option error :=
  match l with
  | [] => None
  | (true, msg) :: _ => Some (Errorf ("manifest: " +:+ msg))
  | (false, _) :: l' => guards l'
  end.

(** One step, and then the rest. *)
Definition and_then (e : option error) (k : option error) : option error :=
  match e with Some _ => e | None => k end.

Definition validate_field (page : string) (j : Z) (f : FormField) : option error :=
  let field := "page " +:+ Quote page +:+ " form field " +:+ Quote (ff_Field f) in
  guards
    [(blank (ff_Field f), "page " +:+ Quote page +:+ " form field[" +:+ dec j +:+ "] field is required");
     (blank (ff_Label f), field +:+ " label is required");
     (bool_decide (ff_Kind f ∉ SupportedFormFieldKinds), field +:+ " has unknown kind " +:+ Quote (ff_Kind f));
     (bool_decide (ff_Kind f = FormFieldKindSelect ∧ ff_Options f = []),
      field +:+ " kind=select requires options")].

Fixpoint validate_fields (page : string) (j : Z) (fs : list FormField) : option error :=
  match fs with
  | [] => None
  | f :: fs' => and_then (validate_field page j f) (validate_fields page (j + 1) fs')
  end.

Definition validate_page (i : Z) (seen : gset string) (p : Page) : option error :=
  let page := "page " +:+ Quote (page_ID p) in
  let kind := Kind (page_View p) in
  and_then (guards
    [(blank (page_ID p), "page[" +:+ dec i +:+ "] id is required");
     (bool_decide (page_ID p ∈ seen), "duplicate page id " +:+ Quote (page_ID p));
     (negb (HasPrefix (Path p) "/"), page +:+ " path must start with /");
     (blank (page_Title p), page +:+ " title is required");
     (bool_decide (kind ∉ SupportedViewKinds), page +:+ " has unknown view kind " +:+ Quote kind);
     (bool_decide (kind = ViewKindCustom) && blank (Component (page_View p)),
      page +:+ " kind=custom requires a component name");
     (bool_decide (kind = ViewKindForm ∧ Fields (page_View p) = []),
      page +:+ " kind=form requires at least one field")])
  (if decide (kind = ViewKindForm) then validate_fields (page_ID p) 0 (Fields (page_View p)) else None).

Fixpoint validate_pages (i : Z) (seen : gset string) (ps : list Page) : option error :=
  match ps with
  | [] => None
  | p :: ps' => and_then (validate_page i seen p) (validate_pages (i + 1) ({[page_ID p]} ∪ seen) ps')
  end.

Definition validate_widget (i : Z) (seen : gset string) (w : Widget) : option error :=
  guards
    [(blank (widget_ID w), "widget[" +:+ dec i +:+ "] id is required");
     (bool_decide (widget_ID w ∈ seen), "duplicate widget id " +:+ Quote (widget_ID w));
     (blank (Target w), "widget " +:+ Quote (widget_ID w) +:+ " target is required");
     (bool_decide (Kind (widget_View w) ∉ SupportedViewKinds),
      "widget " +:+ Quote (widget_ID w) +:+ " has unknown view kind " +:+ Quote (Kind (widget_View w)))].

Fixpoint validate_widgets (i : Z) (seen : gset string) (ws : list Widget) : option error :=
  match ws with
  | [] => None
  | w :: ws' => and_then (validate_widget i seen w) (validate_widgets (i + 1) ({[widget_ID w]} ∪ seen) ws')
  end.

Definition validate_permission (i : Z) (seen : gset string) (p : Permission) : option error :=
  guards
    [(blank (perm_ID p), "permission[" +:+ dec i +:+ "] id is required");
     (bool_decide (perm_ID p ∈ seen), "duplicate permission id " +:+ Quote (perm_ID p))].

Fixpoint validate_permissions (i : Z) (seen : gset string) (ps : list Permission) : option error :=
  match ps with
  | [] => None
  | p :: ps' => and_then (validate_permission i seen p) (validate_permissions (i + 1) ({[perm_ID p]} ∪ seen) ps')
  end.

Definition Validate (m : Manifest) : option error :=
  and_then (guards
    [(blank (Surface_ m), "surface field is required");
     (SchemaVersion m <=? 0, "schema_version is required and must be > 0");
     (SchemaVersionCurrent <? SchemaVersion m,
      "unsupported schema_version " +:+ dec (SchemaVersion m) +:+ " (this SDK supports up to " +:+
      dec SchemaVersionCurrent +:+ ")");
     (blank (SurfaceVersion m), "surface_version is required");
     (blank (DisplayName m), "display_name is required");
     (bool_decide (Pages m = []), "at least one page is required")])
  (and_then (validate_pages 0 ∅ (Pages m))
  (and_then (validate_widgets 0 ∅ (Widgets m))
            (validate_permissions 0 ∅ (Permissions m)))).
End validate.

(** ** Caller identity *)

Definition InputVerifiedCallerID : string := "verified_caller_id".

(** A nil map is [None]. *)
Definition VerifiedCallerID (input : option (list (string * any))) : string :=
  match input with
  | None => EmptyString
  | Some m =>
      match map_get InputVerifiedCallerID m with
      | Some (AnyString v) => TrimSpace v
      | _ => EmptyString
      end
  end.

(** ** Loaders *)

Section load.
Context `{UnicodeTables} (yaml_Unmarshal : string → result Manifest) (fs_ReadFile : string → result string).

Definition LoadManifestFromBytes (raw : string) : result Manifest :=
  match yaml_Unmarshal raw with
  | inl err => inl (Wrapf "surface: parse manifest: " err EmptyString)
  | inr m => match Validate m with Some err => inl err | None => inr m end
  end.

Definition LoadManifestFromFS (path : string) : result Manifest :=
  match fs_ReadFile path with
  | inl err => inl (Wrapf ("surface: read " +:+ path +:+ ": ") err EmptyString)
  | inr raw => LoadManifestFromBytes raw
  end.
End load.

(** ** Well-formed manifests *)

Section spec.
Context `{UnicodeTables}.

Definition nonblank (s : string) : Prop := TrimSpace s ≠ EmptyString.

(** What the manifest contract asks for. *)
Definition field_ok (f : FormField) : Prop :=
  nonblank (ff_Field f) ∧ nonblank (ff_Label f) ∧ ff_Kind f ∈ SupportedFormFieldKinds ∧
  (ff_Kind f = FormFieldKindSelect → ff_Options f ≠ []).
Definition page_ok (p : Page) : Prop :=
  nonblank (page_ID p) ∧ (∃ rest, Path p = "/" +:+ rest) ∧ nonblank (page_Title p) ∧
  Kind (page_View p) ∈ SupportedViewKinds ∧
  (Kind (page_View p) = ViewKindCustom → nonblank (Component (page_View p))) ∧
  (Kind (page_View p) = ViewKindForm → Fields (page_View p) ≠ [] ∧ Forall field_ok (Fields (page_View p))).
Definition widget_ok (w : Widget) : Prop :=
  nonblank (widget_ID w) ∧ nonblank (Target w) ∧ Kind (widget_View w) ∈ SupportedViewKinds.
Definition manifest_ok (m : Manifest) : Prop :=
  nonblank (Surface_ m) ∧ 0 < SchemaVersion m ≤ SchemaVersionCurrent ∧ nonblank (SurfaceVersion m) ∧
  nonblank (DisplayName m) ∧ Pages m ≠ [] ∧
  Forall page_ok (Pages m) ∧ NoDup (page_ID <$> Pages m) ∧
  Forall widget_ok (Widgets m) ∧ NoDup (widget_ID <$> Widgets m) ∧
  Forall (λ p, nonblank (perm_ID p)) (Permissions m) ∧ NoDup (perm_ID <$> Permissions m).

(** *** Lemmas *)

Lemma guards_None l : guards l = None ↔ Forall (λ g, g.1 = false) l.
Proof.
  induction l as [|[[] msg] l IH]; cbn; [by split|..].
  - split; [done|]. intros Hf. by apply Forall_cons in Hf as [? _].
  - rewrite IH, Forall_cons. cbn. tauto.
Qed.

Lemma and_then_None e k : and_then e k = None ↔ e = None ∧ k = None.
Proof. destruct e; cbn; [split; [done|intros [? _]; done]|tauto]. Qed.

Lemma blank_false s : blank s = false ↔ nonblank s.
Proof. unfold blank, nonblank. by rewrite bool_decide_eq_false. Qed.

Lemma HasPrefix_slash s : HasPrefix s "/" = true ↔ ∃ rest, s = "/" +:+ rest.
Proof. apply HasPrefix_true. Qed.

(** The loops that collect identifiers: [ok] of each item, and no duplicates. *)
Lemma seen_loop {A} (id : A → string) (ok : A → Prop) (check : Z → gset string → A → option error)
    (loop : Z → gset string → list A → option error) :
  (∀ i seen, loop i seen [] = None) →
  (∀ i seen a l, loop i seen (a :: l) = and_then (check i seen a) (loop (i + 1) ({[id a]} ∪ seen) l)) →
  (∀ i seen a, check i seen a = None ↔ ok a ∧ id a ∉ seen) →
  ∀ l i seen, loop i seen l = None ↔
    Forall ok l ∧ NoDup (id <$> l) ∧ Forall (λ a, id a ∉ seen) l.
Proof.
  intros H0 HS Hc. induction l as [|a l IH]; intros i seen.
  - rewrite H0. split; [|done]. intros _. repeat split; constructor.
  - rewrite HS, and_then_None, Hc, IH, fmap_cons, NoDup_cons, !Forall_cons.
    rewrite !Forall_forall. setoid_rewrite not_elem_of_union. setoid_rewrite not_elem_of_singleton.
    rewrite list_elem_of_fmap. split.
    + intros [[? ?] (? & ? & Hl)]. split_and!; try done.
      * intros (y & Heq & Hy). by destruct (Hl y Hy).
      * intros x Hx. by destruct (Hl x Hx).
    + intros ((? & ?) & (Hn & ?) & ? & Hl). split_and!; try done. intros x Hx.
      split; [|by apply Hl]. intros Heq. apply Hn. exists x. by rewrite Heq.
Qed.

Lemma known_false k (ks : gset string) : bool_decide (k ∉ ks) = false ↔ k ∈ ks.
Proof. rewrite bool_decide_eq_false. destruct (decide (k ∈ ks)); tauto. Qed.

Lemma needs_false (P1 P2 : Prop) `{Decision P1, Decision P2} :
  bool_decide (P1 ∧ P2) = false ↔ (P1 → ¬ P2).
Proof. rewrite bool_decide_eq_false. tauto. Qed.

Lemma needs_false_b (P1 : Prop) b `{Decision P1} : bool_decide P1 && b = false ↔ (P1 → b = false).
Proof. destruct (decide P1); [rewrite bool_decide_true|rewrite bool_decide_false]; cbn; tauto. Qed.

Lemma needs_None (P1 : Prop) e `{Decision P1} :
  (if decide P1 then e else None) = @None error ↔ (P1 → e = None).
Proof. case_decide; tauto. Qed.

(** Turns the guards of a goal into the conditions that they check. *)
Ltac guard_conditions :=
  rewrite ?and_then_None, ?guards_None, ?Forall_cons, ?Forall_nil; cbn [fst];
  rewrite ?known_false, ?needs_false, ?needs_false_b, ?needs_None, ?blank_false, ?bool_decide_eq_false,
    ?negb_false_iff, ?HasPrefix_slash.

Lemma validate_field_ok page j f : validate_field page j f = None ↔ field_ok f.
Proof. unfold validate_field, field_ok. cbv zeta. guard_conditions. tauto. Qed.

Lemma validate_fields_ok page fs j : validate_fields page j fs = None ↔ Forall field_ok fs.
Proof.
  revert j. induction fs as [|f fs IH]; intros j; cbn [validate_fields]; [by split|].
  by rewrite and_then_None, validate_field_ok, IH, Forall_cons.
Qed.

Lemma validate_page_ok i seen p : validate_page i seen p = None ↔ page_ok p ∧ page_ID p ∉ seen.
Proof. unfold validate_page, page_ok. cbv zeta. guard_conditions. rewrite validate_fields_ok. tauto. Qed.

Lemma validate_widget_ok i seen w : validate_widget i seen w = None ↔ widget_ok w ∧ widget_ID w ∉ seen.
Proof. unfold validate_widget, widget_ok. guard_conditions. tauto. Qed.

Lemma validate_permission_ok i seen p :
  validate_permission i seen p = None ↔ nonblank (perm_ID p) ∧ perm_ID p ∉ seen.
Proof. unfold validate_permission. guard_conditions. tauto. Qed.

(** An empty set of seen identifiers adds nothing. *)
Lemma none_seen {A} (id : A → string) (l : list A) : Forall (λ a, id a ∉ (∅ : gset string)) l.
Proof. apply Forall_true. intros a. apply not_elem_of_empty. Qed.

(** An accepted manifest has pages. *)
Lemma Validate_pages m : Validate m = None → ∃ ps, Pages_ m = Some ps ∧ ps ≠ [].
Proof.
  unfold Validate. rewrite and_then_None, guards_None, !Forall_cons. cbn [fst].
  intros [(_ & _ & _ & _ & _ & Hp & _) _]. apply bool_decide_eq_false in Hp. unfold Pages in Hp.
  destruct (Pages_ m) as [ps|]; [eauto|done].
Qed.

(** C27: [Validate] accepts exactly the well-formed manifests: required texts
    not blank, a supported schema version, at least one page, identifiers that
    are unique within pages, widgets and permissions, absolute page paths, known
    view kinds, a component for custom views, and for form views at least one
    field, each with a name, a label, a known kind and, for a select, options. *)
Theorem validate_accepts_iff m : Validate m = None ↔ manifest_ok m.
Proof.
  unfold Validate, manifest_ok. guard_conditions. rewrite Z.leb_gt, Z.ltb_ge.
  rewrite (seen_loop page_ID page_ok validate_page validate_pages) by (done || apply validate_page_ok).
  rewrite (seen_loop widget_ID widget_ok validate_widget validate_widgets) by (done || apply validate_widget_ok).
  rewrite (seen_loop perm_ID (λ p, nonblank (perm_ID p)) validate_permission validate_permissions)
    by (done || apply validate_permission_ok).
  pose proof (none_seen page_ID (Pages m)). pose proof (none_seen widget_ID (Widgets m)).
  pose proof (none_seen perm_ID (Permissions m)). tauto.
Qed.

End spec.

(** The identity of the caller is the top-level member only: what the client
    nests under other keys never changes it. *)
Lemma caller_id_top_level m k v :
  k ≠ InputVerifiedCallerID → VerifiedCallerID (Some ((k, v) :: m)) = VerifiedCallerID (Some m).
Proof. intros Hk. unfold VerifiedCallerID, map_get. by rewrite filter_cons_False. Qed.

Example validate_example :
  let v := MkView "table" EmptyString None [] [] [] None [] [] [] EmptyString EmptyString [] EmptyString
             EmptyString EmptyString EmptyString None [] in
  let p := {| page_ID := "home"; Path := "/"; page_Title := "Home"; page_Requires := []; page_View := v;
              EmptyState := None |} in
  let m ps := {| Surface_ := "s"; SurfaceVersion := "1.0.0"; SchemaVersion := 1; DisplayName := "S"; Icon := EmptyString;
                 Description := EmptyString; Permissions := []; Pages_ := Some ps; Widgets := [] |} in
  Validate (H:=ascii_tables) (m [p]) = None ∧
  Validate (H:=ascii_tables) (m [p; p]) =
    Some (Errorf ("manifest: duplicate page id " +:+ Quote (H:=ascii_tables) "home")).
Proof. vm_compute. done. Qed.
