(* ===== verification/SurfaceJson.v ===== *)
(** * The JSON of a surface manifest

    [json.Encoder] on the types of src/surface/types.go: the document of a
    manifest under its struct tags (names, [omitempty]), with the dynamic values
    of maps and defaults. The encoder escapes no HTML ([SetEscapeHTML(false)]).
    It fails exactly when the manifest holds a dynamic value that JSON does not
    have: a float that is no number, a map with other keys than strings, a time
    out of range or an invalid [json.Number]. *)
From Stdlib Require Import Ascii ZArith.
From stdpp Require Import prelude gmap strings.
From S2P Require Import Prelude GoStrings GoText GoFloat Json Utf8 JsonText Base64 JsonDoc Http Backoff GoTime Surface.

Local Open Scope Z_scope.

(** ** Dynamic values *)

(** A [float64]: [%f], or [%e] when it is below 1e-6 or at least 1e21; the
    exponent has no leading zero. *)
Definition float_ltb (x y : Z * Z) : bool := x.1 * y.2 <? y.1 * x.2.
Definition micro : Z * Z := default (0, 1) (mag <$> ParseFloat "1e-6").
Definition json_float (x : float64) : list ascii :=
  sign_text x ++
  if float_is_zero x then ["0"]%char
  else
    let '(ds, dp) := digits_point x in
    if float_ltb (mag x) micro || negb (float_ltb (mag x) (10 ^ 21, 1))
    then exp_text dec_nat ds (dp - 1) else fixed_text ds dp.

(** A [map[string]T] that was built from members in order, as the encoder walks
    it: one member for each key, sorted by the bytes of the keys. *)
Fixpoint insert_member {A} (k : string) (a : A) (l : list (string * A)) : list (string * A) :=
  match l with
  | [] => [(k, a)]
  | e :: l' => if str_leb k e.1 then (k, a) :: l else e :: insert_member k a l'
  end.
Definition put_member {A} (k : string) (a : A) (l : list (string * A)) : list (string * A) :=
  insert_member k a (filter (λ e, e.1 ≠ k) l).
Definition sorted_map {A} (m : list (string * A)) : list (string * A) :=
  foldl (λ l e, put_member e.1 e.2 l) [] m.

#[global] Instance result_fmap : FMap (sum error) := λ A B f r,
  match r with inl e => inl e | inr a => inr (f a) end.

(** The first error, or all the values. *)
Fixpoint sequence {A} (l : list (result A)) : result (list A) :=
  match l with
  | [] => inr []
  | inl e :: _ => inl e
  | inr a :: l' => cons a <$> sequence l'
  end.
Definition sequence_members {A} (l : list (string * result A)) : result (list (string * A)) :=
  sequence ((λ e : string * result A, (λ a, (e.1, a)) <$> e.2) <$> l).

(** The members that one field contributes: none when it is omitted. *)
Abbreviation members := (result (list (string * doc))).

Section encode.
Context `{UnicodeTables}.

(** [Time.MarshalJSON], and the error around its own. *)
Definition time_doc (t : Time) : result doc :=
  match MarshalTime t with
  | Some text => inr (DStr (of_l text))
  | None =>
      let '(y, _, _) := civil ((UnixNano t + zone t * Second) / day_ns) in
      inl (Errorf ("json: error calling MarshalJSON for type time.Time: Time.MarshalJSON: " +:+
        if (0 <=? y) && (y <=? 9999) then "timezone hour outside of range [0,23]"
        else "year outside of range [0,9999]"))
  end.

Fixpoint any_doc (v : dyn) : result doc :=
  match v with
  | DynNil => inr DNull
  | DynBool b => inr (DBool b)
  | DynInt z => inr (DNum (to_l (dec z)))
  | DynFloat64 x => inr (DNum (json_float x))
  | DynNaN => inl (Errorf "json: unsupported value: NaN")
  | DynInf negative => inl (Errorf ("json: unsupported value: " +:+ if negative then "-Inf" else "+Inf"))
  | DynNumber n =>
      if decide (n = EmptyString) then inr (DNum ["0"%char])
      else if decide (num_ok (to_l n)) then inr (DNum (to_l n))
      else inl (Errorf ("json: invalid number literal " +:+ Quote n))
  | DynString s => inr (DStr s)
  | DynTime t => time_doc t
  | DynSlice l => DArr <$> sequence (map any_doc l)
  | DynMap m => DObj <$> sequence_members (sorted_map (map (λ e, (e.1, any_doc e.2)) m))
  | DynAnyMap _ => inl (Errorf "json: unsupported type: map[interface {}]interface {}")
  end.

(** ** Struct members *)

Definition always (name : string) (v : doc) : members := inr [(name, v)].
Definition str (name value : string) : members := always name (DStr value).
Definition unless (empty : bool) (name : string) (v : result doc) : members :=
  if empty then inr [] else (λ d, [(name, d)]) <$> v.
Definition str_opt (name value : string) : members :=
  unless (bool_decide (value = EmptyString)) name (inr (DStr value)).
Definition int_opt (name : string) (z : Z) : members := unless (z =? 0) name (inr (DNum (to_l (dec z)))).
Definition bool_opt (name : string) (b : bool) : members := unless (negb b) name (inr (DBool b)).
Definition list_opt {A} (name : string) (enc : A → result doc) (l : list A) : members :=
  unless (bool_decide (length l = 0%nat)) name (DArr <$> sequence (map enc l)).
Definition strs_opt (name : string) (l : list string) : members := list_opt name (λ s, inr (DStr s)) l.
Definition ptr_opt {A} (name : string) (enc : A → result doc) (p : option A) : members :=
  match p with None => inr [] | Some a => (λ d, [(name, d)]) <$> enc a end.
Definition map_opt (name : string) (m : list (string * dyn)) : members :=
  unless (bool_decide (length m = 0%nat)) name (any_doc (DynMap m)).
(** A slice without [omitempty]. *)
Definition list_req {A} (name : string) (enc : A → result doc) (l : option (list A)) : members :=
  (λ d, [(name, d)]) <$> match l with None => inr DNull | Some l => DArr <$> sequence (map enc l) end.

Definition struct (fields : list members) : result doc := (λ ms, DObj (concat ms)) <$> sequence fields.

(** ** The types of the manifest *)

Definition permission_doc (p : Permission) : result doc :=
  struct [str "id" (perm_ID p); str "label" (perm_Label p)].
Definition empty_doc (e : Empty) : result doc :=
  struct [str "title" (empty_Title e); str "body" (empty_Body e)].
Definition source_doc (d : DataSource) : result doc :=
  struct [str "endpoint" (ds_Endpoint d); int_opt "refresh_interval_s" (RefreshIntervalS d)].
Definition column_doc (c : Column) : result doc :=
  struct [str "field" (col_Field c); str "label" (col_Label c); str_opt "format" (col_Format c);
          str_opt "suffix" (col_Suffix c)].
Definition filter_doc (f : Filter) : result doc :=
  struct [str "id" (filter_ID f); str "kind" (filter_Kind f); str_opt "field" (filter_Field f);
          str_opt "label" (filter_Label f); str_opt "placeholder" (filter_Placeholder f);
          strs_opt "options" (filter_Options f); map_opt "applies" (Applies f)].
Definition form_field_doc (f : FormField) : result doc :=
  struct [str "field" (ff_Field f); str "label" (ff_Label f); str "kind" (ff_Kind f);
          bool_opt "required" (Required f); strs_opt "options" (ff_Options f);
          unless (match Default f with DynNil => true | _ => false end) "default" (any_doc (Default f))].
Definition confirm_doc (c : Confirm) : result doc :=
  struct [str "title" (confirm_Title c); str "body" (confirm_Body c)].
Definition action_doc (a : Action) : result doc :=
  struct [str "id" (act_ID a); str "label" (act_Label a); str "endpoint" (act_Endpoint a);
          strs_opt "requires" (act_Requires a); ptr_opt "confirm" confirm_doc (act_Confirm a);
          map_opt "on_success" (OnSuccess a); str_opt "show_when" (ShowWhen a)].
Definition item_doc (i : TimelineItem) : result doc :=
  struct [str "timestamp_field" (TimestampField i); str "title_field" (TitleField i);
          str_opt "body_field" (BodyField i); list_opt "badges" column_doc (Badges i);
          map_opt "click" (Click i)].
Definition field_doc (f : Field) : result doc :=
  struct [str "field" (field_Field f); str_opt "label" (field_Label f); str_opt "format" (field_Format f)].
Definition section_doc (s : DetailSection) : result doc :=
  struct [str "title" (section_Title s); list_req "fields" field_doc (section_Fields s)].
Definition metric_doc (m : Metric) : result doc :=
  struct [str "label" (metric_Label m); str "field" (metric_Field m); str_opt "alert_when" (AlertWhen m)].

Fixpoint view_doc (v : View) : result doc :=
  let '(MkView kind component source columns filters actions item drawers sections metrics
          endpoint method fields submit title link url filter extras) := v in
  struct [str "kind" kind; str_opt "component" component; ptr_opt "data_source" source_doc source;
          list_opt "columns" column_doc columns; list_opt "filters" filter_doc filters;
          list_opt "row_actions" action_doc actions; ptr_opt "item" item_doc item;
          list_opt "drawers" (λ d, let '(MkDrawer id fetch v') := d in
            struct [str "id" id; str "fetch" fetch; (λ x, [("view", x)]) <$> view_doc v']) drawers;
          list_opt "sections" section_doc sections; list_opt "metrics" metric_doc metrics;
          str_opt "endpoint" endpoint; str_opt "method" method; list_opt "fields" form_field_doc fields;
          str_opt "submit_label" submit; str_opt "title" title; str_opt "link" link;
          str_opt "url_field" url; ptr_opt "filter" filter_doc filter; map_opt "extras" extras].

Definition page_doc (p : Page) : result doc :=
  struct [str "id" (page_ID p); str "path" (Path p); str "title" (page_Title p);
          strs_opt "requires" (page_Requires p); (λ x, [("view", x)]) <$> view_doc (page_View p);
          ptr_opt "empty_state" empty_doc (EmptyState p)].
Definition widget_doc (w : Widget) : result doc :=
  struct [str "id" (widget_ID w); str "target" (Target w); str_opt "section" (Section_ w);
          int_opt "priority" (Priority w); (λ x, [("view", x)]) <$> view_doc (widget_View w)].
Definition manifest_doc (m : Manifest) : result doc :=
  struct [str "surface" (Surface_ m); str "surface_version" (SurfaceVersion m);
          always "schema_version" (DNum (to_l (dec (SchemaVersion m)))); str "display_name" (DisplayName m);
          str "icon" (Icon m); str_opt "description" (Description m);
          list_opt "permissions" permission_doc (Permissions m); list_req "pages" page_doc (Pages_ m);
          list_opt "widgets" widget_doc (Widgets m)].

(** The text that [enc.Encode(m)] writes before its newline. *)
Definition encode_manifest (m : Manifest) : result string :=
  (λ d, of_l (print enc_ascii_plain d)) <$> manifest_doc m.
End encode.

(** ** Lemmas *)

(** The value of a member of an object. *)
Definition jget (k : string) (j : json) : option json :=
  match j with JObj ms => snd <$> map_get k ms | _ => None end.

Lemma map_get_app {A} k (l1 l2 : list (string * A)) :
  map_get k (l1 ++ l2) = match map_get k l2 with Some a => Some a | None => map_get k l1 end.
Proof.
  unfold map_get. rewrite filter_app, last_app. by destruct (last (filter _ l2)).
Qed.

Lemma map_get_absent {A} k (l : list (string * A)) : Forall (λ e, e.1 ≠ k) l → map_get k l = None.
Proof.
  intros Hl. unfold map_get. induction Hl as [|e l He _ IH]; [done|]. by rewrite filter_cons_False.
Qed.

Lemma map_get_cons {A} k k' (a : A) l :
  map_get k ((k', a) :: l) =
    match map_get k l with Some b => Some b | None => if decide (k' = k) then Some a else None end.
Proof.
  change ((k', a) :: l) with ([(k', a)] ++ l). rewrite map_get_app. destruct (map_get k l); [done|].
  unfold map_get. cbn. by case_decide.
Qed.

(** The encoder's walk of a map gives every key once, with its value. *)
Lemma insert_member_Permutation {A} k (a : A) l : insert_member k a l ≡ₚ (k, a) :: l.
Proof.
  induction l as [|e l IH]; [done|]. cbn [insert_member]. case_match; [done|]. rewrite IH. constructor.
Qed.
Lemma put_member_NoDup {A} k (a : A) l : NoDup l.*1 → NoDup (put_member k a l).*1.
Proof.
  intros Hl. unfold put_member. rewrite insert_member_Permutation. cbn [fmap list_fmap fst]. constructor.
  - rewrite list_elem_of_fmap. intros (e & -> & He). apply list_elem_of_filter in He as [He _]. done.
  - eapply sublist_NoDup; [exact Hl|]. apply fmap_sublist, sublist_filter.
Qed.
Lemma map_get_NoDup {A} k (a : A) l : NoDup l.*1 → map_get k l = Some a ↔ (k, a) ∈ l.
Proof.
  induction l as [|[k0 a0] l IH]; cbn [fmap list_fmap fst]; [intros _; split; [done|set_solver]|].
  intros [Hk Hl]%NoDup_cons. rewrite map_get_cons, elem_of_cons.
  destruct (decide (k0 = k)) as [->|Hne].
  - rewrite map_get_absent; [|apply Forall_forall; intros e He <-; apply Hk; apply list_elem_of_fmap; eauto].
    split; [intros [= ->]; by left|]. intros [[= ->]|Hin]; [done|]. exfalso. apply Hk, list_elem_of_fmap.
    by exists (k, a).
  - rewrite <- IH by done. destruct (map_get k l); naive_solver.
Qed.
Lemma map_get_put {A} k (a : A) l k' : NoDup l.*1 →
  map_get k' (put_member k a l) = if decide (k = k') then Some a else map_get k' l.
Proof.
  intros Hl. apply option_eq. intros b. rewrite map_get_NoDup by (by apply put_member_NoDup).
  unfold put_member. rewrite insert_member_Permutation, elem_of_cons, list_elem_of_filter. cbn [fst].
  case_decide as Hk; [naive_solver|]. rewrite map_get_NoDup by done. naive_solver.
Qed.
Lemma sorted_map_get {A} (m : list (string * A)) :
  NoDup (sorted_map m).*1 ∧ ∀ k, map_get k (sorted_map m) = map_get k m.
Proof.
  unfold sorted_map. induction m as [|[k a] m IH] using rev_ind; [split; [constructor|done]|].
  destruct IH as [Hn Hg]. rewrite foldl_app. cbn [foldl fst snd]. split; [by apply put_member_NoDup|].
  intros k'. rewrite map_get_put, map_get_app, Hg by done. unfold map_get at 2. cbn. by case_decide.
Qed.

(** *** Structs *)

(** A field that contributes no member under [name]. *)
Definition avoids (name : string) (f : members) : Prop :=
  match f with inr ms => Forall (λ m, read_str m.1 ≠ name) ms | inl _ => True end.

Lemma avoids_fmap name n (f : result doc) : read_str n ≠ name → avoids name ((λ d, [(n, d)]) <$> f).
Proof. intros Hn. destruct f; cbn; [done|]. by repeat constructor. Qed.
Lemma avoids_unless name b n f : read_str n ≠ name → avoids name (unless b n f).
Proof. intros Hn. destruct b; cbn; [constructor|by apply avoids_fmap]. Qed.
Lemma avoids_ptr {A} name n enc (p : option A) : read_str n ≠ name → avoids name (ptr_opt n enc p).
Proof. intros Hn. destruct p; cbn; [by apply avoids_fmap|constructor]. Qed.

Lemma sequence_app {A} (l1 l2 : list (result A)) r :
  sequence (l1 ++ l2) = inr r ↔ ∃ r1 r2, sequence l1 = inr r1 ∧ sequence l2 = inr r2 ∧ r = r1 ++ r2.
Proof.
  revert r. induction l1 as [|[e|a] l1 IH]; intros r; cbn.
  - split; [intros ->; by exists [], r|by intros (? & ? & [= <-] & -> & ->)].
  - split; [done|by intros (? & ? & ? & _)].
  - destruct (sequence (l1 ++ l2)) as [e|r'] eqn:E; cbn.
    + split; [done|]. intros (r1 & r2 & H1 & H2 & ->). destruct (sequence l1) as [e1|r1'] eqn:E1; [done|].
      exfalso. pose proof (proj2 (IH (r1' ++ r2)) ltac:(by exists r1', r2)) as Hc. done.
    + split.
      * intros [= <-]. destruct (proj1 (IH r') eq_refl) as (r1 & r2 & -> & -> & ->). by exists (a :: r1), r2.
      * intros (r1 & r2 & H1 & H2 & ->). destruct (sequence l1) as [e1|r1'] eqn:E1; [done|]. cbn in H1. simplify_eq.
        assert (inr r' = inr (r1' ++ r2) :> result (list A)) as [= ->] by (apply IH; by exists r1', r2).
        done.
Qed.

Lemma sequence_Forall2 {A B} (f : A → result B) l r :
  sequence (map f l) = inr r ↔ Forall2 (λ a b, f a = inr b) l r.
Proof.
  revert r. induction l as [|a l IH]; intros r; cbn.
  - split; [intros [= <-]; constructor|by intros ->%Forall2_nil_inv_l].
  - destruct (f a) as [e|b] eqn:E.
    + split; [done|]. intros (b & r' & ? & ? & ->)%Forall2_cons_inv_l. congruence.
    + destruct (sequence (map f l)) as [e|r'] eqn:Er; cbn.
      * split; [done|]. intros (b' & r' & ? & Hr%IH & ->)%Forall2_cons_inv_l. congruence.
      * split.
        -- intros [= <-]. constructor; [done|]. by apply IH.
        -- intros (b' & r'' & ? & Hr%IH & ->)%Forall2_cons_inv_l. congruence.
Qed.

Section reading.
Context (esc : ascii → list ascii).

Lemma avoids_get name ms :
  Forall (λ m, read_str m.1 ≠ name) ms → jget name (tree esc (DObj ms)) = None.
Proof.
  intros Hm. cbn [tree jget]. rewrite map_get_absent; [done|]. by apply Forall_map.
Qed.

Lemma jget_app name ms1 ms2 :
  jget name (tree esc (DObj (ms1 ++ ms2))) =
    match jget name (tree esc (DObj ms2)) with
    | Some v => Some v
    | None => jget name (tree esc (DObj ms1))
    end.
Proof. cbn [tree jget]. rewrite map_app, map_get_app. by destruct (map_get name (map _ ms2)). Qed.

Lemma avoids_concat name fields mss :
  Forall (avoids name) fields → sequence fields = inr mss → Forall (λ m, read_str m.1 ≠ name) (concat mss).
Proof.
  revert mss. induction fields as [|[e|ms] fields IH]; intros mss Hall Hs; cbn in Hs; [by simplify_eq; constructor|done|].
  apply Forall_cons in Hall as [Hms Hall]. destruct (sequence fields) as [e|r]; [done|]. cbn in Hs. simplify_eq.
  cbn [concat]. apply Forall_app. split; [exact Hms|]. by apply IH.
Qed.

(** The value of a member that one field of the struct writes. *)
Lemma struct_get name n v pre post d :
  read_str n = name → Forall (avoids name) pre → Forall (avoids name) post →
  struct (pre ++ [inr [(n, v)]] ++ post) = inr d → jget name (tree esc d) = Some (tree esc v).
Proof.
  intros Hn Hpre Hpost. unfold struct.
  destruct (sequence (pre ++ [inr [(n, v)]] ++ post)) as [e|mss] eqn:E; [done|]. intros [= <-].
  apply sequence_app in E as (r1 & r' & H1 & E & ->). apply sequence_app in E as (r2 & r3 & [= <-] & H3 & ->).
  rewrite !concat_app. change (concat [[(n, v)]]) with [(n, v)].
  rewrite !jget_app, (avoids_get name (concat r3)) by (by eapply avoids_concat).
  cbn [tree jget map]. unfold map_get. cbn. by rewrite decide_True.
Qed.
End reading.

(** No field of an encoded struct failed. *)
Lemma struct_inl fields d e : struct fields = inr d → inl e ∉ fields.
Proof.
  unfold struct. destruct (sequence fields) as [e'|mss] eqn:E; [done|]. intros _ Hin. revert mss E.
  induction fields as [|[e'|ms] fields IH]; intros mss E; [set_solver|done|]. cbn in E.
  destruct (sequence fields) as [e'|mss'] eqn:E'; [done|]. apply (IH ltac:(set_solver) _ eq_refl).
Qed.

(** Closes the conditions of [struct_get]: the other fields have other names. *)
Ltac other_names :=
  repeat first [apply Forall_nil_2 | apply Forall_cons_2];
  unfold str_opt, int_opt, bool_opt, strs_opt, list_opt, map_opt, list_req;
  first [apply avoids_unless | apply avoids_ptr | apply avoids_fmap | cbn; repeat constructor];
  vm_compute; discriminate.

(** The member that the [k]th field of the struct of [H] writes. *)
Ltac nth_field k H :=
  lazymatch type of H with
  | struct ?fs = _ =>
      let pre := eval cbn [take] in (take k fs) in
      etransitivity; [eapply (struct_get _ _ _ _ pre); [| | |exact H]; [reflexivity|other_names..]|reflexivity]
  end.

Section members.
Context `{UnicodeTables} (esc : ascii → list ascii).

Lemma view_kind v d : view_doc v = inr d → jget "kind" (tree esc d) = Some (JStr (read_str (Kind v))).
Proof. destruct v. intros Hd. cbn [view_doc] in Hd. nth_field 0%nat Hd. Qed.

Lemma page_members p d : page_doc p = inr d →
  jget "id" (tree esc d) = Some (JStr (read_str (page_ID p))) ∧
  jget "path" (tree esc d) = Some (JStr (read_str (Path p))) ∧
  jget "title" (tree esc d) = Some (JStr (read_str (page_Title p))) ∧
  ∃ jv, jget "view" (tree esc d) = Some jv ∧ jget "kind" jv = Some (JStr (read_str (Kind (page_View p)))).
Proof.
  intros Hd. unfold page_doc in Hd. split; [nth_field 0%nat Hd|]. split; [nth_field 1%nat Hd|].
  split; [nth_field 2%nat Hd|]. destruct (view_doc (page_View p)) as [e|dv] eqn:Ev.
  { by destruct (struct_inl _ _ e Hd); set_solver. }
  exists (tree esc dv). split; [nth_field 4%nat Hd|by apply view_kind].
Qed.

Lemma manifest_members m d ps : manifest_doc m = inr d → Pages_ m = Some ps →
  jget "surface" (tree esc d) = Some (JStr (read_str (Surface_ m))) ∧
  jget "surface_version" (tree esc d) = Some (JStr (read_str (SurfaceVersion m))) ∧
  jget "schema_version" (tree esc d) = Some (JNum (dec (SchemaVersion m))) ∧
  jget "display_name" (tree esc d) = Some (JStr (read_str (DisplayName m))) ∧
  jget "icon" (tree esc d) = Some (JStr (read_str (Icon m))) ∧
  ∃ ds, jget "pages" (tree esc d) = Some (JArr (tree esc <$> ds)) ∧ Forall2 (λ p dp, page_doc p = inr dp) ps ds.
Proof.
  intros Hd Hps. unfold manifest_doc in Hd. split; [nth_field 0%nat Hd|]. split; [nth_field 1%nat Hd|].
  split; [rewrite <- (of_to_l (dec _)); nth_field 2%nat Hd|]. split; [nth_field 3%nat Hd|].
  split; [nth_field 4%nat Hd|]. rewrite Hps in Hd. unfold list_req in Hd.
  destruct (sequence (map page_doc ps)) as [e|ds] eqn:Es.
  { by destruct (struct_inl _ _ e Hd); set_solver. }
  exists ds. split; [change (JArr (tree esc <$> ds)) with (tree esc (DArr ds)); nth_field 7%nat Hd|].
  by apply sequence_Forall2.
Qed.
End members.
