(* ===== verification/SurfaceNumbers.v ===== *)
(** * The numbers of an encoded manifest

    Every number that the encoder writes for a manifest is a literal of the JSON
    grammar: integers, floats, and the [json.Number]s that it accepts. *)
From Stdlib Require Import Ascii ZArith.
From stdpp Require Import prelude gmap strings list.
From S2P Require Import Prelude GoStrings GoText GoFloat Json Utf8 JsonText Base64.
From S2P Require Import JsonDoc JsonCopy FloatText Http Backoff GoTime Surface SurfaceJson.

Local Open Scope Z_scope.

Lemma json_float_ok x : num_ok (json_float x).
Proof.
  unfold json_float, sign_text. destruct (float_is_zero x) eqn:Ez.
  { pose proof (num_ok_parts (fneg x) ["0"%char] [] [] ltac:(by left) ltac:(by left) ltac:(by left)) as H. exact H. }
  destruct (digits_point_lead x Ez) as (a & l & E & Ha & Hl). destruct (digits_point x) as [ds dp]. cbn [fst] in E.
  subst ds. destruct (float_ltb (mag x) micro || _); [by apply exp_text_ok|by apply fixed_text_ok].
Qed.

(** ** Documents whose numbers are well formed *)

Create HintDb nums.
Definition doc_nums (r : result doc) : Prop := ∀ d, r = inr d → nums_ok d = true.
Definition members_nums (r : members) : Prop := ∀ ms, r = inr ms → forallb (λ m, nums_ok m.2) ms = true.

Lemma sequence_all {A} (P : A → Prop) l r :
  Forall (λ x, ∀ a, x = inr a → P a) l → sequence l = inr r → Forall P r.
Proof.
  revert r. induction l as [|[e|a] l IH]; intros r Hall Hs; cbn in Hs; [by simplify_eq; constructor|done|].
  apply Forall_cons in Hall as [Ha Hall]. destruct (sequence l) as [e|r']; [done|]. cbn in Hs. simplify_eq.
  constructor; [by apply Ha|by apply IH].
Qed.

Lemma forallb_Forall_true {A} (f : A → bool) l : Forall (λ x, f x = true) l → forallb f l = true.
Proof. induction 1 as [|x l Hx _ IH]; [done|]. cbn. by rewrite Hx, IH. Qed.

Lemma fmap_inr {A B} (f : A → B) (r : result A) b : f <$> r = inr b → ∃ a, r = inr a ∧ b = f a.
Proof. destruct r as [e|a]; [done|]. intros [= <-]. eauto. Qed.

Lemma array_nums {A} (enc : A → result doc) l :
  (∀ a, a ∈ l → doc_nums (enc a)) → doc_nums (DArr <$> sequence (map enc l)).
Proof.
  intros Hl d Hd. apply fmap_inr in Hd as (ds & Hs & ->). cbn. apply forallb_Forall_true.
  apply (sequence_all _ (map enc l)); [|done]. apply Forall_map, Forall_forall. intros a Ha. by apply Hl.
Qed.

Lemma struct_nums fields : Forall members_nums fields → doc_nums (struct fields).
Proof.
  intros Hall d Hd. apply fmap_inr in Hd as (mss & Hs & ->). cbn.
  pose proof (sequence_all (λ ms, forallb (λ m, nums_ok m.2) ms = true) fields mss Hall Hs) as H.
  clear Hs. induction H as [|ms mss Hms _ IH]; [done|]. cbn [concat]. rewrite forallb_app, Hms. done.
Qed.

Lemma member_nums name r : doc_nums r → members_nums ((λ d, [(name, d)]) <$> r).
Proof. intros Hr ms Hms. apply fmap_inr in Hms as (d & Hd & ->). cbn. by rewrite (Hr d Hd). Qed.
Lemma unless_nums b name r : doc_nums r → members_nums (unless b name r).
Proof. intros Hr. unfold unless. destruct b; [by intros ms [= <-]|by apply member_nums]. Qed.
Lemma always_nums name d : nums_ok d = true → members_nums (always name d).
Proof. intros Hd ms [= <-]. cbn. by rewrite Hd. Qed.
Lemma str_nums name s : members_nums (str name s).
Proof. by apply always_nums. Qed.
Lemma str_opt_nums name s : members_nums (str_opt name s).
Proof. apply unless_nums. by intros d [= <-]. Qed.
Lemma num_doc_nums z : nums_ok (DNum (to_l (dec z))) = true.
Proof. cbn. apply bool_decide_eq_true, num_ok_int. Qed.
Lemma int_opt_nums name z : members_nums (int_opt name z).
Proof. apply unless_nums. intros d [= <-]. apply num_doc_nums. Qed.
Lemma bool_opt_nums name b : members_nums (bool_opt name b).
Proof. apply unless_nums. by intros d [= <-]. Qed.
Lemma list_opt_nums {A} name (enc : A → result doc) l :
  (∀ a, a ∈ l → doc_nums (enc a)) → members_nums (list_opt name enc l).
Proof. intros Hl. by apply unless_nums, array_nums. Qed.
Lemma strs_opt_nums name l : members_nums (strs_opt name l).
Proof. apply list_opt_nums. by intros s _ d [= <-]. Qed.
Lemma ptr_opt_nums {A} name (enc : A → result doc) p : (∀ a, doc_nums (enc a)) → members_nums (ptr_opt name enc p).
Proof. intros Hp. destruct p as [a|]; [by apply member_nums|by intros ms [= <-]]. Qed.
Lemma list_req_nums {A} name (enc : A → result doc) l :
  (∀ a, doc_nums (enc a)) → members_nums (list_req name enc l).
Proof. intros Hl. apply member_nums. destruct l as [l|]; [by apply array_nums|by intros d [= <-]]. Qed.

(** ** Dynamic values *)

Section dyn_ind.
Variable P : dyn → Prop.
Hypotheses (Hnil : P DynNil) (Hbool : ∀ b, P (DynBool b)) (Hint : ∀ z, P (DynInt z)) (Hfloat : ∀ x, P (DynFloat64 x))
  (Hnan : P DynNaN) (Hinf : ∀ b, P (DynInf b)) (Hnum : ∀ n, P (DynNumber n)) (Hstr : ∀ s, P (DynString s))
  (Htime : ∀ t, P (DynTime t)) (Hany : ∀ m, P (DynAnyMap m)).
Hypothesis Hslice : ∀ l, Forall P l → P (DynSlice l).
Hypothesis Hmap : ∀ m, Forall (λ e, P e.2) m → P (DynMap m).
Fixpoint dyn_nested_ind (v : dyn) : P v :=
  match v with
  | DynNil => Hnil | DynBool b => Hbool b | DynInt z => Hint z | DynFloat64 x => Hfloat x | DynNaN => Hnan
  | DynInf b => Hinf b | DynNumber n => Hnum n | DynString s => Hstr s | DynTime t => Htime t
  | DynAnyMap m => Hany m
  | DynSlice l => Hslice l ((fix go l : Forall P l :=
      match l with [] => Forall_nil_2 _ | x :: l' => Forall_cons_2 _ _ _ (dyn_nested_ind x) (go l') end) l)
  | DynMap m => Hmap m ((fix go m : Forall (λ e, P e.2) m :=
      match m with [] => Forall_nil_2 _ | e :: m' => Forall_cons_2 _ e _ (dyn_nested_ind e.2) (go m') end) m)
  end.
End dyn_ind.

Lemma sorted_map_all {A} (P : A → Prop) m : Forall (λ e, P e.2) m → Forall (λ e, P e.2) (sorted_map m).
Proof.
  unfold sorted_map. induction m as [|[k a] m IH] using rev_ind; [done|]. intros [Hm Ha]%Forall_app.
  rewrite foldl_app. cbn. unfold put_member. rewrite insert_member_Permutation. constructor; [by inversion Ha|].
  apply Forall_forall. intros e He. apply list_elem_of_filter in He as [_ He].
  exact (proj1 (Forall_forall _ _) (IH Hm) e He).
Qed.

Section encoded.
Context `{UnicodeTables}.

Lemma any_nums v : doc_nums (any_doc v).
Proof.
  induction v as [|b|z|x| |b|n|s|t|m|l IH|m IH] using dyn_nested_ind; intros d Hd; cbn [any_doc] in Hd;
    try (by simplify_eq).
  - simplify_eq. apply num_doc_nums.
  - simplify_eq. apply bool_decide_eq_true, json_float_ok.
  - case_decide; [simplify_eq; by apply bool_decide_eq_true|]. case_decide; [|done]. simplify_eq. by apply bool_decide_eq_true.
  - unfold time_doc in Hd. case_match; [by simplify_eq|]. by destruct (civil _) as [[y mo] dd].
  - revert d Hd. apply array_nums. rewrite Forall_forall in IH. exact IH.
  - apply fmap_inr in Hd as (ms & Hms & ->). cbn. apply forallb_Forall_true. unfold sequence_members in Hms.
    eapply sequence_all; [|exact Hms]. apply Forall_fmap.
    apply (Forall_impl (λ e, doc_nums e.2)).
    + apply (sorted_map_all doc_nums), Forall_map. eapply Forall_impl; [exact IH|]. by intros [k v].
    + intros [k r] Hr e He. apply fmap_inr in He as (d & Hd & ->). by apply Hr.
Qed.

Lemma map_opt_nums name m : members_nums (map_opt name m).
Proof. apply unless_nums, any_nums. Qed.

#[local] Hint Resolve str_nums str_opt_nums int_opt_nums bool_opt_nums strs_opt_nums ptr_opt_nums list_req_nums
  list_opt_nums unless_nums any_nums map_opt_nums member_nums : nums.

(** The struct of a type whose fields are covered by the hints. *)
Ltac struct_fields :=
  intros; apply struct_nums; repeat (apply Forall_cons_2; [eauto with nums|]); apply Forall_nil_2.

Lemma permission_nums p : doc_nums (permission_doc p).
Proof. struct_fields. Qed.
Lemma empty_nums e : doc_nums (empty_doc e).
Proof. struct_fields. Qed.
Lemma source_nums s : doc_nums (source_doc s).
Proof. struct_fields. Qed.
Lemma column_nums c : doc_nums (column_doc c).
Proof. struct_fields. Qed.
Lemma filter_nums f : doc_nums (filter_doc f).
Proof. struct_fields. Qed.
Lemma form_field_nums f : doc_nums (form_field_doc f).
Proof. struct_fields. Qed.
Lemma confirm_nums c : doc_nums (confirm_doc c).
Proof. struct_fields. Qed.
Lemma field_nums f : doc_nums (field_doc f).
Proof. struct_fields. Qed.
Lemma metric_nums m : doc_nums (metric_doc m).
Proof. struct_fields. Qed.
#[local] Hint Resolve permission_nums empty_nums source_nums column_nums filter_nums form_field_nums confirm_nums
  field_nums metric_nums : nums.
Lemma action_nums a : doc_nums (action_doc a).
Proof. struct_fields. Qed.
Lemma item_nums i : doc_nums (item_doc i).
Proof. struct_fields. Qed.
Lemma section_nums s : doc_nums (section_doc s).
Proof. struct_fields. Qed.
#[local] Hint Resolve action_nums item_nums section_nums : nums.

(** Views contain drawers, which contain views. *)
Fixpoint view_nums (v : View) : doc_nums (view_doc v).
Proof.
  destruct v as [kind component source columns filters actions item drawers sections metrics
    endpoint method fields submit title link url filter extras]. cbn [view_doc].
  assert (∀ d, d ∈ drawers → doc_nums (let '(MkDrawer id fetch v') := d in
    struct [str "id" id; str "fetch" fetch; (λ x, [("view", x)]) <$> view_doc v'])) as Hd.
  { induction drawers as [|[id fetch v'] drawers IH]; intros d Hin; [by apply elem_of_nil in Hin|].
    apply elem_of_cons in Hin as [->|Hin]; [|by apply IH]. specialize (view_nums v'). struct_fields. }
  clear view_nums. struct_fields.
Qed.
#[local] Hint Resolve view_nums : nums.

Lemma page_nums p : doc_nums (page_doc p).
Proof. struct_fields. Qed.
Lemma widget_nums w : doc_nums (widget_doc w).
Proof. struct_fields. Qed.
#[local] Hint Resolve page_nums widget_nums : nums.

Lemma manifest_nums m d : manifest_doc m = inr d → nums_ok d = true.
Proof.
  revert d. change (doc_nums (manifest_doc m)). apply struct_nums.
  repeat (apply Forall_cons_2; [eauto using always_nums, num_doc_nums with nums|]). apply Forall_nil_2.
Qed.
End encoded.
