(* ===== verification/SurfaceValues.v ===== *)
(** * When a manifest does not encode

    The dynamic values that a manifest holds, those that JSON does not have, and
    that the encoder fails exactly on a manifest that holds one of these. *)
From Stdlib Require Import Ascii ZArith.
From stdpp Require Import prelude gmap strings list.
From S2P Require Import Prelude GoStrings GoText GoFloat Json Utf8 JsonText Base64 JsonDoc Http Backoff GoTime.
From S2P Require Import Surface SurfaceJson SurfaceNumbers.

Local Open Scope Z_scope.

(** ** The dynamic values of a manifest *)

Definition filter_values (f : Filter) : list dyn := [DynMap (Applies f)].
Definition action_values (a : Action) : list dyn := [DynMap (OnSuccess a)].
Definition item_values (i : TimelineItem) : list dyn := [DynMap (Click i)].
Definition form_field_values (f : FormField) : list dyn := [Default f].

Fixpoint view_values (v : View) : list dyn :=
  let '(MkView _ _ _ _ filters actions item drawers _ _ _ _ fields _ _ _ _ filter extras) := v in
  (filters ≫= filter_values) ++ (actions ≫= action_values) ++ from_option item_values [] item ++
  concat (map (λ d, let '(MkDrawer _ _ v') := d in view_values v') drawers) ++
  (fields ≫= form_field_values) ++ from_option filter_values [] filter ++ [DynMap extras].

Definition manifest_values (m : Manifest) : list dyn :=
  (Pages m ≫= λ p, view_values (page_View p)) ++ (Widgets m ≫= λ w, view_values (widget_View w)).

(** A year of four digits and a zone of less than a day. *)
Definition json_time (t : Time) : Prop :=
  let '(y, _, _) := civil ((UnixNano t + zone t * Second) / day_ns) in
  0 ≤ y ≤ 9999 ∧ Z.abs (zone t) < 24 * 3600.

(** The values that JSON does not have, or that contain one; of members with the
    same name a map has only the last. *)
Inductive unencodable : dyn → Prop :=
| no_nan : unencodable DynNaN
| no_inf b : unencodable (DynInf b)
| no_keys m : unencodable (DynAnyMap m)
| no_time t : ¬ json_time t → unencodable (DynTime t)
| no_number n : n ≠ EmptyString → ¬ num_ok (to_l n) → unencodable (DynNumber n)
| no_item l v : v ∈ l → unencodable v → unencodable (DynSlice l)
| no_member m k v : map_get k m = Some v → unencodable v → unencodable (DynMap m).

(** ** Failures *)

Definition fails {A} (r : result A) : Prop := ∃ e, r = inl e.

Lemma fails_inr {A} (a : A) : fails (inr a) ↔ False.
Proof. split; [by intros []|done]. Qed.
Lemma fails_inl {A} e : fails (inl e : result A) ↔ True.
Proof. split; [done|]. by exists e. Qed.
Lemma fails_fmap {A B} (f : A → B) r : fails (f <$> r) ↔ fails r.
Proof. destruct r; cbn; [by rewrite !fails_inl|by rewrite !fails_inr]. Qed.
Lemma fails_sequence {A} (l : list (result A)) : fails (sequence l) ↔ Exists fails l.
Proof.
  induction l as [|[e|a] l IH]; cbn [sequence].
  - rewrite fails_inr. split; [done|by intros ?%Exists_nil].
  - rewrite fails_inl, Exists_cons, fails_inl. tauto.
  - rewrite fails_fmap, Exists_cons, fails_inr, IH. tauto.
Qed.
Lemma fails_array {A} (enc : A → result doc) l : fails (DArr <$> sequence (map enc l)) ↔ ∃ a, a ∈ l ∧ fails (enc a).
Proof. rewrite fails_fmap, fails_sequence, Exists_map, Exists_exists. done. Qed.

Lemma fails_struct fields : fails (struct fields) ↔ Exists fails fields.
Proof. unfold struct. by rewrite fails_fmap, fails_sequence. Qed.
Lemma fails_always name d : fails (always name d) ↔ False.
Proof. apply fails_inr. Qed.
Lemma fails_str name s : fails (str name s) ↔ False.
Proof. apply fails_inr. Qed.
Lemma fails_unless b name r : fails (unless b name r) ↔ b = false ∧ fails r.
Proof.
  destruct b; cbn [unless]; [rewrite fails_inr; naive_solver|]. rewrite fails_fmap. naive_solver.
Qed.
Lemma fails_str_opt name s : fails (str_opt name s) ↔ False.
Proof. unfold str_opt. rewrite fails_unless, fails_inr. tauto. Qed.
Lemma fails_int_opt name z : fails (int_opt name z) ↔ False.
Proof. unfold int_opt. rewrite fails_unless, fails_inr. tauto. Qed.
Lemma fails_bool_opt name b : fails (bool_opt name b) ↔ False.
Proof. unfold bool_opt. rewrite fails_unless, fails_inr. tauto. Qed.
Lemma fails_list_opt {A} name (enc : A → result doc) l : fails (list_opt name enc l) ↔ ∃ a, a ∈ l ∧ fails (enc a).
Proof.
  unfold list_opt. rewrite fails_unless, fails_array. split; [by intros [_ ?]|]. intros (a & Hin & Ha).
  split; [|by exists a]. apply bool_decide_eq_false. destruct l; [by apply not_elem_of_nil in Hin|done].
Qed.
Lemma fails_strs_opt name l : fails (strs_opt name l) ↔ False.
Proof. unfold strs_opt. rewrite fails_list_opt. split; [|done]. intros (s & _ & ?%fails_inr). done. Qed.
Lemma fails_ptr_opt {A} name (enc : A → result doc) p : fails (ptr_opt name enc p) ↔ ∃ a, p = Some a ∧ fails (enc a).
Proof.
  destruct p as [a|]; cbn [ptr_opt]; [rewrite fails_fmap|rewrite fails_inr]; naive_solver.
Qed.
Lemma fails_member (name : string) (r : result doc) : fails ((λ x, [(name, x)]) <$> r) ↔ fails r.
Proof. apply fails_fmap. Qed.
Lemma fails_list_req {A} name (enc : A → result doc) l :
  fails (list_req name enc l) ↔ ∃ a, a ∈ default [] l ∧ fails (enc a).
Proof.
  unfold list_req. rewrite fails_fmap. destruct l as [l|]; [apply fails_array|]. rewrite fails_inr.
  split; [done|]. by intros (a & ?%not_elem_of_nil & _).
Qed.

Section encoding.
Context `{UnicodeTables}.

Lemma fails_time t : fails (time_doc t) ↔ ¬ json_time t.
Proof.
  unfold time_doc, MarshalTime, json_time. cbv zeta. destruct (civil _) as [[y m] d].
  destruct ((0 <=? y) && (y <=? 9999) && (Z.abs (zone t) / 3600 <? 24)) eqn:E.
  - rewrite fails_inr. split; [done|]. intros Hn. apply Hn. zlia.
  - rewrite fails_inl. split; [|done]. intros _ Hj. zlia.
Qed.

Lemma map_get_fmap {A B} (f : A → B) k m :
  map_get k (map (λ e : string * A, (e.1, f e.2)) m) = f <$> map_get k m.
Proof.
  induction m as [|[k' a] m IH]; [done|]. cbn [map fst snd]. rewrite !map_get_cons, IH.
  destruct (map_get k m); cbn; [done|by case_decide].
Qed.

(** The encoder fails on these values and on no others. *)
Lemma any_fails v : fails (any_doc v) ↔ unencodable v.
Proof.
  induction v as [|b|z|x| |b|n|s|t|m|l IH|m IH] using dyn_nested_ind; cbn [any_doc];
    rewrite ?fails_inr, ?fails_inl; try (by split; [|inversion 1]); try (by split; [constructor|]).
  - do 2 (case_decide; rewrite ?fails_inr, ?fails_inl; [by split; [|inversion 1]|]). by split; [constructor|].
  - rewrite fails_time. split; [constructor; done|by inversion 1].
  - rewrite fails_array. rewrite Forall_forall in IH. split.
    + intros (v & Hin & Hv). apply (no_item l v); [done|]. by apply IH.
    + inversion 1; subst. eexists. by rewrite IH.
  - rewrite fails_fmap. unfold sequence_members. rewrite fails_sequence, Exists_fmap, Exists_exists.
    destruct (sorted_map_get (map (λ e : string * dyn, (e.1, any_doc e.2)) m)) as [Hnd Hget].
    assert (∀ k v, map_get k m = Some v → v ∈ m.*2) as Hin.
    { intros k v Hv. unfold map_get in Hv. apply fmap_Some in Hv as ([k' v'] & Hl & ->).
      apply last_Some_elem_of, list_elem_of_filter in Hl as [_ Hl]. apply list_elem_of_fmap. eauto. }
    rewrite Forall_forall in IH. split.
    + intros ([k r] & Hk & Hr). cbn in Hr. rewrite fails_fmap in Hr. apply map_get_NoDup in Hk; [|done].
      rewrite Hget, map_get_fmap in Hk. apply fmap_Some in Hk as (v & Hv & ->). apply (no_member m k v); [done|].
      apply Hin, list_elem_of_fmap in Hv as (e & -> & He). by apply IH.
    + inversion 1 as [| | | | | |? k v Hk Hv]; subst. exists (k, any_doc v). split.
      * apply map_get_NoDup; [done|]. by rewrite Hget, map_get_fmap, Hk.
      * cbn. rewrite fails_fmap. apply Hin, list_elem_of_fmap in Hk as (e & -> & He). by apply IH.
Qed.

Lemma fails_map_opt name m : fails (map_opt name m) ↔ unencodable (DynMap m).
Proof.
  unfold map_opt. rewrite fails_unless, any_fails. split; [by intros [_ ?]|]. intros Hu. split; [|done].
  apply bool_decide_eq_false. destruct m; [|done]. by inversion Hu.
Qed.

(** ** Structs *)

(** The failures of the fields of a struct. *)
Ltac failures :=
  rewrite ?fails_struct, ?Exists_cons, ?Exists_nil, ?fails_always, ?fails_str, ?fails_str_opt, ?fails_int_opt,
    ?fails_bool_opt, ?fails_strs_opt, ?fails_map_opt, ?fails_member, ?fails_list_opt, ?fails_list_req,
    ?fails_ptr_opt.

Lemma permission_fails p : fails (permission_doc p) ↔ False.
Proof. unfold permission_doc. failures. tauto. Qed.
Lemma empty_fails e : fails (empty_doc e) ↔ False.
Proof. unfold empty_doc. failures. tauto. Qed.
Lemma source_fails s : fails (source_doc s) ↔ False.
Proof. unfold source_doc. failures. tauto. Qed.
Lemma column_fails c : fails (column_doc c) ↔ False.
Proof. unfold column_doc. failures. tauto. Qed.
Lemma confirm_fails c : fails (confirm_doc c) ↔ False.
Proof. unfold confirm_doc. failures. tauto. Qed.
Lemma field_fails f : fails (field_doc f) ↔ False.
Proof. unfold field_doc. failures. tauto. Qed.
Lemma metric_fails m : fails (metric_doc m) ↔ False.
Proof. unfold metric_doc. failures. tauto. Qed.
Lemma section_fails s : fails (section_doc s) ↔ False.
Proof. unfold section_doc. failures. setoid_rewrite field_fails. naive_solver. Qed.

Lemma filter_fails f : fails (filter_doc f) ↔ Exists unencodable (filter_values f).
Proof. unfold filter_doc, filter_values. failures. tauto. Qed.
Lemma action_fails a : fails (action_doc a) ↔ Exists unencodable (action_values a).
Proof. unfold action_doc, action_values. failures. setoid_rewrite confirm_fails. naive_solver. Qed.
Lemma item_fails i : fails (item_doc i) ↔ Exists unencodable (item_values i).
Proof. unfold item_doc, item_values. failures. setoid_rewrite column_fails. naive_solver. Qed.
Lemma form_field_fails f : fails (form_field_doc f) ↔ Exists unencodable (form_field_values f).
Proof.
  unfold form_field_doc, form_field_values. failures. rewrite fails_unless, any_fails.
  split; [naive_solver|]. intros [Hu|[]]. do 5 right. left. split; [|done]. destruct (Default f); try done. by inversion Hu.
Qed.

Lemma Exists_bind {A} (f : A → list dyn) l :
  Exists unencodable (l ≫= f) ↔ ∃ a, a ∈ l ∧ Exists unencodable (f a).
Proof.
  rewrite Exists_exists. setoid_rewrite list_elem_of_bind. setoid_rewrite Exists_exists. naive_solver.
Qed.
Lemma Exists_ptr {A} (f : A → list dyn) p :
  Exists unencodable (from_option f [] p) ↔ ∃ a, p = Some a ∧ Exists unencodable (f a).
Proof. destruct p; cbn; [naive_solver|]. rewrite Exists_nil. naive_solver. Qed.

(** Views contain drawers, which contain views. *)
Fixpoint view_fails (v : View) : fails (view_doc v) ↔ Exists unencodable (view_values v).
Proof.
  destruct v as [kind component source columns filters actions item drawers sections metrics
    endpoint method fields submit title link url filter extras]. cbn [view_doc view_values].
  assert ((∃ d, d ∈ drawers ∧ fails (let '(MkDrawer id fetch v') := d in
      struct [str "id" id; str "fetch" fetch; (λ x, [("view", x)]) <$> view_doc v'])) ↔
    Exists unencodable (concat (map (λ d, let '(MkDrawer _ _ v') := d in view_values v') drawers))) as Hd.
  { induction drawers as [|[id fetch v'] drawers IH].
    - cbn. rewrite Exists_nil. split; [|done]. by intros (d & ?%not_elem_of_nil & _).
    - cbn [map concat]. rewrite Exists_app, <- IH, <- (view_fails v'). setoid_rewrite elem_of_cons. split.
      + intros (d & [->|Hin] & Hf); [left|right; by exists d]. revert Hf. failures. tauto.
      + intros [Hf|(d & Hin & Hf)]; [|by exists d; auto]. exists (MkDrawer id fetch v'). split; [by left|].
        failures. tauto. }
  clear view_fails. failures. rewrite !Exists_app, !Exists_bind, !Exists_ptr, <- Hd, Exists_cons, Exists_nil.
  setoid_rewrite source_fails. setoid_rewrite column_fails. setoid_rewrite section_fails. setoid_rewrite metric_fails.
  setoid_rewrite filter_fails. setoid_rewrite action_fails. setoid_rewrite item_fails. setoid_rewrite form_field_fails.
  naive_solver.
Qed.

Lemma page_fails p : fails (page_doc p) ↔ Exists unencodable (view_values (page_View p)).
Proof. unfold page_doc. failures. rewrite view_fails. setoid_rewrite empty_fails. naive_solver. Qed.
Lemma widget_fails w : fails (widget_doc w) ↔ Exists unencodable (view_values (widget_View w)).
Proof. unfold widget_doc. failures. rewrite view_fails. naive_solver. Qed.

Lemma manifest_fails m : fails (manifest_doc m) ↔ Exists unencodable (manifest_values m).
Proof.
  unfold manifest_doc, manifest_values. failures. rewrite Exists_app, !Exists_bind.
  setoid_rewrite permission_fails. setoid_rewrite page_fails. setoid_rewrite widget_fails. unfold Pages. naive_solver.
Qed.
End encoding.
