(* ===== verification/SurfaceHttp.v ===== *)
(** * The endpoints of a surface (package [surface])

    Models src/surface/handler.go and handler_helpers.go: the three functions
    that [RegisterHandlers] mounts, their helpers, and the way from a request to
    them through the [http.ServeMux] that holds the three patterns. *)
From Stdlib Require Import Ascii ZArith.
From stdpp Require Import prelude gmap strings.
From S2P Require Import Prelude GoStrings GoText GoFloat Json Utf8 JsonText Base64 JsonDoc Http GoMux Backoff GoTime Surface SurfaceJson SurfaceNumbers SurfaceValues.

Local Open Scope Z_scope.

(** ** Endpoints *)

Record DataRequest := {
  ViewID : string;
  RawQuery : string;
  data_Header : gmap string (list string);
}.
Record ActionRequest := {
  ActionID : string;
  act_Body : string;
  act_Header : gmap string (list string);
}.

(** A value to encode: nil, or the result of encoding it as JSON (without the
    escaping of HTML). *)
Inductive payload :=
| PNil
| PValue (encoded : result string).

(** The interface that the adapter implements. *)
Record DataHandler (W : Type) := {
  HandleData : DataRequest → M W (result payload);
  HandleAction : ActionRequest → M W (result payload);
}.
Arguments HandleData {W} _ _.
Arguments HandleAction {W} _ _.

Record surface_response := SResp { sr_status : Z; sr_type : string; sr_body : string }.

Definition errorBody (msg : string) : payload :=
  PValue (inr (of_l (object_text [(to_l "error", lit (enc_loop_plain (String.length msg) (to_l msg)))]))).

Definition WriteJSON (status : Z) (v : payload) : surface_response :=
  SResp status "application/json; charset=utf-8"
    match v with
    | PNil => "null"
    | PValue (inr text) => text +:+ str1 newline
    | PValue (inl err) =>
        of_l ("{"%char :: lit (to_l "error") ++ ":"%char :: [dquote]) +:+ "encode failed: " +:+
        error_text err +:+ of_l [dquote; "}"%char]
    end.

Definition MaxActionBodyBytes : Z := 512 * 1024.

(** The body of a request: nil, or the bytes up to the end or to an error. *)
Record body_stream := { stream_data : string; stream_err : option error }.

(** [io.ReadAll(io.LimitReader(r.Body, MaxActionBodyBytes+1))] never sees what
    comes after the limit. *)
Definition ReadActionBody (b : option body_stream) : result string :=
  match b with
  | None => inr EmptyString
  | Some b =>
      if MaxActionBodyBytes <? len (stream_data b) then
        inl (Errorf ("action body exceeds " +:+ dec MaxActionBodyBytes +:+ " bytes"))
      else match stream_err b with
           | Some err => inl (Wrapf "read action body: " err EmptyString)
           | None => inr (stream_data b)
           end
  end.

Section handlers.
Context {W : Type} (h : DataHandler W).

(** The three functions that [RegisterHandlers] mounts; the arguments are the
    path value and the parts of the request that each reads. *)
Definition serve_manifest `{UnicodeTables} (m : Manifest) : M W surface_response :=
  mret (WriteJSON 200 (PValue (encode_manifest m))).

Definition answer (r : result payload) : surface_response :=
  match r with
  | inl err => WriteJSON 500 (errorBody (error_text err))
  | inr out => WriteJSON 200 out
  end.

Definition serve_data (viewID rawQuery : string) (hdr : gmap string (list string)) : M W surface_response :=
  if decide (viewID = EmptyString) then mret (WriteJSON 400 (errorBody "viewId is required"))
  else
    r ← HandleData h {| ViewID := viewID; RawQuery := rawQuery; data_Header := hdr |};
    mret (answer r).

Definition serve_action (actionID : string) (hdr : gmap string (list string)) (b : option body_stream)
    : M W surface_response :=
  if decide (actionID = EmptyString) then mret (WriteJSON 400 (errorBody "actionId is required"))
  else match ReadActionBody b with
  | inl err => mret (WriteJSON 400 (errorBody (error_text err)))
  | inr body =>
      r ← HandleAction h {| ActionID := actionID; act_Body := body; act_Header := hdr |};
      mret (answer r)
  end.
End handlers.

(** ** [http.ServeMux] *)

Inductive segment := Literal (s : string) | Wildcard.
Inductive endpoint := EManifest | EData | EAction.

(** The patterns that [RegisterHandlers] gives to the mux. *)
Definition patterns : list (string * list segment * endpoint) :=
  [("GET", [Literal "surface"; Literal "manifest"], EManifest);
   ("GET", [Literal "surface"; Literal "data"; Wildcard], EData);
   ("POST", [Literal "surface"; Literal "action"; Wildcard], EAction)].

(** The values of the wildcards, when the path matches. *)
Fixpoint matchPath (pat : list segment) (path : string) : option (list string) :=
  match pat with
  | [] => if decide (path = EmptyString) then Some [] else None
  | e :: pat' =>
      if decide (path = EmptyString) then None
      else
        let '(seg, rest) := firstSegment path in
        match e with
        | Literal s => if decide (seg = s) then matchPath pat' rest else None
        | Wildcard => if decide (seg = "/") then None else cons seg <$> matchPath pat' rest
        end
  end.

Definition method_matches (pat meth : string) : bool :=
  bool_decide (pat = meth) || bool_decide (meth = "HEAD" ∧ pat = "GET").

(** No two of the patterns match the same request, so the order is of no
    consequence. *)
Fixpoint find_pattern (meth path : string) (ps : list (string * list segment * endpoint))
    : option (endpoint * list string) :=
  match ps with
  | [] => None
  | (m, pat, e) :: ps' =>
      match matchPath pat path with
      | Some vs => if method_matches m meth then Some (e, vs) else find_pattern meth path ps'
      | None => find_pattern meth path ps'
      end
  end.

(** [matchingMethods]: the methods whose patterns match the path, or the path
    with a trailing slash. *)
Definition matchingMethods (path : string) : list string :=
  let hit p := omap (λ e : string * list segment * endpoint, (λ _, e.1.1) <$> matchPath e.1.2 p) patterns in
  let ms := hit path ++ (if ends_slash path then [] else hit (path +:+ "/")) in
  filter (λ m, m = "GET" ∧ "GET" ∈ ms ∨ m = "HEAD" ∧ "GET" ∈ ms ∨ m = "POST" ∧ "POST" ∈ ms)
    ["GET"; "HEAD"; "POST"].

Inductive route :=
| Serve (e : endpoint) (values : list string)
| Redirect (path : string)          (** 301 to the clean path *)
| NotAllowed (allow : string)       (** 405 *)
| NotFound                          (** 404 *)
| BadRequest.                       (** 400, for the request target [*] *)

(** [findHandler], on the escaped path of the request. *)
Definition find_route (meth escapedPath : string) : route :=
  if decide (escapedPath = "*") then BadRequest
  else
    let path := if decide (meth = "CONNECT") then escapedPath else cleanPath escapedPath in
    if decide (path ≠ escapedPath) then Redirect path
    else match find_pattern meth path patterns with
    | Some (e, vs) => Serve e vs
    | None =>
        match matchingMethods path with
        | [] => NotFound
        | ms => NotAllowed (Join ", " ms)
        end
    end.

(** A request that reaches the mux, and what is answered. *)
Record surface_request := {
  rq_Method : string;
  rq_EscapedPath : string;
  rq_RawQuery : string;
  rq_Header : gmap string (list string);
  rq_Body : option body_stream;
}.
Inductive mux_answer :=
| Answered (r : surface_response)
| Refused (status : Z) (header : string).

(** [mux.ServeHTTP] after [RegisterHandlers(mux, m, h)]. *)
Definition RegisterHandlers `{UnicodeTables} {W} (m : Manifest) (h : DataHandler W) (r : surface_request)
    : M W mux_answer :=
  match find_route (rq_Method r) (rq_EscapedPath r) with
  | Serve EManifest _ => a ← serve_manifest m; mret (Answered a)
  | Serve EData vs =>
      a ← serve_data h (default EmptyString (head vs)) (rq_RawQuery r) (rq_Header r); mret (Answered a)
  | Serve EAction vs =>
      a ← serve_action h (default EmptyString (head vs)) (rq_Header r) (rq_Body r); mret (Answered a)
  | Redirect p => mret (Refused 301 p)
  | NotAllowed allow => mret (Refused 405 allow)
  | NotFound => mret (Refused 404 EmptyString)
  | BadRequest => mret (Refused 400 EmptyString)
  end.

(** ** Theorems *)

(** The action endpoint. The adapter's [HandleAction] runs exactly when the
    action is named and the body is read whole within 524288 bytes, and it gets
    those bytes; its result is answered with 200 and its error with 500.
    Otherwise the answer is 400 and no handler runs. *)
Theorem action_endpoint {W} (h : DataHandler W) actionID hdr b w :
  match ReadActionBody b with
  | inr body =>
      len body ≤ 524288 ∧
      (b = None ∧ body = EmptyString ∨
       ∃ d, b = Some {| stream_data := d; stream_err := None |} ∧ body = d) ∧
      (actionID ≠ EmptyString →
       let '(r, w') := HandleAction h {| ActionID := actionID; act_Body := body; act_Header := hdr |} w in
       (serve_action h actionID hdr b w).2 = w' ∧
       sr_status (serve_action h actionID hdr b w).1 = match r with inl _ => 500 | inr _ => 200 end)
  | inl _ =>
      (∃ bs, b = Some bs ∧ (524288 < len (stream_data bs) ∨ stream_err bs ≠ None)) ∧
      (serve_action h actionID hdr b w).2 = w ∧ sr_status (serve_action h actionID hdr b w).1 = 400
  end.
Proof.
  unfold serve_action, ReadActionBody, MaxActionBodyBytes. change (512 * 1024) with 524288.
  assert (∀ body, actionID ≠ EmptyString →
    let '(r, w') := HandleAction h {| ActionID := actionID; act_Body := body; act_Header := hdr |} w in
    let out := (r ← HandleAction h {| ActionID := actionID; act_Body := body; act_Header := hdr |};
                mret (answer r)) w in
    out.2 = w' ∧ sr_status out.1 = match r with inl _ => 500 | inr _ => 200 end) as Hrun.
  { intros body _. unfold mbind, M_bind. destruct (HandleAction h _ w) as [[err|out] w']; done. }
  destruct b as [[d err]|]; cbn [stream_data stream_err].
  - destruct (Z.ltb_spec 524288 (len d)) as [Hl|Hl].
    + split; [eexists; split; [reflexivity|by left]|]. by case_decide.
    + destruct err as [e|].
      * split; [eexists; split; [reflexivity|by right]|]. by case_decide.
      * split; [done|]. split; [right; by exists d|]. intros Ha. rewrite decide_False by done. by apply Hrun.
  - split; [by cbn|]. split; [by left|]. intros Ha. rewrite decide_False by done. by apply Hrun.
Qed.

(** *** Encoding failures *)

(** No quotation mark before the first backslash. *)
Fixpoint no_open (t : list ascii) : bool :=
  match t with
  | [] => true
  | c :: t' => if code c =? 34 then false else if code c =? 92 then true else no_open t'
  end.

Section failure.
Context `{UnicodeTables}.

Lemma no_open_high t rest : Forall (λ a, 128 ≤ code a) t → no_open rest = true → no_open (t ++ rest) = true.
Proof.
  intros Ht Hr. induction Ht as [|a t Ha _ IH]; [done|]. cbn [no_open app].
  by rewrite !(proj2 (Z.eqb_neq _ _)) by lia.
Qed.
Lemma encode_rune_high r : 128 ≤ r → Forall (λ a, 128 ≤ code a) (encode_rune r).
Proof.
  intros Hr. assert (∀ z, 128 ≤ z < 256 → 128 ≤ code (chr z)) as Hb.
  { intros z Hz. rewrite code_chr by (unfold is_byte; lia). lia. }
  unfold encode_rune. cbv zeta.
  assert (128 ≤ (if (r <? 0) || (1114111 <? r) || ((55296 <=? r) && (r <=? 57343)) then RuneError else r) ≤ 1114111) as Hc.
  { unfold RuneError. destruct ((r <? 0) || (1114111 <? r) || ((55296 <=? r) && (r <=? 57343))) eqn:E; lia. }
  revert Hc. generalize (if (r <? 0) || (1114111 <? r) || ((55296 <=? r) && (r <=? 57343)) then RuneError else r).
  clear Hr r. intros r Hr. rewrite (proj2 (Z.ltb_ge r 128)) by lia.
  destruct (Z.ltb_spec r 2048), (Z.ltb_spec r 65536); repeat apply Forall_cons_2; try apply Forall_nil_2; apply Hb;
    Z.to_euclidean_division_equations; lia.
Qed.
Lemma no_open_escape r rest : 0 ≤ r → no_open rest = true → no_open (escape_rune r ++ rest) = true.
Proof.
  intros H0 Hr. unfold escape_rune. destruct ((r =? 34) || (r =? 92)) eqn:E1; [done|].
  destruct (IsPrint r) eqn:Ep; [|repeat (case_match; [done|]); done].
  destruct (Z.ltb_spec r 128) as [Hlt|Hge]; [|by apply no_open_high; [apply encode_rune_high|]].
  assert (is_byte r) as Hb by (unfold is_byte; lia).
  rewrite <- (code_chr r Hb), encode_rune_ascii by (rewrite code_chr by done; lia). cbn [app no_open].
  rewrite code_chr by done. by rewrite !(proj2 (Z.eqb_neq _ _)) by lia.
Qed.
Lemma decode_rune_nonneg l r w : decode_rune l = (r, w) → 0 ≤ r.
Proof.
  assert (0 ≤ RuneError) as He by done. destruct l as [|a l]; [cbn; by intros [= <- _]|].
  pose proof (code_range a) as Ha. unfold decode_rune. destruct (code a <? 128); [intros [= <- _]; lia|].
  destruct (in_range 194 223 a) eqn:E1; [|destruct (in_range 224 239 a) eqn:E2;
    [|destruct (in_range 240 244 a) eqn:E3; [|by intros [= <- _]]]];
    repeat case_match; intros [= <- _]; try done; unfold in_range in *; unfold low6;
    Z.to_euclidean_division_equations; lia.
Qed.
Lemma no_open_quote fuel l : no_open (quote_loop fuel l) = true.
Proof.
  revert l. induction fuel as [|fuel IH]; intros [|a l]; [done..|]. cbn [quote_loop].
  destruct (decode_rune (a :: l)) as [r w] eqn:E. case_match; [done|].
  apply no_open_escape; [by eapply decode_rune_nonneg|apply IH].
Qed.

(** What follows the literal that such a text closes too early is never JSON. *)
Lemma skip_ws_no_open t rest :
  no_open t = true →
  skip_ws (t ++ dquote :: rest) = dquote :: rest ∨
  ∃ c t', skip_ws (t ++ dquote :: rest) = c :: t' ++ dquote :: rest ∧ code c ≠ 34 ∧
    (code c = 92 ∨ no_open t' = true).
Proof.
  induction t as [|c t IH]; [by left|]. cbn [no_open app skip_ws]. intros Hn.
  destruct (Z.eqb_spec (code c) 34) as [|H34]; [done|].
  destruct (json_ws c) eqn:Ew.
  - destruct (Z.eqb_spec (code c) 92) as [H92|]; [|by apply IH]. unfold json_ws in Ew. lia.
  - right. exists c, t. split_and!; [done|done|]. destruct (Z.eqb_spec (code c) 92); auto.
Qed.

Lemma parse_members_no_open d fuel t :
  no_open t = true → parse_members (parse_value d) fuel (t ++ [dquote; dquote; "}"%char]) = None.
Proof.
  intros Ht. destruct fuel as [|fuel]; [done|]. cbn [parse_members].
  destruct (skip_ws_no_open t [dquote; "}"%char] Ht) as [-> |(c & t' & -> & Hc & _)]; [done|].
  by rewrite (proj2 (Z.eqb_neq _ _) Hc).
Qed.

Lemma parse_members_after_str d fuel tk bk tv bv r :
  units tk bk → units tv bv →
  ∃ m, parse_members (parse_value d) (S fuel) (str_member tk tv ++ r) =
    match skip_ws r with
    | a :: l5 =>
        if code a =? 44 then '(ms, r) ← parse_members (parse_value d) fuel l5; Some (m :: ms, r)
        else if code a =? 125 then Some ([m], l5) else None
    | [] => None
    end.
Proof.
  intros Hk Hv. eexists.
  assert (str_member tk tv ++ r = dquote :: tk ++ dquote :: ":"%char :: dquote :: tv ++ dquote :: r) as ->.
  { unfold str_member. cbn [app]. rewrite <- !app_assoc. cbn [app]. do 5 f_equal. by rewrite <- app_assoc. }
  cbn [parse_members skip_ws].
  change (json_ws dquote) with false. cbv iota. change (code dquote =? 34) with true. cbv iota.
  rewrite (parse_str_units _ _ _ Hk). cbn [mbind option_bind skip_ws].
  change (json_ws ":") with false. cbv iota. change (code ":" =? 58) with true. cbv iota zeta.
  cbn [skip_ws]. change (json_ws dquote) with false. cbv iota.
  rewrite (parse_value_str _ _ _ _ (units_lit _ _ Hv)). cbn [mbind option_bind]. reflexivity.
Qed.

Lemma json_parse_no_open tk bk tv bv t :
  units tk bk → units tv bv → no_open t = true →
  json_parse (of_l ("{"%char :: str_member tk tv ++ t ++ [dquote; dquote; "}"%char])) = None.
Proof.
  intros Hk Hv Ht. unfold json_parse. rewrite to_of_l, maxNestingDepth_S.
  cbn [skip_ws]. change (json_ws "{") with false. cbv iota.
  erewrite parse_value_obj; [|reflexivity|done].
  set (l := str_member tk tv ++ t ++ [dquote; dquote; "}"%char]).
  destruct (length l) as [|n] eqn:El; [done|]. clear El. subst l.
  destruct (parse_members_after_str (N.to_nat 9999) n tk bk tv bv (t ++ [dquote; dquote; "}"%char]) Hk Hv) as [m ->].
  destruct (skip_ws_no_open t [dquote; "}"%char] Ht) as [-> |(c & t' & -> & Hc & Ht')]; [done|].
  destruct (Z.eqb_spec (code c) 44) as [H44|_].
  { rewrite parse_members_no_open; [done|]. destruct Ht' as [?|?]; [lia|done]. }
  destruct (Z.eqb_spec (code c) 125) as [H125|_]; [|done]. cbn [mbind option_bind].
  destruct Ht' as [?|Ht']; [lia|].
  by destruct (skip_ws_no_open t' [dquote; "}"%char] Ht') as [-> |(c' & t'' & -> & _)].
Qed.

(** C39: [WriteJSON] when the value does not encode. The status that was
    asked for is already sent, so a failure is answered with it (200 on the data
    and action endpoints). The body is built by hand around the error's text: it
    is a JSON object with that text when the text needs no escapes, but for the
    encoder's error about an invalid [json.Number], which quotes the literal, the
    body is not JSON. *)
Theorem encode_failure_answer status err :
  sr_status (WriteJSON status (PValue (inl err))) = status ∧
  (Forall plain (to_l (error_text err)) →
   ∃ text, json_parse (sr_body (WriteJSON status (PValue (inl err)))) =
     Some (JObj [("error", (text, JStr ("encode failed: " +:+ error_text err)))])) ∧
  (∀ n, any_doc (DynNumber n) = inl err →
   json_parse (sr_body (WriteJSON status (PValue (inl err)))) = None).
Proof.
  split; [done|]. assert (units (to_l "error") (to_l "error")) as Hk by (by apply units_literal).
  assert (sr_body (WriteJSON status (PValue (inl err))) =
    of_l ("{"%char :: str_member (to_l "error") (to_l "encode failed: " ++ to_l (error_text err)) ++ ["}"%char])) as ->.
  { cbn [WriteJSON sr_body]. apply to_l_inj. rewrite !to_l_app, !to_of_l. unfold str_member, lit. cbn [app].
    cbn. by rewrite <- app_assoc. }
  split.
  - intros Hp. eexists. rewrite (json_parse_str_obj _ _ _ _ Hk (units_app _ _ _ _
      (units_literal "encode failed: " eq_refl) (units_plain _ Hp))).
    rewrite <- to_l_app, !of_to_l. reflexivity.
  - intros n Hn. set (q := quote_loop (String.length n) (to_l n)).
    assert (to_l (error_text err) = to_l "json: invalid number literal " ++ dquote :: q ++ [dquote]) as ->.
    { cbn [any_doc] in Hn. do 2 (case_decide; [done|]).
      assert (err = Errorf ("json: invalid number literal " +:+ Quote n)) as -> by (by injection Hn).
      cbn [error_text]. by rewrite to_l_app; unfold Quote; rewrite to_of_l. }
    rewrite <- (json_parse_no_open _ _ (to_l "encode failed: json: invalid number literal ") _ q Hk
      (units_literal "encode failed: json: invalid number literal " eq_refl) (no_open_quote _ _)). do 2 f_equal. unfold str_member. cbn.
    rewrite <- !app_assoc. reflexivity.
Qed.

End failure.

(** *** Routing *)

Definition no_slash (s : string) : Prop := cut_slash s = (s, EmptyString).

(** A path segment as a client sends it: not empty, no slash, not a dot
    segment, and not the escape of a slash alone. *)
Definition segment_ok (raw : string) : Prop :=
  raw ≠ EmptyString ∧ raw ≠ "." ∧ raw ≠ ".." ∧ no_slash raw ∧ pathUnescape raw ≠ "/".
#[global] Instance segment_ok_dec raw : Decision (segment_ok raw).
Proof. unfold segment_ok, no_slash. apply _. Defined.

Lemma no_slash_cons a s : no_slash (String a s) → a ≠ "/"%char ∧ no_slash s.
Proof.
  unfold no_slash. cbn. case_decide; [done|]. destruct (cut_slash s) as [seg rest]. by intros [= -> ->].
Qed.
Lemma Split1_no_slash s : no_slash s → Split1 "/" s = [s].
Proof.
  induction s as [|a s IH]; [done|]. intros [Ha Hs]%no_slash_cons. cbn. by rewrite decide_False, IH.
Qed.
Lemma Split1_segment s r : no_slash s → Split1 "/" (s +:+ String "/" r) = s :: Split1 "/" r.
Proof.
  induction s as [|a s IH]; [intros _; cbn; by rewrite decide_True|]. intros [Ha Hs]%no_slash_cons.
  cbn [String.append Split1]. by rewrite decide_False, IH.
Qed.
Lemma last_no_slash s : no_slash s → last (to_l s) ≠ Some "/"%char.
Proof.
  induction s as [|a s IH]; [done|]. intros [Ha Hs]%no_slash_cons. cbn [to_l]. rewrite last_cons.
  destruct (last (to_l s)) eqn:E; [by apply IH|congruence].
Qed.

(** The rest of a path after a segment. *)
Definition path_rest (rest : string) : Prop := rest = EmptyString ∨ ∃ r, rest = String "/" r.

Lemma cut_slash_app seg rest : no_slash seg → path_rest rest → cut_slash (seg +:+ rest) = (seg, rest).
Proof.
  intros Hs Hr. induction seg as [|a seg IH].
  - destruct Hr as [->|[r ->]]; done.
  - apply no_slash_cons in Hs as [Ha Hs]. cbn. by rewrite decide_False, IH.
Qed.
Lemma firstSegment_app seg rest :
  no_slash seg → path_rest rest → seg +:+ rest ≠ EmptyString →
  firstSegment (String "/" (seg +:+ rest)) = (pathUnescape seg, rest).
Proof.
  intros Hs Hr Hne. unfold firstSegment. rewrite decide_False by (intros [= E]; done).
  by rewrite cut_slash_app.
Qed.

Lemma append_empty s : s +:+ EmptyString = s.
Proof. induction s as [|a s IH]; [done|]. cbn. by rewrite IH. Qed.

(** The matches of a path under a directory of the surface, with what follows
    its third segment. *)
Section leaf.
Context (d raw rest : string).
Context (Hd : d = "data" ∨ d = "action") (Hraw : segment_ok raw) (Hrest : path_rest rest).

Lemma matchPath_dir d' pat :
  matchPath (Literal "surface" :: Literal d' :: pat) ("/surface/" +:+ d +:+ "/" +:+ raw +:+ rest) =
  if decide (d = d') then matchPath pat (String "/" (raw +:+ rest)) else None.
Proof.
  cbn [matchPath]. rewrite decide_False by done.
  change ("/surface/" +:+ d +:+ "/" +:+ raw +:+ rest)
    with (String "/" ("surface" +:+ String "/" (d +:+ String "/" (raw +:+ rest)))).
  rewrite firstSegment_app by (done || right; eauto). rewrite decide_True by done. rewrite decide_False by done.
  assert (no_slash d ∧ pathUnescape d = d) as [Hs Hu] by (destruct Hd as [-> | ->]; done).
  rewrite firstSegment_app by (done || (right; eauto) || by destruct Hd as [-> | ->]). by rewrite Hu.
Qed.

Lemma matchPath_wildcard :
  matchPath [Wildcard] (String "/" (raw +:+ rest)) =
  if decide (rest = EmptyString) then Some [pathUnescape raw] else None.
Proof.
  destruct Hraw as (Hr & _ & _ & Hs & Hslash). cbn [matchPath]. rewrite decide_False by done.
  rewrite firstSegment_app by (done || by destruct raw). rewrite decide_False by done. by case_decide.
Qed.
End leaf.

Lemma cleanPath_leaf d raw :
  d = "data" ∨ d = "action" → segment_ok raw →
  cleanPath ("/surface/" +:+ d +:+ "/" +:+ raw) = "/surface/" +:+ d +:+ "/" +:+ raw.
Proof.
  intros Hd (Hne & Hdot & Hdots & Hs & _). unfold cleanPath.
  assert (HasPrefix ("/surface/" +:+ d +:+ "/" +:+ raw) "/" = true) as -> by (by apply HasPrefix_slash; eexists).
  assert (ends_slash ("/surface/" +:+ d +:+ "/" +:+ raw) = false) as ->.
  { unfold ends_slash. apply bool_decide_eq_false. intros Hl. apply (last_no_slash raw Hs). rewrite <- Hl.
    destruct Hd as [-> | ->]; (destruct raw as [|a raw']; [done|]); cbn [String.append to_l]; by rewrite !last_cons_cons. }
  cbn [andb]. unfold path_Clean.
  assert (Split1 "/" ("/surface/" +:+ d +:+ "/" +:+ raw) = [EmptyString; "surface"; d; raw]) as ->.
  { assert (no_slash d) as Hnd by (by destruct Hd as [-> | ->]).
    change ("/surface/" +:+ d +:+ "/" +:+ raw)
      with (EmptyString +:+ String "/" ("surface" +:+ String "/" (d +:+ String "/" raw))).
    by rewrite !Split1_segment, Split1_no_slash. }
  destruct Hd as [-> | ->]; cbn [clean_segments];
    repeat first [rewrite decide_True by (left; done) | rewrite decide_False by naive_solver]; done.
Qed.

(** The endpoint of a directory, its method, and the methods it allows. *)
Definition leaf_route (d raw meth : string) : route :=
  if decide (d = "data") then
    if decide (meth = "GET" ∨ meth = "HEAD") then Serve EData [pathUnescape raw] else NotAllowed "GET, HEAD"
  else if decide (meth = "POST") then Serve EAction [pathUnescape raw] else NotAllowed "POST".

Lemma method_matches_GET meth : method_matches "GET" meth = bool_decide (meth = "GET" ∨ meth = "HEAD").
Proof.
  unfold method_matches. destruct (decide (meth = "GET")) as [->|]; [done|].
  destruct (decide (meth = "HEAD")) as [->|]; [done|].
  rewrite !bool_decide_false; [done|intros [?|?]; done|intros [? _]; done|by intros <-].
Qed.
Lemma method_matches_POST meth : method_matches "POST" meth = bool_decide (meth = "POST").
Proof.
  unfold method_matches. rewrite (bool_decide_false (_ ∧ _)) by (intros [_ ?]; done). rewrite orb_false_r.
  by apply bool_decide_ext.
Qed.

Lemma find_route_leaf d raw meth :
  d = "data" ∨ d = "action" → segment_ok raw →
  find_route meth ("/surface/" +:+ d +:+ "/" +:+ raw) = leaf_route d raw meth.
Proof.
  intros Hd Hraw. unfold find_route. rewrite decide_False by done. cbv zeta.
  rewrite cleanPath_leaf by done. replace (if decide (meth = "CONNECT") then _ else _)
    with ("/surface/" +:+ d +:+ "/" +:+ raw) by (by case_decide).
  rewrite decide_False by naive_solver.
  assert (∀ rest d', path_rest rest → matchPath [Literal "surface"; Literal d'; Wildcard]
    ("/surface/" +:+ d +:+ "/" +:+ raw +:+ rest) =
    if decide (d = d' ∧ rest = EmptyString) then Some [pathUnescape raw] else None) as Hleaf.
  { intros rest d' Hrest. rewrite matchPath_dir, matchPath_wildcard by done. repeat case_decide; naive_solver. }
  assert (∀ rest, matchPath [Literal "surface"; Literal "manifest"]
    ("/surface/" +:+ d +:+ "/" +:+ raw +:+ rest) = None) as Hman.
  { intros rest. rewrite matchPath_dir by done. by destruct Hd as [-> | ->]. }
  assert (raw = raw +:+ EmptyString) as Hnil by (by rewrite append_empty).
  assert (∀ d', matchPath [Literal "surface"; Literal d'; Wildcard] ("/surface/" +:+ d +:+ "/" +:+ raw) =
    if decide (d = d') then Some [pathUnescape raw] else None) as Hleaf0.
  { intros d'. rewrite Hnil at 1. rewrite Hleaf by (by left). repeat case_decide; naive_solver. }
  assert (matchPath [Literal "surface"; Literal "manifest"] ("/surface/" +:+ d +:+ "/" +:+ raw) = None) as Hman0.
  { rewrite Hnil. apply Hman. }
  unfold patterns, leaf_route. cbn [find_pattern]. rewrite Hman0, !Hleaf0.
  assert (matchingMethods ("/surface/" +:+ d +:+ "/" +:+ raw) =
    if decide (d = "data") then ["GET"; "HEAD"] else ["POST"]) as ->.
  { unfold matchingMethods, patterns. cbv zeta. cbn [omap list_omap fst snd].
    rewrite Hman0, !Hleaf0. rewrite !str_app_assoc. rewrite Hman, !Hleaf by (right; eauto).
    destruct Hd as [-> | ->], (ends_slash _); done. }
  rewrite !method_matches_GET, method_matches_POST.
  destruct Hd as [-> | ->].
  - destruct (decide (meth = "GET" ∨ meth = "HEAD")) as [Hm|Hm];
      [rewrite (bool_decide_true _ Hm)|rewrite (bool_decide_false _ Hm)]; reflexivity.
  - destruct (decide (meth = "POST")) as [Hm|Hm];
      [rewrite (bool_decide_true _ Hm)|rewrite (bool_decide_false _ Hm)]; reflexivity.
Qed.

(** *** No empty identifiers *)

Lemma cut_slash_spec s : s = (cut_slash s).1 +:+ (cut_slash s).2 ∧ path_rest (cut_slash s).2.
Proof.
  induction s as [|a s [IH1 IH2]]; [by split; [|left]|]. cbn. case_decide as Ha.
  - subst. split; [done|]. right. eauto.
  - destruct (cut_slash s) as [seg rest]. cbn in *. by rewrite IH1 at 1.
Qed.
Lemma firstSegment_rest path : path_rest (firstSegment path).2.
Proof.
  unfold firstSegment. case_decide; [by left|]. destruct path as [|a p]; [by left|].
  pose proof (cut_slash_spec p) as [_ Hr]. by destruct (cut_slash p).
Qed.
Lemma pathUnescape_ne s : s ≠ EmptyString → pathUnescape s ≠ EmptyString.
Proof.
  intros Hs. unfold pathUnescape. destruct (percent_decode (to_l s)) as [l|] eqn:E; [|done]. cbn. intros Hl.
  destruct s as [|a s]; [done|]. cbn [to_l percent_decode] in E.
  destruct l; [|done]. destruct (decide (a = "%"%char)); [|by destruct (percent_decode (to_l s))].
  destruct (to_l s) as [|h [|g l2]]; [done..|].
  destruct (hex_val_any h), (hex_val_any g); try done. cbn in E. by destruct (percent_decode l2).
Qed.
Lemma wildcard_value path vs :
  path_rest path → matchPath [Wildcard] path = Some vs → ∃ v, vs = [v] ∧ v ≠ EmptyString.
Proof.
  cbn [matchPath]. intros [->|[p ->]]; [done|]. rewrite decide_False by done. unfold firstSegment.
  case_decide as Hp; [done|]. pose proof (cut_slash_spec p) as [Hcut _]. destruct (cut_slash p) as [seg rest].
  cbn [fst snd] in Hcut. case_decide; [done|]. case_decide as Hr; [|done]. intros [= <-]. eexists. split; [done|].
  apply pathUnescape_ne. intros ->. subst. done.
Qed.
Lemma matchPath_ids d path vs :
  matchPath [Literal "surface"; Literal d; Wildcard] path = Some vs → ∃ v, vs = [v] ∧ v ≠ EmptyString.
Proof.
  intros H. cbn [matchPath] in H.
  destruct (decide (path = EmptyString)); [done|]. destruct (firstSegment path) as [s1 r1]. case_decide; [|done].
  destruct (decide (r1 = EmptyString)); [done|]. pose proof (firstSegment_rest r1) as Hr.
  destruct (firstSegment r1) as [s2 r2]. case_decide; [|done]. by apply wildcard_value in H.
Qed.
Lemma find_pattern_in meth path ps e vs :
  find_pattern meth path ps = Some (e, vs) → ∃ m pat, (m, pat, e) ∈ ps ∧ matchPath pat path = Some vs.
Proof.
  induction ps as [|[[m pat] e'] ps IH]; [done|]. cbn [find_pattern]. setoid_rewrite elem_of_cons.
  destruct (matchPath pat path) as [vs'|] eqn:E; [destruct (method_matches m meth)|]; [|naive_solver..].
  intros [= <- <-]. eauto.
Qed.
Lemma matchPath_literals a b path vs : matchPath [Literal a; Literal b] path = Some vs → vs = [].
Proof.
  cbn [matchPath]. case_decide; [done|]. destruct (firstSegment path) as [s r]. case_decide; [|done].
  case_decide; [done|]. destruct (firstSegment r) as [s2 r2]. case_decide; [|done]. case_decide; [|done].
  by intros [= <-].
Qed.
Lemma find_route_ids meth path e vs :
  find_route meth path = Serve e vs →
  (e = EManifest ∧ vs = []) ∨ (e ≠ EManifest ∧ ∃ v, vs = [v] ∧ v ≠ EmptyString).
Proof.
  unfold find_route. case_decide; [done|]. cbv zeta. case_decide; [done|].
  destruct (find_pattern _ _ _) as [[e' vs']|] eqn:E; [|by destruct (matchingMethods _)]. intros [= <- <-].
  apply find_pattern_in in E as (m & pat & Hin & E). unfold patterns in Hin.
  rewrite !elem_of_cons, elem_of_nil in Hin. destruct Hin as [[= -> -> ->]|[[= -> -> ->]|[[= -> -> ->]|[]]]].
  - left. split; [done|]. by apply matchPath_literals in E.
  - right. split; [done|]. by apply matchPath_ids in E.
  - right. split; [done|]. by apply matchPath_ids in E.
Qed.

(** The whole answer of the mux to a request under one of the directories. *)
Section mounted.
Context `{UnicodeTables} {W : Type} (m : Manifest) (h : DataHandler W).


(** What the reader finds of a page. *)
Definition page_read (p : Page) (j : json) : Prop :=
  jget "id" j = Some (JStr (read_str (page_ID p))) ∧
  jget "path" j = Some (JStr (read_str (Path p))) ∧
  jget "title" j = Some (JStr (read_str (page_Title p))) ∧
  ∃ jv, jget "view" j = Some jv ∧ jget "kind" jv = Some (JStr (read_str (Kind (page_View p)))).

(** The answer of the manifest endpoint. *)
Lemma served_manifest r w :
  (rq_Method r = "GET" ∨ rq_Method r = "HEAD") → rq_EscapedPath r = "/surface/manifest" →
  RegisterHandlers m h r w =
    (Answered (SResp 200 "application/json; charset=utf-8" (sr_body (WriteJSON 200 (PValue (encode_manifest m))))), w).
Proof.
  intros Hm Hp. unfold RegisterHandlers. rewrite Hp.
  assert (find_route (rq_Method r) "/surface/manifest" = Serve EManifest []) as ->.
  { destruct Hm as [-> | ->]; vm_compute; reflexivity. }
  done.
Qed.

(** C11: the way of a manifest from its YAML to the core. When the
    loader accepted the manifest, [GET /surface/manifest] is answered with 200. If
    one of the dynamic values of the manifest is one that JSON does not have (NaN,
    an infinity, a map with keys that are not strings, a time out of range), the
    body is the hand-made object around the text of the encoder's error. In all
    other cases the manifest encodes to a document [d], and unless [d] is nested
    deeper than the reader allows, the body is JSON: it reads as the tree of [d],
    with the identity, version and display texts of the manifest, its schema
    version, and one object for every page, in order, with its identifier, path,
    title and view kind. Texts are read back exactly but for invalid UTF-8, which
    is replaced ([read_str]). *)
Theorem served_manifest_roundtrip yaml_Unmarshal raw r w :
  LoadManifestFromBytes yaml_Unmarshal raw = inr m →
  (rq_Method r = "GET" ∨ rq_Method r = "HEAD") → rq_EscapedPath r = "/surface/manifest" →
  ∃ body,
    RegisterHandlers m h r w = (Answered (SResp 200 "application/json; charset=utf-8" body), w) ∧
    (Exists unencodable (manifest_values m) →
     ∃ err, manifest_doc m = inl err ∧
       to_l body = "{"%char :: lit (to_l "error") ++ ":"%char ::
                   dquote :: to_l ("encode failed: " +:+ error_text err) ++ [dquote; "}"%char]) ∧
    (¬ Exists unencodable (manifest_values m) →
     ∃ d, manifest_doc m = inr d ∧
       ((depth d ≤ maxNestingDepth)%nat →
        ∃ j js,
          json_parse body = Some j ∧ j = tree enc_ascii_plain d ∧
          jget "surface" j = Some (JStr (read_str (Surface_ m))) ∧
          jget "surface_version" j = Some (JStr (read_str (SurfaceVersion m))) ∧
          jget "schema_version" j = Some (JNum (dec (SchemaVersion m))) ∧
          jget "display_name" j = Some (JStr (read_str (DisplayName m))) ∧
          jget "icon" j = Some (JStr (read_str (Icon m))) ∧
          jget "pages" j = Some (JArr js) ∧ js ≠ [] ∧ Forall2 page_read (Pages m) js)).
Proof.
  intros Hload Hm Hp. eexists. split; [by apply served_manifest|]. rewrite <- manifest_fails. unfold encode_manifest.
  destruct (manifest_doc m) as [err|d] eqn:Hd.
  - split; [|by intros []; eexists]. intros _. exists err. split; [done|]. cbn. by rewrite !to_l_app.
  - split; [by intros [e [=]]|]. intros _. exists d. split; [done|]. intros Hdepth.
    assert (Validate m = None) as Hv.
    { unfold LoadManifestFromBytes in Hload. destruct (yaml_Unmarshal raw) as [e|m']; [done|].
      destruct (Validate m') eqn:E; [done|]. by simplify_eq. }
    apply Validate_pages in Hv as (ps & Hps & Hne).
    destruct (manifest_members enc_ascii_plain m d ps Hd Hps) as (H1 & H2 & H3 & H4 & H5 & ds & H6 & H7).
    exists (tree enc_ascii_plain d), (tree enc_ascii_plain <$> ds). split_and!; try done.
    + change (sr_body _) with (of_l (print enc_ascii_plain d) +:+ str1 newline).
      replace (of_l (print enc_ascii_plain d) +:+ str1 newline) with (of_l (print enc_ascii_plain d ++ [newline]))
        by (apply to_l_inj; by rewrite to_l_app, !to_of_l).
      apply parse_printed; [apply enc_ascii_plain_escape|by eapply manifest_nums|done].
    + intros Hds%fmap_nil_inv. subst. apply Forall2_length in H7. by destruct ps.
    + unfold Pages. rewrite Hps. cbn. apply Forall2_fmap_r. eapply Forall2_impl; [exact H7|].
      intros p dp Hdp. by apply page_members.
Qed.
End mounted.

(** ** Witnesses *)

Section examples.
#[local] Existing Instance ascii_tables.

Definition example_view : View :=
  MkView "form" EmptyString None [] [] [] None
    [MkDrawer "d" "/x" (MkView "detail" EmptyString None [] [] [] None []
       [{| section_Title := "T"; section_Fields := None |}] [] EmptyString EmptyString [] EmptyString EmptyString
       EmptyString EmptyString None [])] [] [] "/submit" "POST"
    [{| ff_Field := "n"; ff_Label := "<N>"; ff_Kind := "number"; Required := true; ff_Options := [];
        Default := DynInt 3 |}]
    EmptyString EmptyString EmptyString EmptyString None [("b", DynBool true); ("a", DynSlice [DynNil])].
Definition example_manifest : Manifest :=
  {| Surface_ := "s"; SurfaceVersion := "1.0.0"; SchemaVersion := 1; DisplayName := "S"; Icon := EmptyString;
     Description := EmptyString; Permissions := [];
     Pages_ := Some [{| page_ID := "home"; Path := "/"; page_Title := "Home"; page_Requires := [];
                        page_View := example_view; EmptyState := None |}];
     Widgets := [] |}.
Definition example_handler : DataHandler (list string) :=
  {| HandleData := λ q w, (inr PNil, ViewID q :: w); HandleAction := λ q w, (inl (Errorf "no"), ActionID q :: w) |}.
Definition example_request (meth path : string) : surface_request :=
  {| rq_Method := meth; rq_EscapedPath := path; rq_RawQuery := EmptyString; rq_Header := ∅; rq_Body := None |}.


(** The same with YAML's [.nan] among the extras of its view. *)
Definition example_nan : Manifest :=
  {| Surface_ := "s"; SurfaceVersion := "1.0.0"; SchemaVersion := 1; DisplayName := "S"; Icon := EmptyString;
     Description := EmptyString; Permissions := [];
     Pages_ := Some [{| page_ID := "home"; Path := "/"; page_Title := "Home"; page_Requires := [];
                        page_View := MkView "detail" EmptyString None [] [] [] None [] [] [] EmptyString EmptyString []
                          EmptyString EmptyString EmptyString EmptyString None [("x", DynNaN)]; EmptyState := None |}];
     Widgets := [] |}.

Lemma example_encodes : ¬ Exists unencodable (manifest_values example_manifest).
Proof. rewrite <- manifest_fails. intros [e He]. vm_compute in He. discriminate He. Qed.
Lemma example_nan_fails : Exists unencodable (manifest_values example_nan).
Proof. apply manifest_fails. eexists. vm_compute. reflexivity. Qed.

Lemma served_manifest_roundtrip_witness :
  (∃ body j, (RegisterHandlers example_manifest example_handler (example_request "GET" "/surface/manifest") []).1 =
      Answered (SResp 200 "application/json; charset=utf-8" body) ∧ json_parse body = Some j) ∧
  (∃ body err, (RegisterHandlers example_nan example_handler (example_request "GET" "/surface/manifest") []).1 =
      Answered (SResp 200 "application/json; charset=utf-8" body) ∧ manifest_doc example_nan = inl err).
Proof.
  split.
  - destruct (served_manifest_roundtrip example_manifest example_handler (λ _, inr example_manifest) EmptyString
      (example_request "GET" "/surface/manifest") []) as (body & Hr & _ & Hok).
    + vm_compute. reflexivity.
    + left. reflexivity.
    + reflexivity.
    + destruct (Hok example_encodes) as (d & Hd & Hread).
      assert (depth d <= 10)%nat as Hdep by (vm_compute in Hd; injection Hd as <-; vm_compute; lia).
      destruct Hread as (j & js & Hj & _); [unfold maxNestingDepth; lia|].
      exists body, j. rewrite Hr. split; [reflexivity|exact Hj].
  - destruct (served_manifest_roundtrip example_nan example_handler (λ _, inr example_nan) EmptyString
      (example_request "GET" "/surface/manifest") []) as (body & Hr & Hbad & _).
    + vm_compute. reflexivity.
    + left. reflexivity.
    + reflexivity.
    + destruct (Hbad example_nan_fails) as (err & He & _). exists body, err. rewrite Hr. split; [reflexivity|exact He].
Defined.

Lemma encode_failure_answer_witness :
  json_parse (sr_body (WriteJSON 200 (PValue (inl (Errorf "json: unsupported value: NaN"))))) ≠ None ∧
  json_parse (sr_body (WriteJSON 200 (PValue (inl (Errorf ("json: invalid number literal " +:+ Quote "1x")))))) = None.
Proof.
  split.
  - destruct (proj1 (proj2 (encode_failure_answer 200 (Errorf "json: unsupported value: NaN")))) as [text ->].
    + apply (bool_decide_unpack _). vm_compute. exact I.
    + discriminate.
  - apply (proj2 (proj2 (encode_failure_answer 200 _)) "1x"). reflexivity.
Defined.
End examples.
