(* ===== verification/Mtls.v ===== *)
(** * Client certificates (package [mtls])

    Models src/mtls/mtls.go. The environment, the file system and the PKCS#12
    decoder are parameters. *)
From Stdlib Require Import Ascii ZArith.
From stdpp Require Import prelude gmap strings.
From S2P Require Import Prelude GoStrings GoText GoFloat Json JsonText Base64.

Local Open Scope Z_scope.

(** [Source]; other integers are possible values of the type. *)
Definition SourceDisabled : Z := 0.
Definition SourceFile : Z := 1.
Definition SourceBase64 : Z := 2.

Record Config := {
  Source : Z;
  cfg_Path : string;
  cfg_Base64 : string;
  cfg_Password : string;
}.

(** A private key: RSA, or another type with its name. *)
Inductive private_key :=
| RSAKey (key : string)
| OtherKey (type_name : string).

(** The [*tls.Config] that the package builds: one certificate with its key, and
    an empty pool of roots. *)
Record tls_config := {
  Certificate : list string;
  PrivateKey : string;
  Leaf : string;
  RootCAs : list string;
}.

Section load.
Context `{UnicodeTables} (getenv : string → string) (ReadFile : string → result string)
  (pkcs12_Decode : string → string → result (private_key * string))
  (base64_error : string → error).

Definition loadFromP12Bytes (raw password : string) : result (option tls_config) :=
  if decide (raw = EmptyString) then inl (Errorf "mtls: empty P12 payload")
  else match pkcs12_Decode raw password with
  | inl err => inl (Wrapf "mtls: pkcs12 decode: " err EmptyString)
  | inr (OtherKey ty, _) =>
      inl (Errorf ("mtls: P12 contained unsupported key type " +:+ ty +:+ " (want *rsa.PrivateKey)"))
  | inr (RSAKey key, cert) =>
      inr (Some {| Certificate := [cert]; PrivateKey := key; Leaf := cert; RootCAs := [] |})
  end.

(** The nil configuration is [None]. *)
Definition Load (cfg : Config) : result (option tls_config) :=
  if Source cfg =? SourceDisabled then inr None
  else if Source cfg =? SourceFile then
    match ReadFile (cfg_Path cfg) with
    | inl err => inl (Wrapf ("mtls: read " +:+ Quote (cfg_Path cfg) +:+ ": ") err EmptyString)
    | inr raw => loadFromP12Bytes raw (cfg_Password cfg)
    end
  else if Source cfg =? SourceBase64 then
    match b64_decode (to_l (cfg_Base64 cfg)) with
    | None => inl (Wrapf "mtls: base64 decode: " (base64_error (cfg_Base64 cfg)) EmptyString)
    | Some raw => loadFromP12Bytes (of_l raw) (cfg_Password cfg)
    end
  else inl (Errorf ("mtls: unknown Source value " +:+ dec (Source cfg))).

Definition LoadFromEnv (prefix : string) : result (option tls_config) :=
  let enabled := getenv (prefix +:+ "_MTLS_ENABLED") in
  if decide (enabled ∈ [EmptyString; "false"; "0"; "False"; "FALSE"])
  then Load {| Source := SourceDisabled; cfg_Path := EmptyString; cfg_Base64 := EmptyString;
               cfg_Password := EmptyString |}
  else
    let path := getenv (prefix +:+ "_CERTIFICATE") in
    let b64 := getenv (prefix +:+ "_CERTIFICATE_BASE64") in
    let pwd := getenv (prefix +:+ "_CERTIFICATE_PASSWORD") in
    if decide (path ≠ EmptyString)
    then Load {| Source := SourceFile; cfg_Path := path; cfg_Base64 := EmptyString; cfg_Password := pwd |}
    else if decide (b64 ≠ EmptyString)
    then Load {| Source := SourceBase64; cfg_Path := EmptyString; cfg_Base64 := b64; cfg_Password := pwd |}
    else inl (Errorf ("mtls: " +:+ prefix +:+ "_MTLS_ENABLED=true but neither " +:+ prefix +:+
                      "_CERTIFICATE nor " +:+ prefix +:+ "_CERTIFICATE_BASE64 is set")).

(** The bytes that the environment selects. *)
Definition selected_payload (prefix : string) : option string :=
  let path := getenv (prefix +:+ "_CERTIFICATE") in
  let b64 := getenv (prefix +:+ "_CERTIFICATE_BASE64") in
  if decide (path ≠ EmptyString)
  then match ReadFile path with inr raw => Some raw | inl _ => None end
  else if decide (b64 = EmptyString) then None
  else of_l <$> b64_decode (to_l b64).

Lemma p12_iff raw pwd cfg :
  loadFromP12Bytes raw pwd = inr cfg ↔
  ∃ key cert, raw ≠ EmptyString ∧ pkcs12_Decode raw pwd = inr (RSAKey key, cert) ∧
    cfg = Some {| Certificate := [cert]; PrivateKey := key; Leaf := cert; RootCAs := [] |}.
Proof.
  unfold loadFromP12Bytes. case_decide; [by split; [|intros (? & ? & ? & _)]|].
  destruct (pkcs12_Decode raw pwd) as [e|[[key|ty] cert]].
  - by split; [|intros (? & ? & _ & ? & _)].
  - split; [intros [= <-]; by exists key, cert|]. by intros (? & ? & _ & [= <- <-] & ->).
  - by split; [|intros (? & ? & _ & ? & _)].
Qed.

(** C31: from the environment, no certificate is used when mTLS is switched off;
    otherwise a configuration is returned exactly when the selected payload (the
    file, if one is named, and the base64 variable otherwise) is readable, not
    empty, and decodes under the password to an RSA key, and it holds that key
    and certificate. *)
Theorem mtls_from_env prefix cfg :
  let enabled := getenv (prefix +:+ "_MTLS_ENABLED") in
  LoadFromEnv prefix = inr cfg ↔
  if decide (enabled ∈ [EmptyString; "false"; "0"; "False"; "FALSE"]) then cfg = None
  else ∃ raw key cert, selected_payload prefix = Some raw ∧ raw ≠ EmptyString ∧
    pkcs12_Decode raw (getenv (prefix +:+ "_CERTIFICATE_PASSWORD")) = inr (RSAKey key, cert) ∧
    cfg = Some {| Certificate := [cert]; PrivateKey := key; Leaf := cert; RootCAs := [] |}.
Proof.
  intros enabled. unfold LoadFromEnv. cbv zeta. fold enabled.
  destruct (decide (enabled ∈ _)); [unfold Load; cbn; split; [by intros [= ->]|by intros ->]|].
  unfold selected_payload. cbv zeta. destruct (decide (getenv (prefix +:+ "_CERTIFICATE") ≠ EmptyString)).
  - unfold Load. cbn [Source cfg_Path cfg_Password]. change (SourceFile =? SourceDisabled) with false.
    change (SourceFile =? SourceFile) with true. cbv iota.
    destruct (ReadFile _) as [e|raw]; [by split; [|intros (? & ? & ? & ? & _)]|].
    rewrite p12_iff. split; [intros (key & cert & ?)|intros (? & key & cert & [= <-] & ?)]; eauto 10.
  - destruct (decide (getenv (prefix +:+ "_CERTIFICATE_BASE64") = EmptyString)) as [E|E].
    + rewrite decide_False by tauto. by split; [|intros (? & ? & ? & ? & _)].
    + rewrite decide_True by done. unfold Load. cbn [Source cfg_Base64 cfg_Password].
      change (SourceBase64 =? SourceDisabled) with false. change (SourceBase64 =? SourceFile) with false.
      change (SourceBase64 =? SourceBase64) with true. cbv iota.
      destruct (b64_decode _) as [raw|]; [|by split; [|intros (? & ? & ? & ? & _)]].
      rewrite p12_iff. cbn [fmap option_fmap option_map].
      split; [intros (key & cert & ?)|intros (? & key & cert & [= <-] & ?)]; eauto 10.
Qed.
End load.
